(* ===== verification/_CoqProject ===== *)
-Q . S2P
Prelude.v
RustStr.v
Paths.v
Auth.v
Disk.v
WarFS.v
DiskFormat.v
Persist.v
AuditLog.v
Session.v
FsCurrent.v
Firewall.v
Frames.v
Elf.v
Caps.v
Process.v
Exec.v
Vm.v
Loader.v
Syscalls.v
SyscallSpecs.v
SyscallExamples.v
PkgBundle.v
PkgIndex.v
Pkg.v
PkgUpdate.v
PkgSpecs.v
PkgUpdateSpecs.v
PkgRollback.v
PkgBootstrap.v
PkgExamples.v
RustParse.v
SerialLink.v
Float64.v
Circuit.v
CircuitOpt.v
Qec.v
Qft.v
Qasm.v
QasmSpecs.v
Http.v
StateVector.v
Simulator.v
SimulatorSpecs.v
Simon.v
KeyRing.v
