(* ===== verification/Prelude.v ===== *)
(** * WarOS: a verification library for the kernel

    WarOS is a hobby kernel written in Rust.  Its storage stack keeps a small
    file system in memory (WarFS) and mirrors it on a virtio disk; users log
    in, own files with permissions, and act through a session; a firewall
    filters packets; an audit log records what happened.  Programs are ELF
    files that run as processes in address spaces of their own and enter the
    kernel through system calls.  Signed packages install and update files,
    under a state machine that survives reboots.  Messages travel over a serial
    link, web pages over an HTTP client.  A crate of the same repository builds,
    optimises, writes, reads and simulates quantum circuits.  This library models
    these parts as Rocq functions and proves what makes them correct.

    ** How the parts interact

    - The shell and the system calls use the functions [*_current] of
      kernel/src/fs/mod.rs.  They resolve a path against the session
      (auth/session.rs), refuse paths in somebody else's home
      (auth/permissions.rs), call the operation of [WarFS] with the session's
      user and role, and log the change (security/audit).
    - [WarFS] (fs/mod.rs) is a sorted vector of entries.  After each change it
      calls [disk::maybe_sync_file_entry] or [disk::maybe_delete_path].
    - disk/persist.rs turns these calls into changes of the volume, whose
      format is that of disk/format.rs: a superblock, a table of 128 entries
      of one sector each, data blocks of 512 bytes.
    - disk/mod.rs puts a write-through sector cache (disk/cache.rs) in front of
      the device (disk/virtio_blk.rs).
    - auth/users.rs keeps the accounts, auth/passwords.rs their hashes.
    - security/firewall decides about packets; every decision is logged.
    - exec/loader.rs reads an executable from WarFS, parses it (exec/elf.rs),
      builds a page table for it from frames of memory/physical.rs, maps and
      fills the image and the stack, and enters a process into the process
      table (exec/mod.rs) and the run queues (exec/scheduler.rs).  A process
      has a descriptor table (exec/fd_table.rs), an address space
      (exec/address_space.rs) and a capability set (security/capabilities.rs)
      that it inherits from its parent.
    - exec/syscall.rs dispatches the system calls to exec/syscalls: file calls
      use the functions [*_current], memory calls the page tables and frames,
      process calls the process table and the loader.
    - pkg/mod.rs resolves the dependencies of a package (pkg/resolver.rs),
      fetches its bundle, verifies hash and signature (crates/waros-pkg) and
      writes its files through [WarFS] (pkg/installer.rs).  pkg/update.rs saves
      the files an update will touch, applies it and keeps a state file that
      the boot sequence reads and advances; each of these commands requires a
      capability.  pkg/bootstrap.rs has the packages of the first boot.
    - drivers/keyboard.rs: the interrupt handler puts scan codes into a ring
      without a lock; the input loop empties it, decodes, and buffers bytes.
    - net/serial.rs frames messages with a checksum; net/http.rs sends requests
      over TCP or TLS connections and follows redirects.
    - crates/waros-quantum: circuit.rs and circuit/extensions.rs build lists of
      instructions from the gates of gate.rs; optimizer rewrites them, qec
      appends error-correcting codes, qasm writes and reads them as text, and
      simulator runs them on state vectors; algorithms/simon.rs uses builder and
      simulator.

    ** Files, in dependency order

    - [Prelude]: results, the state-and-error monad with its notation, integers
      of a fixed width, little-endian encodings, generic list lemmas, tactics
      and hint databases.
    - [RustStr]: the string operations of Rust's standard library that the
      sources use, on UTF-8 bytes.
    - [Paths]: canonical paths (fs/mod.rs: [canonical_path],
      [canonicalize_warexec_path] and the functions on canonical paths).
    - [Auth]: file permissions, accounts, passwords and the encoding of the user
      database (auth/permissions.rs, auth/users.rs, auth/passwords.rs).
    - [Disk]: requests to the device, the sector cache, [struct Disk].  The
      device is the class [BlockDevice] with its laws [BlockDeviceLaws]; what
      the file system needs of a disk is the class [SectorStore] with
      [SectorStoreLaws], which [Disk] is shown to satisfy.
    - [WarFS]: [impl WarFS], one function per method; the disk layer is the
      class [Backend].
    - [DiskFormat]: disk/format.rs, on a [SectorStore].
    - [Persist]: disk/persist.rs and the public functions of disk/mod.rs; the
      instance of [Backend] that mirrors files on a disk.
    - [AuditLog]: security/audit.
    - [Session]: auth/session.rs and [protected_path_owner].
    - [FsCurrent]: the functions [*_current] of fs/mod.rs on the record
      [Kernel] of the state they lock.
    - [Firewall]: security/firewall.
    - [Frames]: the frame allocator (memory/physical.rs) and the boot memory map
      (memory/mod.rs).
    - [Elf]: exec/elf.rs.
    - [Caps]: the capability sets of security/capabilities.rs.
    - [Process]: descriptor tables, address spaces, W^X, processes, the process
      table and the scheduler (exec/fd_table.rs, exec/address_space.rs,
      security/memory_protection.rs, exec/process.rs, exec/mod.rs,
      exec/scheduler.rs, exec/context.rs).
    - [Exec]: tasks (task/mod.rs), the functions of exec/mod.rs on the whole
      state ([Machine]), and the capabilities of processes.
    - [Vm]: the processor's view of memory: [Vm] has the active page table
      ([CR3]), physical memory and the frame allocator.  The page tables of the
      x86_64 crate are the class [Paging] with the laws [PagingLaws]; the
      instance [FlatTables] runs the examples.
    - [Loader]: exec/loader.rs and security/aslr.rs; [System] is [Machine] and
      [Vm] together with the variables of exec/syscall.rs.
    - [Syscalls]: exec/syscall.rs and exec/syscalls, one function per call.
    - [SyscallSpecs]: the theorems on single calls.
    - [SyscallExamples]: a concrete process, to which the theorems are applied.
    - [PkgBundle]: crates/waros-pkg: bundles, signing, verification.  JSON
      encoding and the signature scheme are the classes [Json] and [MlDsa]
      with the laws [JsonOk] and [MlDsaOk].
    - [PkgIndex]: package index, errors and pkg/resolver.rs.
    - [Pkg]: pkg/mod.rs, pkg/installer.rs, pkg/registry.rs on [PkgWorld], the
      machine with the package manager and the tick counter.
    - [PkgUpdate]: pkg/update.rs.
    - [PkgSpecs]: capabilities and installation; [PkgUpdateSpecs]: the phases of
      an update as a labelled transition system that the commands follow;
      [PkgRollback]: what a rollback restores.
    - [PkgBootstrap]: pkg/bootstrap.rs and the first boot.
    - [PkgExamples]: a concrete repository, to which the theorems are applied.
    - [RustParse]: numbers in text ([parse], [from_str_radix], decimal output)
      and characters that print.
    - [SerialLink]: net/serial.rs; the port is a queue of bytes each way.
    - [Float64]: the type [f64] as the IEEE 754 numbers of [SpecFloat], exact to
      the last bit, with the operations, the parsing and the printing that the
      sources use.
    - [Circuit]: complex.rs, gate.rs, error.rs, circuit.rs and
      circuit/extensions.rs; sine and cosine are the class [Libm].
    - [CircuitOpt]: optimizer/mod.rs.  The class [Meaning] says what gates,
      conditions and measurements do to a state, and a theorem about circuits
      holds for every meaning with the stated identities.
    - [Qec]: qec/repetition.rs and qec/steane.rs, on basis states.
    - [Qft]: the Fourier transforms of circuit/extensions.rs.
    - [Qasm]: qasm/parser.rs and qasm/serializer.rs; [QasmSpecs]: the theorems.
    - [Http]: net/http.rs; connections are the class [Transport].
    - [StateVector]: simulator/statevector.rs.  The class [Machine] has the build
      profile and whether allocations succeed.
    - [Simulator]: simulator/mod.rs, simulator/trajectory.rs, noise.rs, result.rs.
      The class [Rng] is the generator of random numbers; [SimulatorSpecs]: the
      theorems.
    - [Simon]: algorithms/simon.rs.
    - [KeyRing]: drivers/keyboard.rs: the ring between the interrupt handler and
      the input loop, as two threads of atomic steps that interleave, and the
      buffer of decoded bytes.  [handle_scancode], which decodes with the
      pc-keyboard package, is a parameter of [process_pending_irq_events].

    ** State and effects

    A [Mutex] or [static] is a field of an explicit state; an operation is a
    function from state to result and state ([stm S E A]).  [Result] is the
    type [result]; a panic, where the code can reach one, is [Panicked] of
    [fault].  Integers are [Z] with saturation ([sat_add], [sat_sub]) and
    wrap-around ([wrap]) written where the code has them.  Readings of the tick
    counter, of the hardware random number generator and of other devices are
    arguments.  SHA3-256 is a parameter of which only the digest length is
    assumed; the padding bytes of [repr(C)] structures come from the class
    [Padding].  Loops over the file table are folds over its 128 indices and
    every function is total.  One loop of the code has no bound of its own, that
    of [sys_nanosleep]: [sleep_loop] gets one turn per tick to wait, and
    [nanosleep_terminates] shows that this is enough.  The recursion of [visit]
    in the resolver gets one level per package of the index and one more;
    [resolve_dependencies_correct] shows that it never runs out.  [read_all], a
    program used in a theorem, has a number of turns the theorem bounds.  The
    expressions of the OpenQASM parser get fuel linear in their length
    ([evaluate_expression_terminates]: never used up); the expansion of gate
    definitions gets a fuel that the caller chooses ([qasm_terminates]: more than
    the depth of the definitions is enough; [qasm_circular_diverges]: a circle
    has no depth).  [process_pending_irq_events] needs one turn
    more than codes wait ([drains]).  [decode_chunks] gets one turn per byte; [http_get_loop] six
    requests, which [http_get_terminates] shows to be all it makes.

    Floating-point operations are those of the standard, rounded to nearest
    even; no theorem is about real numbers.  NaN has no sign and no payload.
    Overflow checks and debug assertions of the quantum crate are on or off with
    the field [debug] of [Machine].

    A memory access of the kernel goes through the active page table: [store]
    and [load] fail with [Panicked] where the processor would fault, because
    the page fault handler of the kernel panics.  Whether the processor
    enforces write protection in kernel mode is the field [CR0_WP].  The
    contents of kernel stacks are not part of a process (its length is).  A
    [VecDeque] created with capacity 256 counts as full at 256, which is what
    [enqueue] tests.  A lock the timer interrupt tries ([try_lock]) is a
    boolean input of [tick].

    ** What the theorems show

    - Paths: canonicalisation computes exactly the normal form of the
      specification, is idempotent, and the check of the system call interface
      agrees with it.
    - Accounts: the encoding round-trips; every reachable database is well
      formed; [authenticate] accepts exactly the right password.
    - WarFS: any sequence of operations refines a finite map from canonical
      paths to entries, errors included; every reachable state is sorted and
      within the limits; read-only entries and entries of other users are
      never changed; failures have no effect.
    - Disk: the cache is invisible.
    - Format: superblock and entries round-trip; formatting gives an empty
      sound volume; allocation returns a free run and reports a full disk
      exactly when there is none.
    - Persistence: saving and deleting change exactly one file of the volume;
      the volume follows the file system through any successful change; a
      synchronised volume restores the files after a reboot.
    - Sessions: no sequence of shell operations changes what the user may not
      change; homes are out of reach for canonical paths; changes are logged.
    - Audit log: numbered consecutively, the latest 10,000 kept.
    - Firewall: an inbound packet without a rule passes only as the reply to a
      recent outbound packet; replies do pass; the table is bounded.
    - Frames: no frame is handed out twice, the count is exact, and a request
      is refused only when no frame is free.
    - ELF: accepted segments lie inside the file; parsing inverts writing.
    - Processes: descriptors get the lowest free number; a tick runs the first
      process of the highest non-empty queue; a process that exited never runs
      again.
    - Capabilities: what a process dropped, neither it nor a descendant holds
      again.
    - Loader: a spawned process finds in its own page table the image with its
      final permissions, a clear heap and the stack with its arguments;
      tear-down gives the pages of image and stack back.
    - System calls: calls that check their addresses write only to memory of
      the caller; [brk] grows the heap or changes nothing; files are read and
      written byte for byte; an exit status reaches the parent once; a failed
      [execve] changes nothing; a sleep ends.
    - Packages: resolution returns an installation order or a reason why there
      is none; an installed file is a payload that the trust root signed;
      without the capability nothing changes; what is signed is accepted; the
      repository of the first boot verifies.
    - Updates: no update is confirmed before it was applied, booted and reached
      the shell; one that is not confirmed fails at the second boot; a failed
      one asks for recovery until it is rolled back; a rollback restores files
      and package list.  These assume that the files of trusted packages lie
      outside [/var/pkg] ([trusted_packages_outside]), since a bundle that
      overwrites the update state could put anything there.
    - Serial link: messages arrive in order however the bytes are cut; two
      damaged neighbouring bytes are noticed.
    - Keyboard: however handler and reader interleave, scan codes are returned
      in order, each once; bytes are refused only when 255 wait; the buffer of
      decoded bytes is a queue of 1023.
    - Circuits: everything that can be built or parsed is well typed; the
      optimiser preserves the meaning of fixed gates; the inverse Fourier
      transform undoes the transform; syndromes of the repetition code are exact.
    - OpenQASM: what is written is read back, except for the gates that become
      comments; parsing ends.
    - HTTP: responses are read as sent; a redirect to a path stays on the host;
      redirects end.
    - State vectors: the blocked updates in place are the product with the
      matrix of the gate; both layouts agree; circuits of classical gates compute
      their bits with certainty in both modes; the counts add up to the shots.
    - Simon's algorithm: the rank is right, the oracle hides exactly the secret,
      and the algorithm finds it, in general for an ideal simulator and in
      floating point for all secrets of up to three bits.
    - Where the code does not do what it means to, a theorem states what it
      does: duplicate uids after exhaustion, a rejected mode change that takes
      effect, a 96-byte path truncated on disk, home protection bypassed by a
      doubled slash, a file lost when moved onto itself, outbound deny rules
      that never match, a preempted process lost by the scheduler, read-only
      [mmap] that faults in the kernel, [clock_gettime] that writes anywhere, an
      update that fails half-way and cannot be rolled back, a rollback of a
      staged update that reverts an older one, rotations lost by the optimiser,
      errors on two qubits of the Steane code that are not repaired, conditional
      gates that cannot be read back, a truncated body that is accepted, outcome
      strings whose order depends on the mode of the simulator.

    ** What is not modelled

    Hardware (interrupts, PCI, USB, network cards, framebuffer, the assembly
    that enters and leaves user mode), text shown to the user, third-party
    packages (smoltcp, TLS, sha3, nalgebra), and concurrency: each public
    function holds its locks for its whole duration or re-acquires them without
    another actor in between, the timer interrupt and the keyboard interrupt
    excepted; the keyboard ring is modelled as sequentially consistent memory.  Of the quantum
    crate, the matrix-product backend, density matrices and the variational and
    phase-estimation algorithms; the simulator inside the kernel (the system
    calls 300 to 304 that use it are a parameter of [dispatch]).  Of the network,
    the packet parsers, which smoltcp does for the most part; the decoding
    of scan codes and the set-up of the keyboard controller, the input loop above
    them, the vault and the shell. *)
From stdpp Require Export base list gmap strings sorting.
From Stdlib Require Export Strings.Byte ZArith Lia.

#[global] Set Default Goal Selector "!".
#[global] Open Scope Z_scope.

(** ** Results and the state-and-error monad *)

Inductive result (E A : Type) : Type :=
| Ok (a : A)
| Err (e : E).
Arguments Ok {E A} _.
Arguments Err {E A} _.

#[global] Instance result_ret E : MRet (result E) := fun A a => Ok a.
#[global] Instance result_bind E : MBind (result E) :=
  fun A B f m => match m with Ok a => f a | Err e => Err e end.
#[global] Instance result_eq_dec {E A} `{!EqDecision E, !EqDecision A} :
  EqDecision (result E A).
Proof. solve_decision. Defined.

(** [Option::ok_or]. *)
Definition ok_or {E A} (o : option A) (e : E) : result E A :=
  match o with Some a => Ok a | None => Err e end.

(** [Result::map_err]. *)
Definition map_err {E F A} (f : E -> F) (r : result E A) : result F A :=
  match r with Ok a => Ok a | Err e => Err (f e) end.

Definition is_ok {E A} (r : result E A) : bool :=
  match r with Ok _ => true | Err _ => false end.

(** A computation over a mutable state that may return early with an error:
    the state reached when the error is returned is kept, as it is behind a
    [&mut] reference. *)
Definition stm (S E A : Type) : Type := S -> result E A * S.

#[global] Instance stm_ret S E : MRet (stm S E) := fun A a s => (Ok a, s).
#[global] Instance stm_bind S E : MBind (stm S E) :=
  fun A B f m s =>
    match m s with
    | (Ok a, s') => f a s'
    | (Err e, s') => (Err e, s')
    end.

Definition throw {S E A} (e : E) : stm S E A := fun s => (Err e, s).
Definition lift_result {S E A} (r : result E A) : stm S E A := fun s => (r, s).
Definition gets {S E A} (f : S -> A) : stm S E A := fun s => (Ok (f s), s).
Definition modify {S E} (f : S -> S) : stm S E unit := fun s => (Ok tt, f s).

(** An error a function returns, or a panic (a slice out of range) that ends the
    program. *)
Inductive fault (E : Type) : Type :=
| Raised (e : E)
| Panicked.
Arguments Raised {E} _.
Arguments Panicked {E}.

(** [for x in xs { acc = body(x, acc)?; }]. *)
Fixpoint foldM {S E A B} (f : A -> B -> stm S E B) (l : list A) (acc : B) : stm S E B :=
  match l with
  | [] => mret acc
  | x :: l' => acc' ← f x acc; foldM f l' acc'
  end.

(** The same loop in a pure function. *)
Fixpoint foldR {E A B} (f : A -> B -> result E B) (l : list A) (acc : B) : result E B :=
  match l with
  | [] => Ok acc
  | x :: l' => acc' ← f x acc; foldR f l' acc'
  end.

(** ** Machine integers *)

Definition u8_max : Z := 2 ^ 8 - 1.
Definition u16_max : Z := 2 ^ 16 - 1.
Definition u32_max : Z := 2 ^ 32 - 1.
Definition u64_max : Z := 2 ^ 64 - 1.

Definition in_u (w : Z) (z : Z) : Prop := 0 <= z < 2 ^ w.
Abbreviation in_u8 := (in_u 8).
Abbreviation in_u16 := (in_u 16).
Abbreviation in_u32 := (in_u 32).
Abbreviation in_u64 := (in_u 64).

(** [as uN]: truncation to [w] bits. *)
Definition wrap (w z : Z) : Z := z mod 2 ^ w.
Definition sat_add (w a b : Z) : Z := Z.min (a + b) (2 ^ w - 1).
Definition sat_sub (a b : Z) : Z := Z.max (a - b) 0.
Definition sat_mul (w a b : Z) : Z := Z.min (a * b) (2 ^ w - 1).

(** ** Bytes, byte strings and little-endian integers *)

Abbreviation bytes := (list byte).

#[global] Instance byte_eq_decision : EqDecision byte := Byte.byte_eq_dec.
#[global] Program Instance byte_countable : Countable byte :=
  inj_countable Byte.to_N Byte.of_N _.
Next Obligation. intros b. apply Byte.of_to_N. Qed.

Definition bval (b : byte) : Z := Z.of_N (Byte.to_N b).
Definition bofZ (z : Z) : byte := default x00 (Byte.of_N (Z.to_N (z mod 256))).

(** A byte-string literal: the UTF-8 bytes of a Rust string literal. *)
Definition str (s : string) : bytes := String.list_byte_of_string s.

(** [slice.len()]. *)
Definition blen {A} (l : list A) : Z := Z.of_nat (length l).

Fixpoint le_bytes (n : nat) (z : Z) : bytes :=
  match n with
  | O => []
  | S n' => bofZ z :: le_bytes n' (z / 256)
  end.

Fixpoint le_val (bs : bytes) : Z :=
  match bs with
  | [] => 0
  | b :: bs' => bval b + 256 * le_val bs'
  end.

(** The [len] bytes at offset [off]. *)
Definition field (off len : nat) (bs : bytes) : bytes := take len (drop off bs).

(** [[v; n]]. *)
Definition zeros (n : nat) : bytes := replicate n x00.

(** Lexicographic order of byte strings ([str::cmp]). *)
Fixpoint bytes_cmp (a b : bytes) : comparison :=
  match a, b with
  | [], [] => Eq
  | [], _ :: _ => Lt
  | _ :: _, [] => Gt
  | x :: a', y :: b' =>
      match bval x ?= bval y with Eq => bytes_cmp a' b' | c => c end
  end.
Definition bytes_leb (a b : bytes) : bool :=
  match bytes_cmp a b with Gt => false | _ => true end.
Definition bytes_lt (a b : bytes) : Prop := bytes_cmp a b = Lt.

(** ** Stable sorting ([slice::sort_by]) *)
Section sort_by.
Context {A : Type} (le : A -> A -> bool).

Fixpoint sort_insert (x : A) (l : list A) : list A :=
  match l with
  | [] => [x]
  | y :: l' => if le x y then x :: y :: l' else y :: sort_insert x l'
  end.

Fixpoint sort_by (l : list A) : list A :=
  match l with
  | [] => []
  | x :: l' => sort_insert x (sort_by l')
  end.
End sort_by.

(** [iter().position(p)]. *)
Fixpoint position {A} (p : A -> bool) (l : list A) : option nat :=
  match l with
  | [] => None
  | x :: l' => if p x then Some O else S <$> position p l'
  end.

(** Replace the first element satisfying [p] ([iter_mut().find(p)]). *)
Fixpoint update_first {A} (p : A -> bool) (f : A -> A) (l : list A) : list A :=
  match l with
  | [] => []
  | x :: l' => if p x then f x :: l' else x :: update_first p f l'
  end.

(** [iter().find(p)]. *)
Definition find_first {A} (p : A -> bool) (l : list A) : option A := List.find p l.

Fixpoint sumZ (l : list Z) : Z :=
  match l with [] => 0 | x :: l' => x + sumZ l' end.

(** ** Lemmas: bytes and little-endian integers *)

Lemma bval_range b : 0 <= bval b < 256.
Proof. unfold bval. pose proof (Byte.to_N_bounded b). lia. Qed.

Lemma bval_inj a b : bval a = bval b -> a = b.
Proof.
  unfold bval. intros H. apply N2Z.inj in H.
  pose proof (Byte.of_to_N a) as Ha. pose proof (Byte.of_to_N b) as Hb.
  rewrite H in Ha. congruence.
Qed.

Lemma bval_bofZ z : bval (bofZ z) = z mod 256.
Proof.
  unfold bofZ, bval. pose proof (Z.mod_pos_bound z 256 eq_refl) as Hz.
  destruct (Byte.of_N (Z.to_N (z mod 256))) as [b|] eqn:E; simpl.
  - apply Byte.to_of_N in E. rewrite E. lia.
  - apply Byte.of_N_None_iff in E. lia.
Qed.

Lemma bofZ_bval b : bofZ (bval b) = b.
Proof.
  apply bval_inj. rewrite bval_bofZ. apply Z.mod_small, bval_range.
Qed.

Lemma length_le_bytes n z : length (le_bytes n z) = n.
Proof. revert z. induction n as [|n IH]; intros z; simpl; auto. Qed.

Lemma le_val_bound bs : 0 <= le_val bs < 256 ^ blen bs.
Proof.
  unfold blen. induction bs as [|b bs IH]; simpl length; simpl le_val; [done|].
  pose proof (bval_range b). rewrite Nat2Z.inj_succ, Z.pow_succ_r; lia.
Qed.

Lemma le_val_le_bytes n z : le_val (le_bytes n z) = z mod 256 ^ Z.of_nat n.
Proof.
  revert z. induction n as [|n IH]; intros z; simpl le_bytes; simpl le_val.
  { rewrite Z.mod_1_r. done. }
  rewrite bval_bofZ, IH, Nat2Z.inj_succ, Z.pow_succ_r by lia.
  rewrite Z.rem_mul_r by lia. lia.
Qed.

Lemma le_val_le_bytes_small n z :
  0 <= z < 256 ^ Z.of_nat n -> le_val (le_bytes n z) = z.
Proof. intros H. rewrite le_val_le_bytes. by apply Z.mod_small. Qed.

Lemma le_bytes_le_val bs n : length bs = n -> le_bytes n (le_val bs) = bs.
Proof.
  revert n. induction bs as [|b bs IH]; intros n <-; simpl; [done|].
  pose proof (bval_range b) as Hb. f_equal.
  - apply bval_inj. rewrite bval_bofZ.
    rewrite Z.add_mod, Z.mul_comm, Z.mod_mul, Z.add_0_r, Z.mod_mod by lia.
    by apply Z.mod_small.
  - rewrite Z.mul_comm, Z.div_add, Z.div_small by lia. rewrite Z.add_0_l. auto.
Qed.

#[global] Arguments le_bytes : simpl never.
#[global] Arguments le_val : simpl never.

Lemma field_length off len bs :
  (off + len <= length bs)%nat -> length (field off len bs) = len.
Proof. intros H. unfold field. rewrite length_take, length_drop. lia. Qed.

(** A field that starts after the first [length a] bytes. *)
Lemma field_app_r off len a bs :
  (length a <= off)%nat -> field off len (a ++ bs) = field (off - length a) len bs.
Proof. intros H. unfold field. by rewrite drop_app_ge by done. Qed.

(** A field that is exactly the first bytes. *)
Lemma field_app_here len a bs :
  length a = len -> field 0 len (a ++ bs) = a.
Proof. intros <-. unfold field. by rewrite drop_0, take_app_length. Qed.

Lemma field_all len a : length a = len -> field 0 len a = a.
Proof. intros <-. unfold field. by rewrite drop_0, firstn_all. Qed.

Lemma length_zeros n : length (zeros n) = n.
Proof. apply length_replicate. Qed.

Create Rewrite HintDb len.
#[export] Hint Rewrite @length_app @length_cons @length_nil @length_take @length_drop
  @length_fmap @length_insert length_le_bytes length_zeros @length_replicate : len.

(** Arithmetic goals about lengths. *)
Ltac len_solve := repeat (autorewrite with len in *; simpl length in * ); try lia.

(** Skip a chunk of known length in front of a field. *)
Lemma field_skip n off len a bs :
  length a = n -> (n <=? off)%nat = true -> field off len (a ++ bs) = field (off - n) len bs.
Proof. intros <- H%Nat.leb_le. by apply field_app_r. Qed.

Create HintDb chunk.
#[export] Hint Resolve length_le_bytes length_zeros : chunk.

(** Decoding the fields out of a concatenation of chunks of known lengths (by
    a lemma of the database [chunk] or a hypothesis). *)
Ltac field_step :=
  match goal with
  | |- context [field 0 ?n (?a ++ ?b)] =>
      rewrite (field_app_here n a b) by eauto with chunk nocore
  | |- context [field 0 ?n ?a] =>
      rewrite (field_all n a) by eauto with chunk nocore
  | |- context [field ?o ?n (?a ++ ?b)] =>
      erewrite (field_skip _ o n a b) by (first [solve [eauto with chunk nocore] | reflexivity]);
      match goal with
      | |- context [field ?o' n b] => let v := eval cbv in o' in progress change o' with v
      end
  end.

(** ** Lemmas: the order of byte strings *)

Lemma bytes_cmp_eq a b : bytes_cmp a b = Eq <-> a = b.
Proof.
  split.
  - revert b. induction a as [|x a IH]; intros [|y b]; simpl; try done.
    destruct (bval x ?= bval y) eqn:E; try done. intros H.
    apply Z.compare_eq in E. apply bval_inj in E. subst. f_equal. auto.
  - intros ->. induction b as [|y b IH]; simpl; [done|]. by rewrite Z.compare_refl.
Qed.

Lemma bytes_cmp_antisym a b : bytes_cmp b a = CompOpp (bytes_cmp a b).
Proof.
  revert b. induction a as [|x a IH]; intros [|y b]; simpl; try done.
  rewrite Z.compare_antisym. destruct (bval x ?= bval y); simpl; auto.
Qed.

#[global] Instance bytes_lt_trans : Transitive bytes_lt.
Proof.
  unfold bytes_lt. intros a. induction a as [|x a IH]; intros [|y b] [|z c]; simpl; try done.
  destruct (bval x ?= bval y) eqn:E1; destruct (bval y ?= bval z) eqn:E2; try done;
    rewrite ?Z.compare_eq_iff, ?Z.compare_lt_iff in *; intros.
  - rewrite (proj2 (Z.compare_eq_iff _ _)) by lia. eauto.
  - rewrite (proj2 (Z.compare_lt_iff _ _)) by lia. done.
  - rewrite (proj2 (Z.compare_lt_iff _ _)) by lia. done.
  - rewrite (proj2 (Z.compare_lt_iff _ _)) by lia. done.
Qed.

Lemma bytes_lt_irrefl a : ~ bytes_lt a a.
Proof. unfold bytes_lt. by rewrite (proj2 (bytes_cmp_eq a a) eq_refl). Qed.

Lemma bytes_leb_spec a b : bytes_leb a b = true <-> a = b \/ bytes_lt a b.
Proof.
  unfold bytes_leb, bytes_lt. destruct (bytes_cmp a b) eqn:E.
  - apply bytes_cmp_eq in E. naive_solver.
  - naive_solver.
  - split; [done|]. intros [->|]; [|done].
    by rewrite (proj2 (bytes_cmp_eq b b) eq_refl) in E.
Qed.

Lemma bytes_leb_false a b : bytes_leb a b = false -> bytes_lt b a.
Proof.
  unfold bytes_leb, bytes_lt. rewrite (bytes_cmp_antisym a b).
  by destruct (bytes_cmp a b).
Qed.

(** ** Lemmas: sorting *)
Section sort_by_lemmas.
Context {A : Type} (le : A -> A -> bool).

Lemma sort_insert_perm x l : Permutation (sort_insert le x l) (x :: l).
Proof.
  induction l as [|y l IH]; simpl; [done|].
  destruct (le x y); [done|]. rewrite IH. apply Permutation_swap.
Qed.

Lemma sort_by_perm l : Permutation (sort_by le l) l.
Proof. induction l as [|x l IH]; simpl; [done|]. by rewrite sort_insert_perm, IH. Qed.

Context (R : A -> A -> Prop).
Context (R_trans : Transitive R).
Context (le_R : forall x y, le x y = true -> R x y).
Context (R_total : forall x y, le x y = false -> R y x).

Lemma sort_insert_sorted x l :
  StronglySorted R l -> StronglySorted R (sort_insert le x l).
Proof using R_trans le_R R_total.
  induction 1 as [|y l Hl IH Hy]; simpl; [repeat constructor|].
  destruct (le x y) eqn:E.
  - apply le_R in E. constructor; [by constructor|].
    constructor; [done|]. eapply Forall_impl; [exact Hy|].
    intros z Hz. by transitivity y.
  - apply R_total in E. constructor; [done|].
    rewrite sort_insert_perm. by constructor.
Qed.

Lemma sort_by_sorted l : StronglySorted R (sort_by le l).
Proof using R_trans le_R R_total.
  induction l as [|x l IH]; simpl; [constructor|]. by apply sort_insert_sorted.
Qed.
End sort_by_lemmas.

(** Two strictly sorted permutations of each other are equal. *)
Lemma StronglySorted_perm_eq {A} (R : A -> A -> Prop) l1 l2 :
  Transitive R -> (forall x, ~ R x x) ->
  StronglySorted R l1 -> StronglySorted R l2 -> Permutation l1 l2 -> l1 = l2.
Proof.
  intros Htr Hirr H1. revert l2.
  induction H1 as [|x l1 H1 IH Hx]; intros l2 H2 Hp.
  { by apply Permutation_nil_l in Hp. }
  destruct H2 as [|y l2 H2 Hy]; [by apply Permutation_nil_r in Hp|].
  assert (x = y) as ->.
  { assert (x ∈ y :: l2) as Hin by (rewrite <- Hp; constructor).
    assert (y ∈ x :: l1) as Hin' by (rewrite Hp; constructor).
    apply elem_of_cons in Hin as [->|Hin]; [done|].
    apply elem_of_cons in Hin' as [->|Hin']; [done|].
    rewrite Forall_forall in Hx, Hy.
    exfalso. apply (Hirr x). transitivity y; auto. }
  f_equal. apply IH; [done|]. by apply Permutation_cons_inv in Hp.
Qed.

(** ** Lemmas: searching and updating lists *)

Lemma find_first_Some {A} (p : A -> bool) l x :
  find_first p l = Some x -> x ∈ l /\ p x = true.
Proof.
  intros H. apply List.find_some in H as [Hin Hp].
  by rewrite list_elem_of_In.
Qed.

Lemma find_first_None {A} (p : A -> bool) l :
  find_first p l = None -> forall x, x ∈ l -> p x = false.
Proof.
  intros H x Hx. eapply List.find_none; [exact H|]. by apply list_elem_of_In.
Qed.

Lemma find_first_None_iff {A} (p : A -> bool) l : find_first p l = None <-> forall x, x ∈ l -> p x = false.
Proof.
  split; [apply find_first_None|]. intros H. destruct (find_first p l) as [x|] eqn:E; [|done].
  apply find_first_Some in E as [Hx Hp]. by rewrite H in Hp.
Qed.

Lemma find_first_app {A} (p : A -> bool) l1 l2 :
  find_first p (l1 ++ l2) =
  match find_first p l1 with Some x => Some x | None => find_first p l2 end.
Proof. induction l1 as [|x l1 IH]; simpl; [done|]. by destruct (p x). Qed.

Lemma position_Some {A} (p : A -> bool) l i :
  position p l = Some i -> exists x, l !! i = Some x /\ p x = true.
Proof.
  revert i. induction l as [|x l IH]; intros i; simpl; [done|].
  destruct (p x) eqn:E; [naive_solver|].
  destruct (position p l) as [j|]; simpl; [|done].
  intros [= <-]. simpl. auto.
Qed.

Lemma position_find {A} (p : A -> bool) l :
  position p l ≫= (fun i => l !! i) = find_first p l.
Proof.
  induction l as [|x l IH]; simpl; [done|].
  destruct (p x); [done|]. rewrite <- IH. by destruct (position p l).
Qed.

Lemma length_update_first {A} (p : A -> bool) f l :
  length (update_first p f l) = length l.
Proof. induction l as [|x l IH]; simpl; [done|]. destruct (p x); simpl; auto. Qed.
#[export] Hint Rewrite @length_update_first : len.

Lemma sumZ_app l1 l2 : sumZ (l1 ++ l2) = sumZ l1 + sumZ l2.
Proof. induction l1 as [|x l1 IH]; simpl; lia. Qed.

#[global] Instance sumZ_perm : Proper (Permutation ==> eq) sumZ.
Proof. induction 1; simpl; lia. Qed.

Lemma sumZ_nonneg l : Forall (fun z => 0 <= z) l -> 0 <= sumZ l.
Proof. induction 1; simpl; lia. Qed.

Lemma blen_nonneg {A} (l : list A) : 0 <= blen l.
Proof. unfold blen. lia. Qed.

Lemma blen_cons {A} (x : A) l : blen (x :: l) = 1 + blen l.
Proof. unfold blen. simpl length. lia. Qed.

Lemma blen_app {A} (l1 l2 : list A) : blen (l1 ++ l2) = blen l1 + blen l2.
Proof. unfold blen. rewrite length_app. lia. Qed.

Lemma bool_decide_eqb {A} `{EqDecision A} (x y : A) :
  bool_decide (x = y) = true <-> x = y.
Proof. apply bool_decide_eq_true. Qed.

(** ** Lemmas: saturating arithmetic *)

Lemma sat_add_spec w a b : a + b < 2 ^ w -> sat_add w a b = a + b.
Proof. unfold sat_add. lia. Qed.

Lemma sat_add_le_iff w a b n :
  n < 2 ^ w - 1 -> sat_add w a b <= n <-> a + b <= n.
Proof. unfold sat_add. lia. Qed.

Lemma wrap_small w z : 0 <= z < 2 ^ w -> wrap w z = z.
Proof. apply Z.mod_small. Qed.

(** Testing one bit with a mask. *)
Lemma testbit_mask v b : 0 <= b -> negb (Z.land v (Z.shiftl 1 b) =? 0) = Z.testbit v b.
Proof.
  intros Hb. rewrite Z.shiftl_1_l. destruct (Z.testbit v b) eqn:E.
  - apply negb_true_iff, Z.eqb_neq. intros H. apply (f_equal (fun z => Z.testbit z b)) in H.
    by rewrite Z.land_spec, E, Z.pow2_bits_true, Z.bits_0 in H.
  - apply negb_false_iff, Z.eqb_eq. apply Z.bits_inj'. intros n Hn.
    rewrite Z.land_spec, Z.bits_0, Z.pow2_bits_eqb by done.
    destruct (Z.eqb_spec b n) as [->|]; [by rewrite E|by rewrite andb_false_r].
Qed.

(** ** Automation shared by the components *)

(** Split a hypothesis about a bind in the result monad. *)
Lemma result_bind_Ok {E A B} (m : result E A) (f : A -> result E B) b :
  m ≫= f = Ok b <-> exists a, m = Ok a /\ f a = Ok b.
Proof. destruct m; simpl; naive_solver. Qed.

Lemma ok_or_Ok {E A} (o : option A) (e : E) a : ok_or o e = Ok a <-> o = Some a.
Proof. destruct o; simpl; naive_solver. Qed.

(** Case analysis on every [if]/[match] the goal or a hypothesis is stuck on. *)
Ltac crush_match :=
  repeat (case_match; simplify_eq/=).

(** ** Lemmas: lists of records with distinct keys

    The tables of the kernel are vectors searched by a key with
    [iter().find].  [p] below is the search predicate for key [k]. *)
Section keyed.
Context {A K : Type} (key : A -> K) (p : A -> bool) (k : K).
Context (p_spec : forall y, p y = true <-> key y = k).

Lemma find_key_Some l x :
  NoDup (map key l) -> find_first p l = Some x <-> x ∈ l /\ key x = k.
Proof using p_spec.
  intros Hnd. split.
  - intros [Hin Hp]%find_first_Some. by rewrite <- p_spec.
  - intros [Hin Hk]. induction l as [|y l IH]; simpl in *; [set_solver|].
    apply NoDup_cons in Hnd as [Hy Hnd].
    destruct (p y) eqn:E.
    + apply p_spec in E. apply elem_of_cons in Hin as [->|Hin]; [done|].
      exfalso. apply Hy. rewrite E, <- Hk. by apply list_elem_of_fmap_2.
    + apply elem_of_cons in Hin as [->|Hin]; [|by apply IH].
      apply not_true_iff_false in E. by rewrite p_spec in E.
Qed.

Lemma find_key_None l : find_first p l = None <-> k ∉ map key l.
Proof using p_spec.
  induction l as [|y l IH]; simpl; [set_solver|].
  destruct (p y) eqn:E.
  - apply p_spec in E. set_solver.
  - apply not_true_iff_false in E. rewrite p_spec in E. set_solver.
Qed.

Lemma find_key_perm l l' :
  NoDup (map key l) -> Permutation l l' -> find_first p l = find_first p l'.
Proof using p_spec.
  intros Hnd Hp. assert (NoDup (map key l')) as Hnd' by (by rewrite <- Hp).
  destruct (find_first p l) as [x|] eqn:E.
  - symmetry. rewrite find_key_Some in E |- * by done. by rewrite <- Hp.
  - symmetry. rewrite find_key_None in E |- *. by rewrite <- Hp.
Qed.

Lemma update_first_keys f l :
  (forall x, key (f x) = key x) -> map key (update_first p f l) = map key l.
Proof.
  intros Hf. induction l as [|y l IH]; simpl; [done|].
  destruct (p y); simpl; [by rewrite Hf|by rewrite IH].
Qed.

Lemma update_first_found f l x :
  find_first p l = Some x ->
  exists l1 l2, l = l1 ++ x :: l2 /\ update_first p f l = l1 ++ f x :: l2 /\
                Forall (fun y => p y = false) l1.
Proof.
  induction l as [|y l IH]; simpl; [done|]. destruct (p y) eqn:E.
  - intros [= ->]. by exists [], l.
  - intros H. destruct (IH H) as (l1 & l2 & -> & Hu & Hf).
    exists (y :: l1), l2. simpl. rewrite Hu. split_and!; [done|done|by constructor].
Qed.

Lemma update_first_elem f l x y :
  NoDup (map key l) -> find_first p l = Some x ->
  y ∈ update_first p f l <-> y = f x \/ (y ∈ l /\ key y <> k).
Proof using p_spec.
  intros Hnd Hx. destruct (update_first_found f l x Hx) as (l1 & l2 & -> & -> & Hl1).
  apply find_first_Some in Hx as [_ Hx]. apply p_spec in Hx.
  rewrite map_app in Hnd. simpl in Hnd. apply NoDup_app in Hnd as (_ & Hd & Hnd).
  apply NoDup_cons in Hnd as [Hd' _]. rewrite Forall_forall in Hl1.
  rewrite !elem_of_app, !elem_of_cons. split.
  - intros [H|[H|H]]; [right|by left|right]; (split; [tauto|]).
    + intros Hk. apply p_spec in Hk. by rewrite Hl1 in Hk.
    + intros Hk. apply Hd'. rewrite Hx, <- Hk. by apply list_elem_of_fmap_2.
  - intros [->|[[H|[->|H]] Hk]]; [tauto|tauto|congruence|tauto].
Qed.

Lemma find_update_first f l x :
  (forall y, key (f y) = key y) -> find_first p l = Some x ->
  find_first p (update_first p f l) = Some (f x).
Proof using p_spec.
  intros Hf. induction l as [|y l IH]; simpl; [done|]. destruct (p y) eqn:E.
  - intros [= ->]. simpl.
    assert (p (f x) = true) as -> by (rewrite p_spec, Hf; by apply p_spec). done.
  - intros H. simpl. rewrite E. auto.
Qed.

(** Removing the element at the found position. *)
Lemma delete_position_perm l i :
  position p l = Some i ->
  exists x, find_first p l = Some x /\ Permutation l (x :: delete i l).
Proof.
  revert i. induction l as [|y l IH]; intros i; simpl; [done|].
  destruct (p y); [intros [= <-]; by exists y|].
  destruct (position p l) as [j|]; simpl; [|done]. intros [= <-].
  destruct (IH j eq_refl) as (x & Hx & Hp). exists x. split; [done|].
  simpl. rewrite Permutation_swap. by constructor.
Qed.

Lemma position_None_find l : position p l = None <-> find_first p l = None.
Proof.
  induction l as [|y l IH]; simpl; [done|]. destruct (p y); [done|].
  rewrite <- IH. by destruct (position p l).
Qed.
End keyed.

(** Deleting an element keeps a strongly sorted list sorted. *)
Lemma StronglySorted_delete {A} (R : A -> A -> Prop) l i :
  StronglySorted R l -> StronglySorted R (delete i l).
Proof.
  intros H. revert i. induction H as [|x l Hl IH Hx]; intros i.
  { destruct i; constructor. }
  destruct i as [|i]; [exact Hl|]. simpl. constructor; [done|]. rewrite Forall_forall in Hx |- *.
  intros y Hy. apply Hx.
  rewrite list_elem_of_lookup in Hy |- *. destruct Hy as [j Hj].
  destruct (decide (j < i)%nat).
  - exists j. by rewrite list_lookup_delete_lt in Hj.
  - exists (S j). rewrite list_lookup_delete_ge in Hj by lia. done.
Qed.

(** ** Lemmas: filtering *)

Lemma NoDup_map_filter {A B} (f : A -> B) p (l : list A) : NoDup (map f l) -> NoDup (map f (List.filter p l)).
Proof.
  induction l as [|x l IH]; simpl; [done|]. rewrite NoDup_cons. intros [Hx Hl].
  destruct (p x); simpl; [|auto]. constructor; [|auto].
  intros (y & Hy & Hin)%list_elem_of_fmap. apply Hx. rewrite Hy. apply list_elem_of_fmap_2.
  apply list_elem_of_In, filter_In in Hin as [Hin _]. by apply list_elem_of_In.
Qed.

Lemma NoDup_map_drop {A B} (f : A -> B) n (l : list A) : NoDup (map f l) -> NoDup (map f (drop n l)).
Proof.
  intros H. rewrite <- (take_drop n l), map_app in H. by apply NoDup_app in H as (_ & _ & H).
Qed.

Lemma elem_of_drop {A} n (l : list A) x : x ∈ drop n l -> x ∈ l.
Proof. intros H. rewrite <- (take_drop n l). apply elem_of_app. by right. Qed.

Lemma length_filter_le {A} (p : A -> bool) (l : list A) : blen (List.filter p l) <= blen l.
Proof. unfold blen. pose proof (List.filter_length_le p l). lia. Qed.

Lemma find_first_map {A B} (f : A -> B) (p : B -> bool) l :
  find_first p (map f l) = f <$> find_first (fun x => p (f x)) l.
Proof. induction l as [|x l IH]; simpl; [done|]. by destruct (p (f x)). Qed.

Lemma filter_map_comm {A B} (f : A -> B) (p : B -> bool) l :
  map f (List.filter (fun x => p (f x)) l) = List.filter p (map f l).
Proof. induction l as [|x l IH]; simpl; [done|]. destruct (p (f x)); simpl; by rewrite IH. Qed.

(** ** Loops *)

Lemma bind_Ok {S E A B} (m : stm S E A) (f : A -> stm S E B) s a s' :
  m s = (Ok a, s') -> (m ≫= f) s = f a s'.
Proof. intros H. unfold mbind, stm_bind. by rewrite H. Qed.

Lemma foldR_app {E A B} (f : A -> B -> result E B) l1 l2 acc :
  foldR f (l1 ++ l2) acc = (a ← foldR f l1 acc; foldR f l2 a).
Proof.
  revert acc. induction l1 as [|x l1 IH]; intros acc; simpl; [done|].
  destruct (f x acc); simpl; [apply IH|done].
Qed.

(** A loop that collects the keys it has seen, and stops at a repeated one or
    at an element its body refuses, runs to the end iff there is none. *)
Lemma foldR_seen {E A} (key : A -> bytes) (f : A -> list bytes -> result E (list bytes)) (good : A -> Prop) l seen :
  (forall x s r, f x s = Ok r <-> r = s ++ [key x] /\ key x ∉ s /\ good x) ->
  (exists r, foldR f l seen = Ok r) <-> NoDup (map key l) /\ (forall x, x ∈ l -> key x ∉ seen /\ good x).
Proof.
  intros Hf. revert seen. induction l as [|x l IH]; intros seen; cbn [foldR map].
  - split; [|by eexists]. intros _. split; [constructor|]. intros x Hx. by apply not_elem_of_nil in Hx.
  - rewrite NoDup_cons. split.
    + intros [r Hr]. destruct (f x seen) as [s|] eqn:E1; [|done]. apply Hf in E1 as (-> & Hx & Hg).
      destruct (IH (seen ++ [key x])) as [[Hnd Hall] _]; [by exists r|]. split; [split; [|done]|].
      * intros (y & Hy & Hin)%list_elem_of_fmap. apply Hall in Hin as [Hin _]. set_solver.
      * intros y [->|Hin]%elem_of_cons; [done|]. apply Hall in Hin. set_solver.
    + intros [[Hx Hnd] Hall]. destruct (Hall x) as [Hs Hg]; [by left|].
      assert (f x seen = Ok (seen ++ [key x])) as -> by (by apply Hf). apply IH. split; [done|].
      intros y Hy. destruct (Hall y) as [? ?]; [by right|]. split; [|done].
      rewrite elem_of_app, list_elem_of_singleton. intros [?|He]; [done|]. apply Hx. rewrite <- He.
      by apply list_elem_of_fmap_2.
Qed.

(** A loop without state that only checks. *)
Lemma foldR_all {E A} (f : A -> () -> result E ()) l :
  foldR f l () = Ok () <-> forall x, x ∈ l -> f x () = Ok ().
Proof.
  induction l as [|x l IH]; simpl.
  - split; [|done]. intros _ x Hx. by apply not_elem_of_nil in Hx.
  - rewrite result_bind_Ok. split.
    + intros ([] & Hx & Hl) y [->|Hy]%elem_of_cons; [done|]. by apply IH.
    + intros Hall. exists (). split; [apply Hall; by left|]. apply IH. intros y Hy. apply Hall. by right.
Qed.

(** A [for i in 0..n] loop whose body always succeeds, by a loop invariant. *)
Lemma foldM_seq_inv {S E B} (P : nat -> B -> S -> Prop) (f : nat -> B -> stm S E B) n acc s :
  P O acc s ->
  (forall i a t, (i < n)%nat -> P i a t -> exists a' t', f i a t = (Ok a', t') /\ P (Datatypes.S i) a' t') ->
  exists a' t', foldM f (seq 0 n) acc s = (Ok a', t') /\ P n a' t'.
Proof.
  intros H0 Hstep.
  enough (forall k m a t, (k + m = n)%nat -> P k a t ->
    exists a' t', foldM f (seq k m) a t = (Ok a', t') /\ P n a' t') as Hgen.
  { by apply (Hgen O n). }
  intros k m. revert k. induction m as [|m IH]; intros k a t Hk HP; simpl.
  - exists a, t. split; [done|]. by replace n with k by lia.
  - destruct (Hstep k a t) as (a' & t' & Hf & HP'); [lia|done|].
    unfold mbind, stm_bind. rewrite Hf. apply IH; [lia|done].
Qed.

Lemma NoDup_insert_fresh {A} (l : list A) i x : NoDup l -> x ∉ l -> NoDup (<[i:=x]> l).
Proof.
  rewrite !NoDup_alt. intros Hnd Hx j k y Hj Hk.
  apply list_lookup_insert_Some in Hj as [(-> & -> & Hi)|[Hne Hj]];
    apply list_lookup_insert_Some in Hk as [(-> & Hy & Hi')|[Hne' Hk]]; subst; try done.
  - exfalso. apply Hx. by eapply list_elem_of_lookup_2.
  - exfalso. apply Hx. by eapply list_elem_of_lookup_2.
  - eauto.
Qed.

Lemma NoDup_snoc {A} (l : list A) x : NoDup l -> x ∉ l -> NoDup (l ++ [x]).
Proof.
  intros Hl Hx. apply NoDup_app. split; [done|split].
  - intros y Hy ->%list_elem_of_singleton. done.
  - apply NoDup_singleton.
Qed.

(** ** Bits *)

Lemma land_255 n : Z.land n 255 = n mod 256.
Proof. change 255 with (Z.ones 8). by rewrite Z.land_ones by lia. Qed.
Lemma land_shiftl_8 a b : 0 <= a < 256 -> Z.land a (Z.shiftl b 8) = 0.
Proof.
  intros Ha. apply Z.bits_inj'. intros n Hn. rewrite Z.land_spec, Z.bits_0, Z.shiftl_spec by done.
  destruct (decide (n < 8)).
  - rewrite (Z.testbit_neg_r b) by lia. apply andb_false_r.
  - rewrite <- (Z.mod_small a (2 ^ 8)) by lia. by rewrite Z.mod_pow2_bits_high by lia.
Qed.
Lemma lor_shiftl_8 a b : 0 <= a < 256 -> Z.lor a (Z.shiftl b 8) = a + 256 * b.
Proof.
  intros Ha. pose proof (land_shiftl_8 a b Ha).
  rewrite <- Z.lxor_lor, <- Z.add_nocarry_lxor, Z.shiftl_mul_pow2 by done || lia. lia.
Qed.
Lemma lxor_cancel_l c a b : Z.lxor c a = Z.lxor c b -> a = b.
Proof.
  intros E. apply (f_equal (Z.lxor c)) in E. by rewrite <- !Z.lxor_assoc, Z.lxor_nilpotent, !Z.lxor_0_l in E.
Qed.
Lemma lxor_range w a b : 0 <= w -> 0 <= a < 2 ^ w -> 0 <= b < 2 ^ w -> 0 <= Z.lxor a b < 2 ^ w.
Proof.
  intros Hw Ha Hb. assert (Z.lxor a b = Z.lxor a b mod 2 ^ w) as ->.
  { apply Z.bits_inj'. intros n Hn. destruct (decide (n < w)).
    - by rewrite Z.mod_pow2_bits_low by lia.
    - rewrite Z.mod_pow2_bits_high, Z.lxor_spec by lia.
      rewrite <- (Z.mod_small a (2 ^ w)), <- (Z.mod_small b (2 ^ w)) by lia.
      by rewrite !Z.mod_pow2_bits_high by lia. }
  apply Z.mod_pos_bound. lia.
Qed.

Lemma Forall_elem {A} (P : A -> Prop) l x : Forall P l -> x ∈ l -> P x.
Proof. rewrite Forall_forall. auto. Qed.
