(* ===== verification/RustStr.v ===== *)
(** * Rust string operations

    A [&str] is modelled by its UTF-8 bytes.  This file defines the string
    operations the kernel sources use ([trim], [split], [strip_prefix],
    [starts_with], [rfind], [trim_end_matches], [contains], [lines],
    [from_utf8], ...) on byte lists, and the lemmas the path code needs.
    [trim] and [split_whitespace] recognise the UTF-8 encodings of every
    character with the Unicode White_Space property; on well-formed UTF-8
    this coincides with the scalar-value definition because the encoding is
    self-synchronising. *)
From S2P Require Import Prelude.

(** ** Character classes *)

Definition slash : byte := x2f.
Definition dot : byte := x2e.

Definition is_ascii_alphanumeric (b : byte) : bool :=
  let v := bval b in
  ((48 <=? v) && (v <=? 57)) || ((65 <=? v) && (v <=? 90)) || ((97 <=? v) && (v <=? 122)).

Definition to_ascii_lowercase (b : byte) : byte :=
  let v := bval b in
  if (65 <=? v) && (v <=? 90) then bofZ (v + 32) else b.

Definition eq_ignore_ascii_case (a b : bytes) : bool :=
  bool_decide (map to_ascii_lowercase a = map to_ascii_lowercase b).

(** ** Prefixes *)

Fixpoint strip_prefix (p s : bytes) : option bytes :=
  match p, s with
  | [], _ => Some s
  | x :: p', y :: s' => if bool_decide (x = y) then strip_prefix p' s' else None
  | _ :: _, [] => None
  end.

Definition starts_with (s p : bytes) : bool :=
  match strip_prefix p s with Some _ => true | None => false end.

Definition ends_with_byte (s : bytes) (c : byte) : bool :=
  match last s with Some b => bool_decide (b = c) | None => false end.

(** [s.contains(pat)]. *)
Fixpoint contains (s pat : bytes) : bool :=
  starts_with s pat || match s with [] => false | _ :: s' => contains s' pat end.

(** ** White space *)

(** The UTF-8 encodings of the White_Space characters: U+0009..U+000D, U+0020,
    U+0085, U+00A0, U+1680, U+2000..U+200A, U+2028, U+2029, U+202F, U+205F,
    U+3000. *)
Definition whitespace_encodings : list bytes :=
  [[x09]; [x0a]; [x0b]; [x0c]; [x0d]; [x20]; [xc2; x85]; [xc2; xa0];
   [xe1; x9a; x80];
   [xe2; x80; x80]; [xe2; x80; x81]; [xe2; x80; x82]; [xe2; x80; x83];
   [xe2; x80; x84]; [xe2; x80; x85]; [xe2; x80; x86]; [xe2; x80; x87];
   [xe2; x80; x88]; [xe2; x80; x89]; [xe2; x80; x8a];
   [xe2; x80; xa8]; [xe2; x80; xa9]; [xe2; x80; xaf]; [xe2; x81; x9f];
   [xe3; x80; x80]].

(** Length of the first encoding of [encs] that [s] starts with, 0 if none. *)
Definition encoding_len (encs : list bytes) (s : bytes) : nat :=
  match find_first (starts_with s) encs with Some e => length e | None => O end.

(** Drop the leading encodings; [skip] counts the bytes left of the current one. *)
Fixpoint drop_encodings (encs : list bytes) (skip : nat) (s : bytes) : bytes :=
  match s with
  | [] => []
  | _ :: s' =>
      match skip with
      | S k => drop_encodings encs k s'
      | O => match encoding_len encs s with
             | O => s
             | S k => drop_encodings encs k s'
             end
      end
  end.

Definition trim_start (s : bytes) : bytes := drop_encodings whitespace_encodings 0 s.
Definition trim_end (s : bytes) : bytes :=
  reverse (drop_encodings (map reverse whitespace_encodings) 0 (reverse s)).
Definition trim (s : bytes) : bytes := trim_end (trim_start s).

(** [s.split_whitespace()], [word] being the word read so far. *)
Fixpoint split_whitespace_go (skip : nat) (word s : bytes) : list bytes :=
  let emit := match word with [] => [] | _ => [word] end in
  match s with
  | [] => emit
  | b :: s' =>
      match skip with
      | S k => split_whitespace_go k word s'
      | O => match encoding_len whitespace_encodings s with
             | O => split_whitespace_go 0 (word ++ [b]) s'
             | S k => emit ++ split_whitespace_go k [] s'
             end
      end
  end.
Definition split_whitespace (s : bytes) : list bytes := split_whitespace_go 0 [] s.

(** ** Splitting and searching for one byte *)

(** [s.split(c)] for an ASCII character: never empty. *)
Fixpoint split_on (c : byte) (s : bytes) : list bytes :=
  match s with
  | [] => [[]]
  | b :: s' =>
      if bool_decide (b = c) then [] :: split_on c s'
      else match split_on c s' with
           | [] => [[b]]
           | w :: ws => (b :: w) :: ws
           end
  end.

(** [s.rfind(c)]. *)
Fixpoint rfind (c : byte) (s : bytes) : option nat :=
  match s with
  | [] => None
  | b :: s' =>
      match rfind c s' with
      | Some i => Some (S i)
      | None => if bool_decide (b = c) then Some O else None
      end
  end.

Fixpoint drop_while (p : byte -> bool) (s : bytes) : bytes :=
  match s with
  | [] => []
  | b :: s' => if p b then drop_while p s' else s
  end.

(** [s.trim_end_matches(c)]. *)
Definition trim_end_matches (c : byte) (s : bytes) : bytes :=
  reverse (drop_while (fun b => bool_decide (b = c)) (reverse s)).

(** [s.lines()]: split at line feeds, a carriage return before one dropped, no
    empty line after the last one. *)
Definition strip_cr (line : bytes) : bytes :=
  if ends_with_byte line x0d then take (length line - 1) line else line.
Fixpoint lines_go (ls : list bytes) : list bytes :=
  match ls with
  | [] => []
  | [l] => match l with [] => [] | _ => [l] end
  | l :: ls' => strip_cr l :: lines_go ls'
  end.
Definition lines (s : bytes) : list bytes := lines_go (split_on x0a s).

(** [format!("{n}")] and [format!("{n:02}")] for an unsigned integer of at most
    64 bits, which has at most 20 digits. *)
Fixpoint digits (fuel : nat) (n : Z) (acc : bytes) : bytes :=
  match fuel with
  | O => acc
  | S fuel' =>
      let acc' := bofZ (48 + n mod 10) :: acc in
      if n <? 10 then acc' else digits fuel' (n / 10) acc'
  end.
Definition decimal (n : Z) : bytes := digits 20 n [].
Definition decimal_02 (n : Z) : bytes := if n <? 10 then x30 :: decimal n else decimal n.

(** ** UTF-8 validity ([core::str::from_utf8(..).is_ok()]) *)

(** The ranges the continuation bytes after lead byte [v] must lie in, [None]
    for a byte that starts no character. *)
Definition utf8_continuations (v : Z) : option (list (Z * Z)) :=
  let c := (128, 191) in
  if v <? 128 then Some []
  else if (194 <=? v) && (v <=? 223) then Some [c]
  else if v =? 224 then Some [(160, 191); c]
  else if v =? 237 then Some [(128, 159); c]
  else if (225 <=? v) && (v <=? 239) then Some [c; c]
  else if v =? 240 then Some [(144, 191); c; c]
  else if (241 <=? v) && (v <=? 243) then Some [c; c; c]
  else if v =? 244 then Some [(128, 143); c; c]
  else None.

Fixpoint utf8_go (pending : list (Z * Z)) (s : bytes) : bool :=
  match s, pending with
  | [], [] => true
  | [], _ :: _ => false
  | b :: s', [] =>
      match utf8_continuations (bval b) with
      | Some p => utf8_go p s'
      | None => false
      end
  | b :: s', (lo, hi) :: p =>
      if (lo <=? bval b) && (bval b <=? hi) then utf8_go p s' else false
  end.
Definition utf8_valid (s : bytes) : bool := utf8_go [] s.

(** Small runs of the definitions above. *)
Example trim_run : trim (str "  a b ") = str "a b".
Proof. reflexivity. Qed.
Example split_run : split_on slash (str "/a//b") = [[]; str "a"; []; str "b"].
Proof. reflexivity. Qed.
Example lines_run : lines (str "ab" ++ [x0d; x0a] ++ str "c" ++ [x0a]) = [str "ab"; str "c"].
Proof. reflexivity. Qed.
Example utf8_run :
  utf8_valid [xe2; x82; xac] = true /\ utf8_valid [xc0; x80] = false /\ utf8_valid [xe2; x82] = false.
Proof. done. Qed.

(** ** Lemmas *)

Lemma strip_prefix_Some p s r : strip_prefix p s = Some r <-> s = p ++ r.
Proof.
  revert s. induction p as [|x p IH]; intros [|y s]; simpl; try naive_solver.
  case_bool_decide; subst; [rewrite IH|]; naive_solver.
Qed.

Lemma strip_prefix_app p r : strip_prefix p (p ++ r) = Some r.
Proof. by apply strip_prefix_Some. Qed.

Lemma starts_with_true s p : starts_with s p = true <-> exists r, s = p ++ r.
Proof.
  unfold starts_with. destruct (strip_prefix p s) as [r|] eqn:E.
  - apply strip_prefix_Some in E. naive_solver.
  - split; [done|]. intros [r Hr]. apply strip_prefix_Some in Hr. congruence.
Qed.

Lemma starts_with_app p r : starts_with (p ++ r) p = true.
Proof. apply starts_with_true. eauto. Qed.

(** A byte that heads no encoding of [encs]. *)
Definition heads_none (encs : list bytes) (b : byte) : bool :=
  forallb (fun e => match e with x :: _ => negb (bool_decide (x = b)) | [] => false end) encs.

Lemma encoding_len_0 encs b s : heads_none encs b = true -> encoding_len encs (b :: s) = O.
Proof.
  unfold encoding_len, heads_none. intros H.
  destruct (find_first _ encs) as [e|] eqn:E; [|done].
  apply find_first_Some in E as [Hin Hs]. exfalso.
  rewrite forallb_forall in H. specialize (H e (proj1 (list_elem_of_In _ _) Hin)).
  apply starts_with_true in Hs as [r Hr]. destruct e as [|x e]; [done|].
  simplify_eq/=. by rewrite bool_decide_true in H.
Qed.

Lemma drop_encodings_id encs b s :
  heads_none encs b = true -> drop_encodings encs 0 (b :: s) = b :: s.
Proof. intros H. cbn [drop_encodings]. by rewrite encoding_len_0. Qed.

(** [trim] leaves a string alone when neither end is white space. *)
Lemma trim_id b s c :
  heads_none whitespace_encodings b = true ->
  heads_none (map reverse whitespace_encodings) c = true ->
  last (b :: s) = Some c ->
  trim (b :: s) = b :: s.
Proof.
  intros Hb Hc Hlast. unfold trim, trim_start, trim_end.
  rewrite drop_encodings_id by done.
  apply last_Some in Hlast as [l ->].
  rewrite reverse_snoc, drop_encodings_id by done.
  by rewrite reverse_cons, reverse_involutive.
Qed.

Lemma split_on_not_nil c s : split_on c s <> [].
Proof. destruct s as [|b s]; simpl; [done|]. case_bool_decide; [done|]. by case_match. Qed.

Lemma split_on_none c w : c ∉ w -> split_on c w = [w].
Proof.
  induction w as [|b w IH]; simpl; [done|]. intros H.
  rewrite not_elem_of_cons in H. destruct H as [Hb Hw].
  rewrite bool_decide_false by congruence. by rewrite IH.
Qed.

Lemma split_on_app c w s : c ∉ w -> split_on c (w ++ c :: s) = w :: split_on c s.
Proof.
  induction w as [|b w IH]; simpl; intros H.
  - by rewrite bool_decide_true.
  - rewrite not_elem_of_cons in H. destruct H as [Hb Hw].
    rewrite bool_decide_false by congruence. by rewrite IH.
Qed.

Lemma split_on_Forall_not c s : Forall (fun w => c ∉ w) (split_on c s).
Proof.
  induction s as [|b s IH]; simpl; [repeat constructor; set_solver|].
  case_bool_decide as Hb; [constructor; [set_solver|done]|].
  destruct IH as [|w ws Hw Hws]; constructor; set_solver.
Qed.

Lemma rfind_None c s : rfind c s = None <-> c ∉ s.
Proof.
  induction s as [|b s IH]; simpl; [set_solver|].
  destruct (rfind c s); [set_solver|].
  case_bool_decide; set_solver.
Qed.

Lemma rfind_app c a w : c ∉ w -> rfind c (a ++ c :: w) = Some (length a).
Proof.
  intros Hw. induction a as [|b a IH]; simpl.
  - rewrite (proj2 (rfind_None c w) Hw). by rewrite bool_decide_true.
  - by rewrite IH.
Qed.

Lemma trim_end_matches_id c s b : last s = Some b -> b <> c -> trim_end_matches c s = s.
Proof.
  intros Hlast Hb. unfold trim_end_matches. apply last_Some in Hlast as [l ->].
  rewrite reverse_snoc. simpl. rewrite bool_decide_false by done.
  by rewrite reverse_cons, reverse_involutive.
Qed.

Lemma utf8_ascii s : Forall (fun b => bval b < 128) s -> utf8_valid s = true.
Proof.
  unfold utf8_valid. induction 1 as [|b s Hb Hs IH]; simpl; [done|].
  unfold utf8_continuations. by rewrite (proj2 (Z.ltb_lt _ _) Hb).
Qed.

Lemma alphanumeric_ascii b : is_ascii_alphanumeric b = true -> bval b < 128.
Proof. unfold is_ascii_alphanumeric. lia. Qed.

(** Dropping encodings from the front stops at a byte that occurs in none. *)
Lemma drop_encodings_stop encs skip a b r :
  (forall e, e ∈ encs -> b ∉ e) -> (skip <= length a)%nat ->
  exists a', drop_encodings encs skip (a ++ b :: r) = a' ++ b :: r.
Proof.
  intros Hb. revert skip. induction a as [|x a IH]; intros skip Hs; cbn [app drop_encodings].
  - cbn in Hs. replace skip with O by lia. unfold encoding_len.
    destruct (find_first _ encs) as [e|] eqn:E; [|by exists []].
    apply find_first_Some in E as [He Hst]. destruct e as [|y e]; [by exists []|].
    apply starts_with_true in Hst as [r' Hr]. cbn in Hr. simplify_eq. exfalso. apply (Hb _ He). by left.
  - destruct skip as [|k]; [|apply IH; cbn in Hs; lia]. unfold encoding_len.
    destruct (find_first _ encs) as [e|] eqn:E; [|by exists (x :: a)].
    apply find_first_Some in E as [He Hst]. destruct (length e) as [|k] eqn:El; [by exists (x :: a)|].
    apply IH. apply starts_with_true in Hst as [r' Hr].
    assert (length e <= length (x :: a))%nat; [|cbn in *; lia].
    destruct (Nat.le_gt_cases (length e) (length (x :: a))) as [Hle|Hgt]; [done|].
    exfalso. apply (Hb e He). apply list_elem_of_lookup. exists (length (x :: a)).
    rewrite <- (lookup_app_l e r') by done. rewrite <- Hr, app_comm_cons.
    by rewrite lookup_app_r, Nat.sub_diag by lia.
Qed.

(** Trimming a string does not reach over a byte that is part of no white space. *)
Lemma trim_keeps a b s c r :
  a ++ [b] = c :: r -> heads_none whitespace_encodings c = true ->
  (forall e, e ∈ whitespace_encodings -> b ∉ e) ->
  exists s', trim (a ++ b :: s) = a ++ b :: s'.
Proof.
  intros Ha Hc Hb. unfold trim, trim_start, trim_end.
  assert (exists t, a ++ b :: s = c :: t) as [t Ht].
  { destruct a as [|x a]; cbn in Ha |- *; simplify_eq; by eexists. }
  rewrite Ht, drop_encodings_id by done. rewrite <- Ht.
  rewrite reverse_app, reverse_cons, <- app_assoc. cbn [app].
  destruct (drop_encodings_stop (map reverse whitespace_encodings) O (reverse s) b (reverse a)) as [a' Ha'].
  - intros e (e' & -> & He')%list_elem_of_fmap. rewrite elem_of_reverse. by apply Hb.
  - lia.
  - rewrite Ha'. exists (reverse a'). rewrite reverse_app, reverse_cons, reverse_involutive, <- app_assoc. done.
Qed.
