(* ===== verification/Paths.v ===== *)
(** * WarFS paths (kernel/src/fs/mod.rs)

    The error type of the file system, the canonical form of a path
    ([canonical_path], [canonicalize_warexec_path]) and the functions that take
    a canonical path apart ([parent_directory], [basename],
    [directory_marker_path], [relative_child_path]).  The theorems characterise
    canonical paths as renderings of valid component lists, so that the rest of
    the library reasons about components instead of strings. *)
From S2P Require Import Prelude RustStr.

Inductive FsError : Type :=
| FileNotFound
| AlreadyExists
| FilesystemFull
| FilenameTooLong
| FileTooLarge
| ReadOnly
| InvalidFilename
| PermissionDenied.
#[global] Instance FsError_eq_dec : EqDecision FsError.
Proof. solve_decision. Defined.

Definition MAX_FILES : Z := 128.
Definition MAX_FILE_SIZE : Z := 1024 * 1024.
Definition TOTAL_CAPACITY : Z := 4 * 1024 * 1024.
Definition MAX_PATH_LEN : Z := 96.
Definition MAX_COMPONENT_LEN : Z := 31.

(** ** Canonical paths *)

Definition component_byte (b : byte) : bool :=
  is_ascii_alphanumeric b
  || bool_decide (b = dot) || bool_decide (b = x5f) || bool_decide (b = x2d).

Definition validate_canonical_component (component : bytes) : result FsError () :=
  if (blen component >? MAX_COMPONENT_LEN) || negb (forallb component_byte component)
  then Err InvalidFilename
  else Ok ().

(** One turn of the loop of [canonical_path]; the state is [(result, first)]. *)
Definition push_component (st : bytes * bool) (component : bytes) : bytes * bool :=
  let '(res, first) := st in
  ((if first then res else res ++ [slash]) ++ component, false).

Definition canonical_step (st : bytes * bool) (component : bytes) :
    result FsError (bytes * bool) :=
  if bool_decide (component = []) || bool_decide (component = str ".") then Ok st
  else if bool_decide (component = str "..") then Err InvalidFilename
  else _ ← validate_canonical_component component; Ok (push_component st component).

Fixpoint fold_components
    (step : bytes * bool -> bytes -> result FsError (bytes * bool))
    (comps : list bytes) (st : bytes * bool) : result FsError (bytes * bool) :=
  match comps with
  | [] => Ok st
  | c :: cs => st' ← step st c; fold_components step cs st'
  end.

Definition canonical_path (path : bytes) : result FsError bytes :=
  let trimmed := trim path in
  if bool_decide (trimmed = []) then Err InvalidFilename
  else
    let normalized :=
      if starts_with trimmed [slash] then trimmed else slash :: trimmed in
    st ← fold_components canonical_step (split_on slash normalized) ([slash], true);
    if blen st.1 >? MAX_PATH_LEN then Err FilenameTooLong else Ok st.1.

Definition canonical_directory (path : bytes) : result FsError bytes :=
  canonical ← canonical_path path;
  Ok (if bool_decide (canonical = []) then [slash] else canonical).

Definition warexec_step (st : bytes * bool) (component : bytes) :
    result FsError (bytes * bool) :=
  if bool_decide (component = []) || bool_decide (component = str ".")
     || bool_decide (component = str "..") then Err InvalidFilename
  else _ ← validate_canonical_component component; Ok (push_component st component).

Definition canonicalize_warexec_path (path : bytes) (allow_directory_trailing_slash : bool) :
    result FsError bytes :=
  let trimmed := trim path in
  if bool_decide (trimmed = []) || negb (starts_with trimmed [slash])
  then Err InvalidFilename
  else
    let has_trailing_slash := (blen trimmed >? 1) && ends_with_byte trimmed slash in
    if has_trailing_slash && negb allow_directory_trailing_slash
    then Err InvalidFilename
    else
      let normalized :=
        if allow_directory_trailing_slash && has_trailing_slash
        then trim_end_matches slash trimmed else trimmed in
      if (blen normalized >? 1) && contains normalized (str "//")
      then Err InvalidFilename
      else if bool_decide (normalized = [slash]) then Ok [slash]
      else
        st ← fold_components warexec_step (drop 1 (split_on slash normalized)) ([slash], true);
        if blen st.1 >? MAX_PATH_LEN then Err FilenameTooLong else Ok st.1.

(** ** Taking paths apart *)

Definition parent_directory (path : bytes) : bytes :=
  if bool_decide (path = [slash]) then [slash]
  else
    let trimmed := trim_end_matches slash path in
    match rfind slash trimmed with
    | Some O => [slash]
    | Some index => take index trimmed
    | None => [slash]
    end.

Definition DIRECTORY_MARKER_NAME : bytes := str ".wardir".

Definition directory_marker_path (path : bytes) : bytes :=
  if bool_decide (path = [slash]) then str "/.wardir"
  else path ++ [slash] ++ DIRECTORY_MARKER_NAME.

(** [path.rsplit('/').next()]: what follows the last slash. *)
Definition basename (path : bytes) : bytes :=
  match rfind slash path with Some i => drop (S i) path | None => path end.

Definition is_directory_marker (path : bytes) : bool :=
  bool_decide (basename path = DIRECTORY_MARKER_NAME).

Definition relative_child_path (directory path : bytes) : option bytes :=
  if bool_decide (directory = [slash]) then strip_prefix [slash] path
  else strip_prefix (directory ++ [slash]) path.

(** ** Canonical form as data: a list of valid components and its rendering *)

Definition valid_component (c : bytes) : Prop :=
  c <> [] /\ c <> str "." /\ c <> str ".." /\ blen c <= MAX_COMPONENT_LEN /\
  forallb component_byte c = true.

(** [/c1/c2/.../cn], and [/] for the root. *)
Fixpoint join_components (comps : list bytes) : bytes :=
  match comps with
  | [] => []
  | c :: cs => slash :: c ++ join_components cs
  end.
Definition render (comps : list bytes) : bytes :=
  match comps with [] => [slash] | _ => join_components comps end.

Definition canonical (path : bytes) : Prop :=
  exists comps, Forall valid_component comps /\ path = render comps /\ blen path <= MAX_PATH_LEN.

(** What [canonical_path] keeps of a component list. *)
Definition kept (c : bytes) : bool := negb (bool_decide (c = []) || bool_decide (c = str ".")).

Example canonical_run :
  canonical_path (str " home//./alice/notes.txt ") = Ok (str "/home/alice/notes.txt")
  /\ canonical_path (str "/a/../b") = Err InvalidFilename
  /\ canonicalize_warexec_path (str "/a//b") false = Err InvalidFilename
  /\ parent_directory (str "/home/alice/notes.txt") = str "/home/alice".
Proof. done. Qed.

(** ** Lemmas on components *)

Lemma component_byte_not_slash b : component_byte b = true -> b <> slash.
Proof. intros H ->. by vm_compute in H. Qed.

Lemma component_byte_not_space b :
  component_byte b = true \/ b = slash ->
  heads_none whitespace_encodings b = true /\
  heads_none (map reverse whitespace_encodings) b = true.
Proof. intros H. destruct b; vm_compute in H |- *; destruct H as [H|H]; done. Qed.

Lemma forallb_elem (p : byte -> bool) c b : forallb p c = true -> b ∈ c -> p b = true.
Proof. rewrite forallb_forall. intros H Hb. by apply H, list_elem_of_In. Qed.

Lemma valid_component_no_slash c : valid_component c -> slash ∉ c.
Proof.
  intros (_ & _ & _ & _ & H) Hin.
  by apply (component_byte_not_slash slash); [eapply forallb_elem|].
Qed.

Lemma validate_Ok c :
  validate_canonical_component c = Ok () <->
  blen c <= MAX_COMPONENT_LEN /\ forallb component_byte c = true.
Proof.
  unfold validate_canonical_component.
  destruct (blen c >? MAX_COMPONENT_LEN) eqn:E1;
    destruct (forallb component_byte c) eqn:E2; simpl; split; intros H;
    try discriminate; try done; try (split; [lia|done]); destruct H; try done; lia.
Qed.

Lemma validate_Err c e : validate_canonical_component c = Err e -> e = InvalidFilename.
Proof. unfold validate_canonical_component. case_match; naive_solver. Qed.

Lemma valid_component_iff c :
  kept c = true -> c <> str ".." -> validate_canonical_component c = Ok () -> valid_component c.
Proof.
  unfold kept. rewrite negb_true_iff, orb_false_iff, !bool_decide_eq_false.
  intros [? ?] ? [? ?]%validate_Ok. done.
Qed.

Lemma valid_component_kept c : valid_component c -> kept c = true.
Proof.
  intros (H1 & H2 & _). unfold kept. by rewrite !bool_decide_false.
Qed.

(** ** Lemmas on renderings *)

Lemma join_components_app a b : join_components (a ++ b) = join_components a ++ join_components b.
Proof. induction a as [|c a IH]; simpl; [done|]. rewrite IH. by rewrite <- app_assoc. Qed.

Lemma render_cons_slash comps : exists s, render comps = slash :: s.
Proof. destruct comps; simpl; eauto. Qed.

Lemma render_snoc cs c : render (cs ++ [c]) = join_components cs ++ slash :: c.
Proof.
  transitivity (join_components (cs ++ [c])).
  - by destruct cs.
  - rewrite join_components_app. simpl. by rewrite app_nil_r.
Qed.

Lemma push_component_render ds c :
  push_component (render ds, bool_decide (ds = [])) c = (render (ds ++ [c]), false).
Proof.
  rewrite render_snoc. destruct ds as [|d ds]; simpl; [done|].
  by rewrite <- !app_assoc.
Qed.

Lemma canonical_step_skip st c : kept c = false -> canonical_step st c = Ok st.
Proof. unfold kept, canonical_step. intros H%negb_false_iff. by rewrite H. Qed.

Lemma canonical_step_push st c :
  kept c = true ->
  forall st', canonical_step st c = Ok st' <-> valid_component c /\ st' = push_component st c.
Proof.
  intros Hk st'. pose proof Hk as Hk'. unfold kept in Hk'. apply negb_true_iff in Hk'.
  unfold canonical_step. rewrite Hk'. clear Hk'. case_bool_decide as Edd; simpl.
  { split; [done|]. intros [(_ & _ & H & _) _]. done. }
  destruct (validate_canonical_component c) as [[]|e] eqn:Ev; simpl.
  - split; [intros [= H]; split; [by apply valid_component_iff|done]|by intros [_ ->]].
  - split; [done|]. intros [(_ & _ & _ & H1 & H2) _].
    by rewrite (proj2 (validate_Ok c)) in Ev.
Qed.

Lemma fold_canonical_Ok cs ds st :
  fold_components canonical_step cs (render ds, bool_decide (ds = [])) = Ok st <->
  Forall valid_component (List.filter kept cs) /\
  st = (render (ds ++ List.filter kept cs), bool_decide (ds ++ List.filter kept cs = [])).
Proof.
  revert ds. induction cs as [|c cs IH]; intros ds; simpl.
  { rewrite app_nil_r. naive_solver. }
  destruct (kept c) eqn:Ek.
  2: { rewrite canonical_step_skip by done. apply IH. }
  rewrite result_bind_Ok. setoid_rewrite canonical_step_push; [|done].
  assert (bool_decide (ds ++ [c] = []) = false) as Hnil.
  { apply bool_decide_false. by destruct ds. }
  specialize (IH (ds ++ [c])). rewrite Hnil, <- app_assoc in IH. simpl in IH.
  rewrite Forall_cons. split.
  - intros (st' & [Hv ->] & H). rewrite push_component_render in H.
    apply IH in H as [H1 H2]. done.
  - intros [[Hv H1] H2]. eexists. split; [done|]. rewrite push_component_render.
    by apply IH.
Qed.

Lemma fold_canonical_Err cs st e :
  fold_components canonical_step cs st = Err e -> e = InvalidFilename.
Proof.
  revert st. induction cs as [|c cs IH]; intros st; simpl; [done|].
  destruct (canonical_step st c) as [st'|e'] eqn:E; simpl; [apply IH|].
  intros [= <-]. unfold canonical_step in E.
  destruct (_ || _); [done|]. case_bool_decide; [naive_solver|].
  destruct (validate_canonical_component c) as [[]|] eqn:Ev; simplify_eq/=.
  by apply validate_Err in Ev.
Qed.

(** [canonical_path] in closed form: the leading slash it adds contributes an
    empty component, which the loop drops. *)
Lemma canonical_path_Ok p c :
  canonical_path p = Ok c <->
  trim p <> [] /\ Forall valid_component (List.filter kept (split_on slash (trim p))) /\
  c = render (List.filter kept (split_on slash (trim p))) /\ blen c <= MAX_PATH_LEN.
Proof.
  unfold canonical_path. case_bool_decide as Ht; [naive_solver|].
  set (n := if starts_with _ _ then _ else _).
  assert (List.filter kept (split_on slash n) = List.filter kept (split_on slash (trim p))) as Hn.
  { subst n. by case_match. }
  rewrite result_bind_Ok. split.
  - intros (st & Hst & Hlen).
    apply (fold_canonical_Ok _ []) in Hst as [Hv ->]. simpl in Hlen. rewrite Hn in *.
    destruct (_ >? _) eqn:E; simplify_eq. split_and!; try done. lia.
  - intros (_ & Hv & -> & Hlen). rewrite <- Hn in *. eexists. split.
    + by apply (fold_canonical_Ok _ []).
    + simpl. destruct (_ >? _) eqn:E; [lia|done].
Qed.

Lemma canonical_path_Err p e :
  canonical_path p = Err e -> e = InvalidFilename \/ e = FilenameTooLong.
Proof.
  unfold canonical_path. case_bool_decide; [naive_solver|].
  destruct (fold_components _ _ _) as [st|e'] eqn:E; simpl.
  - destruct (_ >? _); naive_solver.
  - intros [= ->]. left. by eapply fold_canonical_Err.
Qed.

Lemma canonical_path_canonical p c : canonical_path p = Ok c -> canonical c.
Proof. intros (_ & Hv & -> & Hlen)%canonical_path_Ok. by eexists. Qed.

Lemma split_on_join comps :
  Forall valid_component comps -> split_on slash (join_components comps) = [] :: comps.
Proof.
  induction 1 as [|c cs Hc Hcs IH]; simpl; [done|].
  f_equal. destruct cs as [|d cs]; simpl in *.
  - rewrite app_nil_r. by apply split_on_none, valid_component_no_slash.
  - rewrite split_on_app by (by apply valid_component_no_slash).
    simplify_eq. by f_equal.
Qed.

Lemma filter_kept_valid comps : Forall valid_component comps -> List.filter kept comps = comps.
Proof.
  induction 1 as [|c cs Hc Hcs IH]; simpl; [done|]. by rewrite valid_component_kept, IH.
Qed.

Lemma filter_kept_split_render comps :
  Forall valid_component comps -> List.filter kept (split_on slash (render comps)) = comps.
Proof.
  intros H. destruct comps as [|c cs]; [done|].
  change (render (c :: cs)) with (join_components (c :: cs)).
  rewrite split_on_join by done. simpl. rewrite Forall_cons in H. destruct H.
  by rewrite valid_component_kept, filter_kept_valid.
Qed.

Lemma valid_component_last c : valid_component c -> exists b, last c = Some b /\ component_byte b = true.
Proof.
  intros (H1 & _ & _ & _ & H2). destruct (last c) as [b|] eqn:E.
  - exists b. split; [done|]. eapply forallb_elem; [done|]. by apply last_Some_elem_of.
  - by apply last_None in E.
Qed.

Lemma render_last comps :
  Forall valid_component comps ->
  exists b, last (render comps) = Some b /\ (component_byte b = true \/ b = slash) /\
            (comps <> [] -> b <> slash).
Proof.
  intros H. destruct comps as [|c cs] using rev_ind; [by eexists; split_and!; [|right|]|].
  clear IHcs. apply Forall_app in H as [_ H]. apply Forall_cons in H as [H _].
  apply valid_component_last in H as (b & Hb & Hcb).
  exists b. split_and!; [|by left|by intros _; apply component_byte_not_slash].
  rewrite render_snoc, last_app. simpl. destruct c as [|x c]; [done|].
  change (last (slash :: x :: c)) with (last (x :: c)). by rewrite Hb.
Qed.

Lemma trim_render comps : Forall valid_component comps -> trim (render comps) = render comps.
Proof.
  intros H. destruct (render_last comps H) as (b & Hlast & Hb & _).
  destruct (render_cons_slash comps) as [s Hs]. rewrite Hs in *.
  apply (trim_id _ _ b); [|by apply component_byte_not_space|done].
  by vm_compute.
Qed.

Lemma canonical_path_id c : canonical c -> canonical_path c = Ok c.
Proof.
  intros (comps & Hv & -> & Hlen). apply canonical_path_Ok.
  rewrite trim_render, filter_kept_split_render by done. split_and!; try done.
  by destruct comps.
Qed.

Lemma canonical_iff c : canonical c <-> canonical_path c = Ok c.
Proof. split; [apply canonical_path_id|apply canonical_path_canonical]. Qed.

#[global] Instance canonical_dec c : Decision (canonical c).
Proof.
  destruct (decide (canonical_path c = Ok c)); [left|right]; by rewrite canonical_iff.
Defined.

Lemma parent_directory_render cs c :
  valid_component c -> Forall valid_component cs -> parent_directory (render (cs ++ [c])) = render cs.
Proof.
  intros Hc Hcs. unfold parent_directory. rewrite bool_decide_false.
  2: { rewrite render_snoc. intros H%(f_equal length). rewrite length_app in H.
       destruct c; [by destruct Hc|]. simpl in H. lia. }
  assert (Forall valid_component (cs ++ [c])) as H by (apply Forall_app; auto).
  destruct (render_last _ H) as (b & Hlast & _ & Hb).
  rewrite (trim_end_matches_id _ _ b) by (done || apply Hb; by destruct cs).
  rewrite render_snoc, rfind_app by (by apply valid_component_no_slash).
  destruct cs as [|d cs]; [done|]. simpl length.
  rewrite take_app_length'; done.
Qed.

Lemma basename_render cs c : valid_component c -> basename (render (cs ++ [c])) = c.
Proof.
  intros Hc. unfold basename.
  rewrite render_snoc, rfind_app by (by apply valid_component_no_slash).
  rewrite drop_app_ge by lia. by replace (S _ - _)%nat with 1%nat by lia.
Qed.

Lemma render_inj a b :
  Forall valid_component a -> Forall valid_component b -> render a = render b -> a = b.
Proof.
  intros Ha Hb H. apply filter_kept_split_render in Ha, Hb. congruence.
Qed.

(** ** Paths below a directory *)

Lemma slash_no_whitespace e : e ∈ whitespace_encodings -> slash ∉ e.
Proof.
  intros He Hin. assert (slash ∉ concat whitespace_encodings) as Hn.
  { apply (bool_decide_eq_true_1 (slash ∉ concat whitespace_encodings)). vm_compute. reflexivity. }
  apply Hn, list_elem_of_In, in_concat. exists e. split; by apply list_elem_of_In.
Qed.

Lemma split_on_cons c s : split_on c (c :: s) = [] :: split_on c s.
Proof. apply (split_on_app c []). apply not_elem_of_nil. Qed.

Lemma split_on_join_app comps s :
  Forall valid_component comps ->
  split_on slash (join_components comps ++ slash :: s) = [] :: comps ++ split_on slash s.
Proof.
  induction 1 as [|c cs Hc _ IH]; [apply split_on_cons|]. cbn [join_components app].
  rewrite split_on_cons, <- app_assoc. f_equal.
  destruct cs as [|d cs]; cbn [join_components app] in *.
  - apply split_on_app. by apply valid_component_no_slash.
  - rewrite split_on_app by (by apply valid_component_no_slash). f_equal.
    rewrite split_on_cons in IH. by simplify_eq.
Qed.

(** The canonical form of a path below the directory of the components [ds]
    starts with these components. *)
Lemma canonical_path_below ds s c :
  Forall valid_component ds -> ds <> [] ->
  canonical_path (join_components ds ++ slash :: s) = Ok c ->
  exists cs, Forall valid_component (ds ++ cs) /\ c = render (ds ++ cs).
Proof.
  intros Hv Hne Hp.
  destruct (trim_keeps (join_components ds) slash s slash (drop 1 (join_components ds ++ [slash]))) as [s' Hs'].
  { by destruct ds. }
  { done. }
  { apply slash_no_whitespace. }
  apply canonical_path_Ok in Hp as (_ & Hval & -> & _). rewrite Hs' in *.
  rewrite split_on_join_app in * by done.
  change (List.filter kept ([] :: ds ++ split_on slash s')) with (List.filter kept (ds ++ split_on slash s')) in *.
  rewrite List.filter_app, (filter_kept_valid ds) in * by done. eexists. split; [exact Hval|done].
Qed.

(** ** WarExec paths agree with WarFS paths *)

Lemma warexec_step_canonical st c st' :
  warexec_step st c = Ok st' -> canonical_step st c = Ok st'.
Proof.
  unfold warexec_step, canonical_step.
  destruct (bool_decide (c = []) || bool_decide (c = str ".")); simpl; [done|].
  by case_bool_decide.
Qed.

Lemma fold_warexec_canonical cs st st' :
  fold_components warexec_step cs st = Ok st' -> fold_components canonical_step cs st = Ok st'.
Proof.
  revert st. induction cs as [|c cs IH]; intros st; simpl; [done|].
  rewrite !result_bind_Ok. intros (st1 & H1 & H2).
  eauto using warexec_step_canonical.
Qed.

Lemma split_on_snoc c s : split_on c (s ++ [c]) = split_on c s ++ [[]].
Proof.
  induction s as [|b s IH]; simpl; [by rewrite bool_decide_true|].
  case_bool_decide; rewrite IH; [done|].
  destruct (split_on c s) eqn:E; [|done]. by apply split_on_not_nil in E.
Qed.

Lemma trim_end_matches_snoc c s : trim_end_matches c (s ++ [c]) = trim_end_matches c s.
Proof. unfold trim_end_matches. rewrite reverse_snoc. simpl. by rewrite bool_decide_true. Qed.

Lemma filter_kept_trim_end s :
  List.filter kept (split_on slash (trim_end_matches slash s)) =
  List.filter kept (split_on slash s).
Proof.
  induction s as [|b s IH] using rev_ind; [done|].
  destruct (decide (b = slash)) as [->|Hb].
  - rewrite trim_end_matches_snoc, IH, split_on_snoc, List.filter_app. simpl. by rewrite app_nil_r.
  - rewrite (trim_end_matches_id _ _ b); [done|by rewrite last_snoc|done].
Qed.

Lemma trim_end_matches_head c s b t :
  trim_end_matches c s = b :: t -> exists u, s = b :: u.
Proof.
  intros H. enough (exists r, s = trim_end_matches c s ++ r) as [r Hr].
  { rewrite Hr, H. simpl. eauto. }
  clear. induction s as [|x s IH] using rev_ind; [by exists []|].
  destruct (decide (x = c)) as [->|Hx].
  - rewrite trim_end_matches_snoc. destruct IH as [r IH]. exists (r ++ [c]).
    by rewrite app_assoc, <- IH.
  - exists []. rewrite (trim_end_matches_id _ _ x); [by rewrite app_nil_r|by rewrite last_snoc|done].
Qed.

Lemma drop_1_split_kept n :
  (forall b t, n = b :: t -> b = slash) ->
  List.filter kept (drop 1 (split_on slash n)) = List.filter kept (split_on slash n).
Proof.
  intros Hn. destruct n as [|b t]; [done|]. rewrite (Hn b t) by done. simpl.
  by rewrite drop_0.
Qed.

Lemma warexec_path_canonical p allow c :
  canonicalize_warexec_path p allow = Ok c -> canonical_path p = Ok c.
Proof.
  unfold canonicalize_warexec_path. case_bool_decide as Ht; [done|].
  destruct (starts_with (trim p) [slash]) eqn:Hs; simpl; [|done].
  apply starts_with_true in Hs as [r Hr].
  set (tr := (blen (trim p) >? 1) && _). destruct (tr && negb allow); [done|].
  set (n := if allow && tr then _ else _).
  assert (List.filter kept (split_on slash n) = List.filter kept (split_on slash (trim p))) as Hk.
  { subst n. case_match; [apply filter_kept_trim_end|done]. }
  assert (forall b t, n = b :: t -> b = slash) as Hhd.
  { subst n. intros b t H. simpl in Hr.
    case_match; [apply trim_end_matches_head in H as [u H]|]; congruence. }
  case_match; [done|]. intros Hc. apply canonical_path_Ok. rewrite <- Hk.
  case_bool_decide as Hn.
  { simplify_eq. rewrite Hn. by vm_compute. }
  apply result_bind_Ok in Hc as (st & Hst & Hlen).
  apply fold_warexec_canonical, (fold_canonical_Ok _ []) in Hst as [Hv ->].
  rewrite drop_1_split_kept in * by done. simpl in *.
  destruct (blen (render _) >? MAX_PATH_LEN) eqn:E; [done|]. simplify_eq.
  split_and!; try done. lia.
Qed.

Lemma fold_warexec_Ok cs ds st :
  fold_components warexec_step cs (render ds, bool_decide (ds = [])) = Ok st ->
  Forall valid_component cs /\ st.1 = render (ds ++ cs).
Proof.
  revert ds. induction cs as [|c cs IH]; intros ds; simpl.
  - intros [= <-]. by rewrite app_nil_r.
  - rewrite result_bind_Ok. unfold warexec_step. intros (st1 & H1 & H2).
    destruct (bool_decide (c = []) || bool_decide (c = str ".")) eqn:Ek; cbn [orb] in H1; [done|].
    case_bool_decide as Edd; [done|].
    apply result_bind_Ok in H1 as ([] & Hv & H1).
    assert (valid_component c) as Hc.
    { apply valid_component_iff; [unfold kept; by rewrite Ek|done|done]. }
    rewrite push_component_render in H1. injection H1 as <-.
    destruct (IH (ds ++ [c])) as [Hcs Hst].
    { by rewrite bool_decide_false by (by destruct ds). }
    rewrite <- app_assoc in Hst. by split; [constructor|].
Qed.

Lemma fold_warexec_valid cs ds :
  Forall valid_component cs ->
  exists b, fold_components warexec_step cs (render ds, bool_decide (ds = [])) = Ok (render (ds ++ cs), b).
Proof.
  intros H. revert ds. induction H as [|c cs Hc Hcs IH]; intros ds; simpl.
  { rewrite app_nil_r. eauto. }
  assert (warexec_step (render ds, bool_decide (ds = [])) c = Ok (render (ds ++ [c]), false)) as ->.
  { rewrite <- push_component_render. unfold warexec_step.
    destruct Hc as (? & ? & ? & ? & ?). rewrite !bool_decide_false by done. cbn -[push_component].
    by rewrite (proj2 (validate_Ok c)). }
  destruct (IH (ds ++ [c])) as [b Hb]. rewrite bool_decide_false in Hb by (by destruct ds).
  exists b. simpl. rewrite Hb, <- app_assoc. done.
Qed.

Lemma join_split s : join_components (split_on slash s) = slash :: s.
Proof.
  induction s as [|b s IH]; simpl; [done|]. case_bool_decide as Hb; simpl.
  - by rewrite IH, Hb.
  - destruct (split_on slash s) as [|w ws] eqn:E; [by apply split_on_not_nil in E|].
    simpl in *. by simplify_eq.
Qed.

Lemma render_split s : s <> [] -> render (split_on slash s) = slash :: s.
Proof.
  intros _. rewrite <- join_split. destruct (split_on slash s) eqn:E; [|done].
  by apply split_on_not_nil in E.
Qed.

Lemma contains_slashes_skip c r :
  slash ∉ c -> contains (c ++ r) (str "//") = contains r (str "//").
Proof.
  induction c as [|b c IH]; simpl; [done|]. rewrite not_elem_of_cons. intros [Hb Hc].
  unfold starts_with at 1. simpl. rewrite bool_decide_false by done. by apply IH.
Qed.

Lemma render_no_double_slash comps :
  Forall valid_component comps -> contains (render comps) (str "//") = false.
Proof.
  intros H. destruct comps as [|c0 cs0]; [done|].
  change (contains (join_components (c0 :: cs0)) (str "//") = false).
  revert H. generalize (c0 :: cs0). clear. intros comps.
  induction 1 as [|c cs Hc Hcs IH]; [done|].
  pose proof (valid_component_no_slash c Hc) as Hns. cbn [join_components contains].
  rewrite contains_slashes_skip, IH, orb_false_r by done.
  destruct c as [|b c]; [by destruct Hc|]. unfold starts_with. simpl.
  rewrite bool_decide_false; [done|]. intros <-. apply Hns. left.
Qed.

(** ** Theorems *)

(** [canonical_path] is exactly this: trim white space, split at slashes,
    drop the empty and [.] components; it succeeds when the trimmed path is not
    empty, every remaining component is valid (in particular not [..]) and the
    result fits [MAX_PATH_LEN], and then returns the remaining components
    joined by single slashes. *)
Theorem canonical_path_exact (path c : bytes) :
  canonical_path path = Ok c <->
  trim path <> [] /\ Forall valid_component (List.filter kept (split_on slash (trim path))) /\
  c = render (List.filter kept (split_on slash (trim path))) /\ blen c <= MAX_PATH_LEN.
Proof. apply canonical_path_Ok. Qed.

(** Canonicalisation yields a normal form: the result is its own
    canonicalisation, and it is the root or the rendering of a list of valid
    components, whose last one is its base name and whose others are, rendered,
    its parent directory, which is canonical too. *)
Theorem canonical_path_normal_form (path c : bytes) :
  canonical_path path = Ok c ->
  canonical_path c = Ok c /\
  (c = [slash] \/
   exists cs b, Forall valid_component (cs ++ [b]) /\ c = render (cs ++ [b]) /\
     basename c = b /\ parent_directory c = render cs /\
     canonical_path (parent_directory c) = Ok (parent_directory c)).
Proof.
  intros Hp%canonical_path_canonical. split; [by apply canonical_path_id|].
  destruct Hp as (comps & Hv & -> & Hlen).
  destruct comps as [|b cs _] using rev_ind; [by left|right].
  apply Forall_app in Hv as Hv'. destruct Hv' as [Hcs Hb]. apply Forall_cons in Hb as [Hb _].
  exists cs, b. rewrite basename_render, parent_directory_render by done.
  split_and!; try done. apply canonical_path_id. exists cs. split_and!; try done.
  revert Hlen. rewrite render_snoc. destruct cs as [|d cs]; [done|].
  change (render (d :: cs)) with (join_components (d :: cs)).
  rewrite blen_app. pose proof (blen_nonneg (slash :: b)). lia.
Qed.

Lemma canonical_path_normal_form_witness :
  canonical_path (str "/etc/motd") = Ok (str "/etc/motd").
Proof. apply (canonical_path_normal_form (str " etc//./motd ")). reflexivity. Defined.

(** The path check of the system call interface for files accepts
    exactly the strings that, white space trimmed, are canonical already, and
    returns them unchanged. *)
Theorem warexec_accepts_canonical (path c : bytes) :
  canonicalize_warexec_path path false = Ok c <-> c = trim path /\ canonical c.
Proof.
  split.
  - intros H. split; [|by eapply canonical_path_canonical, warexec_path_canonical].
    revert H. unfold canonicalize_warexec_path. case_bool_decide; [done|].
    destruct (starts_with _ _) eqn:Hs; simpl; [|done].
    apply starts_with_true in Hs as [r Hr].
    rewrite andb_true_r. destruct (_ && ends_with_byte _ _); [done|]. destruct (_ && _); [done|].
    case_bool_decide as Hn; [by intros [= <-]|].
    rewrite result_bind_Ok. intros (st & Hst & Hc). rewrite Hr in *. simpl in Hst, Hn |- *.
    rewrite drop_0 in Hst. apply (fold_warexec_Ok _ []) in Hst as [_ Hst].
    destruct (_ >? _); simplify_eq. rewrite Hst. simpl. apply render_split. by intros ->.
  - intros (-> & comps & Hv & Hr & Hlen). unfold canonicalize_warexec_path. rewrite Hr in Hlen |- *.
    destruct (render_last comps Hv) as (b & Hlast & Hb & Hb').
    destruct (render_cons_slash comps) as [s Hs].
    rewrite bool_decide_false by (by rewrite Hs).
    assert (starts_with (render comps) [slash] = true) as ->.
    { rewrite Hs. unfold starts_with. simpl. done. }
    cbn [andb orb negb]. rewrite andb_true_r, render_no_double_slash, andb_false_r by done.
    destruct comps as [|c0 cs]; [done|].
    unfold ends_with_byte. rewrite Hlast, (bool_decide_false (b = slash)), andb_false_r by (by apply Hb').
    rewrite bool_decide_false.
    2: { intros Hn. rewrite Hn in Hlast. injection Hlast as <-. by apply Hb'. }
    change (render (c0 :: cs)) with (join_components (c0 :: cs)) at 1.
    rewrite split_on_join by done. change (drop 1 ([] :: c0 :: cs)) with (c0 :: cs).
    destruct (fold_warexec_valid (c0 :: cs) [] Hv) as [x Hx]. change (render []) with [slash] in Hx.
    rewrite bool_decide_true in Hx by done. rewrite Hx. cbn [result_bind mbind fst app].
    destruct (_ >? _) eqn:E; [|done]. apply Z.gtb_lt in E. lia.
Qed.

(** Whatever form it accepts, trailing slashes of directories included, the
    path check of the system call interface names the same file as the file
    system's own canonicalisation. *)
Theorem warexec_agrees_with_warfs (path c : bytes) (allow : bool) :
  canonicalize_warexec_path path allow = Ok c -> canonical_path path = Ok c.
Proof. apply warexec_path_canonical. Qed.

Lemma warexec_agrees_with_warfs_witness :
  canonical_path (str "/home/ana/") = Ok (str "/home/ana").
Proof. apply (warexec_agrees_with_warfs (str "/home/ana/") _ true). reflexivity. Defined.
