(* ===== verification/Auth.v ===== *)
(** * Users, passwords and file permissions (kernel/src/auth)

    [users.rs]: the user database with its operations and its on-disk
    encoding; [passwords.rs]: password hashing and the constant-time
    comparison; [permissions.rs]: file permissions.  SHA3-256 is the `sha3`
    crate's: it is a parameter, of which only the digest length is assumed.
    The tick counter and the hardware entropy are inputs of the operations
    that read them; [SALT_COUNTER] is part of the state. *)
From S2P Require Import Prelude RustStr.

(** ** Roles and permissions *)

Inductive UserRole : Type := Admin | User | Guest.
#[global] Instance UserRole_eq_dec : EqDecision UserRole.
Proof. solve_decision. Defined.

Record FilePermissions : Type := mkPermissions {
  perm_owner_uid : Z;
  owner_read : bool;
  owner_write : bool;
  others_read : bool;
  others_write : bool;
}.
#[global] Instance FilePermissions_eq_dec : EqDecision FilePermissions.
Proof. solve_decision. Defined.

Definition perm_default_for (uid : Z) : FilePermissions :=
  mkPermissions uid true true false false.
Definition perm_private (uid : Z) : FilePermissions := perm_default_for uid.
Definition perm_system : FilePermissions := mkPermissions 0 true true true false.
Definition perm_shared (uid : Z) : FilePermissions := mkPermissions uid true true true false.

Definition can_read (p : FilePermissions) (uid : Z) (role : UserRole) : bool :=
  if bool_decide (role = Admin) then true
  else if uid =? perm_owner_uid p then owner_read p
  else others_read p.

Definition can_write (p : FilePermissions) (uid : Z) (role : UserRole) : bool :=
  if bool_decide (role = Admin) then true
  else if uid =? perm_owner_uid p then owner_write p
  else others_write p.

Definition mode_string (p : FilePermissions) : bytes :=
  (if owner_read p then str "r" else str "-") ++
  (if owner_write p then str "w" else str "-") ++
  (if others_read p then str "r" else str "-") ++
  (if others_write p then str "w" else str "-").

Definition is_r (b : byte) : bool := bool_decide (b = x72) || bool_decide (b = x52).
Definition is_w (b : byte) : bool := bool_decide (b = x77) || bool_decide (b = x57).
Definition is_dash (b : byte) : bool := bool_decide (b = x2d).

(** The new permissions and the returned flag.  A mode string of the wrong
    length changes nothing; one with a bad letter is rejected after the
    fields have been assigned. *)
Definition apply_mode_string (p : FilePermissions) (mode : bytes) : FilePermissions * bool :=
  match mode with
  | [b0; b1; b2; b3] =>
      (mkPermissions (perm_owner_uid p) (is_r b0) (is_w b1) (is_r b2) (is_w b3),
       (is_r b0 || is_dash b0) && (is_w b1 || is_dash b1)
       && (is_r b2 || is_dash b2) && (is_w b3 || is_dash b3))
  | _ => (p, false)
  end.

(** ** Accounts *)

Record UserAccount : Type := mkUser {
  uid : Z;
  username : bytes;
  password_hash : bytes;
  salt : bytes;
  role : UserRole;
  home_dir : bytes;
  active : bool;
  user_created_at : Z;
  last_login : Z;
}.
#[global] Instance UserAccount_eq_dec : EqDecision UserAccount.
Proof. solve_decision. Defined.

Record UserDB : Type := mkUserDB {
  users : list UserAccount;
  next_uid : Z;
}.

Inductive AuthError : Type :=
| InvalidUsername | InvalidPassword | UserExists | UserNotFound | WrongPassword
| AccountDisabled | TooManyUsers | CannotDeleteRoot | AuthPermissionDenied
| NotLoggedIn | SerializationError.
#[global] Instance AuthError_eq_dec : EqDecision AuthError.
Proof. solve_decision. Defined.

Definition MAX_USERS : Z := 32.

(** The database together with the global [SALT_COUNTER]. *)
Record AuthState : Type := mkAuth {
  db : UserDB;
  salt_counter : Z;
}.

Definition is_valid_username (name : bytes) : bool :=
  negb (bool_decide (name = [])) && (blen name <=? 32)
  && forallb (fun b => is_ascii_alphanumeric b || bool_decide (b = x5f)) name.

Definition find_by_name (d : UserDB) (name : bytes) : option UserAccount :=
  find_first (fun u => bool_decide (username u = name)) (users d).
Definition find_by_uid (d : UserDB) (id : Z) : option UserAccount :=
  find_first (fun u => uid u =? id) (users d).

Definition uid_leb (a b : UserAccount) : bool := uid a <=? uid b.

Definition set_users (d : UserDB) (us : list UserAccount) : UserDB := mkUserDB us (next_uid d).
Definition set_credentials (s h : bytes) (u : UserAccount) : UserAccount :=
  mkUser (uid u) (username u) h s (role u) (home_dir u) (active u)
         (user_created_at u) (last_login u).
Definition set_last_login (t : Z) (u : UserAccount) : UserAccount :=
  mkUser (uid u) (username u) (password_hash u) (salt u) (role u) (home_dir u) (active u)
         (user_created_at u) t.

(** ** Passwords *)

Section passwords.
Context (sha3_256 : bytes -> bytes).

Definition KDF_ITERATIONS : Z := 10000.

(** H(i) = SHA3-256(H(i-1) || salt || i as u32). *)
Definition stretch (s : bytes) (state : bytes) (i : Z) : bytes :=
  sha3_256 (state ++ s ++ le_bytes 4 i).

Definition hash_password (password s : bytes) : bytes :=
  foldl (stretch s) (sha3_256 (s ++ password)) (seqZ 1 (KDF_ITERATIONS - 1)).

(** The salt for [id]: 16 bytes of a digest over the tick counter, the salt
    counter (incremented) and the hardware entropy. *)
Definition generate_salt (ticks : Z) (rdrand : bytes) (id : Z) (counter : Z) : bytes * Z :=
  let digest := sha3_256 (le_bytes 8 ticks ++ le_bytes 8 counter ++ le_bytes 2 id
                          ++ le_bytes 8 (Z.lxor ticks counter) ++ rdrand) in
  (take 16 digest, wrap 64 (counter + 1)).

(** [diff |= left[index] ^ right[index]] over the 32 bytes. *)
Fixpoint xor_diff (l r : bytes) (diff : Z) : Z :=
  match l, r with
  | a :: l', b :: r' => xor_diff l' r' (Z.lor diff (Z.lxor (bval a) (bval b)))
  | _, _ => diff
  end.
Definition constant_time_eq (l r : bytes) : bool := xor_diff l r 0 =? 0.

(** ** Operations of the database *)

Definition home_dir_for (id : Z) (name : bytes) : bytes :=
  if id =? 0 then str "/root" else str "/home/" ++ name.

Definition create_user (ticks : Z) (rdrand : bytes) (name password : bytes) (r : UserRole) :
    stm AuthState AuthError Z :=
  fun st =>
    let d := db st in
    if negb (is_valid_username name) then (Err InvalidUsername, st)
    else if blen password <? 4 then (Err InvalidPassword, st)
    else match find_by_name d name with
    | Some _ => (Err UserExists, st)
    | None =>
      if MAX_USERS <=? blen (users d) then (Err TooManyUsers, st)
      else
        let id := next_uid d in
        let '(s, counter) := generate_salt ticks rdrand id (salt_counter st) in
        let account := mkUser id name (hash_password password s) s r (home_dir_for id name)
                              true ticks 0 in
        (Ok id,
         mkAuth (mkUserDB (sort_by uid_leb (users d ++ [account])) (sat_add 16 id 1)) counter)
    end.

Definition with_default_root (ticks : Z) (rdrand : bytes) (counter : Z) : AuthState :=
  snd (create_user ticks rdrand (str "root") (str "waros") Admin (mkAuth (mkUserDB [] 0) counter)).

Definition authenticate (d : UserDB) (name password : bytes) : result AuthError UserAccount :=
  user ← ok_or (find_by_name d name) UserNotFound;
  if negb (active user) then Err AccountDisabled
  else
    let actual := hash_password password (salt user) in
    if negb (constant_time_eq actual (password_hash user)) then Err WrongPassword
    else Ok user.

Definition change_password (ticks : Z) (rdrand : bytes) (id : Z) (new_password : bytes) :
    stm AuthState AuthError () :=
  fun st =>
    if blen new_password <? 4 then (Err InvalidPassword, st)
    else match find_by_uid (db st) id with
    | None => (Err UserNotFound, st)
    | Some _ =>
        let '(s, counter) := generate_salt ticks rdrand id (salt_counter st) in
        let h := hash_password new_password s in
        (Ok (),
         mkAuth (set_users (db st)
                   (update_first (fun u => uid u =? id) (set_credentials s h) (users (db st))))
                counter)
    end.
End passwords.

Definition delete_user (id : Z) : stm AuthState AuthError () :=
  fun st =>
    if id =? 0 then (Err CannotDeleteRoot, st)
    else match position (fun u => uid u =? id) (users (db st)) with
    | None => (Err UserNotFound, st)
    | Some index => (Ok (), mkAuth (set_users (db st) (delete index (users (db st)))) (salt_counter st))
    end.

Definition restore_user_for_rollback (user : UserAccount) (d : UserDB) : UserDB :=
  match find_by_uid d (uid user) with
  | None =>
      mkUserDB (sort_by uid_leb (users d ++ [user]))
               (Z.max (next_uid d) (sat_add 16 (uid user) 1))
  | Some _ => d
  end.

Definition record_login (now : Z) (id : Z) : stm AuthState AuthError Z :=
  fun st =>
    match find_by_uid (db st) id with
    | None => (Err UserNotFound, st)
    | Some user =>
        (Ok (last_login user),
         mkAuth (set_users (db st)
                   (update_first (fun u => uid u =? id) (set_last_login now) (users (db st))))
                (salt_counter st))
    end.

(** ** The encoding of /etc/users.db *)

Definition role_byte (r : UserRole) : Z :=
  match r with Admin => 0 | User => 1 | Guest => 2 end.

Definition serialize_user (u : UserAccount) : bytes :=
  le_bytes 2 (uid u) ++
  [bofZ (blen (username u))] ++ username u ++
  password_hash u ++ salt u ++
  [bofZ (role_byte (role u))] ++
  [bofZ (blen (home_dir u))] ++ home_dir u ++
  [bofZ (if active u then 1 else 0)] ++
  le_bytes 8 (user_created_at u) ++ le_bytes 8 (last_login u).

Definition serialize (d : UserDB) : bytes :=
  le_bytes 2 (wrap 16 (blen (users d))) ++ le_bytes 2 (next_uid d) ++
  concat (map serialize_user (users d)).

(** The decoder's state is its cursor.  [cursor.saturating_add(len)] cannot
    saturate: the cursor is at most the length of the data. *)
Definition reader (A : Type) : Type := stm nat AuthError A.

Definition read_bytes (data : bytes) (len : nat) : reader bytes :=
  fun cursor =>
    if decide (cursor + len <= length data)%nat
    then (Ok (field cursor len data), (cursor + len)%nat)
    else (Err SerializationError, cursor).

Definition read_u8 (data : bytes) : reader Z :=
  fun cursor =>
    match data !! cursor with
    | Some b => (Ok (bval b), S cursor)
    | None => (Err SerializationError, cursor)
    end.
Definition read_u16 (data : bytes) : reader Z := bs ← read_bytes data 2; mret (le_val bs).
Definition read_u64 (data : bytes) : reader Z := bs ← read_bytes data 8; mret (le_val bs).
Definition read_string (data : bytes) (len : Z) : reader bytes :=
  bs ← read_bytes data (Z.to_nat len);
  if utf8_valid bs then mret bs else throw SerializationError.

Definition read_role (data : bytes) : reader UserRole :=
  b ← read_u8 data;
  if b =? 0 then mret Admin
  else if b =? 1 then mret User
  else if b =? 2 then mret Guest
  else throw SerializationError.

Definition read_user (data : bytes) : reader UserAccount :=
  id ← read_u16 data;
  username_len ← read_u8 data;
  name ← read_string data username_len;
  hash ← read_bytes data 32;
  s ← read_bytes data 16;
  r ← read_role data;
  home_len ← read_u8 data;
  home ← read_string data home_len;
  act ← read_u8 data;
  created ← read_u64 data;
  login ← read_u64 data;
  mret (mkUser id name hash s r home (negb (act =? 0)) created login).

Fixpoint read_users (data : bytes) (count : nat) : reader (list UserAccount) :=
  match count with
  | O => mret []
  | S n => u ← read_user data; us ← read_users data n; mret (u :: us)
  end.

Definition deserialize (data : bytes) : result AuthError UserDB :=
  fst ((user_count ← read_u16 data;
        next ← read_u16 data;
        us ← read_users data (Z.to_nat user_count);
        mret (mkUserDB us next)) O).

(** ** Well-formed databases *)

(** The ranges of an account's fields, and what the encoding needs of them. *)
Definition user_ok (u : UserAccount) : Prop :=
  in_u16 (uid u) /\ blen (username u) <= 255 /\ utf8_valid (username u) = true /\
  length (password_hash u) = 32%nat /\ length (salt u) = 16%nat /\
  blen (home_dir u) <= 255 /\ utf8_valid (home_dir u) = true /\
  in_u64 (user_created_at u) /\ in_u64 (last_login u).

Definition uid_lt (a b : UserAccount) : Prop := uid a < uid b.

(** Accounts in strictly increasing uid order below [next_uid], pairwise
    distinct names, within the table size, and root present. *)
Record db_ok (d : UserDB) : Prop := mkDbOk {
  dbo_users : Forall user_ok (users d);
  dbo_sorted : StronglySorted uid_lt (users d);
  dbo_names : NoDup (map username (users d));
  dbo_below : Forall (fun u => uid u < next_uid d) (users d);
  dbo_next : in_u16 (next_uid d);
  dbo_size : blen (users d) <= MAX_USERS;
  dbo_root : exists u, find_by_uid d 0 = Some u;
}.

(** ** Lemmas: the decoder undoes the encoder *)

(** [m] reads the value [a] out of the bytes [x], wherever they stand. *)
Definition parses {A} (m : bytes -> reader A) (x : bytes) (a : A) : Prop :=
  forall pre post, m (pre ++ x ++ post) (length pre) = (Ok a, length (pre ++ x)).

Lemma parses_ret {A} (a : A) : parses (fun _ => mret a) [] a.
Proof. intros pre post. by rewrite app_nil_r. Qed.

Lemma parses_bind {A B} (m : bytes -> reader A) (k : bytes -> A -> reader B) x y a b :
  parses m x a -> parses (fun d => k d a) y b ->
  parses (fun d => m d ≫= k d) (x ++ y) b.
Proof.
  intros Hm Hk pre post. unfold mbind, stm_bind.
  rewrite <- app_assoc, (Hm pre (y ++ post)), app_assoc, (Hk (pre ++ x) post).
  by rewrite <- app_assoc.
Qed.

Lemma parses_bind_last {A B} (m : bytes -> reader A) (k : bytes -> A -> reader B) x a b :
  parses m x a -> parses (fun d => k d a) [] b -> parses (fun d => m d ≫= k d) x b.
Proof. intros Hm Hk. rewrite <- (app_nil_r x). by eapply parses_bind. Qed.

Lemma parses_bytes x n : length x = n -> parses (fun d => read_bytes d n) x x.
Proof.
  intros <- pre post. unfold read_bytes. rewrite decide_True by (rewrite !length_app; lia).
  rewrite field_app_r by lia. rewrite Nat.sub_diag, field_app_here by done.
  by rewrite length_app.
Qed.

Lemma parses_u8 v : in_u8 v -> parses read_u8 [bofZ v] v.
Proof.
  intros H pre post. unfold read_u8. rewrite lookup_app_r by lia.
  rewrite Nat.sub_diag. simpl. rewrite bval_bofZ, Z.mod_small by done.
  rewrite length_app. simpl. f_equal. lia.
Qed.

Lemma parses_map {A B} (m : bytes -> reader A) (f : A -> B) x a :
  parses m x a -> parses (fun d => v ← m d; mret (f v)) x (f a).
Proof.
  intros H. eapply parses_bind_last; [done|]. apply parses_ret.
Qed.

Lemma parses_le {n v} :
  0 <= v < 256 ^ Z.of_nat n ->
  parses (fun d => bs ← read_bytes d n; mret (le_val bs)) (le_bytes n v) v.
Proof.
  intros H. rewrite <- (le_val_le_bytes_small n v) at 2 by done.
  apply (parses_map (fun d => read_bytes d n)), parses_bytes, length_le_bytes.
Qed.

Lemma parses_u16 v : in_u16 v -> parses read_u16 (le_bytes 2 v) v.
Proof. intros H. by apply (@parses_le 2). Qed.

Lemma parses_u64 v : in_u64 v -> parses read_u64 (le_bytes 8 v) v.
Proof. intros H. by apply (@parses_le 8). Qed.

Lemma parses_string s :
  utf8_valid s = true -> parses (fun d => read_string d (blen s)) s s.
Proof.
  intros Hu. eapply parses_bind_last.
  - apply parses_bytes. unfold blen. lia.
  - rewrite Hu. apply parses_ret.
Qed.

Lemma parses_role r : parses read_role [bofZ (role_byte r)] r.
Proof.
  eapply parses_bind_last.
  - apply parses_u8. by destruct r.
  - destruct r; apply parses_ret.
Qed.

Create HintDb parses.
#[export] Hint Resolve parses_u8 parses_u16 parses_u64 parses_bytes parses_string parses_role : parses.

Lemma parses_user u : user_ok u -> parses read_user (serialize_user u) u.
Proof.
  intros (H1 & H2 & H3 & H4 & H5 & H6 & H7 & H8 & H9).
  assert (in_u8 (blen (username u))) by (pose proof (blen_nonneg (username u)); unfold in_u; lia).
  assert (in_u8 (blen (home_dir u))) by (pose proof (blen_nonneg (home_dir u)); unfold in_u; lia).
  assert (parses read_u8 [bofZ (if active u then 1 else 0)] (if active u then 1 else 0)) as Ha.
  { apply parses_u8. by destruct (active u). }
  unfold read_user, serialize_user.
  do 10 (eapply parses_bind; [eauto with parses|]).
  eapply parses_bind_last; [eauto with parses|].
  replace (negb ((if active u then 1 else 0) =? 0)) with (active u) by (by destruct (active u)).
  destruct u. apply parses_ret.
Qed.

Lemma parses_users us :
  Forall user_ok us ->
  parses (fun d => read_users d (length us)) (concat (map serialize_user us)) us.
Proof.
  induction 1 as [|u us Hu Hus IH]; [apply parses_ret|].
  cbn [read_users length map concat]. eapply parses_bind; [by apply parses_user|].
  eapply parses_bind_last; [done|]. apply parses_ret.
Qed.

Lemma deserialize_parses data d rest :
  parses (fun data => user_count ← read_u16 data; next ← read_u16 data;
                      us ← read_users data (Z.to_nat user_count); mret (mkUserDB us next)) data d ->
  deserialize (data ++ rest) = Ok d.
Proof. intros H. specialize (H [] rest). simpl in H. unfold deserialize. by rewrite H. Qed.

(** ** Lemmas: passwords *)

Lemma lor_eq_0 a b : Z.lor a b = 0 <-> a = 0 /\ b = 0.
Proof. apply Z.lor_eq_0_iff. Qed.

Lemma xor_diff_0 l r diff :
  length l = length r -> xor_diff l r diff = 0 <-> diff = 0 /\ l = r.
Proof.
  revert r diff. induction l as [|a l IH]; intros [|b r] diff Hlen; try done; [naive_solver|].
  simpl in *. rewrite IH, lor_eq_0, Z.lxor_eq_0_iff by lia.
  split; [|naive_solver]. intros [[-> H%bval_inj] ->]. by subst.
Qed.

Lemma constant_time_eq_spec l r :
  length l = length r -> constant_time_eq l r = true <-> l = r.
Proof.
  intros H. unfold constant_time_eq. rewrite Z.eqb_eq, xor_diff_0 by done. naive_solver.
Qed.

Section password_lemmas.
Context (sha3_256 : bytes -> bytes).
Context (sha3_len : forall m, length (sha3_256 m) = 32%nat).

Lemma hash_password_len password s : length (hash_password sha3_256 password s) = 32%nat.
Proof using sha3_len.
  unfold hash_password. generalize (sha3_len (s ++ password)).
  generalize (sha3_256 (s ++ password)). generalize (seqZ 1 (KDF_ITERATIONS - 1)).
  intros l. induction l as [|i l IH]; intros st Hst; simpl; [done|].
  apply IH. apply sha3_len.
Qed.

Lemma generate_salt_len ticks rd id c : length (generate_salt sha3_256 ticks rd id c).1 = 16%nat.
Proof using sha3_len. unfold generate_salt. simpl. rewrite length_take, sha3_len. done. Qed.
End password_lemmas.

(** ** Lemmas: lookups *)

Lemma name_pred_spec n u : bool_decide (username u = n) = true <-> username u = n.
Proof. apply bool_decide_eq_true. Qed.
Lemma uid_pred_spec id u : (uid u =? id) = true <-> uid u = id.
Proof. apply Z.eqb_eq. Qed.

Lemma uid_lt_trans : Transitive uid_lt.
Proof. unfold uid_lt. intros a b c. lia. Qed.

Lemma sorted_uid_NoDup us : StronglySorted uid_lt us -> NoDup (map uid us).
Proof.
  induction 1 as [|u us Hs IH Hu]; simpl; constructor; [|done].
  rewrite list_elem_of_fmap. intros (v & Hv & Hin).
  rewrite Forall_forall in Hu. specialize (Hu v Hin). unfold uid_lt in Hu. lia.
Qed.

Lemma find_by_uid_Some d id u :
  db_ok d -> find_by_uid d id = Some u <-> u ∈ users d /\ uid u = id.
Proof.
  intros H. apply (find_key_Some uid _ id (uid_pred_spec id)).
  apply sorted_uid_NoDup, H.
Qed.

Lemma find_by_name_Some d n u :
  db_ok d -> find_by_name d n = Some u <-> u ∈ users d /\ username u = n.
Proof. intros H. apply (find_key_Some username _ n (name_pred_spec n)). apply H. Qed.

Lemma find_by_name_None d n : find_by_name d n = None <-> n ∉ map username (users d).
Proof. apply (find_key_None username _ n (name_pred_spec n)). Qed.

(** A fresh account with the highest uid is appended unchanged by the sort. *)
Lemma sort_users_snoc us u :
  StronglySorted uid_lt us -> Forall (fun v => uid v < uid u) us ->
  sort_by uid_leb (us ++ [u]) = us ++ [u].
Proof.
  induction 1 as [|v us Hs IH Hv]; simpl; [done|]. intros [Hlt Hall]%Forall_cons.
  rewrite IH by done. destruct us as [|w us]; simpl; unfold uid_leb.
  - destruct (uid v <=? uid u) eqn:E; [done|lia].
  - apply Forall_cons in Hv as [Hvw _]. unfold uid_lt in Hvw.
    destruct (uid v <=? uid w) eqn:E; [done|lia].
Qed.

Lemma StronglySorted_snoc {A} (R : A -> A -> Prop) l x :
  StronglySorted R l -> Forall (fun y => R y x) l -> StronglySorted R (l ++ [x]).
Proof.
  induction 1 as [|y l Hl IH Hy]; simpl; [repeat constructor|].
  intros [Hyx Hall]%Forall_cons. constructor; [auto|]. apply Forall_app. auto.
Qed.

Lemma valid_username_ascii n :
  is_valid_username n = true -> n <> [] /\ blen n <= 32 /\ Forall (fun b => bval b < 128) n.
Proof.
  unfold is_valid_username. rewrite !andb_true_iff, negb_true_iff, bool_decide_eq_false, Z.leb_le.
  intros [[H1 H2] H3]. split_and!; [done|done|].
  rewrite forallb_forall in H3. apply Forall_forall. intros b Hb.
  specialize (H3 b (proj1 (list_elem_of_In _ _) Hb)).
  apply orb_true_iff in H3 as [H3|H3%bool_decide_eq_true]; [by apply alphanumeric_ascii|by subst].
Qed.

Lemma home_dir_ok id n :
  is_valid_username n = true ->
  blen (home_dir_for id n) <= 255 /\ utf8_valid (home_dir_for id n) = true.
Proof.
  intros (_ & Hlen & Hn)%valid_username_ascii. unfold home_dir_for. case_match; [done|].
  rewrite blen_app. split; [change (blen (str "/home/")) with 6; lia|].
  apply utf8_ascii, Forall_app. split; [|done].
  repeat constructor.
Qed.

#[global] Arguments hash_password : simpl never.
#[global] Arguments generate_salt : simpl never.
#[local] Opaque hash_password generate_salt.

(** ** Lemmas: each operation keeps the database well formed *)

Section invariant.
Context (sha3_256 : bytes -> bytes).
Context (sha3_len : forall m, length (sha3_256 m) = 32%nat).

(** What a successful [create_user] does. *)
Lemma create_user_Ok ticks rd n pw r st id st' :
  create_user sha3_256 ticks rd n pw r st = (Ok id, st') ->
  exists u,
    is_valid_username n = true /\ 4 <= blen pw /\ find_by_name (db st) n = None /\
    blen (users (db st)) < MAX_USERS /\ id = next_uid (db st) /\
    uid u = id /\ username u = n /\ role u = r /\ active u = true /\
    password_hash u = hash_password sha3_256 pw (salt u) /\ length (salt u) = 16%nat /\
    home_dir u = home_dir_for id n /\ user_created_at u = ticks /\ last_login u = 0 /\
    users (db st') = sort_by uid_leb (users (db st) ++ [u]) /\
    next_uid (db st') = sat_add 16 id 1.
Proof using sha3_len.
  pose proof (generate_salt_len sha3_256 sha3_len ticks rd (next_uid (db st)) (salt_counter st)) as Hs.
  unfold create_user. destruct (is_valid_username n); simpl; [|done].
  destruct (blen pw <? 4) eqn:Hpw; [done|].
  destruct (find_by_name _ n); [done|].
  destruct (MAX_USERS <=? _) eqn:Hm; [done|].
  destruct (generate_salt _ _ _ _ _) as [s c] eqn:Eg. simpl in Hs.
  intros [= <- <-].
  exists (mkUser (next_uid (db st)) n (hash_password sha3_256 pw s) s r
                 (home_dir_for (next_uid (db st)) n) true ticks 0).
  cbn [uid username role active password_hash salt home_dir user_created_at last_login db users next_uid].
  split_and!; done || lia.
Qed.

Lemma create_user_db_ok ticks rd n pw r st id st' :
  db_ok (db st) -> next_uid (db st) < u16_max -> in_u64 ticks ->
  create_user sha3_256 ticks rd n pw r st = (Ok id, st') -> db_ok (db st').
Proof using sha3_len.
  intros Hd Hnext Ht Hc.
  destruct (create_user_Ok _ _ _ _ _ _ _ _ Hc) as
    (u & Hn & Hpw & Hfresh & Hsz & -> & Hu1 & Hu2 & Hu3 & Hu4 & Hu5 & Hu6 & Hu7 & Hu8 & Hu9 & Hus & Hnx).
  clear Hc. destruct Hd as [D1 D2 D3 D4 D5 D6 [root D7]].
  pose proof (valid_username_ascii _ Hn) as (Hn1 & Hn2 & Hn3).
  unfold in_u, u16_max in *.
  rewrite sat_add_spec in Hnx by lia.
  rewrite sort_users_snoc in Hus.
  2: done. 2: { eapply Forall_impl; [exact D4|]. simpl. lia. }
  split; rewrite ?Hus, ?Hnx; unfold in_u.
  - apply Forall_app. split; [done|]. constructor; [|constructor].
    unfold user_ok, in_u. rewrite Hu1, Hu2, Hu5, Hu6, Hu7, Hu8, Hu9.
    rewrite hash_password_len by done.
    pose proof (home_dir_ok (next_uid (db st)) n Hn) as [Hh1 Hh2].
    split_and!; first [lia | exact Hh2 | by apply utf8_ascii].
  - apply StronglySorted_snoc; [done|]. eapply Forall_impl; [exact D4|].
    unfold uid_lt. intros v. simpl. lia.
  - rewrite map_app. simpl. rewrite Hu2. apply find_by_name_None in Hfresh.
    apply NoDup_app. split_and!; [exact D3| |apply NoDup_singleton].
    intros y Hy [->|Hnil]%elem_of_cons; [exact (Hfresh Hy)|by apply elem_of_nil in Hnil].
  - apply Forall_app. split; [|repeat constructor; lia].
    eapply Forall_impl; [exact D4|]. simpl. lia.
  - lia.
  - rewrite blen_app. change (blen [u]) with 1. unfold MAX_USERS in *. lia.
  - exists root. unfold find_by_uid in *. rewrite Hus. by rewrite find_first_app, D7.
Qed.

(** Rewriting an account in place, its uid and name unchanged. *)
Lemma update_db_ok d id f :
  (forall u, uid (f u) = uid u) -> (forall u, username (f u) = username u) ->
  (forall u, user_ok u -> user_ok (f u)) ->
  db_ok d -> db_ok (set_users d (update_first (fun u => uid u =? id) f (users d))).
Proof.
  intros Hf1 Hf2 Hf3 [D1 D2 D3 D4 D5 D6 [root D7]].
  assert (forall P : UserAccount -> Prop, (forall u, P u -> P (f u)) -> Forall P (users d) ->
    Forall P (update_first (fun u => uid u =? id) f (users d))) as Hall.
  { clear -Hf1. intros P HP. induction 1 as [|u us Hu Hus IH]; simpl; [constructor|].
    case_match; constructor; auto. }
  split; simpl.
  - by apply Hall.
  - clear -D2 Hf1. induction D2 as [|u us Hs IH Hu]; simpl; [constructor|].
    assert (forall us', map uid us' = map uid us -> Forall (uid_lt u) us') as Hk.
    { intros us' H. apply (List.Forall_map uid (fun z => uid u < z)). rewrite H.
      by apply (List.Forall_map uid (fun z => uid u < z)). }
    case_match; constructor; try done.
    + eapply Forall_impl; [exact Hu|]. unfold uid_lt. intros v. by rewrite Hf1.
    + apply Hk. by apply update_first_keys.
  - by rewrite (update_first_keys username).
  - apply Hall; [|done]. intros u. by rewrite Hf1.
  - done.
  - unfold blen. by rewrite length_update_first.
  - unfold find_by_uid in *. simpl. clear -D7 Hf1. revert root D7.
    induction (users d) as [|u us IH]; intros root; simpl; [done|].
    destruct (uid u =? id) eqn:E1; simpl; rewrite ?Hf1; destruct (uid u =? 0); eauto.
Qed.

Lemma delete_user_db_ok id st st' :
  db_ok (db st) -> delete_user id st = (Ok (), st') -> db_ok (db st').
Proof.
  intros [D1 D2 D3 D4 D5 D6 [root D7]]. unfold delete_user.
  destruct (id =? 0) eqn:E0; [done|].
  destruct (position _ _) as [i|] eqn:Ep; [|done]. intros [= <-].
  destruct (delete_position_perm _ _ _ Ep) as (x & Hx & Hperm).
  apply find_first_Some in Hx as [Hin Hid].
  assert (forall v, v ∈ delete i (users (db st)) -> v ∈ users (db st)) as Hsub.
  { intros v Hv. rewrite Hperm. by right. }
  split; simpl; unfold blen in *.
  - rewrite Forall_forall in *. auto.
  - by apply StronglySorted_delete.
  - rewrite Hperm in D3. simpl in D3. by apply NoDup_cons in D3 as [_ ?].
  - rewrite Forall_forall in *. auto.
  - done.
  - rewrite Hperm in D6. simpl in D6. lia.
  - exists root. apply (find_key_Some uid _ 0 (uid_pred_spec 0)) in D7; [|by apply sorted_uid_NoDup].
    apply (find_key_Some uid _ 0 (uid_pred_spec 0)); simpl.
    + apply sorted_uid_NoDup. by apply StronglySorted_delete.
    + destruct D7 as [D7 Hr]. split; [|done].
      rewrite Hperm in D7. apply elem_of_cons in D7 as [->|D7]; [lia|done].
Qed.
End invariant.

(** ** Theorems *)

(** Decoding the bytes [UserDB::serialize] writes to /etc/users.db gives
    back the same database, whatever follows them in the file. *)
Theorem users_db_roundtrip d rest :
  Forall user_ok (users d) -> in_u16 (next_uid d) -> blen (users d) < 2 ^ 16 ->
  deserialize (serialize d ++ rest) = Ok d.
Proof.
  intros Hu Hn Hlen. apply deserialize_parses. unfold serialize.
  pose proof (blen_nonneg (users d)). rewrite wrap_small by lia.
  eapply parses_bind; [apply parses_u16; unfold in_u; lia|].
  eapply parses_bind; [by apply parses_u16|].
  eapply parses_bind_last.
  - replace (Z.to_nat (blen (users d))) with (length (users d)) by (unfold blen; lia).
    by apply parses_users.
  - destruct d. apply parses_ret.
Qed.

(** One operation on the user database.  Creation is guarded by the uid
    counter not being exhausted (see [uid_exhaustion_duplicates]). *)
Inductive auth_step (sha3_256 : bytes -> bytes) : AuthState -> AuthState -> Prop :=
| step_create ticks rd n pw r st :
    in_u64 ticks -> next_uid (db st) < u16_max ->
    auth_step sha3_256 st (create_user sha3_256 ticks rd n pw r st).2
| step_change_password ticks rd id pw st :
    in_u64 ticks -> auth_step sha3_256 st (change_password sha3_256 ticks rd id pw st).2
| step_delete id st : auth_step sha3_256 st (delete_user id st).2
| step_record_login now id st :
    in_u64 now -> auth_step sha3_256 st (record_login now id st).2.

Section reachable.
Context (sha3_256 : bytes -> bytes).
Context (sha3_len : forall m, length (sha3_256 m) = 32%nat).

Lemma create_user_Err_state ticks rd n pw r st e st' :
  create_user sha3_256 ticks rd n pw r st = (Err e, st') -> st' = st.
Proof.
  unfold create_user. repeat (case_match; try (by intros [= _ <-])).
Qed.

Lemma auth_step_db_ok st st' : auth_step sha3_256 st st' -> db_ok (db st) -> db_ok (db st').
Proof using sha3_len.
  intros Hstep Hd. destruct Hstep as [ticks rd n pw r st Ht Hn|ticks rd id pw st Ht|id st|now id st Ht].
  - destruct (create_user _ _ _ _ _ _ st) as [[id|e] st'] eqn:E; simpl.
    + by eapply create_user_db_ok.
    + by rewrite (create_user_Err_state _ _ _ _ _ _ _ _ E).
  - pose proof (generate_salt_len sha3_256 sha3_len ticks rd id (salt_counter st)) as Hs.
    unfold change_password. case_match; [done|]. case_match; [|done].
    destruct (generate_salt _ _ _ _ _) as [s c]. simpl in *.
    apply update_db_ok; [done..| |done].
    intros v (?&?&?&?&?&?&?&?&?). unfold user_ok, set_credentials. simpl.
    rewrite (hash_password_len _ sha3_len). split_and!; assumption || reflexivity.
  - destruct (delete_user id st) as [[[]|e] st'] eqn:E; simpl.
    + by eapply delete_user_db_ok.
    + unfold delete_user in E. by repeat case_match; simplify_eq.
  - unfold record_login. case_match; [|done]. simpl.
    apply update_db_ok; [done..| |done].
    intros v (?&?&?&?&?&?&?&?&?). unfold user_ok, set_last_login. simpl.
    split_and!; assumption.
Qed.

Lemma with_default_root_ok ticks rd c : in_u64 ticks -> db_ok (db (with_default_root sha3_256 ticks rd c)).
Proof using sha3_len.
  intros Ht. unfold with_default_root.
  destruct (create_user _ _ _ _ _ _ _) as [[id|e] st'] eqn:E; simpl.
  2: { unfold create_user in E. simpl in E. by destruct (generate_salt _ _ _ _ _). }
  destruct (create_user_Ok _ sha3_len _ _ _ _ _ _ _ _ E) as
    (u & Hn & Hpw & _ & _ & -> & Hu1 & Hu2 & Hu3 & Hu4 & Hu5 & Hu6 & Hu7 & Hu8 & Hu9 & Hus & Hnx).
  clear E. simpl in Hus, Hnx, Hu1, Hu7. split; rewrite ?Hus, ?Hnx.
  - constructor; [|constructor]. unfold user_ok.
    rewrite Hu1, Hu2, Hu5, Hu6, Hu7, Hu8, Hu9, (hash_password_len _ sha3_len). clear Hu5.
    do 7 (split; [vm_compute; done|]). split; [exact Ht|vm_compute; done].
  - constructor; [constructor|constructor].
  - apply NoDup_singleton.
  - constructor; [|constructor]. rewrite Hu1. reflexivity.
  - split; [discriminate|reflexivity].
  - discriminate.
  - exists u. unfold find_by_uid. rewrite Hus. simpl. rewrite Hu1. reflexivity.
Qed.
End reachable.

(** From the default database, every sequence of account creations,
    password changes, deletions and logins (uid counter not exhausted) keeps
    the database well formed: uids strictly increasing and below [next_uid],
    names pairwise distinct, at most [MAX_USERS] accounts, fields encodable,
    and the root account never lost. *)
Theorem auth_reachable_ok (sha3_256 : bytes -> bytes) ticks rd c st :
  (forall m, length (sha3_256 m) = 32%nat) -> in_u64 ticks ->
  rtc (auth_step sha3_256) (with_default_root sha3_256 ticks rd c) st ->
  db_ok (db st).
Proof.
  intros Hlen Ht Hsteps. pose proof (with_default_root_ok sha3_256 Hlen ticks rd c Ht) as H.
  induction Hsteps; eauto using auth_step_db_ok.
Qed.

(** [authenticate] accepts exactly the active account with that name whose
    stored hash is the hash of the password under the account's salt. *)
Theorem authenticate_iff (sha3_256 : bytes -> bytes) d name pw u :
  (forall m, length (sha3_256 m) = 32%nat) -> db_ok d ->
  authenticate sha3_256 d name pw = Ok u <->
  u ∈ users d /\ username u = name /\ active u = true /\
  password_hash u = hash_password sha3_256 pw (salt u).
Proof.
  intros Hlen Hd. unfold authenticate. pose proof (hash_password_len _ Hlen pw) as Hl.
  revert Hl. generalize (hash_password sha3_256 pw). intros h Hl.
  rewrite result_bind_Ok. setoid_rewrite ok_or_Ok. setoid_rewrite (find_by_name_Some _ _ _ Hd).
  assert (forall v, v ∈ users d -> constant_time_eq (h (salt v)) (password_hash v) = true
            <-> password_hash v = h (salt v)) as Hct.
  { intros v Hv. rewrite constant_time_eq_spec; [done|].
    rewrite Hl. destruct Hd as [D1 _ _ _ _ _ _].
    rewrite Forall_forall in D1. by destruct (D1 v Hv) as (_&_&_&->&_). }
  split.
  - intros (v & [Hv Hn] & H). specialize (Hct v Hv).
    destruct (active v) eqn:Ea; simpl in H; [|done].
    destruct (constant_time_eq _ _); simpl in H; simplify_eq. naive_solver.
  - intros (Hu & Hn & Ha & Hh). exists u. split; [done|]. rewrite Ha. simpl.
    by rewrite (proj2 (Hct u Hu) Hh).
Qed.

(** An account just created can log in with its password; every other
    account authenticates exactly as before. *)
Theorem create_user_authenticates (sha3_256 : bytes -> bytes) ticks rd n pw r st id st' :
  (forall m, length (sha3_256 m) = 32%nat) ->
  db_ok (db st) -> next_uid (db st) < u16_max -> in_u64 ticks ->
  create_user sha3_256 ticks rd n pw r st = (Ok id, st') ->
  (exists u, authenticate sha3_256 (db st') n pw = Ok u /\ uid u = id /\ role u = r) /\
  (forall n' pw', n' <> n ->
     authenticate sha3_256 (db st') n' pw' = authenticate sha3_256 (db st) n' pw').
Proof.
  intros Hlen Hd Hn Ht Hc.
  pose proof (create_user_db_ok _ Hlen _ _ _ _ _ _ _ _ Hd Hn Ht Hc) as Hd'.
  destruct (create_user_Ok _ Hlen _ _ _ _ _ _ _ _ Hc) as
    (u & _ & _ & Hfresh & _ & -> & Hu1 & Hu2 & Hu3 & Hu4 & Hu5 & _ & _ & _ & _ & Hus & _).
  clear Hc. unfold authenticate.
  revert Hu5. generalize (hash_password sha3_256 pw). intros h Hu5.
  assert (Permutation (users (db st')) (users (db st) ++ [u])) as Hp by (rewrite Hus; apply sort_by_perm).
  assert (forall k, find_by_name (db st') k = find_first (fun v => bool_decide (username v = k)) (users (db st) ++ [u])) as Hfind.
  { intros k. apply (find_key_perm username _ k (name_pred_spec k)); [apply Hd'|done]. }
  split.
  - exists u. split; [|done]. rewrite Hfind, find_first_app.
    unfold find_by_name in Hfresh. rewrite Hfresh. simpl.
    rewrite bool_decide_true by done. simpl. rewrite Hu4. simpl.
    by rewrite (proj2 (constant_time_eq_spec _ _ (f_equal length (eq_sym Hu5)))).
  - intros n' pw' Hne. rewrite Hfind, find_first_app.
    unfold find_by_name. destruct (find_first _ (users (db st))); [done|].
    simpl. by rewrite bool_decide_false by congruence.
Qed.

(** When the uid counter has reached its maximum, [saturating_add] hands
    out the same uid again: two further accounts get the same uid 65535. *)
Theorem uid_exhaustion_duplicates :
  let sha3_256 := fun m => take 32 (m ++ zeros 32) in
  let st0 := mkAuth (mkUserDB [] u16_max) 0 in
  let c1 := create_user sha3_256 7 (zeros 16) (str "alice") (str "secret") User st0 in
  let c2 := create_user sha3_256 8 (zeros 16) (str "bob") (str "secret") User c1.2 in
  c1.1 = Ok 65535 /\ c2.1 = Ok 65535 /\ map uid (users (db c2.2)) = [65535; 65535].
Proof. intros sha3_256 st0 c1 c2. split_and!; reflexivity. Qed.

(** ** Concrete instances *)

(** A stand-in digest of the right length. *)
Definition toy_sha3 (m : bytes) : bytes := take 32 (m ++ zeros 32).
Lemma toy_sha3_len m : length (toy_sha3 m) = 32%nat.
Proof. unfold toy_sha3, zeros. rewrite length_take, length_app, length_replicate. lia. Qed.

Definition sample_user : UserAccount :=
  mkUser 7 (str "alice") (zeros 32) (zeros 16) User (str "/home/alice") true 11 12.
Definition sample_auth : AuthState := with_default_root toy_sha3 3 (zeros 16) 1.

Lemma users_db_roundtrip_witness :
  deserialize (serialize (mkUserDB [sample_user] 8) ++ [x00]) = Ok (mkUserDB [sample_user] 8).
Proof.
  apply users_db_roundtrip.
  - constructor; [|constructor]. vm_compute. intuition discriminate.
  - vm_compute. intuition discriminate.
  - reflexivity.
Defined.

Lemma auth_reachable_ok_witness : db_ok (db (delete_user 5 sample_auth).2).
Proof.
  apply (auth_reachable_ok toy_sha3 3 (zeros 16) 1).
  - exact toy_sha3_len.
  - vm_compute. intuition discriminate.
  - apply rtc_once. constructor.
Defined.

Lemma sample_auth_ok : db_ok (db sample_auth).
Proof. apply with_default_root_ok; [exact toy_sha3_len|]. vm_compute. intuition discriminate. Qed.

Lemma authenticate_iff_witness :
  authenticate toy_sha3 (db sample_auth) (str "root") (str "waros") = Ok sample_user <->
  sample_user ∈ users (db sample_auth) /\ username sample_user = str "root" /\
  active sample_user = true /\
  password_hash sample_user = hash_password toy_sha3 (str "waros") (salt sample_user).
Proof. apply authenticate_iff; [exact toy_sha3_len|exact sample_auth_ok]. Defined.

Lemma create_user_authenticates_witness :
  (exists u, authenticate toy_sha3
               (db (create_user toy_sha3 5 (zeros 16) (str "bob") (str "hunter2") User sample_auth).2)
               (str "bob") (str "hunter2") = Ok u /\ uid u = 1 /\ role u = User).
Proof.
  apply (create_user_authenticates toy_sha3 5 (zeros 16) (str "bob") (str "hunter2") User
           sample_auth 1).
  - exact toy_sha3_len.
  - exact sample_auth_ok.
  - reflexivity.
  - split; [discriminate|reflexivity].
  - reflexivity.
Defined.
