(* ===== verification/Disk.v ===== *)
(** * Block device, sector cache and [Disk] (kernel/src/disk)

    [virtio_blk.rs]: splitting a request into checked single-sector requests;
    [cache.rs]: the write-through sector cache; [mod.rs]: [Disk], a device
    behind its cache.  What the hardware does with one single-sector request
    is the class [BlockDevice]; what the virtio block protocol documents about
    it is the class [BlockDeviceLaws].  The file system code above uses a disk
    only through [SectorStore]; the last section shows that [Disk] implements
    that interface and satisfies its laws, i.e. that the cache is invisible. *)
From S2P Require Import Prelude RustStr Paths.

Inductive DiskError : Type :=
| DeviceNotFound
| UnsupportedDevice (reason : bytes)
| InitFailed (reason : bytes)
| OutOfMemory
| OutOfBounds
| BufferTooSmall
| DeviceError
| FormatError
| CorruptedData
| DiskFull
| DiskFileNotFound
| FilesystemError (e : FsError).
#[global] Instance DiskError_eq_dec : EqDecision DiskError.
Proof. solve_decision. Defined.

Definition SECTOR_SIZE : nat := 512.
#[global] Arguments SECTOR_SIZE : simpl never.

(** [buffer[off..off + data.len()].copy_from_slice(data)], in range. *)
Definition splice (off : nat) (data buffer : bytes) : bytes :=
  take off buffer ++ data ++ drop (off + length data) buffer.

(** ** The device *)

(** The answer of the device to a single-sector request: the sector read, or
    [None]/[false] for a non-zero status byte. *)
Class BlockDevice (D : Type) : Type := {
  dev_capacity : D -> Z;
  dev_in : Z -> D -> option bytes * D;
  dev_out : Z -> bytes -> D -> bool * D;
}.

Section virtio_blk.
Context {D : Type} `{BlockDevice D}.

Definition validate_request (sector count buffer_len : Z) (d : D) : result DiskError () :=
  if sat_add 64 sector count >? dev_capacity d then Err OutOfBounds
  else if buffer_len <? count * Z.of_nat SECTOR_SIZE then Err BufferTooSmall
  else Ok ().

(** [do_request(VIRTIO_BLK_T_IN, ..)] and [do_request(VIRTIO_BLK_T_OUT, ..)]. *)
Definition do_request_in (sector : Z) : stm D DiskError bytes :=
  fun d => match dev_in sector d with
           | (Some data, d') => (Ok data, d')
           | (None, d') => (Err DeviceError, d')
           end.
Definition do_request_out (sector : Z) (data : bytes) : stm D DiskError () :=
  fun d =>
    if decide (length data = SECTOR_SIZE) then
      match dev_out sector data d with
      | (true, d') => (Ok (), d')
      | (false, d') => (Err DeviceError, d')
      end
    else (Err BufferTooSmall, d).

Definition blk_read_sectors (sector count : Z) (buffer : bytes) : stm D DiskError bytes :=
  _ ← (fun d => (validate_request sector count (blen buffer) d, d));
  foldM (fun index buf =>
           data ← do_request_in (sector + Z.of_nat index);
           mret (splice (index * SECTOR_SIZE) data buf))
        (seq 0 (Z.to_nat count)) buffer.

Definition blk_write_sectors (sector count : Z) (buffer : bytes) : stm D DiskError () :=
  _ ← (fun d => (validate_request sector count (blen buffer) d, d));
  foldM (fun index _ =>
           do_request_out (sector + Z.of_nat index) (field (index * SECTOR_SIZE) SECTOR_SIZE buffer))
        (seq 0 (Z.to_nat count)) ().
End virtio_blk.

(** ** The cache *)

Record CacheEntry : Type := mkCacheEntry {
  ce_sector : Z;
  ce_data : bytes;
  ce_dirty : bool;
  ce_generation : Z;
}.

Record BlockCache : Type := mkCache {
  cache_entries : list CacheEntry;
  cache_capacity : Z;
  cache_generation : Z;
}.

Definition cache_new (capacity : Z) : BlockCache := mkCache [] capacity 0.
Definition cache_clear (c : BlockCache) : BlockCache := mkCache [] (cache_capacity c) 0.
Definition cache_flush (c : BlockCache) : BlockCache :=
  mkCache (map (fun e => mkCacheEntry (ce_sector e) (ce_data e) false (ce_generation e))
               (cache_entries c))
          (cache_capacity c) (cache_generation c).

Definition set_entries (c : BlockCache) (es : list CacheEntry) : BlockCache :=
  mkCache es (cache_capacity c) (cache_generation c).

Definition next_generation (c : BlockCache) : Z * BlockCache :=
  let g := wrap 64 (cache_generation c + 1) in
  (g, mkCache (cache_entries c) (cache_capacity c) g).

Definition sector_is (sector : Z) (e : CacheEntry) : bool := ce_sector e =? sector.

(** [enumerate().min_by_key(generation)]: the first entry of least generation. *)
Fixpoint min_generation (es : list CacheEntry) (i : nat) (best : nat * Z) : nat :=
  match es with
  | [] => best.1
  | e :: es' => min_generation es' (S i) (if ce_generation e <? best.2 then (i, ce_generation e) else best)
  end.
Definition victim (es : list CacheEntry) : option nat :=
  match es with
  | [] => None
  | e :: es' => Some (min_generation es' 1 (0%nat, ce_generation e))
  end.

Definition cache_insert (sector : Z) (data : bytes) (dirty : bool) (generation : Z)
    (c : BlockCache) : BlockCache :=
  let new := mkCacheEntry sector data dirty generation in
  match find_first (sector_is sector) (cache_entries c) with
  | Some _ => set_entries c (update_first (sector_is sector) (fun _ => new) (cache_entries c))
  | None =>
      if blen (cache_entries c) <? cache_capacity c
      then set_entries c (cache_entries c ++ [new])
      else match victim (cache_entries c) with
           | Some i => set_entries c (<[i := new]> (cache_entries c))
           | None => c
           end
  end.

(** ** [Disk]: the device behind its cache *)

Record Disk (D : Type) : Type := mkDisk {
  device : D;
  cache : BlockCache;
}.
Arguments mkDisk {D} _ _.
Arguments device {D} _.
Arguments cache {D} _.

Section disk.
Context {D : Type} `{BlockDevice D}.

Definition DEFAULT_CACHE_SECTORS : Z := 64.
Definition disk_new (d : D) : Disk D := mkDisk d (cache_new DEFAULT_CACHE_SECTORS).

(** [BlockCache::read_sector] on the two fields of [Disk]. *)
Definition cache_read_sector (sector : Z) : stm (Disk D) DiskError bytes :=
  fun s =>
    let '(generation, c) := next_generation (cache s) in
    match find_first (sector_is sector) (cache_entries c) with
    | Some e =>
        (Ok (ce_data e),
         mkDisk (device s)
           (set_entries c
              (update_first (sector_is sector)
                 (fun e => mkCacheEntry (ce_sector e) (ce_data e) (ce_dirty e) generation)
                 (cache_entries c))))
    | None =>
        match blk_read_sectors sector 1 (zeros SECTOR_SIZE) (device s) with
        | (Ok data, d) => (Ok data, mkDisk d (cache_insert sector data false generation c))
        | (Err e, d) => (Err e, mkDisk d c)
        end
    end.

Definition cache_write_sector (sector : Z) (data : bytes) : stm (Disk D) DiskError () :=
  fun s =>
    match blk_write_sectors sector 1 data (device s) with
    | (Ok _, d) =>
        let '(generation, c) := next_generation (cache s) in
        (Ok (), mkDisk d (cache_insert sector data false generation c))
    | (Err e, d) => (Err e, mkDisk d (cache s))
    end.

Definition cache_read_sectors (sector count : Z) (buffer : bytes) : stm (Disk D) DiskError bytes :=
  if blen buffer <? count * Z.of_nat SECTOR_SIZE then throw BufferTooSmall
  else foldM (fun index buf =>
                data ← cache_read_sector (sector + Z.of_nat index);
                mret (splice (index * SECTOR_SIZE) data buf))
             (seq 0 (Z.to_nat count)) buffer.

Definition cache_write_sectors (sector count : Z) (buffer : bytes) : stm (Disk D) DiskError () :=
  if blen buffer <? count * Z.of_nat SECTOR_SIZE then throw BufferTooSmall
  else foldM (fun index _ =>
                cache_write_sector (sector + Z.of_nat index)
                  (field (index * SECTOR_SIZE) SECTOR_SIZE buffer))
             (seq 0 (Z.to_nat count)) ().

Definition disk_flush : stm (Disk D) DiskError () :=
  fun s => (Ok (), mkDisk (device s) (cache_flush (cache s))).
Definition reset_cache (s : Disk D) : Disk D := mkDisk (device s) (cache_clear (cache s)).
End disk.

(** ** The interface the file system code uses *)

Class SectorStore (S : Type) : Type := {
  ss_capacity : S -> Z;
  read_sectors : Z -> Z -> bytes -> stm S DiskError bytes;
  write_sectors : Z -> Z -> bytes -> stm S DiskError ();
}.

#[global] Instance Disk_store {D} `{BlockDevice D} : SectorStore (Disk D) := {
  ss_capacity s := dev_capacity (device s);
  read_sectors := cache_read_sectors;
  write_sectors := cache_write_sectors;
}.

(** ** Laws *)

(** A device that serves every in-range request: [dev_view] is its contents. *)
Class BlockDeviceLaws (D : Type) `{BlockDevice D} : Type := {
  dev_view : D -> Z -> bytes;
  dev_view_length : forall d t, length (dev_view d t) = SECTOR_SIZE;
  dev_capacity_u64 : forall d, 0 <= dev_capacity d < u64_max;
  dev_in_spec : forall d s, 0 <= s < dev_capacity d ->
    exists d', dev_in s d = (Some (dev_view d s), d') /\
      (forall t, dev_view d' t = dev_view d t) /\ dev_capacity d' = dev_capacity d;
  dev_out_spec : forall d s data, 0 <= s < dev_capacity d -> length data = SECTOR_SIZE ->
    exists d', dev_out s data d = (true, d') /\
      (forall t, dev_view d' t = if decide (t = s) then data else dev_view d t) /\
      dev_capacity d' = dev_capacity d;
}.

(** The sectors [sector .. sector + n - 1] of a view, concatenated. *)
Fixpoint view_range (v : Z -> bytes) (sector : Z) (n : nat) : bytes :=
  match n with
  | O => []
  | S n' => v sector ++ view_range v (sector + 1) n'
  end.

(** The view after writing [buffer] from [sector] on, [n] sectors. *)
Definition write_view (v : Z -> bytes) (sector : Z) (n : nat) (buffer : bytes) (t : Z) : bytes :=
  if decide (sector <= t < sector + Z.of_nat n)
  then field (Z.to_nat (t - sector) * SECTOR_SIZE) SECTOR_SIZE buffer
  else v t.

(** A store with contents [ss_view] that multi-sector transfers read and
    update exactly; [ss_ok] is the store's own invariant. *)
Class SectorStoreLaws (S : Type) `{SectorStore S} : Type := {
  ss_view : S -> Z -> bytes;
  ss_ok : S -> Prop;
  ss_view_length : forall s t, length (ss_view s t) = SECTOR_SIZE;
  ss_capacity_u64 : forall s, 0 <= ss_capacity s < u64_max;
  read_sectors_spec : forall s sector count buffer,
    ss_ok s -> 0 <= sector -> 0 <= count -> sector + count <= ss_capacity s ->
    count * Z.of_nat SECTOR_SIZE <= blen buffer ->
    exists s',
      read_sectors sector count buffer s =
        (Ok (view_range (ss_view s) sector (Z.to_nat count)
             ++ drop (Z.to_nat count * SECTOR_SIZE) buffer), s') /\
      ss_ok s' /\ ss_capacity s' = ss_capacity s /\ (forall t, ss_view s' t = ss_view s t);
  write_sectors_spec : forall s sector count buffer,
    ss_ok s -> 0 <= sector -> 0 <= count -> sector + count <= ss_capacity s ->
    count * Z.of_nat SECTOR_SIZE <= blen buffer ->
    exists s',
      write_sectors sector count buffer s = (Ok (), s') /\
      ss_ok s' /\ ss_capacity s' = ss_capacity s /\
      (forall t, ss_view s' t = write_view (ss_view s) sector (Z.to_nat count) buffer t);
}.

(** ** Lemmas: buffers and views *)

Lemma length_view_range v sector n :
  (forall t, length (v t) = SECTOR_SIZE) -> length (view_range v sector n) = (n * SECTOR_SIZE)%nat.
Proof.
  intros Hv. revert sector. induction n as [|n IH]; intros sector; simpl; [done|].
  rewrite length_app, Hv, IH. done.
Qed.

Lemma view_range_snoc v sector n :
  view_range v sector (S n) = view_range v sector n ++ v (sector + Z.of_nat n).
Proof.
  revert sector. induction n as [|n IH]; intros sector.
  - simpl. by rewrite app_nil_r, Z.add_0_r.
  - change (view_range v sector (S (S n))) with (v sector ++ view_range v (sector + 1) (S n)).
    rewrite IH. simpl view_range at 2. rewrite <- app_assoc. do 2 f_equal. f_equal. lia.
Qed.

Lemma view_range_ext v w sector n :
  (forall t, sector <= t < sector + Z.of_nat n -> v t = w t) ->
  view_range v sector n = view_range w sector n.
Proof.
  revert sector. induction n as [|n IH]; intros sector Hvw; simpl; [done|].
  rewrite Hvw by lia. f_equal. apply IH. intros t Ht. apply Hvw. lia.
Qed.

Lemma splice_step k A data B :
  length A = k -> (k + length data <= length B)%nat ->
  splice k data (A ++ drop k B) = (A ++ data) ++ drop (k + length data) B.
Proof.
  intros HA HB. unfold splice. rewrite take_app_length' by done.
  rewrite drop_app_ge by lia. rewrite drop_drop, <- app_assoc.
  do 3 f_equal. lia.
Qed.

(** ** Lemmas: the cache is coherent with a view *)

Definition coherent (v : Z -> bytes) (es : list CacheEntry) : Prop :=
  NoDup (map ce_sector es) /\ forall e, e ∈ es -> ce_data e = v (ce_sector e).

Lemma sector_is_spec sector e : sector_is sector e = true <-> ce_sector e = sector.
Proof. apply Z.eqb_eq. Qed.

Lemma coherent_ext v w es : (forall t, v t = w t) -> coherent v es -> coherent w es.
Proof. intros Hvw [H1 H2]. split; [done|]. intros e He. by rewrite <- Hvw, H2. Qed.

Lemma min_generation_lt es i best n :
  (best.1 < n)%nat -> (i + length es <= n)%nat -> (min_generation es i best < n)%nat.
Proof.
  revert i best. induction es as [|e es IH]; intros i best Hb Hi; simpl in *; [done|].
  apply IH; [case_match; simpl; lia|lia].
Qed.

Lemma victim_lt es i : victim es = Some i -> (i < length es)%nat.
Proof.
  destruct es as [|e es]; simpl; [done|]. intros [= <-].
  apply min_generation_lt; simpl; lia.
Qed.

(** Caching [data] as the contents of [sector] keeps the cache coherent with
    the view in which [sector] holds [data]. *)
Lemma cache_insert_coherent v w sector data dirty g c :
  coherent v (cache_entries c) ->
  (forall t, w t = if decide (t = sector) then data else v t) ->
  coherent w (cache_entries (cache_insert sector data dirty g c)).
Proof.
  intros [Hnd Hdata] Hw. unfold cache_insert.
  set (new := mkCacheEntry sector data dirty g).
  assert (ce_data new = w (ce_sector new)) as Hnew.
  { simpl. rewrite Hw. by rewrite decide_True. }
  assert (forall e, e ∈ cache_entries c -> ce_sector e <> sector -> ce_data e = w (ce_sector e)) as Hold.
  { intros e He Hne. rewrite Hw, decide_False by done. auto. }
  destruct (find_first _ _) as [e0|] eqn:Ef.
  - simpl. pose proof Ef as Ef'. apply find_first_Some in Ef' as [Hin Hs]. apply sector_is_spec in Hs.
    split.
    + destruct (update_first_found (sector_is sector) (fun _ => new) _ _ Ef) as (l1 & l2 & Hl & -> & _).
      rewrite Hl in Hnd. rewrite map_app in *. simpl in *. by rewrite Hs in Hnd.
    + intros e He.
      apply (update_first_elem ce_sector _ sector (sector_is_spec sector) _ _ e0) in He; [|done|done].
      destruct He as [->|[He Hne]]; auto.
  - apply (find_key_None ce_sector _ sector (sector_is_spec sector)) in Ef.
    assert (forall e, e ∈ cache_entries c -> ce_sector e <> sector) as Hfresh.
    { intros e He Heq. apply Ef. rewrite <- Heq. by apply list_elem_of_fmap_2. }
    case_match; [|destruct (victim (cache_entries c)) as [i|] eqn:Ev].
    + simpl. split.
      * rewrite map_app. apply NoDup_app. split_and!; [done| |apply NoDup_singleton].
        intros t Ht [->|Ht']%elem_of_cons; [by apply Ef|by apply elem_of_nil in Ht'].
      * intros e [He|[->|He]%elem_of_cons]%elem_of_app; [auto|done|by apply elem_of_nil in He].
    + simpl. apply victim_lt in Ev. split.
      * change (map ce_sector) with (fmap (M := list) ce_sector) in *. rewrite list_fmap_insert. simpl.
        by apply NoDup_insert_fresh.
      * intros e He. apply list_elem_of_lookup in He as [j Hj].
        destruct (decide (i = j)) as [<-|Hne].
        -- rewrite list_lookup_insert_eq in Hj by done. by simplify_eq.
        -- rewrite list_lookup_insert_ne in Hj by done. apply list_elem_of_lookup_2 in Hj. auto.
    + destruct (cache_entries c); [|done]. split; [constructor|]. intros e He. by apply elem_of_nil in He.
Qed.

Lemma cache_insert_size sector data dirty g c :
  blen (cache_entries c) <= cache_capacity c ->
  blen (cache_entries (cache_insert sector data dirty g c)) <= cache_capacity c /\
  cache_capacity (cache_insert sector data dirty g c) = cache_capacity c.
Proof.
  intros Hc. unfold cache_insert, blen in *.
  repeat case_match; simpl; autorewrite with len; simpl; lia.
Qed.

(** ** [Disk] implements the interface *)

Section disk_laws.
Context {D : Type} `{BD : BlockDevice D} {BL : BlockDeviceLaws D}.

(** The cache agrees with the device and stays within its capacity. *)
Definition disk_ok (s : Disk D) : Prop :=
  coherent (dev_view (device s)) (cache_entries (cache s)) /\
  blen (cache_entries (cache s)) <= cache_capacity (cache s).

Lemma validate_request_ok sector len d :
  0 <= sector < dev_capacity d -> Z.of_nat SECTOR_SIZE <= len ->
  validate_request sector 1 len d = Ok ().
Proof using BL.
  intros Hs Hl. unfold validate_request. pose proof (dev_capacity_u64 d) as Hc.
  unfold u64_max in Hc. rewrite sat_add_spec by lia.
  destruct (_ >? _) eqn:E1; [lia|]. destruct (_ <? _) eqn:E2; [lia|done].
Qed.

Lemma blk_read_one sector d :
  0 <= sector < dev_capacity d ->
  exists d', blk_read_sectors sector 1 (zeros SECTOR_SIZE) d = (Ok (dev_view d sector), d') /\
    (forall t, dev_view d' t = dev_view d t) /\ dev_capacity d' = dev_capacity d.
Proof using BL.
  intros Hs. destruct (dev_in_spec d sector Hs) as (d' & Hin & Hv & Hc).
  exists d'. split; [|done]. unfold blk_read_sectors, mbind, stm_bind.
  rewrite validate_request_ok by (unfold blen; rewrite ?length_zeros; done || lia).
  change (seq 0 (Z.to_nat 1)) with [0%nat]. simpl foldM. unfold mbind, stm_bind, do_request_in.
  rewrite Z.add_0_r, Hin. simpl. unfold splice. rewrite take_0, dev_view_length.
  rewrite drop_ge by (by rewrite length_zeros). by rewrite app_nil_r.
Qed.

Lemma blk_write_one sector data d :
  0 <= sector < dev_capacity d -> length data = SECTOR_SIZE ->
  exists d', blk_write_sectors sector 1 data d = (Ok (), d') /\
    (forall t, dev_view d' t = if decide (t = sector) then data else dev_view d t) /\
    dev_capacity d' = dev_capacity d.
Proof using BL.
  intros Hs Hl. destruct (dev_out_spec d sector data Hs Hl) as (d' & Hout & Hv & Hc).
  exists d'. split; [|done]. unfold blk_write_sectors, mbind, stm_bind.
  rewrite validate_request_ok by (unfold blen; rewrite ?Hl; done || lia).
  change (seq 0 (Z.to_nat 1)) with [0%nat]. simpl foldM. unfold mbind, stm_bind, do_request_out.
  rewrite Z.add_0_r. unfold field. rewrite drop_0, take_ge by lia.
  by rewrite decide_True, Hout.
Qed.

Lemma cache_read_sector_spec sector s :
  disk_ok s -> 0 <= sector < dev_capacity (device s) ->
  exists s', cache_read_sector sector s = (Ok (dev_view (device s) sector), s') /\
    disk_ok s' /\ dev_capacity (device s') = dev_capacity (device s) /\
    (forall t, dev_view (device s') t = dev_view (device s) t).
Proof using BL.
  intros [Hco Hsz] Hs. unfold cache_read_sector. simpl.
  destruct (find_first _ _) as [e|] eqn:Ef.
  - pose proof Ef as Ef'. apply find_first_Some in Ef' as [Hin Hse]. apply sector_is_spec in Hse.
    eexists. split; [destruct Hco as [_ Hco]; by rewrite (Hco e Hin), Hse|].
    split; [|done]. split; simpl.
    + destruct Hco as [Hnd Hco]. split.
      * by rewrite (update_first_keys ce_sector).
      * intros f Hf.
        apply (update_first_elem ce_sector _ sector (sector_is_spec sector) _ _ e) in Hf; [|done|done].
        destruct Hf as [->|[Hf _]]; simpl; auto.
    + unfold blen in *. by rewrite length_update_first.
  - destruct (blk_read_one sector (device s) Hs) as (d' & Hr & Hv & Hc). rewrite Hr.
    eexists. split; [done|]. split; [|done].
    destruct (cache_insert_size sector (dev_view (device s) sector) false
                (wrap 64 (cache_generation (cache s) + 1)) (next_generation (cache s)).2) as [H1 H2];
      [done|].
    split; simpl in *; [|by rewrite H2].
    eapply cache_insert_coherent; [exact Hco|].
    intros t. rewrite Hv. by destruct (decide (t = sector)) as [->|].
Qed.

Lemma cache_write_sector_spec sector data s :
  disk_ok s -> 0 <= sector < dev_capacity (device s) -> length data = SECTOR_SIZE ->
  exists s', cache_write_sector sector data s = (Ok (), s') /\
    disk_ok s' /\ dev_capacity (device s') = dev_capacity (device s) /\
    (forall t, dev_view (device s') t = if decide (t = sector) then data else dev_view (device s) t).
Proof using BL.
  intros [Hco Hsz] Hs Hl. unfold cache_write_sector.
  destruct (blk_write_one sector data (device s) Hs Hl) as (d' & Hr & Hv & Hc). rewrite Hr. simpl.
  eexists. split; [done|]. split; [|done].
  destruct (cache_insert_size sector data false
              (wrap 64 (cache_generation (cache s) + 1)) (next_generation (cache s)).2) as [H1 H2];
    [done|].
  split; simpl in *; [|by rewrite H2].
  by eapply cache_insert_coherent.
Qed.

Lemma cache_read_sectors_spec s sector count buffer :
  disk_ok s -> 0 <= sector -> 0 <= count -> sector + count <= dev_capacity (device s) ->
  count * Z.of_nat SECTOR_SIZE <= blen buffer ->
  exists s',
    cache_read_sectors sector count buffer s =
      (Ok (view_range (dev_view (device s)) sector (Z.to_nat count)
           ++ drop (Z.to_nat count * SECTOR_SIZE) buffer), s') /\
    disk_ok s' /\ dev_capacity (device s') = dev_capacity (device s) /\
    (forall t, dev_view (device s') t = dev_view (device s) t).
Proof using BL.
  intros Hok Hs Hc Hcap Hlen. unfold cache_read_sectors. unfold blen in *.
  destruct (_ <? _) eqn:E; [lia|]. clear E.
  set (P := fun (k : nat) (buf : bytes) (s' : Disk D) =>
    buf = view_range (dev_view (device s)) sector k ++ drop (k * SECTOR_SIZE) buffer /\
    disk_ok s' /\ dev_capacity (device s') = dev_capacity (device s) /\
    (forall t, dev_view (device s') t = dev_view (device s) t)).
  edestruct (foldM_seq_inv P (fun index buf =>
                data ← cache_read_sector (sector + Z.of_nat index);
                mret (splice (index * SECTOR_SIZE) data buf)) (Z.to_nat count) buffer s)
    as (buf & s' & Hf & HP).
  - by unfold P.
  - intros i a t Hi (-> & Hok' & Hcap' & Hv).
    destruct (cache_read_sector_spec (sector + Z.of_nat i) t) as (t' & Hr & Hok'' & Hcap'' & Hv');
      [done|lia|].
    eexists _, t'. unfold mbind, stm_bind. rewrite Hr. split; [done|].
    split_and!; [|done|congruence|intros z; by rewrite Hv', Hv].
    rewrite Hv, splice_step.
    + rewrite dev_view_length, view_range_snoc. do 2 f_equal. lia.
    + rewrite length_view_range; [done|apply dev_view_length].
    + rewrite dev_view_length. nia.
  - destruct HP as (-> & HP). eauto.
Qed.

Lemma cache_write_sectors_spec s sector count buffer :
  disk_ok s -> 0 <= sector -> 0 <= count -> sector + count <= dev_capacity (device s) ->
  count * Z.of_nat SECTOR_SIZE <= blen buffer ->
  exists s',
    cache_write_sectors sector count buffer s = (Ok (), s') /\
    disk_ok s' /\ dev_capacity (device s') = dev_capacity (device s) /\
    (forall t, dev_view (device s') t =
               write_view (dev_view (device s)) sector (Z.to_nat count) buffer t).
Proof using BL.
  intros Hok Hs Hc Hcap Hlen. unfold cache_write_sectors. unfold blen in *.
  destruct (_ <? _) eqn:E; [lia|]. clear E.
  set (P := fun (k : nat) (_ : ()) (s' : Disk D) =>
    disk_ok s' /\ dev_capacity (device s') = dev_capacity (device s) /\
    (forall t, dev_view (device s') t = write_view (dev_view (device s)) sector k buffer t)).
  edestruct (foldM_seq_inv P (fun index _ =>
                cache_write_sector (sector + Z.of_nat index)
                  (field (index * SECTOR_SIZE) SECTOR_SIZE buffer)) (Z.to_nat count) () s)
    as ([] & s' & Hf & HP).
  - unfold P. split_and!; [done|done|]. intros t. unfold write_view.
    by rewrite decide_False by lia.
  - intros i [] t Hi (Hok' & Hcap' & Hv).
    destruct (cache_write_sector_spec (sector + Z.of_nat i)
                (field (i * SECTOR_SIZE) SECTOR_SIZE buffer) t)
      as (t' & Hr & Hok'' & Hcap'' & Hv'); [done|lia|apply field_length; nia|].
    exists (), t'. split; [done|]. split_and!; [done|congruence|].
    intros z. rewrite Hv'. unfold write_view. case_decide as Hz.
    + subst z. rewrite decide_True by lia. do 2 f_equal. lia.
    + rewrite Hv. unfold write_view. destruct (decide (sector <= z < sector + Z.of_nat i)).
      * by rewrite decide_True by lia.
      * by rewrite decide_False by lia.
  - eauto.
Qed.

#[global] Instance Disk_store_laws : SectorStoreLaws (Disk D) := {
  ss_view s := dev_view (device s);
  ss_ok := disk_ok;
  ss_view_length s t := dev_view_length (device s) t;
  ss_capacity_u64 s := dev_capacity_u64 (device s);
  read_sectors_spec := cache_read_sectors_spec;
  write_sectors_spec := cache_write_sectors_spec;
}.
End disk_laws.

(** ** The cache is transparent *)

Inductive disk_op : Type :=
| OpRead (sector count : Z)
| OpWrite (sector count : Z) (buffer : bytes)
| OpFlush
| OpResetCache.

Section transparency.
Context {D : Type} `{BD : BlockDevice D} {BL : BlockDeviceLaws D}.

(** One operation on the cached disk; a read returns its buffer. *)
Definition run_op (op : disk_op) : stm (Disk D) DiskError bytes :=
  match op with
  | OpRead sector count => cache_read_sectors sector count (zeros (Z.to_nat count * SECTOR_SIZE))
  | OpWrite sector count buffer => _ ← cache_write_sectors sector count buffer; mret []
  | OpFlush => _ ← disk_flush; mret []
  | OpResetCache => fun s => (Ok [], reset_cache s)
  end.
Fixpoint run_ops (ops : list disk_op) : stm (Disk D) DiskError (list bytes) :=
  match ops with
  | [] => mret []
  | op :: ops' => out ← run_op op; outs ← run_ops ops'; mret (out :: outs)
  end.

(** The same operations on a plain array of sectors. *)
Definition ref_op (op : disk_op) (v : Z -> bytes) : bytes * (Z -> bytes) :=
  match op with
  | OpRead sector count => (view_range v sector (Z.to_nat count), v)
  | OpWrite sector count buffer => ([], write_view v sector (Z.to_nat count) buffer)
  | OpFlush | OpResetCache => ([], v)
  end.
Fixpoint ref_ops (ops : list disk_op) (v : Z -> bytes) : list bytes * (Z -> bytes) :=
  match ops with
  | [] => ([], v)
  | op :: ops' =>
      let '(out, v1) := ref_op op v in
      let '(outs, v2) := ref_ops ops' v1 in (out :: outs, v2)
  end.

Definition op_in_range (cap : Z) (op : disk_op) : Prop :=
  match op with
  | OpRead sector count => 0 <= sector /\ 0 <= count /\ sector + count <= cap
  | OpWrite sector count buffer =>
      0 <= sector /\ 0 <= count /\ sector + count <= cap /\
      count * Z.of_nat SECTOR_SIZE <= blen buffer
  | _ => True
  end.

Lemma ref_op_ext op v w :
  (forall t, v t = w t) ->
  (ref_op op v).1 = (ref_op op w).1 /\ forall t, (ref_op op v).2 t = (ref_op op w).2 t.
Proof.
  intros Hvw. destruct op; simpl; try done.
  - split; [|done]. apply view_range_ext. auto.
  - split; [done|]. intros t. unfold write_view. by case_decide.
Qed.

Lemma ref_ops_ext ops v w :
  (forall t, v t = w t) ->
  (ref_ops ops v).1 = (ref_ops ops w).1 /\ forall t, (ref_ops ops v).2 t = (ref_ops ops w).2 t.
Proof.
  revert v w. induction ops as [|op ops IH]; intros v w Hvw; simpl; [done|].
  destruct (ref_op_ext op v w Hvw) as [H1 H2].
  destruct (ref_op op v) as [o1 v1], (ref_op op w) as [o2 v2]. simpl in *.
  destruct (IH v1 v2 H2) as [H3 H4].
  destruct (ref_ops ops v1) as [os1 w1], (ref_ops ops v2) as [os2 w2]. simpl in *.
  split; [congruence|done].
Qed.

Lemma run_op_spec op s :
  disk_ok s -> op_in_range (dev_capacity (device s)) op ->
  exists s', run_op op s = (Ok (ref_op op (dev_view (device s))).1, s') /\
    disk_ok s' /\ dev_capacity (device s') = dev_capacity (device s) /\
    (forall t, dev_view (device s') t = (ref_op op (dev_view (device s))).2 t).
Proof using BL.
  intros Hok Hr. destruct op as [sector count|sector count buffer| |]; simpl in Hr.
  - destruct Hr as (H1 & H2 & H3).
    destruct (cache_read_sectors_spec s sector count (zeros (Z.to_nat count * SECTOR_SIZE)))
      as (s' & Hrd & H); [done..| |].
    { unfold blen. rewrite length_zeros. lia. }
    exists s'. split; [|done]. simpl. rewrite Hrd.
    rewrite drop_ge by (by rewrite length_zeros). by rewrite app_nil_r.
  - destruct Hr as (H1 & H2 & H3 & H4).
    destruct (cache_write_sectors_spec s sector count buffer) as (s' & Hwr & H); [done..|].
    exists s'. split; [|done]. simpl. unfold mbind, stm_bind. by rewrite Hwr.
  - eexists. split; [done|]. simpl. split; [|done]. destruct Hok as [[Hnd Hco] Hsz].
    split; simpl; [|unfold blen in *; by rewrite length_map]. split.
    + by rewrite map_map.
    + intros e He. apply list_elem_of_fmap in He as (e' & -> & He'). simpl. auto.
  - eexists. split; [done|]. simpl. split; [|done]. destruct Hok as [_ Hsz].
    split; simpl; [|pose proof (blen_nonneg (cache_entries (cache s))); unfold blen in *; simpl; lia].
    split; [constructor|]. intros e He. by apply elem_of_nil in He.
Qed.

(** C12: every sequence of in-range sector transfers, flushes and cache resets
    on the cached disk succeeds, returns exactly what the same sequence returns
    on a plain array of sectors, and leaves the device with the contents of
    that array; the cache stays coherent and within its capacity throughout. *)
Theorem cache_transparent (ops : list disk_op) (s : Disk D) :
  disk_ok s -> Forall (op_in_range (dev_capacity (device s))) ops ->
  exists s',
    run_ops ops s = (Ok (ref_ops ops (dev_view (device s))).1, s') /\
    (forall t, dev_view (device s') t = (ref_ops ops (dev_view (device s))).2 t) /\
    disk_ok s'.
Proof using BL.
  revert s. induction ops as [|op ops IH]; intros s Hok Hall; [by exists s|].
  apply Forall_cons in Hall as [Hop Hall].
  destruct (run_op_spec op s Hok Hop) as (s1 & H1 & Hok1 & Hcap1 & Hv1).
  destruct (IH s1 Hok1) as (s2 & H2 & Hv2 & Hok2); [by rewrite Hcap1|].
  exists s2. simpl. unfold mbind, stm_bind. rewrite H1, H2.
  destruct (ref_op op (dev_view (device s))) as [out v1]. simpl in *.
  destruct (ref_ops_ext ops _ _ Hv1) as [He1 He2]. rewrite He1 in *.
  destruct (ref_ops ops v1) as [outs v2]. simpl in *.
  split_and!; [done|intros t; by rewrite Hv2|done].
Qed.
End transparency.

(** ** A concrete device: sectors in memory *)

Record RamDev : Type := mkRam { ram_capacity : Z; ram : gmap Z bytes }.

Definition ram_view (d : RamDev) (t : Z) : bytes :=
  take SECTOR_SIZE (default [] (ram d !! t) ++ zeros SECTOR_SIZE).

#[global] Instance RamDev_device : BlockDevice RamDev := {
  dev_capacity d := Z.max 0 (Z.min (ram_capacity d) (2 ^ 40));
  dev_in t d := (Some (ram_view d t), d);
  dev_out t data d := (true, mkRam (ram_capacity d) (<[t := data]> (ram d)));
}.

#[global] Program Instance RamDev_laws : BlockDeviceLaws RamDev := {
  dev_view := ram_view;
}.
Next Obligation.
  intros d t. unfold ram_view. rewrite length_take, length_app, length_zeros. lia.
Qed.
Next Obligation. intros d. unfold u64_max. simpl. lia. Qed.
Next Obligation. intros d s _. by eexists. Qed.
Next Obligation.
  intros d s data _ Hl. eexists. split; [done|]. split; [|done].
  intros t. unfold ram_view. simpl. case_decide as Ht.
  - subst t. rewrite lookup_insert_eq. simpl. by rewrite take_app_length'.
  - by rewrite lookup_insert_ne.
Qed.

Lemma disk_new_ok {D} `{BlockDeviceLaws D} (d : D) : disk_ok (disk_new d).
Proof.
  split; [|done]. split; [constructor|]. intros e He. by apply elem_of_nil in He.
Qed.

Lemma cache_transparent_witness :
  let ops := [OpWrite 3 1 (replicate 512 x41); OpRead 2 2; OpResetCache; OpRead 3 1] in
  exists s',
    run_ops ops (disk_new (mkRam 8 ∅)) =
      (Ok (ref_ops ops (dev_view (mkRam 8 ∅))).1, s') /\
    (forall t, dev_view (device s') t = (ref_ops ops (dev_view (mkRam 8 ∅))).2 t) /\ disk_ok s'.
Proof.
  intros ops. apply (cache_transparent ops (disk_new (mkRam 8 ∅))).
  - apply disk_new_ok.
  - repeat constructor; vm_compute; intuition discriminate.
Defined.
