(* ===== verification/WarFS.v ===== *)
(** * WarFS, the in-memory file system (kernel/src/fs/mod.rs, [impl WarFS])

    The state is the vector of file entries, kept sorted by name.  Every
    operation of [impl WarFS] that changes state is a function on that state;
    the tick counter read by an operation is its argument [now].  The calls
    into the disk layer ([maybe_sync_file_entry], [maybe_delete_path]) go
    through the class [Backend], whose state is threaded along; [Persist]
    provides the instance backed by a disk.

    The theorems: the representation invariant [fs_ok] is kept by every
    operation, and the whole component refines a finite map from canonical
    paths to entries ([spec_op]), including the error returned in every case. *)
From S2P Require Import Prelude RustStr Paths Auth.

Record FileEntry : Type := mkEntry {
  fe_name : bytes;
  fe_data : bytes;
  fe_created_at : Z;
  fe_modified_at : Z;
  fe_readonly : bool;
  fe_owner_uid : Z;
  fe_permissions : FilePermissions;
}.
#[global] Instance FileEntry_eq_dec : EqDecision FileEntry.
Proof. solve_decision. Defined.

Record WarFS : Type := mkFS {
  files : list FileEntry;
  max_files : Z;
}.

Definition fs_new : WarFS := mkFS [] MAX_FILES.

(** What the file system calls in the disk layer. *)
Class Backend (S : Type) : Type := {
  maybe_sync_file_entry : FileEntry -> S -> S;
  maybe_delete_path : bytes -> S -> S;
}.

(** The file system and the disk layer behind it. *)
Record FsWorld (S : Type) : Type := mkWorld {
  fs : WarFS;
  backend : S;
}.
Arguments mkWorld {S} _ _.
Arguments fs {S} _.
Arguments backend {S} _.

Definition name_is (canonical : bytes) (e : FileEntry) : bool := bool_decide (fe_name e = canonical).
Definition name_leb (a b : FileEntry) : bool := bytes_leb (fe_name a) (fe_name b).

Definition find (f : WarFS) (canonical : bytes) : option FileEntry :=
  find_first (name_is canonical) (files f).

(** [find_mut(canonical)] followed by an assignment through the reference. *)
Definition update_entry (canonical : bytes) (g : FileEntry -> FileEntry) (f : WarFS) : WarFS :=
  mkFS (update_first (name_is canonical) g (files f)) (max_files f).

(** [files.push(e)] followed by the sort. *)
Definition push_sorted (e : FileEntry) (f : WarFS) : WarFS :=
  mkFS (sort_by name_leb (files f ++ [e])) (max_files f).

Definition used_space (f : WarFS) : Z := sumZ (map (fun e => blen (fe_data e)) (files f)).
Definition free_space (f : WarFS) : Z := sat_sub TOTAL_CAPACITY (used_space f).
Definition used_without (canonical : bytes) (f : WarFS) : Z :=
  sumZ (map (fun e => blen (fe_data e))
            (List.filter (fun e => negb (name_is canonical e)) (files f))).

Definition owned_file_count (f : WarFS) (id : Z) : Z :=
  blen (List.filter (fun e => fe_owner_uid e =? id) (files f)).

Definition exists_file (f : WarFS) (name : bytes) : bool :=
  match canonical_path name with
  | Ok canonical => match find f canonical with Some _ => true | None => false end
  | Err _ => false
  end.

Definition directory_exists_canonical (f : WarFS) (path : bytes) : bool :=
  if bool_decide (path = [slash]) then true
  else
    let marker_path := directory_marker_path path in
    existsb (fun e => bool_decide (fe_name e = marker_path)
                      || starts_with (fe_name e) (path ++ [slash])) (files f).

(** ** Reading *)

Definition stat_as (f : WarFS) (name : bytes) (id : Z) (r : UserRole) : result FsError FileEntry :=
  canonical ← canonical_path name;
  entry ← ok_or (find f canonical) FileNotFound;
  if negb (can_read (fe_permissions entry) id r) then Err PermissionDenied else Ok entry.

Definition read_as (f : WarFS) (name : bytes) (id : Z) (r : UserRole) : result FsError bytes :=
  canonical ← canonical_path name;
  entry ← ok_or (find f canonical) FileNotFound;
  if negb (can_read (fe_permissions entry) id r) then Err PermissionDenied else Ok (fe_data entry).

Definition read (f : WarFS) (name : bytes) : result FsError bytes := read_as f name 0 Admin.
Definition stat (f : WarFS) (name : bytes) : result FsError FileEntry := stat_as f name 0 Admin.

Definition list_dir_as (f : WarFS) (directory : bytes) (id : Z) (r : UserRole) :
    result FsError (list FileEntry) :=
  canonical ← canonical_directory directory;
  Ok (sort_by name_leb
        (List.filter (fun e => bool_decide (parent_directory (fe_name e) = canonical)
                               && can_read (fe_permissions e) id r) (files f))).

(** ** Writing *)
Section operations.
Context {S : Type} `{Backend S}.

(** [if let Some(entry) = self.find(&canonical) { maybe_sync_file_entry(entry) }] *)
Definition sync_found (canonical : bytes) (w : FsWorld S) : FsWorld S :=
  match find (fs w) canonical with
  | Some e => mkWorld (fs w) (maybe_sync_file_entry e (backend w))
  | None => w
  end.

Definition write_internal_owned (now : Z) (name data : bytes) (id : Z) (r : UserRole)
    (permissions : FilePermissions) (readonly : bool) : stm (FsWorld S) FsError () :=
  fun w =>
    let f := fs w in
    if blen data >? MAX_FILE_SIZE then (Err FileTooLarge, w)
    else match canonical_path name with
    | Err e => (Err e, w)
    | Ok canonical =>
      if bool_decide (canonical = [slash]) then (Err InvalidFilename, w)
      else if sat_add 64 (used_without canonical f) (blen data) >? TOTAL_CAPACITY
      then (Err FilesystemFull, w)
      else match find f canonical with
      | Some entry =>
          if fe_readonly entry then (Err ReadOnly, w)
          else if negb (can_write (fe_permissions entry) id r) then (Err PermissionDenied, w)
          else
            let f' := update_entry canonical
                        (fun e => mkEntry (fe_name e) data (fe_created_at e) now readonly
                                          (fe_owner_uid e) (fe_permissions e)) f in
            (Ok (), sync_found canonical (mkWorld f' (backend w)))
      | None =>
          if max_files f <=? blen (files f) then (Err FilesystemFull, w)
          else
            let f' := push_sorted (mkEntry canonical data now now readonly
                                           (perm_owner_uid permissions) permissions) f in
            (Ok (), sync_found canonical (mkWorld f' (backend w)))
      end
    end.

Definition write_internal := write_internal_owned.
Definition write_system (now : Z) (name data : bytes) (readonly : bool) :=
  write_internal now name data 0 Admin perm_system readonly.
Definition write_as (now : Z) (name data : bytes) (id : Z) (r : UserRole) (p : FilePermissions) :=
  write_internal now name data id r p false.
Definition write_owned_as (now : Z) (name data : bytes) (id : Z) (r : UserRole) (p : FilePermissions) :=
  write_internal_owned now name data id r p false.
Definition write_file (now : Z) (name data : bytes) := write_system now name data false.
Definition write_readonly (now : Z) (name data : bytes) := write_system now name data true.
Definition touch (now : Z) (name : bytes) := write_file now name [].
Definition touch_as (now : Z) (name : bytes) (id : Z) (r : UserRole) (p : FilePermissions) :=
  write_as now name [] id r p.

(** [seed_system]: like a write by the kernel itself, but it overrides the
    read-only flag and resets ownership. *)
Definition seed_system (now : Z) (name data : bytes) (readonly : bool) : stm (FsWorld S) FsError () :=
  fun w =>
    let f := fs w in
    if blen data >? MAX_FILE_SIZE then (Err FileTooLarge, w)
    else match canonical_path name with
    | Err e => (Err e, w)
    | Ok canonical =>
      if bool_decide (canonical = [slash]) then (Err InvalidFilename, w)
      else if sat_add 64 (used_without canonical f) (blen data) >? TOTAL_CAPACITY
      then (Err FilesystemFull, w)
      else match find f canonical with
      | Some _ =>
          let f' := update_entry canonical
                      (fun e => mkEntry (fe_name e) data (fe_created_at e) now readonly
                                        0 perm_system) f in
          (Ok (), sync_found canonical (mkWorld f' (backend w)))
      | None =>
          if max_files f <=? blen (files f) then (Err FilesystemFull, w)
          else
            let f' := push_sorted (mkEntry canonical data now now readonly 0 perm_system) f in
            (Ok (), sync_found canonical (mkWorld f' (backend w)))
      end
    end.

Definition delete_as (name : bytes) (id : Z) (r : UserRole) : stm (FsWorld S) FsError () :=
  fun w =>
    let f := fs w in
    match canonical_path name with
    | Err e => (Err e, w)
    | Ok canonical =>
      match position (name_is canonical) (files f) with
      | None => (Err FileNotFound, w)
      | Some index =>
        match files f !! index with
        | None => (Err FileNotFound, w)
        | Some entry =>
          if fe_readonly entry then (Err ReadOnly, w)
          else if bool_decide (r <> Admin) && negb (fe_owner_uid entry =? id)
          then (Err PermissionDenied, w)
          else (Ok (), mkWorld (mkFS (delete index (files f)) (max_files f))
                               (maybe_delete_path canonical (backend w)))
        end
      end
    end.
Definition delete_file (name : bytes) := delete_as name 0 Admin.

(** A mode string of the right length with a bad letter is rejected after the
    permissions have been assigned, and the change is not synced. *)
Definition chmod_as (name : bytes) (id : Z) (r : UserRole) (mode : bytes) : stm (FsWorld S) FsError () :=
  fun w =>
    let f := fs w in
    match canonical_path name with
    | Err e => (Err e, w)
    | Ok canonical =>
      match find f canonical with
      | None => (Err FileNotFound, w)
      | Some entry =>
        if fe_readonly entry then (Err ReadOnly, w)
        else if bool_decide (r <> Admin) && negb (fe_owner_uid entry =? id)
        then (Err PermissionDenied, w)
        else
          let f' := update_entry canonical
                      (fun e => mkEntry (fe_name e) (fe_data e) (fe_created_at e) (fe_modified_at e)
                                        (fe_readonly e) (fe_owner_uid e)
                                        (apply_mode_string (fe_permissions e) mode).1) f in
          if negb (apply_mode_string (fe_permissions entry) mode).2
          then (Err InvalidFilename, mkWorld f' (backend w))
          else (Ok (), sync_found canonical (mkWorld f' (backend w)))
      end
    end.

Definition create_new_as (now : Z) (name data : bytes) (owner : Z) (permissions : FilePermissions)
    (readonly : bool) : stm (FsWorld S) FsError () :=
  fun w =>
    let f := fs w in
    if blen data >? MAX_FILE_SIZE then (Err FileTooLarge, w)
    else match canonical_path name with
    | Err e => (Err e, w)
    | Ok canonical =>
      if bool_decide (canonical = [slash]) then (Err InvalidFilename, w)
      else match find f canonical with
      | Some _ => (Err AlreadyExists, w)
      | None =>
        if negb (directory_exists_canonical f (parent_directory canonical)) then (Err FileNotFound, w)
        else if max_files f <=? blen (files f) then (Err FilesystemFull, w)
        else if sat_add 64 (used_space f) (blen data) >? TOTAL_CAPACITY then (Err FilesystemFull, w)
        else
          let f' := push_sorted (mkEntry canonical data now now readonly owner permissions) f in
          (Ok (), sync_found canonical (mkWorld f' (backend w)))
      end
    end.
End operations.

(** [load_file_from_disk] does not write back to the disk. *)
Definition set_perm_owner (p : FilePermissions) (owner : Z) : FilePermissions :=
  mkPermissions owner (owner_read p) (owner_write p) (others_read p) (others_write p).

Definition load_file_from_disk (name data : bytes) (owner : Z) (permissions : FilePermissions)
    (readonly : bool) (created_at modified_at : Z) : stm WarFS FsError () :=
  fun f =>
    if blen data >? MAX_FILE_SIZE then (Err FileTooLarge, f)
    else match canonical_path name with
    | Err e => (Err e, f)
    | Ok canonical =>
      if bool_decide (canonical = [slash]) then (Err InvalidFilename, f)
      else if sat_add 64 (used_without canonical f) (blen data) >? TOTAL_CAPACITY
      then (Err FilesystemFull, f)
      else
        let permissions := set_perm_owner permissions owner in
        match find f canonical with
        | Some _ =>
            (Ok (), update_entry canonical
                      (fun e => mkEntry (fe_name e) data created_at modified_at readonly
                                        owner permissions) f)
        | None =>
            if max_files f <=? blen (files f) then (Err FilesystemFull, f)
            else (Ok (), push_sorted (mkEntry canonical data created_at modified_at readonly
                                              owner permissions) f)
        end
    end.

(** ** The representation invariant *)

Definition name_lt (a b : FileEntry) : Prop := bytes_lt (fe_name a) (fe_name b).

Record fs_ok (f : WarFS) : Prop := mkFsOk {
  fo_sorted : StronglySorted name_lt (files f);
  fo_names : Forall (fun e => canonical (fe_name e) /\ fe_name e <> [slash]) (files f);
  fo_sizes : Forall (fun e => blen (fe_data e) <= MAX_FILE_SIZE) (files f);
  fo_count : blen (files f) <= MAX_FILES;
  fo_total : used_space f <= TOTAL_CAPACITY;
  fo_max : max_files f = MAX_FILES;
}.

(** ** The abstract file system: a finite map from canonical paths *)

Definition abs (f : WarFS) : gmap bytes FileEntry :=
  list_to_map (map (fun e => (fe_name e, e)) (files f)).

Definition entries_of (m : gmap bytes FileEntry) : list FileEntry := (map_to_list m).*2.
Definition map_used (m : gmap bytes FileEntry) : Z :=
  sumZ (map (fun e => blen (fe_data e)) (entries_of m)).

Definition spec_dir_exists (m : gmap bytes FileEntry) (path : bytes) : bool :=
  if bool_decide (path = [slash]) then true
  else existsb (fun e => bool_decide (fe_name e = directory_marker_path path)
                         || starts_with (fe_name e) (path ++ [slash])) (entries_of m).

(** Storing [data] under a name: [existing] says what happens to an entry that
    is already there, [fresh] is the entry created otherwise. *)
Definition spec_store (name data : bytes) (existing : FileEntry -> result FsError FileEntry)
    (fresh : bytes -> FileEntry) (m : gmap bytes FileEntry) :
    result FsError () * gmap bytes FileEntry :=
  if blen data >? MAX_FILE_SIZE then (Err FileTooLarge, m)
  else match canonical_path name with
  | Err e => (Err e, m)
  | Ok c =>
    if bool_decide (c = [slash]) then (Err InvalidFilename, m)
    else if map_used (delete c m) + blen data >? TOTAL_CAPACITY then (Err FilesystemFull, m)
    else match m !! c with
    | Some e => match existing e with
                | Ok e' => (Ok (), <[c := e']> m)
                | Err x => (Err x, m)
                end
    | None => if MAX_FILES <=? Z.of_nat (size m) then (Err FilesystemFull, m)
              else (Ok (), <[c := fresh c]> m)
    end
  end.

Inductive fs_op : Type :=
| FsWrite (now : Z) (name data : bytes) (id : Z) (r : UserRole) (p : FilePermissions) (ro : bool)
| FsSeed (now : Z) (name data : bytes) (ro : bool)
| FsDelete (name : bytes) (id : Z) (r : UserRole)
| FsChmod (name : bytes) (id : Z) (r : UserRole) (mode : bytes)
| FsCreate (now : Z) (name data : bytes) (owner : Z) (p : FilePermissions) (ro : bool)
| FsLoad (name data : bytes) (owner : Z) (p : FilePermissions) (ro : bool) (created modified : Z).

(** May [id] with role [r] delete the entry or change its mode? *)
Definition owner_access (e : FileEntry) (id : Z) (r : UserRole) : result FsError () :=
  if fe_readonly e then Err ReadOnly
  else if bool_decide (r <> Admin) && negb (fe_owner_uid e =? id) then Err PermissionDenied
  else Ok ().

Definition set_permissions (p : FilePermissions) (e : FileEntry) : FileEntry :=
  mkEntry (fe_name e) (fe_data e) (fe_created_at e) (fe_modified_at e) (fe_readonly e)
          (fe_owner_uid e) p.

Definition spec_op (op : fs_op) (m : gmap bytes FileEntry) : result FsError () * gmap bytes FileEntry :=
  match op with
  | FsWrite now name data id r p ro =>
      spec_store name data
        (fun e => if fe_readonly e then Err ReadOnly
                  else if negb (can_write (fe_permissions e) id r) then Err PermissionDenied
                  else Ok (mkEntry (fe_name e) data (fe_created_at e) now ro
                                   (fe_owner_uid e) (fe_permissions e)))
        (fun c => mkEntry c data now now ro (perm_owner_uid p) p) m
  | FsSeed now name data ro =>
      spec_store name data
        (fun e => Ok (mkEntry (fe_name e) data (fe_created_at e) now ro 0 perm_system))
        (fun c => mkEntry c data now now ro 0 perm_system) m
  | FsLoad name data owner p ro created modified =>
      spec_store name data
        (fun e => Ok (mkEntry (fe_name e) data created modified ro owner (set_perm_owner p owner)))
        (fun c => mkEntry c data created modified ro owner (set_perm_owner p owner)) m
  | FsDelete name id r =>
      match canonical_path name with
      | Err e => (Err e, m)
      | Ok c => match m !! c with
                | None => (Err FileNotFound, m)
                | Some e => match owner_access e id r with
                            | Err x => (Err x, m)
                            | Ok _ => (Ok (), delete c m)
                            end
                end
      end
  | FsChmod name id r mode =>
      match canonical_path name with
      | Err e => (Err e, m)
      | Ok c => match m !! c with
                | None => (Err FileNotFound, m)
                | Some e => match owner_access e id r with
                            | Err x => (Err x, m)
                            | Ok _ =>
                                let '(p, valid) := apply_mode_string (fe_permissions e) mode in
                                (if valid then Ok () else Err InvalidFilename,
                                 <[c := set_permissions p e]> m)
                            end
                end
      end
  | FsCreate now name data owner p ro =>
      if blen data >? MAX_FILE_SIZE then (Err FileTooLarge, m)
      else match canonical_path name with
      | Err e => (Err e, m)
      | Ok c =>
        if bool_decide (c = [slash]) then (Err InvalidFilename, m)
        else match m !! c with
        | Some _ => (Err AlreadyExists, m)
        | None =>
          if negb (spec_dir_exists m (parent_directory c)) then (Err FileNotFound, m)
          else if MAX_FILES <=? Z.of_nat (size m) then (Err FilesystemFull, m)
          else if map_used m + blen data >? TOTAL_CAPACITY then (Err FilesystemFull, m)
          else (Ok (), <[c := mkEntry c data now now ro owner p]> m)
        end
      end
  end.

Section runs.
Context {S : Type} `{Backend S}.

Definition run_fs_op (op : fs_op) : stm (FsWorld S) FsError () :=
  match op with
  | FsWrite now name data id r p ro => write_internal_owned now name data id r p ro
  | FsSeed now name data ro => seed_system now name data ro
  | FsDelete name id r => delete_as name id r
  | FsChmod name id r mode => chmod_as name id r mode
  | FsCreate now name data owner p ro => create_new_as now name data owner p ro
  | FsLoad name data owner p ro created modified =>
      fun w => let '(res, f) := load_file_from_disk name data owner p ro created modified (fs w) in
               (res, mkWorld f (backend w))
  end.

(** A sequence of operations, with the result each one returned. *)
Fixpoint run_trace (ops : list fs_op) (w : FsWorld S) : list (result FsError ()) * FsWorld S :=
  match ops with
  | [] => ([], w)
  | op :: ops' =>
      let '(r, w1) := run_fs_op op w in
      let '(rs, w2) := run_trace ops' w1 in (r :: rs, w2)
  end.
End runs.

Fixpoint spec_trace (ops : list fs_op) (m : gmap bytes FileEntry) :
    list (result FsError ()) * gmap bytes FileEntry :=
  match ops with
  | [] => ([], m)
  | op :: ops' =>
      let '(r, m1) := spec_op op m in
      let '(rs, m2) := spec_trace ops' m1 in (r :: rs, m2)
  end.

(** ** Lemmas: the list of entries and the map *)

Lemma name_is_spec c e : name_is c e = true <-> fe_name e = c.
Proof. apply bool_decide_eq_true. Qed.

#[global] Instance name_lt_trans : Transitive name_lt.
Proof. intros a b c. unfold name_lt. apply bytes_lt_trans. Qed.

Lemma sorted_names_NoDup l : StronglySorted name_lt l -> NoDup (map fe_name l).
Proof.
  induction 1 as [|e l Hl IH He]; simpl; constructor; [|done].
  rewrite list_elem_of_fmap. intros (e' & Hn & Hin). rewrite Forall_forall in He.
  specialize (He e' Hin). unfold name_lt in He. rewrite Hn in He. by apply bytes_lt_irrefl in He.
Qed.

Lemma fs_ok_NoDup f : fs_ok f -> NoDup (map fe_name (files f)).
Proof. intros H. apply sorted_names_NoDup, H. Qed.

Abbreviation to_map l := (list_to_map (M := gmap bytes FileEntry) (map (fun e => (fe_name e, e)) l)).

Lemma abs_lookup f c : abs f !! c = find f c.
Proof.
  unfold abs, find. induction (files f) as [|e l IH]; simpl; [done|].
  unfold name_is at 1. rewrite lookup_insert.
  destruct (decide (fe_name e = c)); [by rewrite bool_decide_true|by rewrite bool_decide_false].
Qed.

Lemma map_keys l : (map (fun e => (fe_name e, e)) l).*1 = map fe_name l.
Proof. induction l as [|e l IH]; [done|]. cbn. f_equal. apply IH. Qed.

Lemma map_vals l : (map (fun e => (fe_name e, e)) l).*2 = l.
Proof. induction l as [|e l IH]; [done|]. cbn. f_equal. apply IH. Qed.

Lemma entries_of_to_map l : NoDup (map fe_name l) -> Permutation (entries_of (to_map l)) l.
Proof.
  intros Hnd. unfold entries_of. rewrite map_to_list_to_map by (by rewrite map_keys).
  by rewrite map_vals.
Qed.

Lemma map_used_to_map l :
  NoDup (map fe_name l) -> map_used (to_map l) = sumZ (map (fun e => blen (fe_data e)) l).
Proof. intros Hnd. unfold map_used. by rewrite entries_of_to_map. Qed.

Lemma map_used_abs f : fs_ok f -> map_used (abs f) = used_space f.
Proof. intros H. apply map_used_to_map. by apply fs_ok_NoDup. Qed.

Lemma size_abs f : fs_ok f -> Z.of_nat (size (abs f)) = blen (files f).
Proof.
  intros H. unfold abs, blen. f_equal.
  transitivity (length (entries_of (to_map (files f)))).
  - unfold entries_of. by rewrite length_fmap, length_map_to_list.
  - rewrite entries_of_to_map; [done|by apply fs_ok_NoDup].
Qed.

Lemma NoDup_names_filter p l : NoDup (map fe_name l) -> NoDup (map fe_name (List.filter p l)).
Proof.
  induction l as [|e l IH]; simpl; [done|]. intros [He Hnd]%NoDup_cons.
  destruct (p e); simpl; [|auto]. constructor; [|auto].
  intros Hin. apply He. apply list_elem_of_fmap in Hin as (e' & Heq & Hin).
  apply list_elem_of_fmap. exists e'. split; [done|].
  apply list_elem_of_In, List.filter_In in Hin as [Hin _]. by apply list_elem_of_In.
Qed.

Lemma to_map_filter c l :
  to_map (List.filter (fun e => negb (name_is c e)) l) = delete c (to_map l).
Proof.
  induction l as [|e l IH]; simpl; [by rewrite delete_empty|].
  unfold name_is at 1. case_bool_decide as E; simpl.
  - subst c. rewrite IH. by rewrite delete_insert_eq.
  - rewrite IH. by rewrite delete_insert_ne.
Qed.

Lemma used_without_abs c f : fs_ok f -> used_without c f = map_used (delete c (abs f)).
Proof.
  intros H. unfold used_without, abs. rewrite <- to_map_filter.
  rewrite map_used_to_map; [done|]. by apply NoDup_names_filter, fs_ok_NoDup.
Qed.

Lemma map_used_nonneg m : 0 <= map_used m.
Proof.
  unfold map_used. apply sumZ_nonneg, Forall_forall. intros z Hz.
  apply list_elem_of_fmap in Hz as (e & -> & _). apply blen_nonneg.
Qed.

Lemma map_used_insert m c e :
  map_used (<[c := e]> m) = blen (fe_data e) + map_used (delete c m).
Proof.
  rewrite <- insert_delete_eq. unfold map_used, entries_of.
  rewrite map_to_list_insert by apply lookup_delete_eq. done.
Qed.

Lemma map_used_delete m c : map_used (delete c m) <= map_used m.
Proof.
  destruct (m !! c) as [e|] eqn:E.
  - rewrite <- (insert_id m c e E) at 2. rewrite map_used_insert.
    pose proof (blen_nonneg (fe_data e)). lia.
  - by rewrite delete_id.
Qed.

Lemma to_map_perm l l' : NoDup (map fe_name l) -> Permutation l l' -> to_map l = to_map l'.
Proof.
  intros Hnd Hp. apply list_to_map_proper; [by rewrite map_keys|]. by rewrite Hp.
Qed.

Lemma push_sorted_perm e f : Permutation (files (push_sorted e f)) (e :: files f).
Proof. simpl. rewrite sort_by_perm. by rewrite Permutation_app_comm. Qed.

Lemma fresh_NoDup f e :
  fs_ok f -> find f (fe_name e) = None -> NoDup (map fe_name (e :: files f)).
Proof.
  intros H Hf. simpl. constructor; [|by apply fs_ok_NoDup].
  by apply (find_key_None fe_name _ _ (name_is_spec (fe_name e))).
Qed.

Lemma abs_push f e :
  fs_ok f -> find f (fe_name e) = None -> abs (push_sorted e f) = <[fe_name e := e]> (abs f).
Proof.
  intros H Hf. unfold abs.
  rewrite (to_map_perm (files (push_sorted e f)) (e :: files f)); [done| |apply push_sorted_perm].
  rewrite push_sorted_perm. by apply fresh_NoDup.
Qed.

Lemma abs_update f c g x :
  find f c = Some x -> (forall e, fe_name (g e) = fe_name e) ->
  abs (update_entry c g f) = <[c := g x]> (abs f).
Proof.
  intros Hx Hg. unfold abs, find in *. simpl.
  induction (files f) as [|e l IH]; simpl in *; [done|].
  destruct (name_is c e) eqn:E; simpl; rewrite ?Hg.
  - simplify_eq. apply name_is_spec in E. rewrite E. by rewrite insert_insert_eq.
  - rewrite IH by done. rewrite insert_insert_ne; [done|].
    intros Heq%name_is_spec. congruence.
Qed.

Lemma abs_delete f c i :
  fs_ok f -> position (name_is c) (files f) = Some i ->
  to_map (delete i (files f)) = delete c (abs f).
Proof.
  intros H%fs_ok_NoDup. unfold abs. revert i.
  induction (files f) as [|e l IH]; intros i; simpl in *; [done|].
  apply NoDup_cons in H as [He Hnd]. destruct (name_is c e) eqn:E.
  - intros [= <-]. apply name_is_spec in E. subst c. simpl.
    rewrite delete_insert_id; [done|].
    apply not_elem_of_list_to_map. by rewrite map_keys.
  - destruct (position _ l) as [j|]; simpl; [|done]. intros [= <-]. simpl.
    rewrite IH by done. rewrite delete_insert_ne; [done|].
    intros Heq%eq_sym%name_is_spec. congruence.
Qed.

(** ** Lemmas: each kind of change keeps the invariant *)

Lemma entry_name_ok f c x : fs_ok f -> find f c = Some x -> x ∈ files f /\ fe_name x = c.
Proof.
  intros H Hx. apply (find_key_Some fe_name _ c (name_is_spec c)); [by apply fs_ok_NoDup|done].
Qed.

Lemma sorted_strict l :
  StronglySorted (fun a b => fe_name a = fe_name b \/ name_lt a b) l ->
  NoDup (map fe_name l) -> StronglySorted name_lt l.
Proof.
  induction 1 as [|e l Hl IH He]; simpl; [constructor|]. intros [Hn Hnd]%NoDup_cons.
  constructor; [auto|]. rewrite Forall_forall in He |- *. intros e' He'.
  destruct (He e' He') as [Heq|Hlt]; [|done]. exfalso. apply Hn.
  rewrite Heq. by apply list_elem_of_fmap_2.
Qed.

Lemma push_sorted_sorted f e :
  fs_ok f -> find f (fe_name e) = None -> StronglySorted name_lt (files (push_sorted e f)).
Proof.
  intros H Hf. apply sorted_strict.
  - simpl. apply sort_by_sorted.
    + intros a b c [Hab|Hab] [Hbc|Hbc]; unfold name_lt in *;
        [left; congruence|right; by rewrite Hab|right; by rewrite <- Hbc|right; by etransitivity].
    + intros a b Hab. by apply bytes_leb_spec.
    + intros a b Hab. right. by apply bytes_leb_false.
  - rewrite push_sorted_perm. by apply fresh_NoDup.
Qed.

Lemma used_space_push e f : used_space (push_sorted e f) = blen (fe_data e) + used_space f.
Proof. unfold used_space. rewrite push_sorted_perm. done. Qed.

Lemma push_sorted_ok f e :
  fs_ok f -> find f (fe_name e) = None -> canonical (fe_name e) -> fe_name e <> [slash] ->
  blen (fe_data e) <= MAX_FILE_SIZE -> blen (files f) < MAX_FILES ->
  used_space f + blen (fe_data e) <= TOTAL_CAPACITY ->
  fs_ok (push_sorted e f).
Proof.
  intros H Hf Hc Hr Hs Hn Ht. split.
  - by apply push_sorted_sorted.
  - rewrite push_sorted_perm. constructor; [done|apply H].
  - rewrite push_sorted_perm. constructor; [done|apply H].
  - unfold blen in *. rewrite push_sorted_perm. simpl. lia.
  - rewrite used_space_push. lia.
  - apply H.
Qed.

Lemma update_first_Forall {A} (P : A -> Prop) (p : A -> bool) g l :
  (forall x, P x -> p x = true -> P (g x)) -> Forall P l -> Forall P (update_first p g l).
Proof.
  intros Hg. induction 1 as [|x l Hx Hl IH]; simpl; [constructor|].
  destruct (p x) eqn:E; constructor; auto.
Qed.

Lemma update_first_sorted p g l :
  (forall e, fe_name (g e) = fe_name e) ->
  StronglySorted name_lt l -> StronglySorted name_lt (update_first p g l).
Proof.
  intros Hg. induction 1 as [|e l Hl IH He]; simpl; [constructor|].
  destruct (p e); constructor; try done.
  - eapply Forall_impl; [exact He|]. unfold name_lt. intros e'. by rewrite Hg.
  - apply update_first_Forall; [|done]. intros e'. unfold name_lt. by rewrite Hg.
Qed.

(** Rewriting an entry under the same name, its new size accounted for. *)
Lemma update_entry_ok f c g x :
  fs_ok f -> find f c = Some x -> (forall e, fe_name (g e) = fe_name e) ->
  (forall e, blen (fe_data e) <= MAX_FILE_SIZE -> blen (fe_data (g e)) <= MAX_FILE_SIZE) ->
  used_without c f + blen (fe_data (g x)) <= TOTAL_CAPACITY ->
  fs_ok (update_entry c g f).
Proof.
  intros H Hx Hg Hs Ht.
  assert (StronglySorted name_lt (files (update_entry c g f))) as Hsort
    by (apply update_first_sorted; [done|apply H]).
  split; try done.
  - apply update_first_Forall; [|apply H]. intros e. by rewrite Hg.
  - apply update_first_Forall; [|apply H]. auto.
  - unfold blen. simpl. rewrite length_update_first. apply H.
  - unfold used_space. rewrite <- map_used_to_map by (by apply sorted_names_NoDup).
    change (to_map (files (update_entry c g f))) with (abs (update_entry c g f)).
    rewrite (abs_update _ _ _ x), map_used_insert, <- used_without_abs by done. lia.
  - apply H.
Qed.

Lemma delete_ok f c i :
  fs_ok f -> position (name_is c) (files f) = Some i ->
  fs_ok (mkFS (delete i (files f)) (max_files f)).
Proof.
  intros H Hi. destruct (delete_position_perm _ _ _ Hi) as (x & _ & Hp).
  assert (forall P : FileEntry -> Prop, Forall P (files f) -> Forall P (delete i (files f))) as Hall.
  { intros P HP. rewrite Hp in HP. by apply Forall_cons in HP as [_ HP]. }
  split; simpl.
  - apply StronglySorted_delete, H.
  - apply Hall, H.
  - apply Hall, H.
  - pose proof (fo_count f H) as Hc. unfold blen in *. rewrite Hp in Hc. simpl in Hc. lia.
  - pose proof (fo_total f H) as Ht. unfold used_space in *. rewrite Hp in Ht. simpl in *.
    pose proof (blen_nonneg (fe_data x)). lia.
  - apply H.
Qed.

(** ** Lemmas: each operation refines its specification *)

Lemma capacity_test a b :
  0 <= a -> 0 <= b -> (sat_add 64 a b >? TOTAL_CAPACITY) = (a + b >? TOTAL_CAPACITY).
Proof. intros Ha Hb. unfold sat_add, TOTAL_CAPACITY. lia. Qed.

Lemma dir_exists_abs f p :
  fs_ok f -> spec_dir_exists (abs f) p = directory_exists_canonical f p.
Proof.
  intros H. unfold spec_dir_exists, directory_exists_canonical. case_bool_decide; [done|].
  apply eq_iff_eq_true. rewrite !existsb_exists.
  setoid_rewrite <- list_elem_of_In. by setoid_rewrite (entries_of_to_map _ (fs_ok_NoDup f H)).
Qed.

Section refinement.
Context {S : Type} `{Backend S}.

Lemma sync_found_fs c (w : FsWorld S) : fs (sync_found c w) = fs w.
Proof. unfold sync_found. by destruct (find (fs w) c). Qed.

(** [res] and the new state are those of the specification, and the invariant
    still holds. *)
Definition refines (out : result FsError () * FsWorld S)
    (spec : result FsError () * gmap bytes FileEntry) : Prop :=
  out.1 = spec.1 /\ abs (fs out.2) = spec.2 /\ fs_ok (fs out.2).

Lemma refines_same w e m : fs_ok (fs w) -> abs (fs w) = m -> refines (Err e, w) (Err e, m).
Proof. by unfold refines. Qed.

Lemma refines_push e c (w : FsWorld S) :
  fs_ok (fs w) -> find (fs w) c = None -> fe_name e = c -> canonical c -> c <> [slash] ->
  blen (fe_data e) <= MAX_FILE_SIZE -> blen (files (fs w)) < MAX_FILES ->
  used_space (fs w) + blen (fe_data e) <= TOTAL_CAPACITY ->
  refines (Ok (), sync_found c (mkWorld (push_sorted e (fs w)) (backend w)))
          (Ok (), <[c := e]> (abs (fs w))).
Proof.
  intros Hok Hf <- Hc Hr Hs Hn Ht. unfold refines. cbn [fst snd]. rewrite sync_found_fs. cbn [fs].
  split; [done|]. split; [by apply abs_push|by apply push_sorted_ok].
Qed.

Lemma refines_update g c x (w : FsWorld S) :
  fs_ok (fs w) -> find (fs w) c = Some x -> (forall e, fe_name (g e) = fe_name e) ->
  (forall e, blen (fe_data e) <= MAX_FILE_SIZE -> blen (fe_data (g e)) <= MAX_FILE_SIZE) ->
  used_without c (fs w) + blen (fe_data (g x)) <= TOTAL_CAPACITY ->
  refines (Ok (), sync_found c (mkWorld (update_entry c g (fs w)) (backend w)))
          (Ok (), <[c := g x]> (abs (fs w))).
Proof.
  intros Hok Hx Hg Hs Ht. unfold refines. cbn [fst snd]. rewrite sync_found_fs. cbn [fs].
  split; [done|]. split; [by apply abs_update|by eapply update_entry_ok].
Qed.

Lemma used_without_le c f : fs_ok f -> 0 <= used_without c f <= used_space f.
Proof.
  intros Hok. rewrite used_without_abs, <- map_used_abs by done.
  split; [apply map_used_nonneg|apply map_used_delete].
Qed.

Lemma used_without_fresh c f : fs_ok f -> find f c = None -> used_without c f = used_space f.
Proof.
  intros Hok Hf. rewrite used_without_abs by done. rewrite delete_id; [by apply map_used_abs|].
  by rewrite abs_lookup.
Qed.

(** The three operations that store data under a name differ only in what they
    do to an existing entry ([old]) and in the entry they create ([new]). *)
Definition store_generic (name data : bytes) (old : FileEntry -> result FsError (FileEntry -> FileEntry))
    (new : bytes -> FileEntry) (w : FsWorld S) : result FsError () * FsWorld S :=
  if blen data >? MAX_FILE_SIZE then (Err FileTooLarge, w)
  else match canonical_path name with
  | Err e => (Err e, w)
  | Ok c =>
    if bool_decide (c = [slash]) then (Err InvalidFilename, w)
    else if sat_add 64 (used_without c (fs w)) (blen data) >? TOTAL_CAPACITY
    then (Err FilesystemFull, w)
    else match find (fs w) c with
    | Some x => match old x with
                | Err e => (Err e, w)
                | Ok g => (Ok (), sync_found c (mkWorld (update_entry c g (fs w)) (backend w)))
                end
    | None =>
        if max_files (fs w) <=? blen (files (fs w)) then (Err FilesystemFull, w)
        else (Ok (), sync_found c (mkWorld (push_sorted (new c) (fs w)) (backend w)))
    end
  end.

Lemma store_refines name data old new (w : FsWorld S) :
  fs_ok (fs w) ->
  (forall e g, old e = Ok g -> forall e', fe_name (g e') = fe_name e' /\ fe_data (g e') = data) ->
  (forall c, fe_name (new c) = c /\ fe_data (new c) = data) ->
  refines (store_generic name data old new w)
          (spec_store name data (fun e => g ← old e; Ok (g e)) new (abs (fs w))).
Proof.
  intros Hok Hold Hnew. unfold spec_store, store_generic.
  destruct (blen data >? MAX_FILE_SIZE) eqn:Es; [by apply refines_same|].
  destruct (canonical_path name) as [c|e] eqn:Ec; [|by apply refines_same].
  case_bool_decide as Er; [by apply refines_same|].
  pose proof (used_without_le c (fs w) Hok) as Hu.
  rewrite capacity_test, <- used_without_abs by (done || apply blen_nonneg || lia).
  destruct (_ + _ >? _) eqn:Et; [by apply refines_same|].
  rewrite abs_lookup, size_abs, (fo_max _ Hok) by done.
  apply canonical_path_canonical in Ec.
  destruct (find (fs w) c) as [x|] eqn:Ef.
  - destruct (old x) as [g|e] eqn:Eo; simpl; [|by apply refines_same].
    specialize (Hold x g Eo). apply refines_update; try done.
    + intros e. apply Hold.
    + intros e _. destruct (Hold e) as [_ ->]. lia.
    + destruct (Hold x) as [_ ->]. lia.
  - destruct (_ <=? _) eqn:En; [by apply refines_same|].
    destruct (Hnew c) as [Hn1 Hn2]. rewrite used_without_fresh in Et by done.
    apply refines_push; rewrite ?Hn2; try done; lia.
Qed.

Lemma spec_store_ext name data ex ex' new m :
  (forall e, ex e = ex' e) -> spec_store name data ex new m = spec_store name data ex' new m.
Proof.
  intros Hex. unfold spec_store. repeat (case_match; try done); rewrite Hex in *; congruence.
Qed.

Lemma write_refines now name data id r p ro (w : FsWorld S) :
  fs_ok (fs w) ->
  refines (run_fs_op (FsWrite now name data id r p ro) w)
          (spec_op (FsWrite now name data id r p ro) (abs (fs w))).
Proof.
  intros Hok. set (g := fun e => mkEntry (fe_name e) data (fe_created_at e) now ro
                                         (fe_owner_uid e) (fe_permissions e)).
  set (old := fun e : FileEntry =>
         if fe_readonly e then Err ReadOnly
         else if negb (can_write (fe_permissions e) id r) then Err PermissionDenied else Ok g).
  unfold spec_op. rewrite (spec_store_ext _ _ _ (fun e => g ← old e; Ok (g e))).
  2: { intros e. unfold old. by repeat case_match. }
  assert (run_fs_op (FsWrite now name data id r p ro) w =
          store_generic name data old (fun c => mkEntry c data now now ro (perm_owner_uid p) p) w) as ->.
  { unfold run_fs_op, write_internal_owned, store_generic.
    destruct (_ >? _); [done|]. destruct (canonical_path name); [|done].
    destruct (bool_decide _); [done|]. destruct (_ >? _); [done|].
    destruct (find _ _) as [x|]; [|done]. unfold old. by repeat case_match. }
  apply store_refines; [done| |done].
  intros e g' He e'. unfold old in He. repeat case_match; by simplify_eq.
Qed.

Lemma seed_refines now name data ro (w : FsWorld S) :
  fs_ok (fs w) ->
  refines (run_fs_op (FsSeed now name data ro) w) (spec_op (FsSeed now name data ro) (abs (fs w))).
Proof.
  intros Hok.
  apply (store_refines name data
    (fun _ => Ok (fun e => mkEntry (fe_name e) data (fe_created_at e) now ro 0 perm_system))
    (fun c => mkEntry c data now now ro 0 perm_system) w Hok); [|done].
  intros e g [= <-] e'. done.
Qed.

Lemma load_refines name data owner p ro created modified (w : FsWorld S) :
  fs_ok (fs w) ->
  refines (run_fs_op (FsLoad name data owner p ro created modified) w)
          (spec_op (FsLoad name data owner p ro created modified) (abs (fs w))).
Proof.
  intros Hok. set (p' := set_perm_owner p owner).
  set (old := fun _ : FileEntry => Ok (E := FsError) (fun e => mkEntry (fe_name e) data created modified ro owner p')).
  set (new := fun c => mkEntry c data created modified ro owner p').
  pose proof (store_refines name data old new w Hok) as Hst.
  assert (run_fs_op (FsLoad name data owner p ro created modified) w =
          ((store_generic name data old new w).1,
           mkWorld (fs (store_generic name data old new w).2) (backend w))) as ->.
  { unfold run_fs_op, load_file_from_disk, store_generic. destruct w as [f b]. simpl.
    destruct (_ >? _); [done|]. destruct (canonical_path name); [|done].
    destruct (bool_decide _); [done|]. destruct (_ >? _); [done|].
    destruct (find _ _) as [x|]; [simpl; by rewrite sync_found_fs|].
    destruct (_ <=? _); [done|]. simpl. by rewrite sync_found_fs. }
  unfold refines in *. apply Hst; [|done]. intros e g [= <-] e'. done.
Qed.

Lemma owner_access_cases e id r :
  owner_access e id r =
  if fe_readonly e then Err ReadOnly
  else if bool_decide (r <> Admin) && negb (fe_owner_uid e =? id) then Err PermissionDenied
  else Ok ().
Proof. done. Qed.

Lemma delete_refines name id r (w : FsWorld S) :
  fs_ok (fs w) ->
  refines (run_fs_op (FsDelete name id r) w) (spec_op (FsDelete name id r) (abs (fs w))).
Proof.
  intros Hok. simpl. unfold delete_as.
  destruct (canonical_path name) as [c|e]; [|by apply refines_same].
  rewrite abs_lookup. unfold find. rewrite <- position_find.
  destruct (position _ _) as [i|] eqn:Ei; simpl; [|by apply refines_same].
  destruct (position_Some _ _ _ Ei) as (x & Hx & Hn). rewrite Hx. rewrite owner_access_cases.
  destruct (fe_readonly x); [by apply refines_same|].
  destruct (_ && _); [by apply refines_same|].
  unfold refines. simpl. split; [done|]. split; [by apply abs_delete|by eapply delete_ok].
Qed.

Lemma chmod_refines name id r mode (w : FsWorld S) :
  fs_ok (fs w) ->
  refines (run_fs_op (FsChmod name id r mode) w) (spec_op (FsChmod name id r mode) (abs (fs w))).
Proof.
  intros Hok. unfold run_fs_op, chmod_as, spec_op.
  destruct (canonical_path name) as [c|e]; [|by apply refines_same].
  rewrite abs_lookup. destruct (find (fs w) c) as [x|] eqn:Ef; [|by apply refines_same].
  rewrite owner_access_cases.
  destruct (fe_readonly x); [by apply refines_same|].
  destruct (_ && _); [by apply refines_same|].
  set (g := fun e => mkEntry _ _ _ _ _ _ _).
  destruct (apply_mode_string (fe_permissions x) mode) as [p' valid] eqn:Em. simpl.
  pose proof (used_without_le c (fs w) Hok) as Hu. pose proof (fo_total _ Hok) as Ht.
  assert (set_permissions p' x = g x) as ->.
  { unfold set_permissions, g. by rewrite Em. }
  assert (used_without c (fs w) + blen (fe_data (g x)) <= TOTAL_CAPACITY) as Htot.
  { rewrite used_without_abs by done. rewrite <- map_used_abs in Ht by done.
    rewrite <- (insert_id (abs (fs w)) c x) in Ht by (by rewrite abs_lookup).
    rewrite map_used_insert in Ht. simpl. lia. }
  pose proof (refines_update g c x w Hok Ef (fun _ => eq_refl) (fun _ Hl => Hl) Htot) as (_ & Habs & Hok').
  cbn [snd] in *. rewrite sync_found_fs in *.
  unfold refines. destruct valid; cbn [negb fst snd]; rewrite ?sync_found_fs; done.
Qed.

Lemma create_refines now name data owner p ro (w : FsWorld S) :
  fs_ok (fs w) ->
  refines (run_fs_op (FsCreate now name data owner p ro) w)
          (spec_op (FsCreate now name data owner p ro) (abs (fs w))).
Proof.
  intros Hok. unfold run_fs_op, create_new_as, spec_op.
  destruct (blen data >? MAX_FILE_SIZE) eqn:Es; [by apply refines_same|].
  destruct (canonical_path name) as [c|e] eqn:Ec; [|by apply refines_same].
  case_bool_decide as Er; [by apply refines_same|].
  rewrite abs_lookup, dir_exists_abs, size_abs, map_used_abs, (fo_max _ Hok) by done.
  apply canonical_path_canonical in Ec.
  destruct (find (fs w) c) as [x|] eqn:Ef; [by apply refines_same|].
  destruct (negb _); [by apply refines_same|].
  destruct (MAX_FILES <=? _) eqn:En; [by apply refines_same|].
  pose proof (used_without_le c (fs w) Hok) as Hu.
  rewrite capacity_test by (lia || apply blen_nonneg).
  destruct (_ + _ >? _) eqn:Et; [by apply refines_same|].
  apply refines_push; simpl; try done; lia.
Qed.

Lemma op_refines op (w : FsWorld S) :
  fs_ok (fs w) -> refines (run_fs_op op w) (spec_op op (abs (fs w))).
Proof.
  destruct op; [apply write_refines|apply seed_refines|apply delete_refines|
                apply chmod_refines|apply create_refines|apply load_refines].
Qed.

Lemma trace_refines ops (w : FsWorld S) :
  fs_ok (fs w) ->
  (run_trace ops w).1 = (spec_trace ops (abs (fs w))).1 /\
  abs (fs (run_trace ops w).2) = (spec_trace ops (abs (fs w))).2 /\
  fs_ok (fs (run_trace ops w).2).
Proof.
  revert w. induction ops as [|op ops IH]; intros w Hok; simpl; [done|].
  destruct (op_refines op w Hok) as (Hr & Habs & Hok').
  destruct (run_fs_op op w) as [r w1], (spec_op op (abs (fs w))) as [r' m1]. simpl in *. subst.
  destruct (IH w1 Hok') as (Hrs & Habs' & Hok'').
  destruct (run_trace ops w1) as [rs w2], (spec_trace ops (abs (fs w1))) as [rs' m2]. simpl in *.
  split_and!; congruence || done.
Qed.
End refinement.

Lemma fs_new_ok : fs_ok fs_new.
Proof. split; try done; constructor. Qed.

(** ** Theorems *)

Section theorems.
Context {S : Type} `{Backend S}.


(** In every reachable state the entries are strictly sorted by name (so
    names are unique), every name is a canonical path other than the root,
    there are at most [MAX_FILES] files, none larger than [MAX_FILE_SIZE], and
    their total size is within [TOTAL_CAPACITY]. *)
Theorem warfs_reachable_ok (b : S) (ops : list fs_op) :
  fs_ok (fs (run_trace ops (mkWorld fs_new b)).2).
Proof. apply (trace_refines ops (mkWorld fs_new b) fs_new_ok). Qed.

Lemma spec_store_Ok name data ex new m m' :
  spec_store name data ex new m = (Ok (), m') ->
  exists c e, canonical_path name = Ok c /\ m' = <[c := e]> m /\
    (m !! c = None /\ e = new c \/ exists x, m !! c = Some x /\ ex x = Ok e).
Proof.
  unfold spec_store. intros Hs. repeat (case_match; simplify_eq/=); naive_solver.
Qed.

Lemma stat_as_abs (f : WarFS) name id r :
  stat_as f name id r =
  (c ← canonical_path name; e ← ok_or (abs f !! c) FileNotFound;
   if negb (can_read (fe_permissions e) id r) then Err PermissionDenied else Ok e).
Proof.
  unfold stat_as. destruct (canonical_path name); simpl; [|done]. by rewrite abs_lookup.
Qed.

(** After a successful write, reading the same file (under any spelling of
    its path) returns the written bytes, and no other file has changed for any
    user. *)
Theorem write_then_read now name data id r p ro (w w' : FsWorld S) :
  fs_ok (fs w) ->
  write_internal_owned now name data id r p ro w = (Ok (), w') ->
  (forall name', canonical_path name' = canonical_path name -> read (fs w') name' = Ok data) /\
  (forall name' id' r', canonical_path name' <> canonical_path name ->
     stat_as (fs w') name' id' r' = stat_as (fs w) name' id' r').
Proof.
  intros Hok Hw. pose proof (write_refines now name data id r p ro w Hok) as (Hr & Habs & Hok').
  simpl in Hr, Habs. rewrite Hw in Hr, Habs. simpl in Hr, Habs.
  destruct (spec_store _ _ _ _ _) as [r1 m1] eqn:Es. simpl in *. subst r1.
  apply spec_store_Ok in Es as (c & e & Hc & -> & He).
  assert (fe_data e = data) as Hdata.
  { destruct He as [[_ ->]|(x & _ & Hx)]; [done|]. by repeat case_match; simplify_eq. }
  split.
  - intros name' Hn. unfold read, read_as. rewrite Hn, Hc. simpl.
    by rewrite <- abs_lookup, Habs, lookup_insert_eq; simpl; rewrite Hdata.
  - intros name' id' r' Hn. rewrite !stat_as_abs, Habs.
    destruct (canonical_path name') as [c'|]; simpl; [|done].
    rewrite lookup_insert_ne; [done|]. congruence.
Qed.

(** Operations available to users: all but the kernel's own seeding and the
    loading of the disk image at boot. *)
Definition user_op (op : fs_op) : Prop :=
  match op with FsSeed _ _ _ _ | FsLoad _ _ _ _ _ _ _ => False | _ => True end.

Lemma spec_op_readonly op m c e :
  user_op op -> m !! c = Some e -> fe_readonly e = true -> (spec_op op m).2 !! c = Some e.
Proof.
  intros Hop Hc Hro.
  destruct op as [now name data id r p ro|now name data ro|name id r|name id r mode|
                  now name data owner p ro|]; simpl in Hop |- *; try done.
  - destruct (spec_store _ _ _ _ _) as [[[]|x] m'] eqn:Es; simpl.
    + apply spec_store_Ok in Es as (c' & e' & _ & -> & He).
      destruct (decide (c' = c)) as [->|]; [|by rewrite lookup_insert_ne].
      destruct He as [[He _]|(x & Hx & He)]; [congruence|]. simplify_eq. by rewrite Hro in He.
    + unfold spec_store in Es. by repeat (case_match; simplify_eq/=).
  - destruct (canonical_path name) as [c'|]; [|done].
    destruct (decide (c' = c)) as [->|Hne].
    + rewrite Hc. unfold owner_access. by rewrite Hro.
    + repeat case_match; simpl; rewrite ?lookup_delete_ne; done.
  - destruct (canonical_path name) as [c'|]; [|done].
    destruct (decide (c' = c)) as [->|Hne].
    + rewrite Hc. unfold owner_access. by rewrite Hro.
    + repeat case_match; simpl; rewrite ?lookup_insert_ne; done.
  - repeat (case_match; simplify_eq/=; try done).
    rewrite lookup_insert_ne; [done|]. congruence.
Qed.

(** An entry no operation of a sequence can change stays. *)
Lemma trace_keeps (P : fs_op -> Prop) (ops : list fs_op) (w : FsWorld S) c e :
  (forall op m, P op -> m !! c = Some e -> (spec_op op m).2 !! c = Some e) ->
  fs_ok (fs w) -> find (fs w) c = Some e -> Forall P ops ->
  find (fs (run_trace ops w).2) c = Some e.
Proof.
  intros Hkeep Hok Hf Hops. destruct (trace_refines ops w Hok) as (_ & Habs & _).
  rewrite <- abs_lookup, Habs. rewrite <- abs_lookup in Hf. clear Habs Hok.
  revert Hf. generalize (abs (fs w)). induction Hops as [|op ops Hop Hops IH]; intros m Hf; simpl; [done|].
  pose proof (Hkeep op m Hop Hf) as H1.
  destruct (spec_op op m) as [r1 m1]. specialize (IH m1 H1).
  by destruct (spec_trace ops m1).
Qed.

(** Whatever users do, an entry marked read-only stays exactly as it is:
    contents, owner, permissions and timestamps. *)
Theorem readonly_immutable (ops : list fs_op) (w : FsWorld S) c e :
  fs_ok (fs w) -> find (fs w) c = Some e -> fe_readonly e = true -> Forall user_op ops ->
  find (fs (run_trace ops w).2) c = Some e.
Proof.
  intros Hok Hf Hro Hops. apply (trace_keeps user_op); try done.
  intros op m Hop Hm. by apply spec_op_readonly.
Qed.

(** The user an operation acts for. *)
Definition op_actor (op : fs_op) : option (Z * UserRole) :=
  match op with
  | FsWrite _ _ _ id r _ _ | FsDelete _ id r | FsChmod _ id r _ => Some (id, r)
  | _ => None
  end.

(** Operations that may touch existing entries only with [id]'s rights. *)
Definition acts_as (id : Z) (r : UserRole) (op : fs_op) : Prop :=
  op_actor op = Some (id, r) \/ match op with FsCreate _ _ _ _ _ _ => True | _ => False end.

Lemma spec_op_unauthorised op m c e id r :
  m !! c = Some e -> acts_as id r op -> r <> Admin -> fe_owner_uid e <> id ->
  can_write (fe_permissions e) id r = false -> (spec_op op m).2 !! c = Some e.
Proof.
  intros Hf Ha Hr Ho Hw.
  assert (owner_access e id r <> Ok ()) as Hacc.
  { unfold owner_access. case_match; [done|].
    rewrite bool_decide_true by done. rewrite (proj2 (Z.eqb_neq _ _) Ho). done. }
  destruct op as [now name data id' r' p ro| |name id' r'|name id' r' mode|now name data owner p ro|];
    destruct Ha as [Ha|Ha]; simpl in Ha; simplify_eq; simpl; try done.
  - destruct (spec_store _ _ _ _ _) as [[[]|x] m'] eqn:Es; simpl.
    + apply spec_store_Ok in Es as (c' & e' & _ & -> & He).
      destruct (decide (c' = c)) as [->|]; [|by rewrite lookup_insert_ne].
      destruct He as [[He _]|(x & Hx & He)]; [congruence|]. simplify_eq. rewrite Hw in He.
      by destruct (fe_readonly e).
    + unfold spec_store in Es. by repeat (case_match; simplify_eq/=).
  - destruct (canonical_path name) as [c'|]; [|done].
    destruct (decide (c' = c)) as [->|Hne].
    + rewrite Hf. destruct (owner_access e id r) as [[]|] eqn:E; done.
    + repeat case_match; simpl; rewrite ?lookup_delete_ne; done.
  - destruct (canonical_path name) as [c'|]; [|done].
    destruct (decide (c' = c)) as [->|Hne].
    + rewrite Hf. destruct (owner_access e id r) as [[]|] eqn:E; done.
    + repeat case_match; simpl; rewrite ?lookup_insert_ne; done.
  - repeat (case_match; simplify_eq/=; try done).
    rewrite lookup_insert_ne; [done|]. congruence.
Qed.

(** A user who is not an administrator, does not own a file and has no
    write permission on it can neither change nor delete it, with any
    operation under any spelling of the path. *)
Theorem unauthorised_cannot_modify op (w : FsWorld S) c e id r :
  fs_ok (fs w) -> find (fs w) c = Some e -> op_actor op = Some (id, r) -> r <> Admin ->
  fe_owner_uid e <> id -> can_write (fe_permissions e) id r = false ->
  find (fs (run_fs_op op w).2) c = Some e.
Proof.
  intros Hok Hf Ha Hr Ho Hw. destruct (op_refines op w Hok) as (_ & Habs & _).
  rewrite <- abs_lookup, Habs. rewrite <- abs_lookup in Hf.
  apply (spec_op_unauthorised op _ c e id r); try done. by left.
Qed.

(** An operation that fails leaves both the file system and the disk layer
    untouched, with one exception: a mode change rejected for a bad letter
    has applied the letters before it. *)
Theorem failed_op_no_effect op (w w' : FsWorld S) e :
  run_fs_op op w = (Err e, w') ->
  (forall name id r mode, op = FsChmod name id r mode -> e <> InvalidFilename) ->
  w' = w.
Proof.
  intros Hrun Hch.
  destruct op as [now name data id r p ro|now name data ro|name id r|name id r mode|
                  now name data owner p ro|name data owner p ro cr mo]; simpl in Hrun.
  - unfold write_internal_owned in Hrun. by repeat (case_match; simplify_eq/=).
  - unfold seed_system in Hrun. by repeat (case_match; simplify_eq/=).
  - unfold delete_as in Hrun. by repeat (case_match; simplify_eq/=).
  - specialize (Hch name id r mode eq_refl). unfold chmod_as in Hrun.
    by repeat (case_match; simplify_eq/=).
  - unfold create_new_as in Hrun. by repeat (case_match; simplify_eq/=).
  - destruct w as [f b]. unfold load_file_from_disk in Hrun.
    by repeat (case_match; simplify_eq/=).
Qed.
End theorems.

(** ** Concrete runs *)

(** A machine without a disk: the backend has nothing to do. *)
#[global] Instance no_backend : Backend () :=
  {| maybe_sync_file_entry := fun _ b => b; maybe_delete_path := fun _ b => b |}.

Definition notes : bytes := str "/home/ana/notes.txt".

(** Two files, one of user 1000 and one seeded read-only by the kernel. *)
Definition sample_ops : list fs_op :=
  [FsWrite 5 (str "/home/ana/notes.txt") (str "hello") 1000 User (perm_private 1000) false;
   FsSeed 6 (str "/etc/motd") (str "welcome") true].

Definition sample : FsWorld () := (run_trace sample_ops (mkWorld fs_new ())).2.

Lemma sample_ok : fs_ok (fs sample).
Proof. apply (trace_refines sample_ops (mkWorld fs_new ()) fs_new_ok). Qed.

Lemma write_then_read_witness :
  read (fs (write_internal_owned 9 (str "/home//ana/./notes.txt") (str "bye") 1000 User
              (perm_private 1000) false sample).2) notes = Ok (str "bye").
Proof.
  refine (proj1 (write_then_read 9 (str "/home//ana/./notes.txt") (str "bye") 1000 User
            (perm_private 1000) false sample _ sample_ok _) notes _);
    [|vm_compute; reflexivity].
  vm_compute. reflexivity.
Defined.

Lemma readonly_immutable_witness :
  exists e, fe_data e = str "welcome" /\
    find (fs (run_trace [FsDelete (str "/etc/motd") 0 Admin;
                         FsWrite 8 (str "/etc/motd") (str "x") 0 Admin (perm_shared 0) false] sample).2)
         (str "/etc/motd") = Some e.
Proof.
  eexists. split; [|apply (readonly_immutable _ sample (str "/etc/motd"));
    [exact sample_ok|vm_compute; reflexivity|reflexivity|repeat constructor]].
  reflexivity.
Defined.

Lemma unauthorised_cannot_modify_witness :
  exists e, fe_data e = str "hello" /\
    find (fs (run_fs_op (FsDelete (str "/home/ana/../ana/notes.txt") 1001 User) sample).2) notes = Some e.
Proof.
  eexists. split; [|apply (unauthorised_cannot_modify _ sample notes _ 1001 User);
    [exact sample_ok|vm_compute; reflexivity|reflexivity|discriminate|discriminate|reflexivity]].
  reflexivity.
Defined.

Lemma failed_op_no_effect_witness :
  (run_fs_op (FsWrite 8 (str "/etc/motd") (str "x") 0 Admin (perm_shared 0) false) sample).2 = sample.
Proof.
  apply (failed_op_no_effect (FsWrite 8 (str "/etc/motd") (str "x") 0 Admin (perm_shared 0) false)
           sample _ ReadOnly); [vm_compute; reflexivity|discriminate].
Defined.

(** A mode change can be rejected and take effect all the same: asked by
    the owner for the mode [rwrx], whose fourth letter is wrong, [chmod_as]
    reports an invalid argument, but the file has become readable by everyone,
    and the entry on disk has not been updated. *)
Theorem chmod_rejected_but_applied {S : Type} `{Backend S} (w : FsWorld S) c e :
  fs_ok (fs w) -> find (fs w) c = Some e -> fe_readonly e = false ->
  exists w' e', chmod_as c (fe_owner_uid e) User (str "rwrx") w = (Err InvalidFilename, w') /\
    backend w' = backend w /\
    find (fs w') c = Some e' /\ others_read (fe_permissions e') = true.
Proof.
  intros Hok Hf Hro. destruct (entry_name_ok _ _ _ Hok Hf) as [Hin <-].
  pose proof (proj1 (proj1 (Forall_forall _ _) (fo_names _ Hok) _ Hin)) as Hc.
  unfold chmod_as. rewrite canonical_path_id by done. rewrite Hf, Hro, Z.eqb_refl.
  rewrite andb_false_r. do 2 eexists. split_and!; [reflexivity..| |].
  - cbn [fs]. unfold find in Hf |- *.
    apply (find_update_first fe_name _ (fe_name e) (name_is_spec (fe_name e))); done.
  - done.
Qed.

Lemma chmod_rejected_but_applied_witness :
  exists w' e', chmod_as notes 1000 User (str "rwrx") sample = (Err InvalidFilename, w') /\
    backend w' = backend sample /\
    find (fs w') notes = Some e' /\ others_read (fe_permissions e') = true.
Proof.
  apply (chmod_rejected_but_applied sample notes
    (mkEntry notes (str "hello") 5 5 false 1000 (perm_private 1000)));
    [exact sample_ok|vm_compute; reflexivity|reflexivity].
Defined.
