(* ===== verification/DiskFormat.v ===== *)
(** * The on-disk format (kernel/src/disk/format.rs)

    Sector 0 holds the superblock, the next [MAX_FILES] sectors one file entry
    each, the rest the data blocks.  Both structures are [repr(C)] and written
    as raw memory; the bytes of the alignment gaps are unspecified and come
    from the class [Padding].  The operations use the disk through the
    interface [SectorStore]. *)
From S2P Require Import Prelude RustStr Paths Disk.

(** ** Constants *)

Definition WARFS_MAGIC : Z := 0x57415246.
Definition WARFS_VERSION : Z := 1.
Definition BLOCK_SIZE : Z := 4096.
Definition SECTORS_PER_BLOCK : Z := 8.
Definition TABLE_SIZE : nat := 128.
Definition MAX_FILENAME : nat := 96.
Definition FILE_TABLE_START_SECTOR : Z := 1.
Definition DATA_START_SECTOR : Z := FILE_TABLE_START_SECTOR + Z.of_nat TABLE_SIZE.
Definition FS_STATE_CLEAN : Z := 0.
Definition FS_STATE_DIRTY : Z := 1.
#[global] Arguments TABLE_SIZE : simpl never.
#[global] Arguments MAX_FILENAME : simpl never.
#[global] Arguments DATA_START_SECTOR : simpl never.

(** ** The structures *)

Record Superblock : Type := mkSuperblock {
  sb_magic : Z;
  sb_version : Z;
  sb_label : bytes;
  sb_total_sectors : Z;
  sb_total_blocks : Z;
  sb_used_blocks : Z;
  sb_file_count : Z;
  sb_block_size : Z;
  sb_created_at : Z;
  sb_last_mount : Z;
  sb_mount_count : Z;
  sb_state : Z;
  sb_reserved : bytes;
}.

Record DiskFileEntry : Type := mkDiskEntry {
  de_active : Z;
  de_name : bytes;
  de_size : Z;
  de_owner_uid : Z;
  de_perm_owner_read : Z;
  de_perm_owner_write : Z;
  de_perm_others_read : Z;
  de_perm_others_write : Z;
  de_readonly : Z;
  de_created_at : Z;
  de_modified_at : Z;
  de_start_block : Z;
  de_block_count : Z;
  de_reserved : bytes;
}.

Definition superblock_is_valid (sb : Superblock) : bool :=
  (sb_magic sb =? WARFS_MAGIC) && (sb_version sb =? WARFS_VERSION).

Definition superblock_new (now total_sectors : Z) : Superblock :=
  let data_sectors := sat_sub total_sectors DATA_START_SECTOR in
  let total_blocks := wrap 32 (data_sectors / SECTORS_PER_BLOCK) in
  mkSuperblock WARFS_MAGIC WARFS_VERSION (splice 0 (str "WarOS Disk") (zeros 32)) total_sectors
               total_blocks 0 0 BLOCK_SIZE now 0 0 FS_STATE_CLEAN (zeros 427).

Definition inactive : DiskFileEntry :=
  mkDiskEntry 0 (zeros MAX_FILENAME) 0 0 0 0 0 0 0 0 0 0 0 (zeros 368).

(** ** Their bytes *)

(** The value of the alignment byte at an offset of a structure. *)
Class Padding : Type := padding_byte : nat -> byte.

Section layout.
Context `{Padding}.

Definition padding (off len : nat) : bytes := map padding_byte (seq off len).

(** [from_raw_parts(superblock as *const u8, size_of::<Superblock>())]. *)
Definition superblock_bytes (sb : Superblock) : bytes :=
  le_bytes 4 (sb_magic sb) ++ le_bytes 2 (sb_version sb) ++ sb_label sb ++ padding 38 2 ++
  le_bytes 8 (sb_total_sectors sb) ++ le_bytes 4 (sb_total_blocks sb) ++
  le_bytes 4 (sb_used_blocks sb) ++ le_bytes 2 (sb_file_count sb) ++ padding 58 2 ++
  le_bytes 4 (sb_block_size sb) ++ le_bytes 8 (sb_created_at sb) ++
  le_bytes 8 (sb_last_mount sb) ++ le_bytes 4 (sb_mount_count sb) ++
  le_bytes 1 (sb_state sb) ++ sb_reserved sb.

Definition entry_bytes (e : DiskFileEntry) : bytes :=
  le_bytes 1 (de_active e) ++ de_name e ++ padding 97 7 ++
  le_bytes 8 (de_size e) ++ le_bytes 2 (de_owner_uid e) ++
  le_bytes 1 (de_perm_owner_read e) ++ le_bytes 1 (de_perm_owner_write e) ++
  le_bytes 1 (de_perm_others_read e) ++ le_bytes 1 (de_perm_others_write e) ++
  le_bytes 1 (de_readonly e) ++ padding 119 1 ++
  le_bytes 8 (de_created_at e) ++ le_bytes 8 (de_modified_at e) ++
  le_bytes 4 (de_start_block e) ++ le_bytes 4 (de_block_count e) ++ de_reserved e.
End layout.

(** [ptr::read_unaligned(buffer.as_ptr().cast::<Superblock>())]. *)
Definition superblock_of_bytes (bs : bytes) : Superblock :=
  mkSuperblock (le_val (field 0 4 bs)) (le_val (field 4 2 bs)) (field 6 32 bs)
    (le_val (field 40 8 bs)) (le_val (field 48 4 bs)) (le_val (field 52 4 bs))
    (le_val (field 56 2 bs)) (le_val (field 60 4 bs)) (le_val (field 64 8 bs))
    (le_val (field 72 8 bs)) (le_val (field 80 4 bs)) (le_val (field 84 1 bs)) (field 85 427 bs).

Definition entry_of_bytes (bs : bytes) : DiskFileEntry :=
  mkDiskEntry (le_val (field 0 1 bs)) (field 1 96 bs) (le_val (field 104 8 bs))
    (le_val (field 112 2 bs)) (le_val (field 114 1 bs)) (le_val (field 115 1 bs))
    (le_val (field 116 1 bs)) (le_val (field 117 1 bs)) (le_val (field 118 1 bs))
    (le_val (field 120 8 bs)) (le_val (field 128 8 bs)) (le_val (field 136 4 bs))
    (le_val (field 140 4 bs)) (field 144 368 bs).

(** ** Pure helpers *)

Definition entry_name (e : DiskFileEntry) : result DiskError bytes :=
  let name_end := default MAX_FILENAME (position (fun b => bool_decide (b = x00)) (de_name e)) in
  let name := take name_end (de_name e) in
  if utf8_valid name then Ok name else Err CorruptedData.

Definition block_count_for_len (len : Z) : Z :=
  if len =? 0 then 0 else wrap 32 ((len + BLOCK_SIZE - 1) / BLOCK_SIZE).

(** The scan of [allocate_blocks] over the sorted ranges. *)
Fixpoint first_gap (count total candidate : Z) (used_ranges : list (Z * Z)) : result DiskError Z :=
  match used_ranges with
  | [] => if sat_add 32 candidate count <=? total then Ok candidate else Err DiskFull
  | (start, end_) :: rest =>
      if sat_add 32 candidate count <=? start then Ok candidate
      else first_gap count total (Z.max candidate end_) rest
  end.

(** ** Operations *)

Section operations.
Context {S : Type} `{SectorStore S} `{Padding}.

Definition write_superblock (sb : Superblock) : stm S DiskError () :=
  write_sectors 0 1 (superblock_bytes sb).

Definition read_superblock : stm S DiskError Superblock :=
  buffer ← read_sectors 0 1 (zeros SECTOR_SIZE);
  let sb := superblock_of_bytes buffer in
  if negb (superblock_is_valid sb) then throw FormatError else mret sb.

Definition format_disk (now : Z) : stm S DiskError () :=
  capacity ← gets ss_capacity;
  _ ← write_superblock (superblock_new now capacity);
  foldM (fun i _ => write_sectors (FILE_TABLE_START_SECTOR + Z.of_nat i) 1 (zeros SECTOR_SIZE))
        (seq 0 TABLE_SIZE) ().

Definition mark_mounted (now : Z) : stm S DiskError Superblock :=
  sb ← read_superblock;
  let sb := mkSuperblock (sb_magic sb) (sb_version sb) (sb_label sb) (sb_total_sectors sb)
              (sb_total_blocks sb) (sb_used_blocks sb) (sb_file_count sb) (sb_block_size sb)
              (sb_created_at sb) now (sat_add 32 (sb_mount_count sb) 1) FS_STATE_CLEAN
              (sb_reserved sb) in
  _ ← write_superblock sb;
  mret sb.

Definition set_superblock_state (state : Z) : stm S DiskError () :=
  sb ← read_superblock;
  write_superblock
    (mkSuperblock (sb_magic sb) (sb_version sb) (sb_label sb) (sb_total_sectors sb)
       (sb_total_blocks sb) (sb_used_blocks sb) (sb_file_count sb) (sb_block_size sb)
       (sb_created_at sb) (sb_last_mount sb) (sb_mount_count sb) state (sb_reserved sb)).

Definition read_file_entry (index : nat) : stm S DiskError DiskFileEntry :=
  if (TABLE_SIZE <=? index)%nat then throw OutOfBounds
  else buffer ← read_sectors (FILE_TABLE_START_SECTOR + Z.of_nat index) 1 (zeros SECTOR_SIZE);
       mret (entry_of_bytes buffer).

Definition write_file_entry (index : nat) (entry : DiskFileEntry) : stm S DiskError () :=
  if (TABLE_SIZE <=? index)%nat then throw OutOfBounds
  else write_sectors (FILE_TABLE_START_SECTOR + Z.of_nat index) 1 (entry_bytes entry).

Definition count_active_files : stm S DiskError Z :=
  foldM (fun index count =>
           entry ← read_file_entry index;
           mret (if negb (de_active entry =? 0) then sat_add 16 count 1 else count))
        (seq 0 TABLE_SIZE) 0.

Definition count_used_blocks : stm S DiskError Z :=
  foldM (fun index count =>
           entry ← read_file_entry index;
           mret (if negb (de_active entry =? 0) then sat_add 32 count (de_block_count entry) else count))
        (seq 0 TABLE_SIZE) 0.

Definition refresh_superblock (state : Z) : stm S DiskError Superblock :=
  sb ← read_superblock;
  used_blocks ← count_used_blocks;
  file_count ← count_active_files;
  let sb := mkSuperblock (sb_magic sb) (sb_version sb) (sb_label sb) (sb_total_sectors sb)
              (sb_total_blocks sb) used_blocks file_count (sb_block_size sb)
              (sb_created_at sb) (sb_last_mount sb) (sb_mount_count sb) state (sb_reserved sb) in
  _ ← write_superblock sb;
  mret sb.

(** [as u32] truncates the number of sectors. *)
Definition read_file_data (start_block block_count : Z) (buffer : bytes) : stm S DiskError bytes :=
  read_sectors (DATA_START_SECTOR + start_block * SECTORS_PER_BLOCK)
               (wrap 32 (block_count * SECTORS_PER_BLOCK)) buffer.

Definition write_file_data (start_block : Z) (data : bytes) : stm S DiskError Z :=
  let blocks_needed := block_count_for_len (blen data) in
  if blocks_needed =? 0 then mret 0
  else
    _ ← write_sectors (DATA_START_SECTOR + start_block * SECTORS_PER_BLOCK)
          (wrap 32 (blocks_needed * SECTORS_PER_BLOCK))
          (splice 0 data (zeros (Z.to_nat (blocks_needed * BLOCK_SIZE))));
    mret blocks_needed.

(** The used ranges, as collected in table order.  The sum wraps in the
    release profile the kernel is built with. *)
Definition used_ranges (ignore_index : option nat) : stm S DiskError (list (Z * Z)) :=
  foldM (fun index ranges =>
           if bool_decide (Some index = ignore_index) then mret ranges
           else
             entry ← read_file_entry index;
             if (de_active entry =? 0) || (de_block_count entry =? 0) then mret ranges
             else mret (ranges ++ [(de_start_block entry,
                                    wrap 32 (de_start_block entry + de_block_count entry))]))
        (seq 0 TABLE_SIZE) [].

Definition allocate_blocks (count : Z) (ignore_index : option nat) : stm S DiskError Z :=
  sb ← read_superblock;
  ranges ← used_ranges ignore_index;
  lift_result (first_gap count (sb_total_blocks sb) 0
                 (sort_by (fun a b : Z * Z => a.1 <=? b.1) ranges)).
End operations.

(** ** Well-formed structures: fields within their widths *)

Record superblock_wf (sb : Superblock) : Prop := mkSbWf {
  sw_magic : in_u32 (sb_magic sb);
  sw_version : in_u16 (sb_version sb);
  sw_label : length (sb_label sb) = 32%nat;
  sw_total_sectors : in_u64 (sb_total_sectors sb);
  sw_total_blocks : in_u32 (sb_total_blocks sb);
  sw_used_blocks : in_u32 (sb_used_blocks sb);
  sw_file_count : in_u16 (sb_file_count sb);
  sw_block_size : in_u32 (sb_block_size sb);
  sw_created_at : in_u64 (sb_created_at sb);
  sw_last_mount : in_u64 (sb_last_mount sb);
  sw_mount_count : in_u32 (sb_mount_count sb);
  sw_state : in_u8 (sb_state sb);
  sw_reserved : length (sb_reserved sb) = 427%nat;
}.

Record entry_wf (e : DiskFileEntry) : Prop := mkDeWf {
  dw_active : in_u8 (de_active e);
  dw_name : length (de_name e) = MAX_FILENAME;
  dw_size : in_u64 (de_size e);
  dw_owner_uid : in_u16 (de_owner_uid e);
  dw_owner_read : in_u8 (de_perm_owner_read e);
  dw_owner_write : in_u8 (de_perm_owner_write e);
  dw_others_read : in_u8 (de_perm_others_read e);
  dw_others_write : in_u8 (de_perm_others_write e);
  dw_readonly : in_u8 (de_readonly e);
  dw_created_at : in_u64 (de_created_at e);
  dw_modified_at : in_u64 (de_modified_at e);
  dw_start_block : in_u32 (de_start_block e);
  dw_block_count : in_u32 (de_block_count e);
  dw_reserved : length (de_reserved e) = 368%nat;
}.

Section codec.
Context `{Padding}.

Lemma length_padding off len : length (padding off len) = len.
Proof. unfold padding. by rewrite length_map, length_seq. Qed.
Hint Rewrite length_padding : len.
Hint Resolve length_padding : chunk.

Lemma superblock_bytes_length sb :
  superblock_wf sb -> length (superblock_bytes sb) = SECTOR_SIZE.
Proof.
  intros Hw. pose proof (sw_label _ Hw) as Hl. pose proof (sw_reserved _ Hw) as Hr.
  unfold superblock_bytes. autorewrite with len. by rewrite Hl, Hr.
Qed.

Lemma entry_bytes_length e : entry_wf e -> length (entry_bytes e) = SECTOR_SIZE.
Proof.
  intros Hw. pose proof (dw_name _ Hw) as Hl. pose proof (dw_reserved _ Hw) as Hr.
  unfold entry_bytes. autorewrite with len. by rewrite Hl, Hr.
Qed.

Lemma superblock_of_to_bytes sb :
  superblock_wf sb -> superblock_of_bytes (superblock_bytes sb) = sb.
Proof.
  intros []. destruct sb; unfold superblock_bytes, superblock_of_bytes; cbn [sb_magic sb_version sb_label sb_total_sectors
    sb_total_blocks sb_used_blocks sb_file_count sb_block_size sb_created_at sb_last_mount
    sb_mount_count sb_state sb_reserved] in *.
  repeat field_step. rewrite !le_val_le_bytes_small by done. done.
Qed.

Lemma entry_of_to_bytes e : entry_wf e -> entry_of_bytes (entry_bytes e) = e.
Proof.
  intros []. destruct e; unfold entry_bytes, entry_of_bytes; cbn [de_active de_name de_size de_owner_uid
    de_perm_owner_read de_perm_owner_write de_perm_others_read de_perm_others_write de_readonly
    de_created_at de_modified_at de_start_block de_block_count de_reserved] in *.
  unfold MAX_FILENAME in *.
  repeat field_step. rewrite !le_val_le_bytes_small by done. done.
Qed.

Lemma le_val_field_bound off len bs w :
  (off + len <= length bs)%nat -> 2 ^ w = 256 ^ Z.of_nat len -> in_u w (le_val (field off len bs)).
Proof.
  intros Hl Hw. unfold in_u. rewrite Hw. pose proof (le_val_bound (field off len bs)) as Hb.
  unfold blen in Hb. by rewrite field_length in Hb.
Qed.

Lemma superblock_of_bytes_wf bs : length bs = SECTOR_SIZE -> superblock_wf (superblock_of_bytes bs).
Proof.
  unfold SECTOR_SIZE. intros Hl. split; simpl;
    first [apply le_val_field_bound; [lia|done] | apply field_length; lia].
Qed.

Lemma entry_of_bytes_wf bs : length bs = SECTOR_SIZE -> entry_wf (entry_of_bytes bs).
Proof.
  unfold SECTOR_SIZE. intros Hl. split; simpl; unfold MAX_FILENAME;
    first [apply le_val_field_bound; [lia|done] | apply field_length; lia].
Qed.
End codec.

(** ** Running disk operations on views

    [at_view cap v s]: a sound store of capacity [cap] with contents [v].
    [exec m cap v r v']: from such a store, [m] returns [r] and leaves one
    with contents [v']. *)

Section exec.
Context {S : Type} `{SSL : SectorStoreLaws S}.

Definition at_view (cap : Z) (v : Z -> bytes) (s : S) : Prop :=
  ss_ok s /\ ss_capacity s = cap /\ forall t, ss_view s t = v t.

Definition exec {A} (m : stm S DiskError A) (cap : Z) (v : Z -> bytes) (r : result DiskError A)
    (v' : Z -> bytes) : Prop :=
  forall s, at_view cap v s -> exists s', m s = (r, s') /\ at_view cap v' s'.

#[global] Instance at_view_proper : Proper (eq ==> pointwise_relation Z eq ==> eq ==> iff) at_view.
Proof.
  intros ? cap -> v v' Hv ? s ->. unfold at_view.
  split; intros (? & ? & Hs); split_and!; try done; intros t; rewrite Hs; [|symmetry]; apply Hv.
Qed.

#[global] Instance exec_proper {A} :
  Proper (eq ==> eq ==> pointwise_relation Z eq ==> eq ==> pointwise_relation Z eq ==> iff) (@exec A).
Proof.
  intros ? m -> ? cap -> v v' Hv ? r -> w w' Hw. unfold exec.
  by setoid_rewrite Hv; setoid_rewrite Hw.
Qed.

Lemma exec_ret {A} (a : A) cap v : exec (mret a) cap v (Ok a) v.
Proof. intros s Hs. by exists s. Qed.

Lemma exec_throw {A} e cap v : exec (throw (A := A) e) cap v (Err e) v.
Proof. intros s Hs. by exists s. Qed.

Lemma exec_lift {A} (r : result DiskError A) cap v : exec (lift_result r) cap v r v.
Proof. intros s Hs. by exists s. Qed.

Lemma exec_bind {A B} (m : stm S DiskError A) (k : A -> stm S DiskError B) cap v a v1 r v2 :
  exec m cap v (Ok a) v1 -> exec (k a) cap v1 r v2 -> exec (m ≫= k) cap v r v2.
Proof.
  intros Hm Hk s Hs. destruct (Hm s Hs) as (s1 & E1 & Hs1). destruct (Hk s1 Hs1) as (s2 & E2 & Hs2).
  exists s2. unfold mbind, stm_bind. by rewrite E1.
Qed.

Lemma exec_bind_err {A B} (m : stm S DiskError A) (k : A -> stm S DiskError B) cap v e v1 :
  exec m cap v (Err e) v1 -> exec (m ≫= k) cap v (Err e) v1.
Proof.
  intros Hm s Hs. destruct (Hm s Hs) as (s1 & E1 & Hs1). exists s1.
  unfold mbind, stm_bind. by rewrite E1.
Qed.

(** A loop whose body does not change the contents. *)
Lemma exec_fold {A B} (f : A -> B -> stm S DiskError B) (g : A -> B -> B) l acc cap v :
  (forall x b, x ∈ l -> exec (f x b) cap v (Ok (g x b)) v) ->
  exec (foldM f l acc) cap v (Ok (fold_left (fun b x => g x b) l acc)) v.
Proof.
  revert acc. induction l as [|x l IH]; intros acc Hf; simpl; [apply exec_ret|].
  eapply exec_bind; [apply Hf; left|]. apply IH. intros y b Hy. apply Hf. by right.
Qed.

Lemma exec_gets_capacity cap v : exec (gets ss_capacity) cap v (Ok cap) v.
Proof. intros s Hs. exists s. split; [|done]. unfold gets. by destruct Hs as (_ & -> & _). Qed.

Lemma exec_read sector count buffer cap v :
  0 <= sector -> 0 <= count -> sector + count <= cap ->
  count * Z.of_nat SECTOR_SIZE <= blen buffer ->
  exec (read_sectors sector count buffer) cap v
    (Ok (view_range v sector (Z.to_nat count) ++ drop (Z.to_nat count * SECTOR_SIZE) buffer)) v.
Proof.
  intros ? ? Hc Hl s (Hok & <- & Hv).
  destruct (read_sectors_spec s sector count buffer) as (s' & E & Hok' & Hc' & Hv'); [done..|].
  exists s'. rewrite E. split; [|split_and!; try done; intros t; by rewrite Hv'].
  do 3 f_equal. apply view_range_ext. auto.
Qed.

Lemma exec_write sector count buffer cap v :
  0 <= sector -> 0 <= count -> sector + count <= cap ->
  count * Z.of_nat SECTOR_SIZE <= blen buffer ->
  exec (write_sectors sector count buffer) cap v (Ok ())
    (write_view v sector (Z.to_nat count) buffer).
Proof.
  intros ? ? Hc Hl s (Hok & <- & Hv).
  destruct (write_sectors_spec s sector count buffer) as (s' & E & Hok' & Hc' & Hv'); [done..|].
  exists s'. rewrite E. split; [done|]. split_and!; try done.
  intros t. rewrite Hv'. unfold write_view. by case_match.
Qed.
End exec.

(** The contents with sector [t] replaced. *)
Definition set_sector (t : Z) (data : bytes) (v : Z -> bytes) : Z -> bytes :=
  fun t' => if decide (t' = t) then data else v t'.

(** ** The file system on a view *)

Definition sb_of (v : Z -> bytes) : Superblock := superblock_of_bytes (v 0).
Definition entry_at (v : Z -> bytes) (i : nat) : DiskFileEntry :=
  entry_of_bytes (v (FILE_TABLE_START_SECTOR + Z.of_nat i)).

#[global] Arguments sb_of : simpl never.
#[global] Arguments entry_at : simpl never.

Definition active_at (v : Z -> bytes) (i : nat) : Prop :=
  (i < TABLE_SIZE)%nat /\ de_active (entry_at v i) <> 0.

(** The data blocks of an entry, read from the disk. *)
Definition block_data (v : Z -> bytes) (e : DiskFileEntry) : bytes :=
  view_range v (DATA_START_SECTOR + de_start_block e * SECTORS_PER_BLOCK)
             (Z.to_nat (de_block_count e * SECTORS_PER_BLOCK)).

Definition blocks_disjoint (start count start' count' : Z) : Prop :=
  count = 0 \/ count' = 0 \/ start + count <= start' \/ start' + count' <= start.

Record slot_ok (total : Z) (e : DiskFileEntry) : Prop := mkSlotOk {
  so_name : is_ok (entry_name e) = true;
  so_size : de_size e <= MAX_FILE_SIZE;
  so_count : de_block_count e = block_count_for_len (de_size e);
  so_range : de_block_count e <> 0 -> de_start_block e + de_block_count e <= total;
}.

(** A mountable volume: every active entry names its file, its blocks hold
    its contents and lie within the data area, no two files share a block or a
    name. *)
Record layout_ok (cap : Z) (v : Z -> bytes) : Prop := mkLayoutOk {
  lo_sectors : forall t, length (v t) = SECTOR_SIZE;
  lo_valid : superblock_is_valid (sb_of v) = true;
  lo_blocks : DATA_START_SECTOR + sb_total_blocks (sb_of v) * SECTORS_PER_BLOCK <= cap;
  lo_total : sb_total_blocks (sb_of v) < u32_max;
  lo_slots : forall i, active_at v i -> slot_ok (sb_total_blocks (sb_of v)) (entry_at v i);
  lo_disjoint : forall i j, active_at v i -> active_at v j -> i <> j ->
    blocks_disjoint (de_start_block (entry_at v i)) (de_block_count (entry_at v i))
                    (de_start_block (entry_at v j)) (de_block_count (entry_at v j));
  lo_names : forall i j, active_at v i -> active_at v j ->
    entry_name (entry_at v i) = entry_name (entry_at v j) -> i = j;
}.

(** The ranges [allocate_blocks] collects, before sorting. *)
Definition ranges_of (v : Z -> bytes) (ignore_index : option nat) : list (Z * Z) :=
  fold_left (fun ranges index =>
               if bool_decide (Some index = ignore_index) then ranges
               else if (de_active (entry_at v index) =? 0) || (de_block_count (entry_at v index) =? 0)
               then ranges
               else ranges ++ [(de_start_block (entry_at v index),
                                wrap 32 (de_start_block (entry_at v index)
                                         + de_block_count (entry_at v index)))])
            (seq 0 TABLE_SIZE) [].

Definition active_count (v : Z -> bytes) (l : list nat) : Z :=
  Z.of_nat (length (List.filter (fun i => negb (de_active (entry_at v i) =? 0)) l)).
Definition active_blocks (v : Z -> bytes) (l : list nat) : Z :=
  sumZ (map (fun i => de_block_count (entry_at v i))
            (List.filter (fun i => negb (de_active (entry_at v i) =? 0)) l)).

Section specs.
Context {S : Type} `{SSL : SectorStoreLaws S} `{Padding}.

Lemma write_view_1 v sector data :
  length data = SECTOR_SIZE ->
  pointwise_relation Z eq (write_view v sector (Z.to_nat 1) data) (set_sector sector data v).
Proof.
  intros Hl t. unfold write_view, set_sector. change (Z.of_nat (Z.to_nat 1)) with 1.
  destruct (decide (t = sector)) as [->|Hne].
  - rewrite decide_True by lia. rewrite Z.sub_diag. simpl. by apply field_all.
  - by rewrite decide_False by lia.
Qed.

Lemma exec_write_1 sector data cap v :
  0 <= sector < cap -> length data = SECTOR_SIZE ->
  exec (write_sectors sector 1 data) cap v (Ok ()) (set_sector sector data v).
Proof.
  intros Hs Hl. rewrite <- write_view_1 by done. apply exec_write; unfold blen; rewrite ?Hl; lia.
Qed.

Lemma exec_read_1 sector cap v :
  0 <= sector < cap ->
  exec (read_sectors sector 1 (zeros SECTOR_SIZE)) cap v (Ok (v sector)) v.
Proof.
  intros Hs. pose proof (exec_read sector 1 (zeros SECTOR_SIZE) cap v) as Hr.
  unfold blen in Hr. rewrite length_zeros in Hr. specialize (Hr ltac:(lia) ltac:(lia) ltac:(lia) ltac:(lia)).
  change (Z.to_nat 1) with 1%nat in Hr. cbn [view_range] in Hr. rewrite Nat.mul_1_l in Hr.
  rewrite drop_ge in Hr by (by rewrite length_zeros). by rewrite !app_nil_r in Hr.
Qed.

Lemma exec_read_superblock cap v :
  0 < cap -> superblock_is_valid (sb_of v) = true ->
  exec read_superblock cap v (Ok (sb_of v)) v.
Proof.
  intros Hc Hv. eapply exec_bind; [by apply exec_read_1|]. cbn zeta. fold (sb_of v). rewrite Hv.
  apply exec_ret.
Qed.

Lemma exec_read_superblock_invalid cap v :
  0 < cap -> superblock_is_valid (sb_of v) = false ->
  exec read_superblock cap v (Err FormatError) v.
Proof.
  intros Hc Hv. eapply exec_bind; [by apply exec_read_1|]. cbn zeta. fold (sb_of v). rewrite Hv.
  apply exec_throw.
Qed.

Lemma exec_write_superblock sb cap v :
  0 < cap -> superblock_wf sb ->
  exec (write_superblock sb) cap v (Ok ()) (set_sector 0 (superblock_bytes sb) v).
Proof. intros Hc Hw. apply exec_write_1; [done|by apply superblock_bytes_length]. Qed.

Lemma exec_read_entry i cap v :
  (i < TABLE_SIZE)%nat -> DATA_START_SECTOR <= cap ->
  exec (read_file_entry i) cap v (Ok (entry_at v i)) v.
Proof.
  intros Hi Hc. unfold read_file_entry. rewrite (proj2 (Nat.leb_gt _ _) Hi).
  unfold DATA_START_SECTOR, FILE_TABLE_START_SECTOR in *.
  eapply exec_bind; [by apply exec_read_1; lia|]. apply exec_ret.
Qed.

Lemma exec_write_entry i e cap v :
  (i < TABLE_SIZE)%nat -> DATA_START_SECTOR <= cap -> entry_wf e ->
  exec (write_file_entry i e) cap v (Ok ())
       (set_sector (FILE_TABLE_START_SECTOR + Z.of_nat i) (entry_bytes e) v).
Proof.
  intros Hi Hc He. unfold write_file_entry. rewrite (proj2 (Nat.leb_gt _ _) Hi).
  unfold DATA_START_SECTOR, FILE_TABLE_START_SECTOR in *.
  apply exec_write_1; [lia|by apply entry_bytes_length].
Qed.

Lemma in_table i : i ∈ seq 0 TABLE_SIZE <-> (i < TABLE_SIZE)%nat.
Proof. rewrite elem_of_seq. lia. Qed.

(** Saturating sums that do not saturate. *)
Lemma sat_fold w (p : nat -> bool) (g : nat -> Z) l acc :
  0 <= w -> 0 <= acc -> (forall i, i ∈ l -> 0 <= g i) ->
  acc + sumZ (map g (List.filter p l)) <= 2 ^ w - 1 ->
  fold_left (fun c i => if p i then sat_add w c (g i) else c) l acc
  = acc + sumZ (map g (List.filter p l)).
Proof.
  intros Hw. revert acc. induction l as [|i l IH]; intros acc Ha Hg Hs; simpl in *; [lia|].
  assert (forall j, j ∈ l -> 0 <= g j) as Hg' by (intros j Hj; apply Hg; by right).
  destruct (p i); simpl in *; [|by apply IH].
  assert (0 <= sumZ (map g (List.filter p l))).
  { apply sumZ_nonneg, Forall_forall. intros x (j & -> & Hj)%list_elem_of_fmap.
    apply Hg'. apply list_elem_of_In, filter_In in Hj as [Hj _]. by apply list_elem_of_In. }
  pose proof (Hg i ltac:(left)). unfold sat_add at 2. rewrite Z.min_l by lia. rewrite IH by (done || lia). lia.
Qed.

Lemma active_count_sum v l :
  active_count v l = sumZ (map (fun _ => 1) (List.filter (fun i => negb (de_active (entry_at v i) =? 0)) l)).
Proof. unfold active_count. induction (List.filter _ _) as [|x k IH]; simpl length; simpl; lia. Qed.

Lemma active_count_bound v l : 0 <= active_count v l <= blen l.
Proof.
  unfold active_count, blen. pose proof (List.filter_length_le
    (fun i => negb (de_active (entry_at v i) =? 0)) l). lia.
Qed.

Lemma exec_count_active cap v :
  DATA_START_SECTOR <= cap ->
  exec count_active_files cap v (Ok (active_count v (seq 0 TABLE_SIZE))) v.
Proof.
  intros Hc. pose proof (active_count_bound v (seq 0 TABLE_SIZE)) as Hb.
  unfold blen in Hb. rewrite length_seq in Hb.
  change (Z.of_nat TABLE_SIZE) with 128 in Hb.
  rewrite active_count_sum in *. rewrite <- (Z.add_0_l (sumZ _)), <- (sat_fold 16 (fun i => negb (de_active (entry_at v i) =? 0))) by (done || lia).
  apply (exec_fold _ (fun i c => if negb (de_active (entry_at v i) =? 0) then sat_add 16 c 1 else c)).
  intros i b Hi%in_table. eapply exec_bind; [by apply exec_read_entry|]. apply exec_ret.
Qed.

Lemma active_blocks_fold v l :
  (forall i, i ∈ l -> 0 <= de_block_count (entry_at v i)) -> active_blocks v l <= u32_max ->
  fold_left (fun c i => if negb (de_active (entry_at v i) =? 0)
                        then sat_add 32 c (de_block_count (entry_at v i)) else c) l 0
  = active_blocks v l.
Proof.
  intros Hn Hb. unfold active_blocks, u32_max in *.
  rewrite (sat_fold 32 (fun i => negb (de_active (entry_at v i) =? 0)) (fun i => de_block_count (entry_at v i)));
    [lia|lia|lia|done|lia].
Qed.

Lemma exec_count_used cap v :
  DATA_START_SECTOR <= cap ->
  (forall i, (i < TABLE_SIZE)%nat -> 0 <= de_block_count (entry_at v i)) ->
  active_blocks v (seq 0 TABLE_SIZE) <= u32_max ->
  exec count_used_blocks cap v (Ok (active_blocks v (seq 0 TABLE_SIZE))) v.
Proof.
  intros Hc Hn Hb. rewrite <- active_blocks_fold; [|intros i Hi%in_table; auto|exact Hb].
  unfold count_used_blocks.
  apply (exec_fold _ (fun i c => if negb (de_active (entry_at v i) =? 0)
                                 then sat_add 32 c (de_block_count (entry_at v i)) else c)).
  intros i b Hi%in_table. eapply exec_bind; [by apply exec_read_entry|]. apply exec_ret.
Qed.

(** *** Replacing one sector *)

Lemma set_sector_length t data v :
  length data = SECTOR_SIZE -> (forall t', length (v t') = SECTOR_SIZE) ->
  forall t', length (set_sector t data v t') = SECTOR_SIZE.
Proof. intros Hd Hv t'. unfold set_sector. by case_decide. Qed.

Lemma sb_of_set sb v : superblock_wf sb -> sb_of (set_sector 0 (superblock_bytes sb) v) = sb.
Proof. intros Hw. unfold sb_of, set_sector. rewrite decide_True by done. by apply superblock_of_to_bytes. Qed.

Lemma sb_of_set_ne t data v : t <> 0 -> sb_of (set_sector t data v) = sb_of v.
Proof. intros Ht. unfold sb_of, set_sector. by rewrite decide_False by lia. Qed.

Lemma entry_at_set_eq i e v :
  entry_wf e -> entry_at (set_sector (FILE_TABLE_START_SECTOR + Z.of_nat i) (entry_bytes e) v) i = e.
Proof. intros Hw. unfold entry_at, set_sector. rewrite decide_True by done. by apply entry_of_to_bytes. Qed.

Lemma entry_at_set_ne i t data v :
  t <> FILE_TABLE_START_SECTOR + Z.of_nat i -> entry_at (set_sector t data v) i = entry_at v i.
Proof. intros Ht. unfold entry_at, set_sector. by rewrite decide_False by done. Qed.

(** Contents that differ at most in the superblock. *)
Definition same_files (v v' : Z -> bytes) : Prop := forall t, t <> 0 -> v' t = v t.

Lemma same_files_entry v v' i : same_files v v' -> entry_at v' i = entry_at v i.
Proof. intros Hs. unfold entry_at. rewrite Hs; [done|]. unfold FILE_TABLE_START_SECTOR. lia. Qed.

Lemma same_files_active v v' i : same_files v v' -> active_at v' i <-> active_at v i.
Proof. intros Hs. unfold active_at. by rewrite (same_files_entry _ _ _ Hs). Qed.

Lemma same_files_data v v' e : 0 <= de_start_block e -> same_files v v' -> block_data v' e = block_data v e.
Proof.
  intros He Hs. apply view_range_ext. intros t Ht. apply Hs.
  unfold DATA_START_SECTOR, FILE_TABLE_START_SECTOR, SECTORS_PER_BLOCK in Ht. lia.
Qed.

Lemma same_files_trans v1 v2 v3 : same_files v1 v2 -> same_files v2 v3 -> same_files v1 v3.
Proof. intros H1 H2 t Ht. by rewrite H2, H1. Qed.

Lemma layout_same cap v v' :
  layout_ok cap v -> same_files v v' -> length (v' 0) = SECTOR_SIZE ->
  superblock_is_valid (sb_of v') = true -> sb_total_blocks (sb_of v') = sb_total_blocks (sb_of v) ->
  layout_ok cap v'.
Proof.
  intros Hl Hs Hlen Hv Ht. split.
  - intros t. destruct (decide (t = 0)) as [->|]; [done|]. rewrite Hs by done. apply Hl.
  - done.
  - rewrite Ht. apply Hl.
  - rewrite Ht. apply Hl.
  - intros i. rewrite (same_files_active v v'), Ht, (same_files_entry v v') by done. apply Hl.
  - intros i j. rewrite !(same_files_active v v'), !(same_files_entry v v') by done. apply Hl.
  - intros i j. rewrite !(same_files_active v v'), !(same_files_entry v v') by done. apply Hl.
Qed.

Lemma layout_sb_wf cap v : layout_ok cap v -> superblock_wf (sb_of v).
Proof. intros Hl. apply superblock_of_bytes_wf, Hl. Qed.

Lemma layout_entry_wf cap v i : layout_ok cap v -> entry_wf (entry_at v i).
Proof. intros Hl. apply entry_of_bytes_wf, Hl. Qed.

Lemma layout_cap cap v : layout_ok cap v -> DATA_START_SECTOR <= cap.
Proof.
  intros Hl. pose proof (lo_blocks _ _ Hl). pose proof (sw_total_blocks _ (layout_sb_wf _ _ Hl)) as Hw.
  unfold in_u, SECTORS_PER_BLOCK in *. lia.
Qed.

Lemma data_start_pos : 0 < DATA_START_SECTOR.
Proof. done. Qed.

Lemma table_nonempty : (0 < TABLE_SIZE)%nat.
Proof. unfold TABLE_SIZE. lia. Qed.

(** Rewriting the superblock keeps the volume. *)
Lemma exec_update_superblock sb cap v :
  layout_ok cap v -> superblock_wf sb -> superblock_is_valid sb = true ->
  sb_total_blocks sb = sb_total_blocks (sb_of v) ->
  exists v', exec (write_superblock sb) cap v (Ok ()) v' /\ layout_ok cap v' /\ same_files v v' /\
             sb_of v' = sb.
Proof.
  intros Hl Hw Hv Ht. pose proof (layout_cap _ _ Hl). pose proof data_start_pos.
  exists (set_sector 0 (superblock_bytes sb) v).
  assert (same_files v (set_sector 0 (superblock_bytes sb) v)) as Hs.
  { intros t Hne. unfold set_sector. by rewrite decide_False. }
  split_and!; [apply exec_write_superblock; [lia|done]| |done|by apply sb_of_set].
  apply (layout_same cap v); try done; rewrite ?sb_of_set by done; try done.
  unfold set_sector. rewrite decide_True by done. by apply superblock_bytes_length.
Qed.

Lemma exec_read_layout cap v : layout_ok cap v -> exec read_superblock cap v (Ok (sb_of v)) v.
Proof.
  intros Hl. pose proof (layout_cap _ _ Hl). pose proof data_start_pos.
  apply exec_read_superblock; [lia|apply Hl].
Qed.

Lemma exec_set_state state cap v :
  layout_ok cap v -> in_u8 state ->
  exists v', exec (set_superblock_state state) cap v (Ok ()) v' /\ layout_ok cap v' /\ same_files v v' /\
             sb_state (sb_of v') = state.
Proof.
  intros Hl Hst. set (sb := sb_of v).
  destruct (exec_update_superblock (mkSuperblock (sb_magic sb) (sb_version sb) (sb_label sb)
    (sb_total_sectors sb) (sb_total_blocks sb) (sb_used_blocks sb) (sb_file_count sb) (sb_block_size sb)
    (sb_created_at sb) (sb_last_mount sb) (sb_mount_count sb) state (sb_reserved sb)) cap v)
    as (v' & He & Hl' & Hs & Hsb); [done| |apply Hl|done|].
  { destruct (layout_sb_wf _ _ Hl). by constructor. }
  exists v'. split_and!; try done; [|by rewrite Hsb].
  eapply exec_bind; [by apply exec_read_layout|]. done.
Qed.

Lemma exec_mark_mounted now cap v :
  layout_ok cap v -> in_u64 now ->
  exists v', exec (mark_mounted now) cap v (Ok (sb_of v')) v' /\ layout_ok cap v' /\ same_files v v'.
Proof.
  intros Hl Hnow. set (sb := sb_of v).
  destruct (exec_update_superblock (mkSuperblock (sb_magic sb) (sb_version sb) (sb_label sb)
    (sb_total_sectors sb) (sb_total_blocks sb) (sb_used_blocks sb) (sb_file_count sb) (sb_block_size sb)
    (sb_created_at sb) now (sat_add 32 (sb_mount_count sb) 1) FS_STATE_CLEAN (sb_reserved sb)) cap v)
    as (v' & He & Hl' & Hs & Hsb); [done| |apply Hl|done|].
  { pose proof (layout_sb_wf _ _ Hl) as Hw. destruct Hw. constructor; try done; cbn [sb_mount_count].
    subst sb. unfold sat_add, in_u in *. lia. }
  exists v'. split_and!; try done.
  eapply exec_bind; [by apply exec_read_layout|]. eapply exec_bind; [exact He|].
  rewrite Hsb. apply exec_ret.
Qed.

(** *** Block counts *)

Lemma block_count_bounds len :
  0 <= len <= MAX_FILE_SIZE ->
  0 <= block_count_for_len len <= 256 /\ len <= block_count_for_len len * BLOCK_SIZE /\
  (block_count_for_len len = 0 <-> len = 0).
Proof.
  unfold block_count_for_len, MAX_FILE_SIZE, BLOCK_SIZE. intros Hl. destruct (Z.eqb_spec len 0); [lia|].
  assert (1 <= (len + 4096 - 1) / 4096 <= 256).
  { split; [apply Z.div_le_lower_bound; lia|].
    apply Z.lt_succ_r, Z.div_lt_upper_bound; lia. }
  pose proof (Z.mul_succ_div_gt (len + 4096 - 1) 4096 eq_refl).
  rewrite wrap_small by lia. lia.
Qed.

Lemma layout_block_count cap v i :
  layout_ok cap v -> active_at v i -> 0 <= de_block_count (entry_at v i) <= 256.
Proof.
  intros Hl Ha. pose proof (lo_slots _ _ Hl i Ha) as Hs. pose proof (so_size _ _ Hs).
  rewrite (so_count _ _ Hs). apply block_count_bounds.
  pose proof (dw_size _ (layout_entry_wf _ _ i Hl)). unfold in_u in *. lia.
Qed.

Lemma sumZ_bound {A} (g : A -> Z) (b : Z) l :
  (forall x, x ∈ l -> g x <= b) -> sumZ (map g l) <= b * blen l.
Proof.
  unfold blen. induction l as [|x l IH]; intros Hb; simpl map; simpl sumZ; simpl length; [lia|].
  pose proof (Hb x ltac:(left)). specialize (IH (fun y Hy => Hb y ltac:(by right))). lia.
Qed.

Lemma active_blocks_bound cap v l :
  layout_ok cap v -> (forall i, i ∈ l -> (i < TABLE_SIZE)%nat) ->
  0 <= active_blocks v l <= 256 * blen l.
Proof.
  intros Hl Hin. unfold active_blocks.
  pose proof (List.filter_length_le (fun i => negb (de_active (entry_at v i) =? 0)) l) as Hlen.
  assert (forall i, i ∈ List.filter (fun i => negb (de_active (entry_at v i) =? 0)) l ->
            0 <= de_block_count (entry_at v i) <= 256) as Hi.
  { intros i (Hi & Ha)%list_elem_of_In%filter_In. apply (layout_block_count cap); [done|].
    split; [by apply Hin, list_elem_of_In|]. by apply negb_true_iff, Z.eqb_neq in Ha. }
  split.
  - apply sumZ_nonneg, Forall_forall. intros x (i & -> & Hx)%list_elem_of_fmap. by apply Hi.
  - etransitivity; [apply (sumZ_bound _ 256); intros i Hx; by apply Hi|]. unfold blen. lia.
Qed.

(** After [refresh_superblock] the counters of the superblock agree with the
    file table. *)
Lemma exec_refresh state cap v :
  layout_ok cap v -> in_u8 state ->
  exists v', exec (refresh_superblock state) cap v (Ok (sb_of v')) v' /\ layout_ok cap v' /\
    same_files v v' /\ sb_state (sb_of v') = state /\
    sb_file_count (sb_of v') = active_count v (seq 0 TABLE_SIZE) /\
    sb_used_blocks (sb_of v') = active_blocks v (seq 0 TABLE_SIZE).
Proof.
  intros Hl Hst. pose proof (layout_cap _ _ Hl) as Hc. set (sb := sb_of v).
  pose proof (active_blocks_bound _ _ (seq 0 TABLE_SIZE) Hl (fun i => proj1 (in_table i))) as Hb.
  pose proof (active_count_bound v (seq 0 TABLE_SIZE)) as Ha. unfold blen in Ha, Hb.
  rewrite length_seq in Ha, Hb. change (Z.of_nat TABLE_SIZE) with 128 in Ha, Hb.
  destruct (exec_update_superblock (mkSuperblock (sb_magic sb) (sb_version sb) (sb_label sb)
    (sb_total_sectors sb) (sb_total_blocks sb) (active_blocks v (seq 0 TABLE_SIZE))
    (active_count v (seq 0 TABLE_SIZE)) (sb_block_size sb)
    (sb_created_at sb) (sb_last_mount sb) (sb_mount_count sb) state (sb_reserved sb)) cap v)
    as (v' & He & Hl' & Hs & Hsb); [done| |apply Hl|done|].
  { destruct (layout_sb_wf _ _ Hl). constructor; try done;
    cbn [sb_used_blocks sb_file_count]; unfold in_u; lia. }
  exists v'. split_and!; try done; try by rewrite Hsb.
  eapply exec_bind; [by apply exec_read_layout|].
  eapply exec_bind.
  { apply exec_count_used; [done| |unfold u32_max; lia].
    intros i _. apply (layout_entry_wf _ _ i Hl). }
  eapply exec_bind; [by apply exec_count_active|]. eapply exec_bind; [exact He|].
  rewrite Hsb. apply exec_ret.
Qed.

(** *** Formatting *)

Lemma exec_fold_views (f : nat -> () -> stm S DiskError ()) (vs : nat -> Z -> bytes) cap k n :
  (forall i, (k <= i < k + n)%nat -> exec (f i ()) cap (vs i) (Ok ()) (vs (Datatypes.S i))) ->
  exec (foldM f (seq k n) ()) cap (vs k) (Ok ()) (vs (k + n)%nat).
Proof.
  revert k. induction n as [|n IH]; intros k Hf; simpl.
  - rewrite Nat.add_0_r. apply exec_ret.
  - eapply exec_bind; [apply Hf; lia|]. rewrite Nat.add_succ_r, <- Nat.add_succ_l. apply IH.
    intros i Hi. apply Hf. lia.
Qed.

(** The contents with the first [n] sectors of the file table cleared. *)
Definition clear_table (v : Z -> bytes) (n : nat) : Z -> bytes :=
  fun t => if decide (FILE_TABLE_START_SECTOR <= t < FILE_TABLE_START_SECTOR + Z.of_nat n)
           then zeros SECTOR_SIZE else v t.

Lemma clear_table_step v n :
  pointwise_relation Z eq
    (set_sector (FILE_TABLE_START_SECTOR + Z.of_nat n) (zeros SECTOR_SIZE) (clear_table v n))
    (clear_table v (Datatypes.S n)).
Proof.
  intros t. unfold set_sector, clear_table, FILE_TABLE_START_SECTOR.
  repeat case_decide; done || lia.
Qed.

Lemma clear_table_0 v : pointwise_relation Z eq (clear_table v 0) v.
Proof. intros t. unfold clear_table. rewrite decide_False; [done|lia]. Qed.

Lemma superblock_new_wf now total :
  in_u64 now -> in_u64 total -> superblock_wf (superblock_new now total).
Proof.
  intros Hn Ht. unfold superblock_new. constructor; try done.
  cbn [sb_total_blocks]. unfold wrap, in_u. apply Z.mod_pos_bound. lia.
Qed.

Definition formatted (now cap : Z) (v : Z -> bytes) : Z -> bytes :=
  clear_table (set_sector 0 (superblock_bytes (superblock_new now cap)) v) TABLE_SIZE.

Lemma exec_format now cap v :
  in_u64 now -> DATA_START_SECTOR <= cap < 2 ^ 64 ->
  exec (format_disk now) cap v (Ok ()) (formatted now cap v).
Proof.
  intros Hn Hc. pose proof data_start_pos. unfold format_disk.
  eapply exec_bind; [apply exec_gets_capacity|].
  eapply exec_bind; [apply exec_write_superblock; [lia|]|].
  { apply superblock_new_wf; [done|]. unfold in_u. lia. }
  rewrite <- (clear_table_0 (set_sector _ _ _)).
  apply (exec_fold_views _ (clear_table (set_sector 0 (superblock_bytes (superblock_new now cap)) v)) cap 0 TABLE_SIZE).
  intros i Hi. rewrite <- clear_table_step. apply exec_write_1; [|apply length_zeros].
  unfold DATA_START_SECTOR, FILE_TABLE_START_SECTOR in *. lia.
Qed.

Lemma formatted_inactive now cap v i : ~ active_at (formatted now cap v) i.
Proof.
  intros [Hi Ha]. apply Ha. unfold entry_at, formatted, clear_table.
  rewrite decide_True by (unfold FILE_TABLE_START_SECTOR; lia). reflexivity.
Qed.

Lemma formatted_layout now cap v :
  in_u64 now -> DATA_START_SECTOR <= cap < 2 ^ 35 -> (forall t, length (v t) = SECTOR_SIZE) ->
  layout_ok cap (formatted now cap v).
Proof.
  intros Hn Hc Hv.
  assert (superblock_wf (superblock_new now cap)) as Hw.
  { apply superblock_new_wf; [done|]. unfold in_u. pose proof data_start_pos. lia. }
  assert (sb_of (formatted now cap v) = superblock_new now cap) as Hsb.
  { unfold formatted, sb_of, clear_table. rewrite decide_False by (unfold FILE_TABLE_START_SECTOR; lia).
    by apply (sb_of_set (superblock_new now cap) v). }
  assert (0 <= (cap - DATA_START_SECTOR) / SECTORS_PER_BLOCK < u32_max) as Hb.
  { change DATA_START_SECTOR with 129 in *. unfold SECTORS_PER_BLOCK, u32_max.
    split; [apply Z.div_pos; lia|apply Z.div_lt_upper_bound; lia]. }
  assert (sb_total_blocks (superblock_new now cap) = (cap - DATA_START_SECTOR) / SECTORS_PER_BLOCK) as Ht.
  { unfold superblock_new. cbn [sb_total_blocks]. unfold sat_sub. rewrite Z.max_l by lia.
    apply wrap_small. unfold u32_max in Hb. lia. }
  split; rewrite ?Hsb, ?Ht; try done.
  - intros t. unfold formatted, clear_table. case_decide; [apply length_zeros|].
    apply set_sector_length; [by apply superblock_bytes_length|done].
  - pose proof (Z.mul_div_le (cap - DATA_START_SECTOR) SECTORS_PER_BLOCK eq_refl). lia.
  - lia.
  - intros i Ha. by apply formatted_inactive in Ha.
  - intros i j Ha. by apply formatted_inactive in Ha.
  - intros i j Ha. by apply formatted_inactive in Ha.
Qed.

(** *** Allocation *)

(** [b .. b + count - 1] meets no block of an active file other than the
    ignored one. *)
Definition free_range (v : Z -> bytes) (ignore_index : option nat) (b count : Z) : Prop :=
  forall i, active_at v i -> Some i <> ignore_index ->
    blocks_disjoint b count (de_start_block (entry_at v i)) (de_block_count (entry_at v i)).

Lemma ranges_fold v ignore l acc r :
  r ∈ fold_left (fun ranges index =>
        if bool_decide (Some index = ignore) then ranges
        else if (de_active (entry_at v index) =? 0) || (de_block_count (entry_at v index) =? 0)
        then ranges
        else ranges ++ [(de_start_block (entry_at v index),
               wrap 32 (de_start_block (entry_at v index) + de_block_count (entry_at v index)))]) l acc <->
  r ∈ acc \/ exists i, i ∈ l /\ Some i <> ignore /\ de_active (entry_at v i) <> 0 /\
    de_block_count (entry_at v i) <> 0 /\
    r = (de_start_block (entry_at v i),
         wrap 32 (de_start_block (entry_at v i) + de_block_count (entry_at v i))).
Proof.
  revert acc. induction l as [|x l IH]; intros acc; cbn [fold_left].
  { split; [by left|]. intros [?|(i & Hi & _)]; [done|]. by apply elem_of_nil in Hi. }
  rewrite IH. clear IH. setoid_rewrite elem_of_cons.
  case_bool_decide as Hig.
  { split; [naive_solver|]. intros [?|(i & [->|Hi] & ?)]; naive_solver. }
  destruct (Z.eqb_spec (de_active (entry_at v x)) 0) as [E1|E1];
    destruct (Z.eqb_spec (de_block_count (entry_at v x)) 0) as [E2|E2]; cbn [orb];
    rewrite ?elem_of_app, ?list_elem_of_singleton;
    (split; [naive_solver|intros [?|(i & [->|Hi] & ?)]; naive_solver]).
Qed.

Lemma first_gap_Ok count total candidate l b :
  0 <= candidate -> 0 < count -> total < u32_max -> StronglySorted (fun a b : Z * Z => a.1 <= b.1) l ->
  Forall (fun r => r.1 < total) l ->
  first_gap count total candidate l = Ok b ->
  candidate <= b /\ b + count <= total /\ Forall (fun r => b + count <= r.1 \/ r.2 <= b) l.
Proof.
  intros Hc Hcount Htot Hs. revert candidate Hc.
  induction Hs as [|[st en] l Hl IH Hhd]; intros candidate Hc Hf; simpl.
  - destruct (_ <=? _) eqn:E; [|done]. intros [= <-]. unfold sat_add, u32_max in *.
    split_and!; [lia|lia|constructor].
  - apply Forall_cons in Hf as [Hst Hf]. simpl in Hst. destruct (_ <=? _) eqn:E.
    + intros [= <-]. unfold sat_add, u32_max in *. split_and!; [lia|lia|].
      constructor; [simpl; lia|]. eapply Forall_impl; [exact Hhd|]. intros [s e]; simpl. lia.
    + intros Hg. destruct (IH (Z.max candidate en) ltac:(lia) Hf Hg) as (H1 & H2 & H3).
      split_and!; [lia|done|]. constructor; [simpl; lia|done].
Qed.

Lemma first_gap_Err count total candidate l e :
  total < u32_max -> Forall (fun r => r.1 < total) l ->
  first_gap count total candidate l = Err e ->
  e = DiskFull /\ forall b, candidate <= b -> b + count <= total ->
                        ~ Forall (fun r => b + count <= r.1 \/ r.2 <= b) l.
Proof.
  intros Htot. revert candidate. induction l as [|[st en] l IH]; intros candidate Hf; simpl.
  - destruct (_ <=? _) eqn:E; [done|]. intros [= <-]. split; [done|]. intros b Hb Hbt.
    unfold sat_add, u32_max in *. lia.
  - apply Forall_cons in Hf as [Hst Hf]. simpl in Hst. destruct (_ <=? _) eqn:E; [done|].
    intros Hg. destruct (IH _ Hf Hg) as [He Hno]. split; [done|]. intros b Hb Hbt.
    rewrite Forall_cons. intros [[H1|H1] H2]; simpl in H1.
    + unfold sat_add, u32_max in *. lia.
    + apply (Hno b); [lia|done|done].
Qed.

Lemma exec_allocate count ignore cap v :
  layout_ok cap v ->
  exec (allocate_blocks count ignore) cap v
    (first_gap count (sb_total_blocks (sb_of v)) 0
       (sort_by (fun a b : Z * Z => a.1 <=? b.1) (ranges_of v ignore))) v.
Proof.
  intros Hl. eapply exec_bind; [by apply exec_read_layout|]. eapply exec_bind; [|apply exec_lift].
  unfold used_ranges, ranges_of.
  apply (exec_fold _ (fun index ranges =>
    if bool_decide (Some index = ignore) then ranges
    else if (de_active (entry_at v index) =? 0) || (de_block_count (entry_at v index) =? 0) then ranges
    else ranges ++ [(de_start_block (entry_at v index),
           wrap 32 (de_start_block (entry_at v index) + de_block_count (entry_at v index)))])).
  intros i ranges Hi%in_table. case_bool_decide; [apply exec_ret|].
  eapply exec_bind; [apply exec_read_entry; [done|by eapply layout_cap]|].
  destruct (_ || _); apply exec_ret.
Qed.

Lemma sorted_by_start (l : list (Z * Z)) :
  StronglySorted (fun a b : Z * Z => a.1 <= b.1) (sort_by (fun a b : Z * Z => a.1 <=? b.1) l).
Proof.
  apply (sort_by_sorted _ (fun a b : Z * Z => a.1 <= b.1));
    [intros a b c; lia|intros a b; lia|intros a b; lia].
Qed.

Lemma layout_end_small cap v i :
  layout_ok cap v -> active_at v i -> de_block_count (entry_at v i) <> 0 ->
  wrap 32 (de_start_block (entry_at v i) + de_block_count (entry_at v i))
  = de_start_block (entry_at v i) + de_block_count (entry_at v i).
Proof.
  intros Hl Hact Hb. pose proof (so_range _ _ (lo_slots _ _ Hl i Hact) Hb) as Hlt.
  pose proof (lo_total _ _ Hl). pose proof (layout_entry_wf _ _ i Hl) as Hw.
  pose proof (dw_start_block _ Hw). pose proof (dw_block_count _ Hw).
  apply wrap_small. unfold in_u, u32_max in *. lia.
Qed.

(** The sorted ranges stand for the blocks of the other active files. *)
Lemma sorted_ranges v ignore cap :
  layout_ok cap v ->
  let l := sort_by (fun a b : Z * Z => a.1 <=? b.1) (ranges_of v ignore) in
  StronglySorted (fun a b : Z * Z => a.1 <= b.1) l /\
  Forall (fun r => r.1 < sb_total_blocks (sb_of v)) l /\
  forall b count, 0 < count ->
    (Forall (fun r => b + count <= r.1 \/ r.2 <= b) l <-> free_range v ignore b count).
Proof.
  intros Hl l.
  assert (forall r, r ∈ l <-> exists i, active_at v i /\ Some i <> ignore /\
            de_block_count (entry_at v i) <> 0 /\
            r = (de_start_block (entry_at v i), de_start_block (entry_at v i) + de_block_count (entry_at v i)))
    as Hr.
  { intros r. subst l. rewrite sort_by_perm. unfold ranges_of. rewrite ranges_fold.
    split.
    - intros [Hn|(i & Hi%in_table & Hig & Ha & Hb & ->)]; [by apply elem_of_nil in Hn|].
      exists i. split_and!; try done. f_equal. by apply (layout_end_small cap).
    - intros (i & Hact & Hig & Hb & ->). right. exists i. destruct Hact as [Hi Ha].
      split_and!; try done; [by apply in_table|]. f_equal. symmetry. by apply (layout_end_small cap). }
  split_and!.
  - by apply sorted_by_start.
  - apply Forall_forall. intros r (i & Hact & _ & Hb & ->)%Hr. cbn [fst snd].
    pose proof (so_range _ _ (lo_slots _ _ Hl i Hact) Hb).
    pose proof (dw_block_count _ (layout_entry_wf _ _ i Hl)). unfold in_u in *. lia.
  - intros b count Hc. rewrite Forall_forall. split.
    + intros Hall i Hact Hig. unfold blocks_disjoint.
      destruct (decide (de_block_count (entry_at v i) = 0)) as [|Hb]; [auto|].
      destruct (Hall (de_start_block (entry_at v i), de_start_block (entry_at v i) + de_block_count (entry_at v i)));
        [apply Hr; eauto 6|cbn [fst snd] in *; lia..].
    + intros Hfree r (i & Hact & Hig & Hb & ->)%Hr. cbn [fst snd].
      destruct (Hfree i Hact Hig) as [?|[?|[?|?]]]; lia.
Qed.


(** Formatting a disk of at least 129 sectors (and below 16 TiB) succeeds
    and yields a sound volume without files. *)
Theorem format_disk_correct now cap v :
  in_u64 now -> DATA_START_SECTOR <= cap < 2 ^ 35 -> (forall t, length (v t) = SECTOR_SIZE) ->
  exists v', exec (format_disk now) cap v (Ok ()) v' /\ layout_ok cap v' /\ forall i, ~ active_at v' i.
Proof.
  intros Hn Hc Hv. exists (formatted now cap v). split_and!.
  - apply exec_format; [done|lia].
  - by apply formatted_layout.
  - apply formatted_inactive.
Qed.

(** [refresh_superblock] leaves files and data alone and makes the file and
    block counters of the superblock agree with the file table. *)
Theorem refresh_superblock_correct state cap v :
  layout_ok cap v -> in_u8 state ->
  exists v', exec (refresh_superblock state) cap v (Ok (sb_of v')) v' /\ layout_ok cap v' /\
    (forall t, t <> 0 -> v' t = v t) /\ sb_state (sb_of v') = state /\
    sb_file_count (sb_of v') = active_count v (seq 0 TABLE_SIZE) /\
    sb_used_blocks (sb_of v') = active_blocks v (seq 0 TABLE_SIZE).
Proof. apply exec_refresh. Qed.
End specs.

(** A superblock written to disk and read back is the same, whatever the
    alignment bytes hold. *)
Theorem superblock_roundtrip `{Padding} sb :
  superblock_wf sb ->
  length (superblock_bytes sb) = SECTOR_SIZE /\ superblock_of_bytes (superblock_bytes sb) = sb.
Proof. intros Hw. split; [by apply superblock_bytes_length|by apply superblock_of_to_bytes]. Qed.

(** A file entry written to disk and read back is the same, whatever the
    alignment bytes hold. *)
Theorem disk_entry_roundtrip `{Padding} e :
  entry_wf e -> length (entry_bytes e) = SECTOR_SIZE /\ entry_of_bytes (entry_bytes e) = e.
Proof. intros Hw. split; [by apply entry_bytes_length|by apply entry_of_to_bytes]. Qed.

(** ** Concrete volumes *)

#[global] Instance zero_padding : Padding := fun _ => x00.

(** A blank 200-sector disk in memory and its contents. *)
Definition blank_disk : Disk RamDev := disk_new (mkRam 200 ∅).
Definition blank_view : Z -> bytes := ss_view blank_disk.

Lemma blank_at_view : at_view 200 blank_view blank_disk.
Proof. split_and!; [apply disk_new_ok|done|done]. Qed.

Definition formatted_view : Z -> bytes := formatted 7 200 blank_view.

Lemma formatted_view_ok : layout_ok 200 formatted_view.
Proof. apply formatted_layout; [done|done|]. apply (ss_view_length blank_disk). Qed.

Lemma format_disk_correct_witness :
  exists v' s', format_disk 7 blank_disk = (Ok (), s') /\ at_view 200 v' s' /\
    layout_ok 200 v' /\ forall i, ~ active_at v' i.
Proof.
  destruct (format_disk_correct (S := Disk RamDev) 7 200 blank_view) as (v' & He & Hl & Hi);
    [done|done|apply (ss_view_length blank_disk)|].
  destruct (He blank_disk blank_at_view) as (s' & E & Hs). eauto 6.
Defined.


Lemma refresh_superblock_correct_witness :
  exists v', exec (S := Disk RamDev) (refresh_superblock FS_STATE_DIRTY) 200 formatted_view (Ok (sb_of v')) v' /\
    sb_state (sb_of v') = FS_STATE_DIRTY.
Proof.
  destruct (refresh_superblock_correct (S := Disk RamDev) FS_STATE_DIRTY 200 formatted_view)
    as (v' & He & _ & _ & Hst & _); [exact formatted_view_ok|done|]. eauto.
Defined.

Lemma superblock_roundtrip_witness :
  superblock_of_bytes (superblock_bytes (superblock_new 7 200)) = superblock_new 7 200.
Proof. apply (superblock_roundtrip (superblock_new 7 200)). by apply superblock_new_wf. Defined.

Lemma disk_entry_roundtrip_witness : entry_of_bytes (entry_bytes inactive) = inactive.
Proof. apply (disk_entry_roundtrip inactive). by constructor. Defined.
