(* ===== verification/Persist.v ===== *)
(** * Persistence (kernel/src/disk/persist.rs and kernel/src/disk/mod.rs)

    Loading the volume into the in-memory file system at boot, saving and
    deleting single files as they change, synchronising everything; and the
    disk seen by the file system, an optional store, as an instance of the
    interface [Backend]. *)
From S2P Require Import Prelude RustStr Paths Auth Disk DiskFormat WarFS.

(** Loops over the file table are never unrolled in proofs. *)
#[global] Opaque TABLE_SIZE.

Definition is_persistable_path (path : bytes) : bool :=
  negb (bool_decide (path = str "/readme.txt") || bool_decide (path = str "/sysinfo.txt")).

Definition state_label (state : Z) : bytes :=
  if state =? FS_STATE_CLEAN then str "clean" else str "dirty".

Definition bit (b : bool) : Z := if b then 1 else 0.

Section persist.
Context {S : Type} `{SectorStore S} `{Padding}.

(** ** Loading *)

(** The disk and the file system are two separate [&mut] arguments. *)
Definition on_disk {A} (m : stm S DiskError A) : stm (S * WarFS) (fault DiskError) A :=
  fun '(s, f) => let '(r, s') := m s in (map_err Raised r, (s', f)).
Definition on_fs {A} (m : stm WarFS FsError A) : stm (S * WarFS) (fault DiskError) A :=
  fun '(s, f) => let '(r, f') := m f in (map_err (fun e => Raised (FilesystemError e)) r, (s, f')).

Definition load_step (index : nat) (loaded : Z) : stm (S * WarFS) (fault DiskError) Z :=
  entry ← on_disk (read_file_entry index);
  if de_active entry =? 0 then mret loaded
  else
    name ← on_disk (lift_result (entry_name entry));
    if negb (is_persistable_path name) then mret loaded
    else
      data ← (if negb (de_block_count entry =? 0) && negb (de_size entry =? 0) then
                block_buffer ← on_disk (read_file_data (de_start_block entry) (de_block_count entry)
                                          (zeros (Z.to_nat (de_block_count entry * BLOCK_SIZE))));
                if blen block_buffer <? de_size entry then throw Panicked
                else mret (take (Z.to_nat (de_size entry)) block_buffer)
              else mret (zeros (Z.to_nat (de_size entry))));
      let permissions := mkPermissions (de_owner_uid entry)
                           (negb (de_perm_owner_read entry =? 0)) (negb (de_perm_owner_write entry =? 0))
                           (negb (de_perm_others_read entry =? 0)) (negb (de_perm_others_write entry =? 0)) in
      _ ← on_fs (load_file_from_disk name data (de_owner_uid entry) permissions
                   (negb (de_readonly entry =? 0)) (de_created_at entry) (de_modified_at entry));
      mret (loaded + 1).

Definition load_filesystem : stm (S * WarFS) (fault DiskError) Z :=
  foldM load_step (seq 0 TABLE_SIZE) 0.

(** ** Saving *)

(** The search loop of [upsert_file_entry]: the entry of that name, if any, and
    the first empty slot seen before it. *)
Fixpoint upsert_scan (name : bytes) (indices : list nat) (empty_index : option nat) :
    stm S DiskError (option (nat * DiskFileEntry) * option nat) :=
  match indices with
  | [] => mret (None, empty_index)
  | index :: rest =>
      entry ← read_file_entry index;
      if negb (de_active entry =? 0) then
        n ← lift_result (entry_name entry);
        if bool_decide (n = name) then mret (Some (index, entry), empty_index)
        else upsert_scan name rest empty_index
      else upsert_scan name rest (match empty_index with None => Some index | Some _ => empty_index end)
  end.

(** The name field: at most [MAX_FILENAME - 1] bytes, zero-terminated. *)
Definition name_field (name : bytes) : bytes :=
  let copy_len := Nat.min (length name) (MAX_FILENAME - 1) in
  splice 0 (take copy_len name) (zeros MAX_FILENAME).

Definition upsert_file_entry (name data : bytes) (owner_uid : Z) (permissions : FilePermissions)
    (readonly : bool) (created_at modified_at : Z) : stm S DiskError () :=
  '(target, empty_index) ← upsert_scan name (seq 0 TABLE_SIZE) None;
  index ← lift_result (ok_or (match target with Some (i, _) => Some i | None => empty_index end) DiskFull);
  let blocks_needed := block_count_for_len (blen data) in
  start_block ←
    (if blocks_needed =? 0 then mret 0
     else match target with
          | Some (_, existing) =>
              if blocks_needed <=? de_block_count existing then mret (de_start_block existing)
              else allocate_blocks blocks_needed (Some index)
          | None => allocate_blocks blocks_needed None
          end);
  _ ← (if negb (blocks_needed =? 0) then write_file_data start_block data else mret 0);
  write_file_entry index
    (mkDiskEntry 1 (name_field name) (blen data) owner_uid
       (bit (owner_read permissions)) (bit (owner_write permissions))
       (bit (others_read permissions)) (bit (others_write permissions))
       (bit readonly) created_at modified_at start_block blocks_needed (zeros 368)).

Definition upsert_entry (e : FileEntry) : stm S DiskError () :=
  upsert_file_entry (fe_name e) (fe_data e) (fe_owner_uid e) (fe_permissions e) (fe_readonly e)
                    (fe_created_at e) (fe_modified_at e).

Definition save_entry (e : FileEntry) : stm S DiskError () :=
  _ ← set_superblock_state FS_STATE_DIRTY;
  _ ← upsert_entry e;
  _ ← refresh_superblock FS_STATE_CLEAN;
  mret ().

(** The search loop of [delete_file_from_disk]: was the entry found (and
    cleared)? *)
Fixpoint delete_scan (name : bytes) (indices : list nat) : stm S DiskError bool :=
  match indices with
  | [] => mret false
  | index :: rest =>
      entry ← read_file_entry index;
      if de_active entry =? 0 then delete_scan name rest
      else
        n ← lift_result (entry_name entry);
        if bool_decide (n = name) then (_ ← write_file_entry index inactive; mret true)
        else delete_scan name rest
  end.

Definition delete_file_from_disk (name : bytes) : stm S DiskError () :=
  _ ← set_superblock_state FS_STATE_DIRTY;
  found ← delete_scan name (seq 0 TABLE_SIZE);
  if negb found then throw DiskFileNotFound
  else _ ← refresh_superblock FS_STATE_CLEAN; mret ().

(** One turn of each of the two loops of [sync_filesystem]. *)
Definition sync_clear_step (snapshot : list FileEntry) (index : nat) (_ : ()) : stm S DiskError () :=
  entry ← read_file_entry index;
  if de_active entry =? 0 then mret ()
  else
    name ← lift_result (entry_name entry);
    if negb (existsb (fun file => is_persistable_path (fe_name file) && bool_decide (fe_name file = name)) snapshot)
    then write_file_entry index inactive
    else mret ().

Definition sync_save_step (file : FileEntry) (synced : Z) : stm S DiskError Z :=
  if negb (is_persistable_path (fe_name file)) then mret synced
  else _ ← upsert_entry file; mret (synced + 1).

Definition sync_filesystem (snapshot : list FileEntry) : stm S DiskError Z :=
  _ ← set_superblock_state FS_STATE_DIRTY;
  _ ← foldM (sync_clear_step snapshot) (seq 0 TABLE_SIZE) ();
  synced ← foldM sync_save_step snapshot 0;
  _ ← refresh_superblock FS_STATE_CLEAN;
  mret synced.

Definition disk_usage : stm S DiskError (Z * Z) :=
  file_count ← count_active_files;
  used_blocks ← count_used_blocks;
  mret (file_count, used_blocks).

(** ** The disk behind the file system: [DISK], an optional store *)

#[global] Instance disk_backend : Backend (option S) := {
  maybe_sync_file_entry entry disk :=
    if negb (is_persistable_path (fe_name entry)) then disk
    else match disk with Some s => Some (save_entry entry s).2 | None => None end;
  maybe_delete_path path disk :=
    if negb (is_persistable_path path) then disk
    else match disk with Some s => Some (delete_file_from_disk path s).2 | None => None end;
}.
End persist.

(** ** Mounting and the operations of disk/mod.rs *)

Record DiskInitReport : Type := mkInitReport {
  ir_size_mb : Z;
  ir_version : Z;
  ir_loaded_files : Z;
  ir_formatted : bool;
}.

Inductive MountMode : Type :=
| RamOnly
| DiskBacked (version disk_size : Z).

Record DiskStatus : Type := mkDiskStatus {
  ds_capacity_sectors : Z;
  ds_disk_size : Z;
  ds_version : Z;
  ds_total_blocks : Z;
  ds_used_blocks : Z;
  ds_file_count : Z;
  ds_state : Z;
}.

Section mount.
Context {D : Type} `{BlockDevice D} `{Padding}.

(** [disk_size], as computed by [VirtioBlk::init]. *)
Definition disk_size (d : Disk D) : Z := wrap 64 (dev_capacity (device d) * Z.of_nat SECTOR_SIZE).

(** [init]: [probe] is what the PCI scan and the device set-up found, [now] and
    [now'] the two readings of the tick counter. *)
Definition disk_init (probe : option (result DiskError D)) (now now' : Z) :
    stm (option (Disk D) * WarFS) (fault DiskError) (option DiskInitReport) :=
  fun '(DISK, filesystem) =>
    match probe with
    | None => (Ok None, (DISK, filesystem))
    | Some (Err e) => (Err (Raised e), (DISK, filesystem))
    | Some (Ok dev) =>
        let body : stm (Disk D * WarFS) (fault DiskError) DiskInitReport :=
          formatted ←
            (fun '(disk, f) =>
               match read_superblock disk with
               | (Ok _, disk1) => (Ok false, (disk1, f))
               | (Err FormatError, disk1) =>
                   match format_disk now disk1 with
                   | (Ok _, disk2) => (Ok true, (reset_cache disk2, f))
                   | (Err e, disk2) => (Err (Raised e), (disk2, f))
                   end
               | (Err e, disk1) => (Err (Raised e), (disk1, f))
               end);
          mounted ← on_disk (mark_mounted now');
          loaded_files ← (if formatted : bool then mret 0 else load_filesystem);
          size ← gets (fun '(disk, _) => disk_size disk);
          mret (mkInitReport (size / (1024 * 1024)) (sb_version mounted) loaded_files formatted) in
        match body (disk_new dev, filesystem) with
        | (Ok report, (disk, f)) => (Ok (Some report), (Some disk, f))
        | (Err e, (_, f)) => (Err e, (DISK, f))
        end
    end.

Definition is_available (DISK : option (Disk D)) : bool :=
  match DISK with Some _ => true | None => false end.

(** Run on the disk in the lock, if there is one. *)
Definition with_disk {A} (none : A) (m : stm (Disk D) DiskError A) : stm (option (Disk D)) DiskError A :=
  fun DISK => match DISK with
              | None => (Ok none, None)
              | Some disk => let '(r, disk') := m disk in (r, Some disk')
              end.

Definition mount_mode (DISK : option (Disk D)) : MountMode * option (Disk D) :=
  match DISK with
  | None => (RamOnly, None)
  | Some disk =>
      match read_superblock disk with
      | (Ok sb, disk') => (DiskBacked (sb_version sb) (disk_size disk'), Some disk')
      | (Err _, disk') => (DiskBacked 0 (disk_size disk'), Some disk')
      end
  end.

(** Without the PCI coordinates, which are properties of the device. *)
Definition disk_status : stm (option (Disk D)) DiskError (option DiskStatus) :=
  with_disk None
    (sb ← read_superblock;
     '(file_count, used_blocks) ← disk_usage;
     capacity ← gets (fun disk => dev_capacity (device disk));
     size ← gets disk_size;
     mret (Some (mkDiskStatus capacity size (sb_version sb) (sb_total_blocks sb) used_blocks
                              file_count (sb_state sb)))).

Definition sync_all (snapshot : list FileEntry) : stm (option (Disk D)) DiskError Z :=
  with_disk 0 (synced ← sync_filesystem snapshot; _ ← disk_flush; mret synced).

Definition format_active (now now' : Z) : stm (option (Disk D)) DiskError bool :=
  with_disk false
    (_ ← format_disk now;
     _ ← modify reset_cache;
     _ ← mark_mounted now';
     _ ← refresh_superblock FS_STATE_CLEAN;
     mret true).
End mount.

(** ** The files on a volume *)

Definition file_of (v : Z -> bytes) (e : DiskFileEntry) : FileEntry :=
  mkEntry (match entry_name e with Ok n => n | Err _ => [] end)
          (take (Z.to_nat (de_size e)) (block_data v e))
          (de_created_at e) (de_modified_at e) (negb (de_readonly e =? 0)) (de_owner_uid e)
          (mkPermissions (de_owner_uid e)
             (negb (de_perm_owner_read e =? 0)) (negb (de_perm_owner_write e =? 0))
             (negb (de_perm_others_read e =? 0)) (negb (de_perm_others_write e =? 0))).

Definition slot (v : Z -> bytes) (i : nat) : option FileEntry :=
  if de_active (entry_at v i) =? 0 then None else Some (file_of v (entry_at v i)).

Definition disk_files (v : Z -> bytes) : list FileEntry := omap (slot v) (seq 0 TABLE_SIZE).

(** A volume as a finite map from names to files. *)
Definition disk_map (v : Z -> bytes) : gmap bytes FileEntry :=
  list_to_map (map (fun f => (fe_name f, f)) (disk_files v)).

(** Files whose metadata fits the on-disk entry. *)
Record savable (e : FileEntry) : Prop := mkSavable {
  sv_size : blen (fe_data e) <= MAX_FILE_SIZE;
  sv_owner : in_u16 (fe_owner_uid e);
  sv_perm_owner : perm_owner_uid (fe_permissions e) = fe_owner_uid e;
  sv_created : in_u64 (fe_created_at e);
  sv_modified : in_u64 (fe_modified_at e);
}.

(** Names the name field can hold. *)
Record name_fits (name : bytes) : Prop := mkNameFits {
  nf_len : (length name < MAX_FILENAME)%nat;
  nf_nul : x00 ∉ name;
  nf_utf8 : utf8_valid name = true;
}.

(** The files the disk can represent. *)
Definition storable (e : FileEntry) : Prop := savable e /\ name_fits (fe_name e).

(** ** Lemmas: names *)

Lemma position_app_r {A} (p : A -> bool) l x r :
  (forall y, y ∈ l -> p y = false) -> p x = true -> position p (l ++ x :: r) = Some (length l).
Proof.
  intros Hl Hx. induction l as [|y l IH]; simpl; [by rewrite Hx|].
  rewrite Hl by left. rewrite IH; [done|]. intros z Hz. apply Hl. by right.
Qed.

Lemma length_name_field name : length (name_field name) = MAX_FILENAME.
Proof.
  unfold name_field, splice. rewrite take_0. cbn [app]. rewrite length_app, length_drop, length_take, length_zeros.
  unfold MAX_FILENAME. lia.
Qed.

(** What the name field holds: the name, cut to 95 bytes. *)
Lemma entry_name_field e name :
  de_name e = name_field name -> x00 ∉ name -> utf8_valid (take (MAX_FILENAME - 1) name) = true ->
  entry_name e = Ok (take (MAX_FILENAME - 1) name).
Proof.
  intros He Hn Hu. unfold entry_name. rewrite He. unfold name_field, splice. rewrite take_0. cbn [app].
  set (k := Nat.min (length name) (MAX_FILENAME - 1)).
  assert (take k name = take (MAX_FILENAME - 1) name) as ->.
  { unfold k. destruct (Nat.le_ge_cases (length name) (MAX_FILENAME - 1)).
    - by rewrite Nat.min_l, !take_ge by lia.
    - by rewrite Nat.min_r by lia. }
  set (n := take (MAX_FILENAME - 1) name) in *.
  assert (length n < MAX_FILENAME)%nat as Hlen.
  { unfold n. rewrite length_take. unfold MAX_FILENAME. lia. }
  unfold zeros. rewrite drop_replicate. cbn [Nat.add].
  destruct (MAX_FILENAME - length n)%nat as [|z] eqn:Ez; [lia|]. simpl replicate.
  rewrite position_app_r; [| |by rewrite bool_decide_true].
  - change (default MAX_FILENAME (Some (length n))) with (length n). by rewrite take_app_length, Hu.
  - intros y Hy. apply bool_decide_false. intros ->. apply Hn. unfold n in Hy.
    apply list_elem_of_lookup in Hy as [j Hj]. apply lookup_take_Some in Hj as [Hj _].
    by eapply list_elem_of_lookup_2.
Qed.

(** ** Lemmas: data blocks *)

Lemma view_range_write v sector n buffer k m :
  (k + m <= n)%nat -> (n * SECTOR_SIZE <= length buffer)%nat ->
  view_range (write_view v sector n buffer) (sector + Z.of_nat k) m
  = field (k * SECTOR_SIZE) (m * SECTOR_SIZE) buffer.
Proof.
  revert k. induction m as [|m IH]; intros k Hk Hb; [done|]. cbn [view_range].
  replace (sector + Z.of_nat k + 1) with (sector + Z.of_nat (Datatypes.S k)) by lia.
  rewrite IH by lia. unfold write_view. rewrite decide_True by lia.
  replace (Z.to_nat (sector + Z.of_nat k - sector)) with k by lia.
  unfold field. replace (Datatypes.S m * SECTOR_SIZE)%nat with (SECTOR_SIZE + m * SECTOR_SIZE)%nat by lia.
  rewrite <- take_take_drop, drop_drop. do 3 f_equal. lia.
Qed.

Lemma view_range_write_all v sector n buffer :
  length buffer = (n * SECTOR_SIZE)%nat ->
  view_range (write_view v sector n buffer) sector n = buffer.
Proof.
  intros Hl. pose proof (view_range_write v sector n buffer 0 n) as Hr.
  rewrite Z.add_0_r in Hr. rewrite Hr by lia. by apply field_all.
Qed.

Lemma table_sector j : (j < TABLE_SIZE)%nat -> 0 < FILE_TABLE_START_SECTOR + Z.of_nat j < DATA_START_SECTOR.
Proof. unfold FILE_TABLE_START_SECTOR, DATA_START_SECTOR. unfold FILE_TABLE_START_SECTOR. lia. Qed.

Section put.
Context `{Padding}.

Definition disk_entry (e : FileEntry) (start_block : Z) : DiskFileEntry :=
  mkDiskEntry 1 (name_field (fe_name e)) (blen (fe_data e)) (fe_owner_uid e)
    (bit (owner_read (fe_permissions e))) (bit (owner_write (fe_permissions e)))
    (bit (others_read (fe_permissions e))) (bit (others_write (fe_permissions e)))
    (bit (fe_readonly e)) (fe_created_at e) (fe_modified_at e) start_block
    (block_count_for_len (blen (fe_data e))) (zeros 368).

(** The data, padded to whole blocks. *)
Definition padded (data : bytes) : bytes :=
  splice 0 data (zeros (Z.to_nat (block_count_for_len (blen data) * BLOCK_SIZE))).

(** The volume after storing [e] in slot [i] with its data at [start_block]. *)
Definition put_view (v : Z -> bytes) (i : nat) (start_block : Z) (e : FileEntry) : Z -> bytes :=
  set_sector (FILE_TABLE_START_SECTOR + Z.of_nat i) (entry_bytes (disk_entry e start_block))
    (write_view v (DATA_START_SECTOR + start_block * SECTORS_PER_BLOCK)
       (Z.to_nat (block_count_for_len (blen (fe_data e)) * SECTORS_PER_BLOCK)) (padded (fe_data e))).

(** [start_block] is a good place for [count] blocks of slot [i]. *)
Definition good_place (v : Z -> bytes) (i : nat) (start_block count : Z) : Prop :=
  in_u32 start_block /\ (count <> 0 -> start_block + count <= sb_total_blocks (sb_of v)) /\
  forall j, active_at v j -> j <> i ->
    blocks_disjoint start_block count (de_start_block (entry_at v j)) (de_block_count (entry_at v j)).

Lemma bit_u8 b : in_u8 (bit b).
Proof. unfold in_u. destruct b; simpl; lia. Qed.

Lemma bit_true b : negb (bit b =? 0) = b.
Proof. by destruct b. Qed.

Lemma disk_entry_wf e b :
  blen (fe_data e) <= MAX_FILE_SIZE -> in_u16 (fe_owner_uid e) -> in_u64 (fe_created_at e) ->
  in_u64 (fe_modified_at e) -> in_u32 b -> entry_wf (disk_entry e b).
Proof.
  intros Hs Ho Hc Hm Hb. pose proof (blen_nonneg (fe_data e)) as Hn.
  destruct (block_count_bounds (blen (fe_data e))) as (Hbc & _); [lia|].
  unfold MAX_FILE_SIZE in *.
  constructor; cbn -[bit in_u Z.pow]; try done; try apply bit_u8; try apply length_name_field;
    unfold in_u; lia.
Qed.

Lemma length_padded data :
  blen data <= MAX_FILE_SIZE ->
  length (padded data) = (Z.to_nat (block_count_for_len (blen data) * SECTORS_PER_BLOCK) * SECTOR_SIZE)%nat.
Proof.
  intros Hs. pose proof (blen_nonneg data). destruct (block_count_bounds (blen data)) as (Hb & Hl & _); [lia|].
  unfold padded, splice. rewrite take_0. cbn [app]. rewrite length_app, length_drop, length_zeros.
  unfold blen, BLOCK_SIZE, SECTORS_PER_BLOCK, SECTOR_SIZE in *. lia.
Qed.

Lemma take_padded data :
  blen data <= MAX_FILE_SIZE -> take (Z.to_nat (blen data)) (padded data) = data.
Proof.
  intros _. unfold padded, splice, blen. rewrite take_0, Nat2Z.id. cbn [app]. by rewrite take_app_length.
Qed.

(** Sectors below the data area are not touched by data. *)
Lemma write_view_below v start n buffer t :
  0 <= start -> t < DATA_START_SECTOR ->
  write_view v (DATA_START_SECTOR + start * SECTORS_PER_BLOCK) n buffer t = v t.
Proof. intros Hs Ht. unfold write_view, SECTORS_PER_BLOCK in *. rewrite decide_False; [done|lia]. Qed.

Section put_facts.
Context (cap : Z) (v : Z -> bytes) (i : nat) (b : Z) (e : FileEntry).
Context (Hl : layout_ok cap v) (Hi : (i < TABLE_SIZE)%nat) (He : savable e).
Context (Hp : good_place v i b (block_count_for_len (blen (fe_data e)))).

Let v' := put_view v i b e.

Lemma put_entry_wf : entry_wf (disk_entry e b).
Proof. destruct He, Hp as [? _]. by apply disk_entry_wf. Qed.

Lemma put_b_nonneg : 0 <= b.
Proof. destruct Hp as [[? ?] _]. lia. Qed.

Lemma put_sb : sb_of v' = sb_of v.
Proof.
  unfold v', put_view. rewrite sb_of_set_ne by (pose proof (table_sector i Hi); lia).
  unfold sb_of. rewrite write_view_below; [done|apply put_b_nonneg|apply data_start_pos].
Qed.

Lemma put_entry_eq : entry_at v' i = disk_entry e b.
Proof. apply entry_at_set_eq, put_entry_wf. Qed.

Lemma put_entry_ne j : (j < TABLE_SIZE)%nat -> j <> i -> entry_at v' j = entry_at v j.
Proof.
  intros Hj Hne. unfold v', put_view. rewrite entry_at_set_ne by lia.
  unfold entry_at. rewrite write_view_below; [done|apply put_b_nonneg|by apply table_sector].
Qed.

Lemma put_active j : active_at v' j <-> j = i \/ j <> i /\ active_at v j.
Proof.
  unfold active_at. destruct (decide (j = i)) as [->|Hne].
  - rewrite put_entry_eq. simpl. naive_solver.
  - split; [intros [Hj Ha]; rewrite put_entry_ne in Ha by done; auto|].
    intros [?|(_ & Hj & Ha)]; [done|]. by rewrite put_entry_ne.
Qed.

Lemma put_sectors t : length (v' t) = SECTOR_SIZE.
Proof.
  unfold v', put_view. apply set_sector_length; [apply entry_bytes_length, put_entry_wf|].
  clear t. intros t. unfold write_view. case_decide; [|apply Hl]. apply field_length.
  rewrite length_padded by apply He. unfold SECTOR_SIZE. lia.
Qed.

Lemma put_range_view start n :
  0 <= start ->
  view_range v' (DATA_START_SECTOR + start * SECTORS_PER_BLOCK) n =
  view_range (write_view v (DATA_START_SECTOR + b * SECTORS_PER_BLOCK)
       (Z.to_nat (block_count_for_len (blen (fe_data e)) * SECTORS_PER_BLOCK)) (padded (fe_data e)))
    (DATA_START_SECTOR + start * SECTORS_PER_BLOCK) n.
Proof.
  intros Hs. apply view_range_ext. intros t Ht. unfold v', put_view, set_sector.
  pose proof (table_sector i Hi). unfold SECTORS_PER_BLOCK in *. by rewrite decide_False by lia.
Qed.

Lemma put_data_eq : block_data v' (disk_entry e b) = padded (fe_data e).
Proof.
  unfold block_data, disk_entry. cbn [de_start_block de_block_count].
  rewrite put_range_view by apply put_b_nonneg. apply view_range_write_all, length_padded, He.
Qed.

Lemma put_data_ne d :
  entry_wf d ->
  blocks_disjoint b (block_count_for_len (blen (fe_data e))) (de_start_block d) (de_block_count d) ->
  block_data v' d = block_data v d.
Proof.
  intros Hd Hdis. pose proof (dw_start_block _ Hd) as Hst. pose proof (dw_block_count _ Hd) as Hct.
  pose proof put_b_nonneg. pose proof (blen_nonneg (fe_data e)). pose proof (sv_size _ He).
  destruct (block_count_bounds (blen (fe_data e))) as (Hbc & _); [lia|].
  unfold in_u in *. unfold block_data. rewrite put_range_view by lia.
  apply view_range_ext. intros t Ht. unfold write_view. rewrite decide_False; [done|].
  unfold blocks_disjoint, SECTORS_PER_BLOCK in *. lia.
Qed.

Context (Hfit : name_fits (fe_name e)).

Lemma put_name : entry_name (disk_entry e b) = Ok (fe_name e).
Proof.
  pose proof (nf_len _ Hfit). assert (take (MAX_FILENAME - 1) (fe_name e) = fe_name e) as Ht.
  { apply take_ge. lia. }
  rewrite (entry_name_field _ (fe_name e)); rewrite ?Ht; try done; apply Hfit.
Qed.

Lemma put_slot_eq : slot v' i = Some e.
Proof.
  unfold slot. rewrite put_entry_eq. cbn [de_active disk_entry]. simpl Z.eqb. cbn iota.
  f_equal. unfold file_of. rewrite put_name, put_data_eq. cbn [disk_entry de_size de_created_at
    de_modified_at de_readonly de_owner_uid de_perm_owner_read de_perm_owner_write
    de_perm_others_read de_perm_others_write].
  rewrite take_padded, !bit_true by apply He. rewrite <- (sv_perm_owner _ He) at 2.
  by destruct e as [? ? ? ? ? ? []].
Qed.

Lemma put_slot_ne j : (j < TABLE_SIZE)%nat -> j <> i -> slot v' j = slot v j.
Proof.
  intros Hj Hne. unfold slot. rewrite put_entry_ne by done.
  destruct (Z.eqb_spec (de_active (entry_at v j)) 0) as [|Ha]; [done|].
  unfold file_of. rewrite put_data_ne; [done|by eapply layout_entry_wf|].
  by apply Hp.
Qed.

Lemma put_layout :
  (forall j, active_at v j -> j <> i -> entry_name (entry_at v j) <> Ok (fe_name e)) ->
  layout_ok cap v'.
Proof.
  intros Hn.
  assert (forall j, active_at v j -> j <> i -> entry_at v' j = entry_at v j) as Hne.
  { intros j [Hj _] ?. by apply put_entry_ne. }
  assert (0 <= blen (fe_data e) <= MAX_FILE_SIZE) as Hsz.
  { split; [apply blen_nonneg|apply He]. }
  split; rewrite ?put_sb; try apply Hl; [apply put_sectors|..].
  - intros j [->|[Hj Ha]]%put_active.
    + rewrite put_entry_eq. split; cbn [disk_entry de_size de_block_count de_start_block]; try done.
      * by rewrite put_name.
      * lia.
      * apply Hp.
    + rewrite Hne by done. by apply Hl.
  - intros j k [->|[Hj Ha]]%put_active [->|[Hk Hb]]%put_active Hjk; [done|..];
      rewrite ?put_entry_eq, ?Hne by done; cbn [disk_entry de_block_count de_start_block].
    + by apply Hp.
    + destruct Hp as (_ & _ & Hd). specialize (Hd j Ha Hj). unfold blocks_disjoint in *. lia.
    + by apply Hl.
  - intros j k [->|[Hj Ha]]%put_active [->|[Hk Hb]]%put_active; [done|..];
      rewrite ?put_entry_eq, ?put_name, ?Hne by done; intros Hnm.
    + symmetry in Hnm. by apply Hn in Hnm.
    + by apply Hn in Hnm.
    + by eapply Hl.
Qed.
End put_facts.
End put.

(** ** Lemmas: the volume as a map *)

Lemma slot_active v i : (i < TABLE_SIZE)%nat -> slot v i <> None <-> active_at v i.
Proof. intros Hi. unfold slot, active_at. destruct (Z.eqb_spec (de_active (entry_at v i)) 0); naive_solver. Qed.

Lemma slot_Some v i f :
  slot v i = Some f <-> de_active (entry_at v i) <> 0 /\ f = file_of v (entry_at v i).
Proof. unfold slot. destruct (Z.eqb_spec (de_active (entry_at v i)) 0); naive_solver. Qed.

Lemma elem_of_disk_files v f : f ∈ disk_files v <-> exists i, (i < TABLE_SIZE)%nat /\ slot v i = Some f.
Proof.
  unfold disk_files. rewrite list_elem_of_omap. setoid_rewrite in_table. done.
Qed.

Lemma file_of_name cap v i :
  layout_ok cap v -> active_at v i -> entry_name (entry_at v i) = Ok (fe_name (file_of v (entry_at v i))).
Proof.
  intros Hl Ha. pose proof (so_name _ _ (lo_slots _ _ Hl i Ha)) as Hn. unfold file_of. cbn [fe_name].
  by destruct (entry_name (entry_at v i)).
Qed.

Lemma slot_unique cap v i j f g :
  layout_ok cap v -> (i < TABLE_SIZE)%nat -> (j < TABLE_SIZE)%nat ->
  slot v i = Some f -> slot v j = Some g -> fe_name f = fe_name g -> i = j.
Proof.
  intros Hl Hi Hj [Hai ->]%slot_Some [Haj ->]%slot_Some Hn.
  apply (lo_names _ _ Hl); [done|done|].
  by rewrite !(file_of_name cap), Hn by done.
Qed.

Lemma to_map_lookup (l : list FileEntry) n f :
  (forall g g', g ∈ l -> g' ∈ l -> fe_name g = fe_name g' -> g = g') ->
  (list_to_map (map (fun f => (fe_name f, f)) l) : gmap bytes FileEntry) !! n = Some f <->
  f ∈ l /\ fe_name f = n.
Proof.
  intros Hu. split.
  - intros (g & Hg & Hin)%elem_of_list_to_map_2%list_elem_of_fmap. by simplify_eq.
  - intros [Hin <-]. apply elem_of_list_to_map_1'.
    + intros g (g' & Hg & Hin')%list_elem_of_fmap. simplify_eq. by apply Hu.
    + apply list_elem_of_fmap. by exists f.
Qed.

Lemma disk_map_lookup cap v n f :
  layout_ok cap v ->
  disk_map v !! n = Some f <-> exists i, (i < TABLE_SIZE)%nat /\ slot v i = Some f /\ fe_name f = n.
Proof.
  intros Hl. unfold disk_map. rewrite to_map_lookup.
  - rewrite elem_of_disk_files. naive_solver.
  - intros g g' (i & Hi & Hs)%elem_of_disk_files (j & Hj & Hs')%elem_of_disk_files Hn.
    assert (i = j) as <- by (by eapply slot_unique). congruence.
Qed.

Lemma disk_map_None cap v n :
  layout_ok cap v ->
  (forall i, active_at v i -> entry_name (entry_at v i) <> Ok n) -> disk_map v !! n = None.
Proof.
  intros Hl Hn. apply eq_None_not_Some. intros [f Hf].
  apply (disk_map_lookup cap) in Hf as (i & Hi & Hs & <-); [|done].
  apply slot_Some in Hs as [Ha ->]. apply (Hn i); [done|]. by apply (file_of_name cap).
Qed.

(** Two volumes that agree slot by slot except at [i]. *)
Lemma disk_map_insert cap v v' i e :
  layout_ok cap v -> layout_ok cap v' -> (i < TABLE_SIZE)%nat ->
  slot v' i = Some e -> (forall j, (j < TABLE_SIZE)%nat -> j <> i -> slot v' j = slot v j) ->
  (forall f, slot v i = Some f -> fe_name f = fe_name e) ->
  disk_map v' = <[fe_name e := e]> (disk_map v).
Proof.
  intros Hl Hl' Hi He Hne Hold. apply map_eq. intros n. apply option_eq. intros f.
  rewrite lookup_insert_Some, !(disk_map_lookup cap) by done. split.
  - intros (j & Hj & Hs & <-). destruct (decide (j = i)) as [->|Hji]; [left; naive_solver|right].
    split; [|rewrite Hne in Hs by done; eauto].
    intros Heq. apply Hji. by eapply (slot_unique cap v').
  - intros [[<- <-]|(Hn & j & Hj & Hs & <-)]; [eauto|].
    assert (j <> i) by (intros ->; apply Hold in Hs; done).
    exists j. by rewrite Hne.
Qed.

Lemma disk_map_delete cap v v' i e :
  layout_ok cap v -> layout_ok cap v' -> (i < TABLE_SIZE)%nat ->
  slot v i = Some e -> slot v' i = None ->
  (forall j, (j < TABLE_SIZE)%nat -> j <> i -> slot v' j = slot v j) ->
  disk_map v' = delete (fe_name e) (disk_map v).
Proof.
  intros Hl Hl' Hi He Hi' Hne. apply map_eq. intros n. apply option_eq. intros f.
  rewrite lookup_delete_Some, !(disk_map_lookup cap) by done. split.
  - intros (j & Hj & Hs & <-). assert (j <> i) as Hji by congruence. rewrite Hne in Hs by done.
    split; [|by eauto]. intros Heq. apply Hji. by eapply (slot_unique cap v).
  - intros (Hn & j & Hj & Hs & <-). assert (j <> i) by (intros ->; congruence).
    exists j. by rewrite Hne.
Qed.

Lemma slot_same_files v v' i :
  entry_wf (entry_at v i) -> same_files v v' -> slot v' i = slot v i.
Proof.
  intros He Hs. unfold slot. rewrite (same_files_entry v v') by done. unfold file_of.
  rewrite (same_files_data v v'); [done| |done]. apply He.
Qed.

Lemma disk_map_same cap v v' :
  layout_ok cap v -> same_files v v' -> disk_map v' = disk_map v.
Proof.
  intros Hl Hs. unfold disk_map, disk_files. do 2 f_equal. apply list_omap_ext, Forall2_same_length_lookup.
  split; [done|]. intros k x y Hx Hy. simplify_eq. apply slot_same_files; [|done].
  by eapply layout_entry_wf.
Qed.

Lemma disk_map_files v : disk_map v = to_map (disk_files v).
Proof. reflexivity. Qed.

#[global] Opaque disk_map.

(** ** Lemmas: saving *)

Section saving.
Context {S : Type} `{SSL : SectorStoreLaws S} `{Padding}.

(** The search loop finds the entry of that name, or else the first free
    slot. *)
Lemma exec_scan cap v name l empty :
  layout_ok cap v -> (forall i, i ∈ l -> (i < TABLE_SIZE)%nat) ->
  exists target empty',
    exec (upsert_scan name l empty) cap v (Ok (target, empty')) v /\
    match target with
    | Some (i, d) => i ∈ l /\ active_at v i /\ d = entry_at v i /\ entry_name d = Ok name
    | None => (forall i, i ∈ l -> active_at v i -> entry_name (entry_at v i) <> Ok name) /\
              (forall i, empty' = Some i -> empty = Some i \/ i ∈ l /\ ~ active_at v i) /\
              (empty' = None -> empty = None /\ forall i, i ∈ l -> active_at v i)
    end.
Proof.
  intros Hl. revert empty. induction l as [|i l IH]; intros empty Hin.
  { exists None, empty. split; [apply exec_ret|]. split_and!.
    - intros i Hi. by apply elem_of_nil in Hi.
    - auto.
    - intros ->. split; [done|]. intros i Hi. by apply elem_of_nil in Hi. }
  assert ((i < TABLE_SIZE)%nat) as Hi by (apply Hin; left).
  assert (forall j, j ∈ l -> (j < TABLE_SIZE)%nat) as Hin' by (intros j Hj; apply Hin; by right).
  pose proof (exec_read_entry i cap v Hi (layout_cap _ _ Hl)) as Hrd.
  destruct (decide (de_active (entry_at v i) = 0)) as [Ha|Ha].
  - destruct (IH (match empty with None => Some i | Some _ => empty end) Hin') as (target & empty' & He & Hspec).
    exists target, empty'. split.
    { simpl. eapply exec_bind; [exact Hrd|]. rewrite Ha. simpl. exact He. }
    destruct target as [[k d]|]; [destruct Hspec as (? & ?); split; [by right|done]|].
    destruct Hspec as (H1 & H2 & H3). assert (~ active_at v i) as Hna by (intros [_ ?]; done).
    split_and!.
    + intros j [->|Hj]%elem_of_cons; [done|auto].
    + intros j Hj. destruct (H2 j Hj) as [Hj'|[Hj' ?]].
      * destruct empty; [auto|]. simplify_eq. right. split; [left|done].
      * right. split; [by right|done].
    + intros Hn. destruct (H3 Hn) as [Hn' _]. by destruct empty.
  - assert (active_at v i) as Hact by done.
    pose proof (file_of_name _ _ _ Hl Hact) as Hnm.
    destruct (decide (fe_name (file_of v (entry_at v i)) = name)) as [Heq|Hneq].
    + exists (Some (i, entry_at v i)), empty. split; [|split_and!; [left|done|done|by rewrite Hnm, Heq]].
      simpl. eapply exec_bind; [exact Hrd|]. rewrite (proj2 (Z.eqb_neq _ _) Ha). simpl.
      eapply exec_bind; [rewrite Hnm; apply exec_lift|]. rewrite bool_decide_true by done. apply exec_ret.
    + destruct (IH empty Hin') as (target & empty' & He & Hspec). exists target, empty'. split.
      { simpl. eapply exec_bind; [exact Hrd|]. rewrite (proj2 (Z.eqb_neq _ _) Ha). simpl.
        eapply exec_bind; [rewrite Hnm; apply exec_lift|]. by rewrite bool_decide_false by done. }
      destruct target as [[k d]|]; [destruct Hspec as (? & ?); split; [by right|done]|].
      destruct Hspec as (H1 & H2 & H3). split_and!.
      * intros j [->|Hj]%elem_of_cons; [|auto]. intros _. rewrite Hnm. congruence.
      * intros j Hj. destruct (H2 j Hj) as [|[Hj' ?]]; [auto|]. right. split; [by right|done].
      * intros Hn. destruct (H3 Hn) as [? H3']. split; [done|]. intros j [->|Hj]%elem_of_cons; auto.
Qed.

(** Where the blocks go. *)
Definition choose_start (target : option (nat * DiskFileEntry)) (index : nat) (blocks_needed : Z) :
    stm S DiskError Z :=
  if blocks_needed =? 0 then mret 0
  else match target with
       | Some (_, existing) =>
           if blocks_needed <=? de_block_count existing then mret (de_start_block existing)
           else allocate_blocks blocks_needed (Some index)
       | None => allocate_blocks blocks_needed None
       end.

Lemma exec_allocate_place cap v i ignore count :
  layout_ok cap v -> 0 < count <= 256 -> (forall j, active_at v j -> j <> i -> Some j <> ignore) ->
  (exists b, exec (allocate_blocks count ignore) cap v (Ok b) v /\ good_place v i b count) \/
  exec (allocate_blocks count ignore) cap v (Err DiskFull) v.
Proof.
  intros Hl Hc Hig. pose proof (exec_allocate count ignore cap v Hl) as He.
  destruct (sorted_ranges v ignore cap Hl) as (Hs & Hlt & Hfree). pose proof (lo_total _ _ Hl).
  destruct (first_gap _ _ _ _) as [b|e] eqn:Eg.
  - left. exists b. split; [done|].
    apply first_gap_Ok in Eg as (Hlo & Hhi & Hall); try done; try lia.
    apply Hfree in Hall; [|lia]. unfold good_place, in_u, u32_max in *. split_and!; [lia|lia|lia|].
    intros j Ha Hj. apply Hall; [done|]. by apply Hig.
  - right. by apply first_gap_Err in Eg as [-> _].
Qed.

Lemma exec_choose_start cap v i target count :
  layout_ok cap v -> 0 <= count <= 256 ->
  match target with
  | Some (j, d) => j = i /\ d = entry_at v i /\ active_at v i
  | None => ~ active_at v i
  end ->
  (exists b, exec (choose_start target i count) cap v (Ok b) v /\ good_place v i b count) \/
  exec (choose_start target i count) cap v (Err DiskFull) v.
Proof.
  intros Hl Hc Ht. unfold choose_start. destruct (Z.eqb_spec count 0) as [->|Hnz].
  { left. exists 0. split; [apply exec_ret|]. split_and!; [done|done|]. intros. by left. }
  destruct target as [[j d]|].
  - destruct Ht as (-> & -> & Ha). destruct (Z.leb_spec count (de_block_count (entry_at v i))).
    + left. eexists. split; [apply exec_ret|]. pose proof (lo_slots _ _ Hl i Ha) as Hs.
      split_and!; [apply (layout_entry_wf _ _ i Hl)|intros _; pose proof (so_range _ _ Hs); lia|].
      intros j Hj Hne. pose proof (lo_disjoint _ _ Hl i j Ha Hj ltac:(done)).
      unfold blocks_disjoint in *. lia.
    + apply exec_allocate_place; [done|lia|]. congruence.
  - apply exec_allocate_place; [done|lia|]. done.
Qed.

Lemma exec_write_data cap v i b data :
  layout_ok cap v -> blen data <= MAX_FILE_SIZE -> good_place v i b (block_count_for_len (blen data)) ->
  exec (if negb (block_count_for_len (blen data) =? 0) then write_file_data b data else mret 0) cap v
    (Ok (block_count_for_len (blen data)))
    (write_view v (DATA_START_SECTOR + b * SECTORS_PER_BLOCK)
       (Z.to_nat (block_count_for_len (blen data) * SECTORS_PER_BLOCK)) (padded data)).
Proof.
  intros Hl Hs (Hb & Hr & _). pose proof (blen_nonneg data). pose proof (lo_blocks _ _ Hl).
  destruct (block_count_bounds (blen data)) as (Hc & _); [lia|].
  destruct (Z.eqb_spec (block_count_for_len (blen data)) 0) as [E|E]; cbn [negb].
  - rewrite E. eapply exec_proper; [done|done|reflexivity|done| |apply exec_ret].
    intros t. unfold write_view. by rewrite decide_False by lia.
  - unfold write_file_data. rewrite (proj2 (Z.eqb_neq _ _) E).
    eapply exec_bind; [|apply exec_ret]. fold (padded data).
    unfold in_u, SECTORS_PER_BLOCK in *. pose proof data_start_pos.
    rewrite wrap_small by lia. apply exec_write; [lia|lia|lia|].
    unfold blen at 2. rewrite length_padded by done. unfold SECTORS_PER_BLOCK. lia.
Qed.

(** The slot a file goes to: its own, or else a free one. *)
Lemma exec_find_slot cap v name :
  layout_ok cap v ->
  exists target empty,
    exec (upsert_scan name (seq 0 TABLE_SIZE) None) cap v (Ok (target, empty)) v /\
    match (match target with Some (i, _) => Some i | None => empty end) with
    | None => True
    | Some i =>
        (i < TABLE_SIZE)%nat /\
        (forall f, slot v i = Some f -> fe_name f = name) /\
        (forall j, active_at v j -> j <> i -> entry_name (entry_at v j) <> Ok name) /\
        match target with
        | Some (j, d) => j = i /\ d = entry_at v i /\ active_at v i
        | None => ~ active_at v i
        end
    end.
Proof.
  intros Hl. destruct (exec_scan cap v name (seq 0 TABLE_SIZE) None Hl (fun i => proj1 (in_table i)))
    as (target & empty & Hscan & Hspec).
  exists target, empty. split; [done|]. clear Hscan. destruct target as [[i d]|].
  - destruct Hspec as (Hi%in_table & Ha & -> & Hnm). split_and!; try done.
    + intros f [_ ->]%slot_Some. pose proof (file_of_name _ _ _ Hl Ha). congruence.
    + intros j Hj Hne Hj'. apply Hne. apply (lo_names _ _ Hl); [done|done|congruence].
  - destruct Hspec as (Hno & Hem & _). destruct empty as [i|]; [|done].
    destruct (Hem i eq_refl) as [|[Hi%in_table Hna]]; [done|]. split_and!; try done.
    + intros f Hf. destruct Hna. apply slot_active; [done|]. by rewrite Hf.
    + intros j Hj _. apply Hno; [|done]. apply in_table. apply Hj.
Qed.

(** Saving a file either stores it, in the slot it had or in a free one,
    without touching any other file, or reports that the disk is full without
    changing anything. *)
Lemma exec_upsert cap v e :
  layout_ok cap v -> storable e ->
  (exists v', exec (upsert_entry e) cap v (Ok ()) v' /\ layout_ok cap v' /\
     disk_map v' = <[fe_name e := e]> (disk_map v)) \/
  exec (upsert_entry e) cap v (Err DiskFull) v.
Proof.
  intros Hl [He Hfit]. pose proof (sv_size _ He) as Hs. pose proof (blen_nonneg (fe_data e)) as Hn.
  destruct (block_count_bounds (blen (fe_data e))) as (Hc & _); [lia|].
  destruct (exec_find_slot cap v (fe_name e) Hl) as (target & empty & Hscan & Hspec).
  unfold upsert_entry, upsert_file_entry.
  destruct (match target with Some (i, _) => Some i | None => empty end) as [i|] eqn:Ei.
  2: { right. eapply exec_bind; [exact Hscan|]. cbn beta iota. rewrite Ei.
       apply exec_bind_err. apply exec_lift. }
  destruct Hspec as (Hi & Hold & Hnew & Ht).
  destruct (exec_choose_start cap v i target (block_count_for_len (blen (fe_data e))) Hl Hc Ht)
    as [(b & Hb & Hp)|Hb].
  - left. exists (put_view v i b e). split_and!.
    + eapply exec_bind; [exact Hscan|]. cbn beta iota. rewrite Ei.
      eapply exec_bind; [apply exec_lift|]. eapply exec_bind; [exact Hb|].
      eapply exec_bind; [by eapply exec_write_data|].
      apply (exec_write_entry i (disk_entry e b)); [done|by eapply layout_cap|by eapply put_entry_wf].
    + by apply put_layout.
    + apply (disk_map_insert cap v (put_view v i b e) i); try done.
      * by apply put_layout.
      * by apply put_slot_eq.
      * intros j Hj Hne. by eapply put_slot_ne.
  - right. eapply exec_bind; [exact Hscan|]. cbn beta iota. rewrite Ei.
    eapply exec_bind; [apply exec_lift|]. apply exec_bind_err. exact Hb.
Qed.

Lemma exec_save cap v e :
  layout_ok cap v -> storable e ->
  exists r v', exec (save_entry e) cap v r v' /\ layout_ok cap v' /\
    (r = Ok () /\ disk_map v' = <[fe_name e := e]> (disk_map v) /\ sb_state (sb_of v') = FS_STATE_CLEAN \/
     r = Err DiskFull /\ disk_map v' = disk_map v /\ sb_state (sb_of v') = FS_STATE_DIRTY).
Proof.
  intros Hl He. destruct (exec_set_state FS_STATE_DIRTY cap v Hl) as (v1 & Hx1 & Hl1 & Hs1 & Hst1); [done|].
  pose proof (disk_map_same _ _ _ Hl Hs1) as Hm1. unfold save_entry.
  destruct (exec_upsert cap v1 e Hl1 He) as [(v2 & Hx2 & Hl2 & Hm2)|Hx2].
  - destruct (exec_refresh FS_STATE_CLEAN cap v2 Hl2) as (v3 & Hx3 & Hl3 & Hs3 & Hst3 & _); [done|].
    exists (Ok ()), v3. split_and!; [|done|left; split_and!; try done].
    + eapply exec_bind; [exact Hx1|]. eapply exec_bind; [exact Hx2|].
      eapply exec_bind; [exact Hx3|]. apply exec_ret.
    + by rewrite (disk_map_same _ _ _ Hl2 Hs3), Hm2, Hm1.
  - exists (Err DiskFull), v1. split_and!; [|done|right; by split_and!].
    eapply exec_bind; [exact Hx1|]. by apply exec_bind_err.
Qed.

(** *** Clearing a slot *)

Definition clear_view (v : Z -> bytes) (i : nat) : Z -> bytes :=
  set_sector (FILE_TABLE_START_SECTOR + Z.of_nat i) (entry_bytes inactive) v.

Lemma inactive_wf : entry_wf inactive.
Proof. by constructor. Qed.

Lemma exec_clear cap v i :
  layout_ok cap v -> (i < TABLE_SIZE)%nat ->
  exec (write_file_entry i inactive) cap v (Ok ()) (clear_view v i) /\
  layout_ok cap (clear_view v i) /\ slot (clear_view v i) i = None /\
  (forall j, (j < TABLE_SIZE)%nat -> j <> i -> slot (clear_view v i) j = slot v j).
Proof.
  intros Hl Hi. pose proof (table_sector i Hi) as Hsec.
  assert (entry_at (clear_view v i) i = inactive) as Hat by (apply entry_at_set_eq, inactive_wf).
  assert (forall j, j <> i -> entry_at (clear_view v i) j = entry_at v j) as Hne.
  { intros j Hj. apply entry_at_set_ne. lia. }
  assert (sb_of (clear_view v i) = sb_of v) as Hsb.
  { apply sb_of_set_ne. lia. }
  assert (forall j, active_at (clear_view v i) j -> active_at v j /\ entry_at (clear_view v i) j = entry_at v j)
    as Hact.
  { intros j [Hj Ha]. destruct (decide (j = i)) as [->|Hji]; [by rewrite Hat in Ha|].
    rewrite Hne in Ha |- * by done. done. }
  split_and!.
  - apply exec_write_entry; [done|by eapply layout_cap|apply inactive_wf].
  - split; rewrite ?Hsb; try apply Hl.
    + apply set_sector_length; [apply entry_bytes_length, inactive_wf|apply Hl].
    + intros j [Ha ->]%Hact. by apply Hl.
    + intros j k [Ha ->]%Hact [Hb ->]%Hact. by apply Hl.
    + intros j k [Ha ->]%Hact [Hb ->]%Hact. by apply Hl.
  - unfold slot. by rewrite Hat.
  - intros j Hj Hji. unfold slot. rewrite Hne by done. case_match; [done|]. f_equal.
    unfold file_of. f_equal. f_equal. apply view_range_ext. intros t Ht.
    pose proof (dw_start_block _ (layout_entry_wf _ _ j Hl)).
    unfold clear_view, set_sector, in_u, SECTORS_PER_BLOCK in *. by rewrite decide_False by lia.
Qed.

Lemma exec_delete_scan cap v name l :
  layout_ok cap v -> (forall i, i ∈ l -> (i < TABLE_SIZE)%nat) ->
  (exists v', exec (delete_scan name l) cap v (Ok true) v' /\ layout_ok cap v' /\
     is_Some (disk_map v !! name) /\ disk_map v' = delete name (disk_map v)) \/
  exec (delete_scan name l) cap v (Ok false) v /\
  forall i, i ∈ l -> active_at v i -> entry_name (entry_at v i) <> Ok name.
Proof.
  intros Hl. induction l as [|i l IH]; intros Hin.
  { right. split; [apply exec_ret|]. intros i Hi. by apply elem_of_nil in Hi. }
  assert ((i < TABLE_SIZE)%nat) as Hi by (apply Hin; left).
  specialize (IH (fun j Hj => Hin j ltac:(by right))).
  pose proof (exec_read_entry i cap v Hi (layout_cap _ _ Hl)) as Hrd.
  destruct (decide (de_active (entry_at v i) = 0)) as [Ha|Ha].
  - destruct IH as [(v' & Hx & IH)|[Hx IH]]; [left; exists v'; split; [|done]|right; split].
    1,2: simpl; eapply exec_bind; [exact Hrd|]; by rewrite Ha.
    intros j [->|Hj]%elem_of_cons; [by intros [_ ?]|auto].
  - assert (active_at v i) as Hact by done. pose proof (file_of_name _ _ _ Hl Hact) as Hnm.
    destruct (decide (fe_name (file_of v (entry_at v i)) = name)) as [Heq|Hneq].
    + left. destruct (exec_clear cap v i Hl Hi) as (Hx & Hl' & Hs & Hs').
      assert (slot v i = Some (file_of v (entry_at v i))) as Hsl by (by apply slot_Some).
      exists (clear_view v i). split_and!; [|done| |].
      * simpl. eapply exec_bind; [exact Hrd|]. rewrite (proj2 (Z.eqb_neq _ _) Ha).
        eapply exec_bind; [rewrite Hnm; apply exec_lift|]. rewrite bool_decide_true by done.
        eapply exec_bind; [exact Hx|]. apply exec_ret.
      * eexists. apply (disk_map_lookup cap); eauto.
      * rewrite <- Heq. by apply (disk_map_delete cap v (clear_view v i) i).
    + assert (forall r v', exec (delete_scan name l) cap v r v' -> exec (delete_scan name (i :: l)) cap v r v')
        as Hstep.
      { intros r v' Hx. simpl. eapply exec_bind; [exact Hrd|]. rewrite (proj2 (Z.eqb_neq _ _) Ha).
        eapply exec_bind; [rewrite Hnm; apply exec_lift|]. by rewrite bool_decide_false by done. }
      destruct IH as [(v' & Hx & IH)|[Hx IH]]; [left; exists v'; auto|right; split; [auto|]].
      intros j [->|Hj]%elem_of_cons; [|auto]. intros _. rewrite Hnm. congruence.
Qed.

Lemma exec_delete cap v name :
  layout_ok cap v ->
  exists v', layout_ok cap v' /\ disk_map v' = delete name (disk_map v) /\
    exec (delete_file_from_disk name) cap v
      (match disk_map v !! name with Some _ => Ok () | None => Err DiskFileNotFound end) v'.
Proof.
  intros Hl. destruct (exec_set_state FS_STATE_DIRTY cap v Hl) as (v1 & Hx1 & Hl1 & Hs1 & _); [done|].
  pose proof (disk_map_same _ _ _ Hl Hs1) as Hm1. rewrite <- Hm1. clear Hm1. unfold delete_file_from_disk.
  destruct (exec_delete_scan cap v1 name (seq 0 TABLE_SIZE) Hl1 (fun i => proj1 (in_table i)))
    as [(v2 & Hx2 & Hl2 & [f Hf] & Hm2)|[Hx2 Hno]].
  - destruct (exec_refresh FS_STATE_CLEAN cap v2 Hl2) as (v3 & Hx3 & Hl3 & Hs3 & _); [done|].
    exists v3. split_and!; [done|by rewrite (disk_map_same _ _ _ Hl2 Hs3)|]. rewrite Hf.
    eapply exec_bind; [exact Hx1|]. eapply exec_bind; [exact Hx2|]. simpl.
    eapply exec_bind; [exact Hx3|]. apply exec_ret.
  - assert (disk_map v1 !! name = None) as Hn.
    { apply (disk_map_None cap); [done|]. intros i Ha. apply Hno; [|done]. apply in_table, Ha. }
    exists v1. split_and!; [done|by rewrite delete_id|]. rewrite Hn.
    eapply exec_bind; [exact Hx1|]. eapply exec_bind; [exact Hx2|]. apply exec_throw.
Qed.

(** *** Synchronising *)

Definition kept_files (snapshot : list FileEntry) : list FileEntry :=
  List.filter (fun f => is_persistable_path (fe_name f)) snapshot.

Lemma exec_sync_clear_step cap v snapshot i :
  layout_ok cap v -> (i < TABLE_SIZE)%nat ->
  exists v', exec (sync_clear_step snapshot i ()) cap v (Ok ()) v' /\ layout_ok cap v' /\
    (forall f, slot v' i = Some f -> exists g, g ∈ kept_files snapshot /\ fe_name g = fe_name f) /\
    (forall j, (j < TABLE_SIZE)%nat -> j <> i -> slot v' j = slot v j).
Proof.
  intros Hl Hi. pose proof (exec_read_entry i cap v Hi (layout_cap _ _ Hl)) as Hrd.
  unfold sync_clear_step. destruct (decide (de_active (entry_at v i) = 0)) as [Ha|Ha].
  { exists v. split_and!; [|done| |done].
    - eapply exec_bind; [exact Hrd|]. rewrite Ha. apply exec_ret.
    - intros f [Ha' _]%slot_Some. done. }
  assert (active_at v i) as Hact by done. pose proof (file_of_name _ _ _ Hl Hact) as Hnm.
  destruct (existsb (fun file => is_persistable_path (fe_name file)
              && bool_decide (fe_name file = fe_name (file_of v (entry_at v i)))) snapshot) eqn:Ek.
  - exists v. split_and!; [|done| |done].
    + eapply exec_bind; [exact Hrd|]. rewrite (proj2 (Z.eqb_neq _ _) Ha).
      eapply exec_bind; [rewrite Hnm; apply exec_lift|]. rewrite Ek. apply exec_ret.
    + intros f [_ ->]%slot_Some. apply existsb_exists in Ek as (g & Hg & [Hp Hn]%andb_prop).
      apply bool_decide_eq_true in Hn. exists g. split; [|done].
      by apply list_elem_of_In, filter_In.
  - destruct (exec_clear cap v i Hl Hi) as (Hx & Hl' & Hs & Hs').
    exists (clear_view v i). split_and!; [|done|by rewrite Hs|done].
    eapply exec_bind; [exact Hrd|]. rewrite (proj2 (Z.eqb_neq _ _) Ha).
    eapply exec_bind; [rewrite Hnm; apply exec_lift|]. rewrite Ek. exact Hx.
Qed.

Lemma exec_sync_clear cap v snapshot l :
  layout_ok cap v -> NoDup l -> (forall i, i ∈ l -> (i < TABLE_SIZE)%nat) ->
  exists v', exec (foldM (sync_clear_step snapshot) l ()) cap v (Ok ()) v' /\ layout_ok cap v' /\
    (forall i f, i ∈ l -> slot v' i = Some f -> exists g, g ∈ kept_files snapshot /\ fe_name g = fe_name f) /\
    (forall j, (j < TABLE_SIZE)%nat -> j ∉ l -> slot v' j = slot v j).
Proof.
  intros Hl Hnd. revert v Hl. induction Hnd as [|i l Hi Hnd IH]; intros v Hl Hin.
  { exists v. split_and!; [apply exec_ret|done| |done]. intros i f Hi. by apply elem_of_nil in Hi. }
  destruct (exec_sync_clear_step cap v snapshot i Hl (Hin i ltac:(left))) as (v1 & Hx1 & Hl1 & Hs1 & Hn1).
  destruct (IH v1 Hl1 (fun j Hj => Hin j ltac:(by right))) as (v2 & Hx2 & Hl2 & Hs2 & Hn2).
  exists v2. split_and!; [eapply exec_bind; [exact Hx1|exact Hx2]|done| |].
  - intros j f [->|Hj]%elem_of_cons; [|eauto]. rewrite Hn2 by (done || apply Hin; left). apply Hs1.
  - intros j Hj [Hji Hjl]%not_elem_of_cons. by rewrite Hn2, Hn1.
Qed.

Lemma exec_sync_save_step cap v e k :
  layout_ok cap v -> (is_persistable_path (fe_name e) = true -> storable e) ->
  (exists v', exec (sync_save_step e k) cap v (Ok (k + blen (kept_files [e]))) v' /\ layout_ok cap v' /\
     disk_map v' = fold_left (fun m e => <[fe_name e := e]> m) (kept_files [e]) (disk_map v)) \/
  exec (sync_save_step e k) cap v (Err DiskFull) v.
Proof.
  intros Hl He. unfold sync_save_step, kept_files. simpl.
  destruct (is_persistable_path (fe_name e)); simpl.
  - destruct (exec_upsert cap v e Hl (He eq_refl)) as [(v1 & Hx1 & Hl1 & Hm1)|Hx1]; [left|right].
    + exists v1. split; [|done]. eapply exec_bind; [exact Hx1|apply exec_ret].
    + by apply exec_bind_err.
  - left. exists v. rewrite Z.add_0_r. split; [apply exec_ret|done].
Qed.

Lemma exec_sync_save cap v l k :
  layout_ok cap v -> Forall (fun e => is_persistable_path (fe_name e) = true -> storable e) l ->
  (exists v', exec (foldM sync_save_step l k) cap v (Ok (k + blen (kept_files l))) v' /\ layout_ok cap v' /\
     disk_map v' = fold_left (fun m e => <[fe_name e := e]> m) (kept_files l) (disk_map v)) \/
  (exists v', exec (foldM sync_save_step l k) cap v (Err DiskFull) v' /\ layout_ok cap v').
Proof.
  intros Hl Hst. revert k v Hl. induction Hst as [|e l He Hst IH]; intros k v Hl.
  { left. exists v. rewrite Z.add_0_r. split; [apply exec_ret|done]. }
  assert (kept_files (e :: l) = kept_files [e] ++ kept_files l) as Hk.
  { unfold kept_files. simpl. by destruct (is_persistable_path _). }
  destruct (exec_sync_save_step cap v e k Hl He) as [(v1 & Hx1 & Hl1 & Hm1)|Hx1].
  - destruct (IH (k + blen (kept_files [e])) v1 Hl1) as [(v2 & Hx2 & Hl2 & Hm2)|(v2 & Hx2 & Hl2)]; [left|right]; exists v2.
    + rewrite Hk, blen_app, Z.add_assoc, fold_left_app, <- Hm1.
      split; [|done]. eapply exec_bind; [exact Hx1|exact Hx2].
    + split; [|done]. eapply exec_bind; [exact Hx1|exact Hx2].
  - right. exists v. split; [|done]. by apply exec_bind_err.
Qed.

(** Inserting every file of a list into a map that has no other names. *)
Lemma fold_insert_lookup (l : list FileEntry) (m : gmap bytes FileEntry) n :
  NoDup (map fe_name l) ->
  fold_left (fun m e => <[fe_name e := e]> m) l m !! n =
  match to_map l !! n with Some f => Some f | None => m !! n end.
Proof.
  revert m. induction l as [|e l IH]; intros m Hnd; simpl; [done|].
  apply NoDup_cons in Hnd as [Hn Hnd]. rewrite IH by done.
  destruct (decide (fe_name e = n)) as [<-|Hne].
  - rewrite !lookup_insert_eq. rewrite not_elem_of_list_to_map_1; [done|]. by rewrite map_keys.
  - by rewrite !lookup_insert_ne by done.
Qed.

Lemma fold_insert_to_map (l : list FileEntry) (m : gmap bytes FileEntry) :
  NoDup (map fe_name l) -> (forall n f, m !! n = Some f -> exists g, g ∈ l /\ fe_name g = n) ->
  fold_left (fun m e => <[fe_name e := e]> m) l m = to_map l.
Proof.
  intros Hnd Hm. apply map_eq. intros n. rewrite fold_insert_lookup by done.
  destruct (to_map l !! n) eqn:E; [done|]. destruct (m !! n) eqn:Em; [|done].
  destruct (Hm _ _ Em) as (g & Hg & Hn). apply not_elem_of_list_to_map in E.
  destruct E. rewrite map_keys, <- Hn. by apply list_elem_of_fmap_2.
Qed.

Lemma fold_insert_subset (l : list FileEntry) (m : gmap bytes FileEntry) :
  NoDup (map fe_name l) -> Forall (fun g => m !! fe_name g = None) l ->
  m ⊆ fold_left (fun m e => <[fe_name e := e]> m) l m.
Proof.
  intros Hnd Hf. apply map_subseteq_spec. intros n x Hx. rewrite fold_insert_lookup by done.
  destruct (to_map l !! n) as [y|] eqn:Ey; [|done].
  apply elem_of_list_to_map_2, list_elem_of_fmap in Ey as (g & Hg & Hgl). simplify_eq.
  rewrite Forall_forall in Hf. specialize (Hf g Hgl). congruence.
Qed.

(** Synchronising makes the volume hold exactly the persistable files, or
    reports that the disk is full. *)
Lemma exec_sync cap v snapshot :
  layout_ok cap v -> NoDup (map fe_name snapshot) ->
  Forall (fun e => is_persistable_path (fe_name e) = true -> storable e) snapshot ->
  (exists v', exec (sync_filesystem snapshot) cap v (Ok (blen (kept_files snapshot))) v' /\
     layout_ok cap v' /\ disk_map v' = to_map (kept_files snapshot)) \/
  (exists v', exec (sync_filesystem snapshot) cap v (Err DiskFull) v' /\ layout_ok cap v').
Proof.
  intros Hl Hnd Hst.
  destruct (exec_set_state FS_STATE_DIRTY cap v Hl) as (v1 & Hx1 & Hl1 & _); [done|].
  destruct (exec_sync_clear cap v1 snapshot (seq 0 TABLE_SIZE) Hl1) as (v2 & Hx2 & Hl2 & Hk & _);
    [apply NoDup_seq|intros i; apply in_table|].
  destruct (exec_sync_save cap v2 snapshot 0 Hl2 Hst) as [(v3 & Hx3 & Hl3 & Hm3)|(v3 & Hx3 & Hl3)].
  - left. destruct (exec_refresh FS_STATE_CLEAN cap v3 Hl3) as (v4 & Hx4 & Hl4 & Hs4 & _); [done|].
    exists v4. split_and!; [|done|].
    + unfold sync_filesystem. eapply exec_bind; [exact Hx1|]. eapply exec_bind; [exact Hx2|].
      eapply exec_bind; [exact Hx3|]. eapply exec_bind; [exact Hx4|]. apply exec_ret.
    + rewrite (disk_map_same _ _ _ Hl3 Hs4), Hm3. apply fold_insert_to_map.
      * by apply NoDup_names_filter.
      * intros n f (i & Hi & Hs & <-)%(disk_map_lookup cap); [|done]. apply (Hk i); [by apply in_table|done].
  - right. exists v3. split; [|done]. unfold sync_filesystem. eapply exec_bind; [exact Hx1|].
    eapply exec_bind; [exact Hx2|]. by apply exec_bind_err.
Qed.
End saving.

(** ** Lemmas: loading *)

Lemma map_used_mono (m m' : gmap bytes FileEntry) :
  m ⊆ m' -> map_used m <= map_used m' /\ (size m <= size m')%nat.
Proof.
  intros Hs. apply map_to_list_submseteq in Hs. split.
  - apply submseteq_Permutation in Hs as [k Hk]. unfold map_used, entries_of.
    rewrite Hk, fmap_app, map_app, sumZ_app. pose proof (sumZ_nonneg (map (fun e => blen (fe_data e)) k.*2)) as Hn.
    rewrite Forall_forall in Hn. lapply Hn; [lia|].
    intros z (e & -> & _)%list_elem_of_fmap. apply blen_nonneg.
  - apply submseteq_length in Hs. by rewrite !length_map_to_list in Hs.
Qed.

(** A file the in-memory file system accepts from disk. *)
Record loadable (e : FileEntry) : Prop := mkLoadable {
  ld_name : canonical (fe_name e);
  ld_root : fe_name e <> [slash];
  ld_size : blen (fe_data e) <= MAX_FILE_SIZE;
  ld_perm_owner : perm_owner_uid (fe_permissions e) = fe_owner_uid e;
}.

Lemma load_fresh f e :
  fs_ok f -> loadable e -> abs f !! fe_name e = None ->
  map_used (<[fe_name e := e]> (abs f)) <= TOTAL_CAPACITY ->
  Z.of_nat (size (<[fe_name e := e]> (abs f))) <= MAX_FILES ->
  exists f', load_file_from_disk (fe_name e) (fe_data e) (fe_owner_uid e) (fe_permissions e)
               (fe_readonly e) (fe_created_at e) (fe_modified_at e) f = (Ok (), f') /\
    fs_ok f' /\ abs f' = <[fe_name e := e]> (abs f).
Proof.
  intros Hok [Hc Hr Hs Hpo] Hfresh Hu Hn.
  pose proof (load_refines (fe_name e) (fe_data e) (fe_owner_uid e) (fe_permissions e)
    (fe_readonly e) (fe_created_at e) (fe_modified_at e) (mkWorld f ()) Hok) as (Hres & Habs & Hok').
  simpl in Hres, Habs, Hok'.
  destruct (load_file_from_disk _ _ _ _ _ _ _ f) as [r f'] eqn:El. simpl in *.
  assert (spec_store (fe_name e) (fe_data e)
    (fun e0 => Ok (mkEntry (fe_name e0) (fe_data e) (fe_created_at e) (fe_modified_at e)
                     (fe_readonly e) (fe_owner_uid e) (set_perm_owner (fe_permissions e) (fe_owner_uid e))))
    (fun c => mkEntry c (fe_data e) (fe_created_at e) (fe_modified_at e) (fe_readonly e)
                (fe_owner_uid e) (set_perm_owner (fe_permissions e) (fe_owner_uid e))) (abs f)
    = (Ok (), <[fe_name e := e]> (abs f))) as Hspec.
  { unfold spec_store. rewrite (canonical_path_id _ Hc), bool_decide_false, Hfresh by done.
    rewrite map_used_insert in Hu. rewrite map_size_insert_None in Hn by done.
    destruct (blen (fe_data e) >? MAX_FILE_SIZE) eqn:E1; [lia|].
    destruct (_ >? TOTAL_CAPACITY) eqn:E2; [lia|].
    destruct (MAX_FILES <=? _) eqn:E3; [lia|]. do 2 f_equal.
    unfold set_perm_owner. clear -Hpo. destruct e as [? ? ? ? ? ? []]. simpl in *. by subst. }
  rewrite Hspec in Hres, Habs. simpl in Hres, Habs. subst. eauto.
Qed.

Section loading.
Context {S : Type} `{SSL : SectorStoreLaws S} `{Padding}.

Lemma on_disk_exec {A} (m : stm S DiskError A) cap v r v' s f :
  exec m cap v r v' -> at_view cap v s ->
  exists s', on_disk m (s, f) = (map_err Raised r, (s', f)) /\ at_view cap v' s'.
Proof.
  intros Hx Hs. destruct (Hx s Hs) as (s' & E & Hs'). exists s'. unfold on_disk. by rewrite E.
Qed.

(** Reading the contents of a file that has any. *)
Lemma exec_read_data cap v i :
  layout_ok cap v -> active_at v i -> de_block_count (entry_at v i) <> 0 ->
  exec (read_file_data (de_start_block (entry_at v i)) (de_block_count (entry_at v i))
          (zeros (Z.to_nat (de_block_count (entry_at v i) * BLOCK_SIZE)))) cap v
    (Ok (block_data v (entry_at v i))) v.
Proof.
  intros Hl Ha Hnz. pose proof (layout_block_count _ _ _ Hl Ha) as Hc.
  pose proof (so_range _ _ (lo_slots _ _ Hl i Ha) Hnz) as Hr.
  pose proof (dw_start_block _ (layout_entry_wf _ _ i Hl)). pose proof (lo_blocks _ _ Hl) as Hb.
  pose proof data_start_pos.
  unfold read_file_data, in_u, SECTORS_PER_BLOCK, BLOCK_SIZE in *. rewrite wrap_small by lia.
  pose proof (exec_read (DATA_START_SECTOR + de_start_block (entry_at v i) * 8)
    (de_block_count (entry_at v i) * 8) (zeros (Z.to_nat (de_block_count (entry_at v i) * 4096))) cap v) as Hx.
  unfold blen in Hx. rewrite length_zeros in Hx.
  rewrite drop_ge in Hx by (rewrite length_zeros; unfold SECTOR_SIZE; lia).
  rewrite app_nil_r in Hx. apply Hx; [lia|lia|lia|unfold SECTOR_SIZE; lia].
Qed.

Lemma block_data_length cap v i :
  layout_ok cap v -> active_at v i ->
  de_size (entry_at v i) <= blen (block_data v (entry_at v i)) /\
  (de_block_count (entry_at v i) = 0 <-> de_size (entry_at v i) = 0).
Proof.
  intros Hl Ha. pose proof (lo_slots _ _ Hl i Ha) as Hso. pose proof (so_size _ _ Hso).
  pose proof (dw_size _ (layout_entry_wf _ _ i Hl)).
  destruct (block_count_bounds (de_size (entry_at v i))) as (Hc & Hle & Hz); [unfold in_u in *; lia|].
  rewrite <- (so_count _ _ Hso) in *. split; [|done]. unfold blen, block_data.
  rewrite length_view_range by apply Hl. unfold BLOCK_SIZE, SECTORS_PER_BLOCK, SECTOR_SIZE in *. lia.
Qed.

(** One turn of the loop, by what the slot holds. *)
Lemma load_step_skip cap v i k s f :
  layout_ok cap v -> at_view cap v s -> (i < TABLE_SIZE)%nat ->
  (forall e, slot v i = Some e -> is_persistable_path (fe_name e) = false) ->
  exists s', load_step i k (s, f) = (Ok k, (s', f)) /\ at_view cap v s'.
Proof.
  intros Hl Hs Hi Hsk. unfold load_step, mbind, stm_bind.
  destruct (on_disk_exec _ _ _ _ _ s f (exec_read_entry i cap v Hi (layout_cap _ _ Hl)) Hs) as (s1 & -> & Hs1).
  cbn [map_err]. destruct (Z.eqb_spec (de_active (entry_at v i)) 0) as [|Ha]; [by exists s1|].
  assert (active_at v i) as Hact by done. rewrite (file_of_name _ _ _ Hl Hact).
  cbn [on_disk lift_result map_err].
  rewrite (Hsk (file_of v (entry_at v i))) by (by apply slot_Some). by exists s1.
Qed.

Lemma load_step_load cap v i k s f e f' :
  layout_ok cap v -> at_view cap v s -> (i < TABLE_SIZE)%nat ->
  slot v i = Some e -> is_persistable_path (fe_name e) = true ->
  load_file_from_disk (fe_name e) (fe_data e) (fe_owner_uid e) (fe_permissions e)
    (fe_readonly e) (fe_created_at e) (fe_modified_at e) f = (Ok (), f') ->
  exists s', load_step i k (s, f) = (Ok (k + 1), (s', f')) /\ at_view cap v s'.
Proof.
  intros Hl Hs Hi [Ha ->]%slot_Some Hp Hld. assert (active_at v i) as Hact by done.
  unfold load_step, mbind, stm_bind.
  destruct (on_disk_exec _ _ _ _ _ s f (exec_read_entry i cap v Hi (layout_cap _ _ Hl)) Hs) as (s1 & -> & Hs1).
  cbn [map_err]. rewrite (proj2 (Z.eqb_neq _ _) Ha), (file_of_name _ _ _ Hl Hact).
  cbn [on_disk lift_result map_err]. rewrite Hp. cbn [negb].
  destruct (block_data_length _ _ _ Hl Hact) as [Hlen Hz].
  destruct (decide (de_block_count (entry_at v i) = 0)) as [E|E].
  - rewrite E. cbn [Z.eqb negb andb]. exists s1. split; [|done]. unfold mret, stm_ret, on_fs.
    unfold file_of in *. cbn [fe_name fe_data fe_owner_uid fe_permissions fe_readonly fe_created_at
      fe_modified_at] in *. rewrite (proj1 Hz E) in *. change (zeros (Z.to_nat 0)) with (@nil byte).
    rewrite take_0 in Hld. by rewrite Hld.
  - rewrite (proj2 (Z.eqb_neq _ _) E), (proj2 (Z.eqb_neq _ _) (fun Hx => E (proj2 Hz Hx))). cbn [negb andb].
    destruct (on_disk_exec _ _ _ _ _ s1 f (exec_read_data cap v i Hl Hact E) Hs1) as (s2 & -> & Hs2).
    cbn [map_err]. rewrite (proj2 (Z.ltb_ge _ _) Hlen). exists s2. split; [|done].
    unfold mret, stm_ret, on_fs. unfold file_of in *. cbn [fe_name fe_data fe_owner_uid fe_permissions
      fe_readonly fe_created_at fe_modified_at] in *. by rewrite Hld.
Qed.

Lemma load_loop cap v l k s f L F :
  layout_ok cap v -> at_view cap v s -> fs_ok f -> (forall i, i ∈ l -> (i < TABLE_SIZE)%nat) ->
  L = kept_files (omap (slot v) l) -> F = fold_left (fun m e => <[fe_name e := e]> m) L (abs f) ->
  NoDup (map fe_name L) -> Forall (fun e => loadable e /\ abs f !! fe_name e = None) L ->
  map_used F <= TOTAL_CAPACITY -> Z.of_nat (size F) <= MAX_FILES ->
  exists s' f', foldM load_step l k (s, f) = (Ok (k + blen L), (s', f')) /\
    at_view cap v s' /\ fs_ok f' /\ abs f' = F.
Proof.
  intros Hl. revert k s f L F. induction l as [|i l IH]; intros k s f L F Hs Hok Hin -> -> Hnd Hall Hu Hn.
  { exists s, f. simpl. rewrite Z.add_0_r. done. }
  assert ((i < TABLE_SIZE)%nat) as Hi by (apply Hin; left).
  specialize (fun k s f Hs Hok => IH k s f _ _ Hs Hok (fun j Hj => Hin j ltac:(by right)) eq_refl eq_refl).
  cbn [foldM]. unfold mbind, stm_bind. cbn [omap list_omap] in *.
  destruct (slot v i) as [e|] eqn:Es; [destruct (is_persistable_path (fe_name e)) eqn:Ep|].
  - unfold kept_files in *. cbn [List.filter] in *. rewrite Ep in *. simpl map in Hnd. cbn [fold_left] in *.
    apply NoDup_cons in Hnd as [Hne Hnd]. apply Forall_cons in Hall as [[Hld Hfr] Hall].
    assert (Forall (fun g => <[fe_name e := e]> (abs f) !! fe_name g = None)
              (List.filter (fun f => is_persistable_path (fe_name f)) (omap (slot v) l))) as Hfresh.
    { rewrite Forall_forall in *. intros g Hg. destruct (Hall g Hg) as [_ Hg2].
      rewrite lookup_insert_ne; [done|]. intros Heq. apply Hne. rewrite Heq. by apply list_elem_of_fmap_2. }
    pose proof (fold_insert_subset _ _ Hnd Hfresh) as Hsub.
    destruct (map_used_mono _ _ Hsub) as [Hu' Hn'].
    destruct (load_fresh f e Hok Hld Hfr) as (f1 & Hlf & Hok1 & Habs1); [lia|lia|].
    destruct (load_step_load cap v i k s f e f1 Hl Hs Hi Es Ep Hlf) as (s1 & -> & Hs1).
    rewrite <- Habs1 in *. 
    destruct (IH (k + 1) s1 f1 Hs1 Hok1) as (s2 & f2 & -> & Hrest); try done.
    { rewrite Forall_forall in *. intros g Hg. split; [by apply Hall|by apply Hfresh]. }
    exists s2, f2. split; [|done]. do 2 f_equal. unfold blen. simpl length. lia.
  - destruct (load_step_skip cap v i k s f Hl Hs Hi) as (s1 & -> & Hs1); [congruence|].
    unfold kept_files in *. cbn [List.filter] in *. rewrite Ep in *. by apply IH.
  - destruct (load_step_skip cap v i k s f Hl Hs Hi) as (s1 & -> & Hs1); [congruence|]. by apply IH.
Qed.
End loading.

(** ** Canonical names on disk *)

Lemma canonical_bytes n b : canonical n -> b ∈ n -> bval b < 128 /\ b <> x00.
Proof.
  intros (comps & Hv & -> & _) Hb.
  assert (b = slash \/ component_byte b = true) as Hcb.
  { assert (b ∈ join_components comps -> b = slash \/ component_byte b = true) as Hj.
    { clear Hb. induction Hv as [|c cs Hc Hcs IH]; simpl; [by intros Hb%elem_of_nil|].
      intros [->|[Hb|Hb]%elem_of_app]%elem_of_cons; [by left| |auto].
      right. destruct Hc as (_ & _ & _ & _ & Hc). by eapply forallb_elem. }
    destruct comps; [|by apply Hj]. apply list_elem_of_singleton in Hb. by left. }
  destruct b; vm_compute in Hcb |- *; destruct Hcb; done.
Qed.

Lemma canonical_name_fits n : canonical n -> (length n < MAX_FILENAME)%nat -> name_fits n.
Proof.
  intros Hc Hl. split; [done| |].
  - intros H0. by apply (canonical_bytes n) in H0 as [_ ?].
  - apply utf8_ascii, Forall_forall. intros b Hb. by apply (canonical_bytes n).
Qed.

(** The name field of an entry for a canonical path. *)
Lemma canonical_entry_name e n :
  canonical n -> de_name e = name_field n -> entry_name e = Ok (take (MAX_FILENAME - 1) n).
Proof.
  intros Hc He. apply entry_name_field; [done| |].
  - intros H0. by apply (canonical_bytes n) in H0 as [_ ?].
  - apply utf8_ascii, Forall_forall. intros b [k Hk]%list_elem_of_lookup.
    apply lookup_take_Some in Hk as [Hk _]. apply list_elem_of_lookup_2 in Hk. by apply (canonical_bytes n).
Qed.

(** ** The disk follows the file system *)

(** Operations of users and of the kernel after boot, with timestamps and
    owners within their widths, paths below 96 bytes and valid modes. *)
Definition short_path (name : bytes) : Prop :=
  forall c, canonical_path name = Ok c -> (length c < MAX_FILENAME)%nat.

Definition op_storable (op : fs_op) : Prop :=
  match op with
  | FsWrite now name _ _ _ p _ => in_u64 now /\ in_u16 (perm_owner_uid p) /\ short_path name
  | FsSeed now name _ _ => in_u64 now /\ short_path name
  | FsDelete _ _ _ => True
  | FsChmod _ _ _ mode => (apply_mode_string perm_system mode).2 = true
  | FsCreate now name _ owner p _ =>
      in_u64 now /\ in_u16 owner /\ perm_owner_uid p = owner /\ short_path name
  | FsLoad _ _ _ _ _ _ _ => False
  end.

(** Every entry can be stored, under its own name. *)
Definition all_storable (m : gmap bytes FileEntry) : Prop :=
  map_Forall (fun c e => fe_name e = c /\ storable e) m.

Definition persistable_part (m : gmap bytes FileEntry) : gmap bytes FileEntry :=
  filter (fun ce => is_persistable_path ce.1 = true) m.

Lemma mode_valid_any p q mode : (apply_mode_string p mode).2 = (apply_mode_string q mode).2.
Proof. by destruct mode as [|b0 [|b1 [|b2 [|b3 []]]]]. Qed.

(** The effect of a successful operation on the map: one insertion of a
    storable entry, or one deletion. *)
Lemma spec_store_storable name data ex new m m' :
  spec_store name data ex new m = (Ok (), m') -> all_storable m -> short_path name ->
  (forall c x e, m !! c = Some x -> ex x = Ok e -> fe_name e = fe_name x /\ fe_data e = data /\
     (blen data <= MAX_FILE_SIZE -> savable x -> savable e)) ->
  (forall c, fe_name (new c) = c /\ (blen data <= MAX_FILE_SIZE -> savable (new c))) ->
  exists c e, canonical_path name = Ok c /\ m' = <[c := e]> m /\ fe_name e = c /\ storable e.
Proof.
  intros Hs Hm Hsh Hex Hnew.
  assert (blen data <= MAX_FILE_SIZE) as Hsz.
  { unfold spec_store in Hs. destruct (blen data >? MAX_FILE_SIZE) eqn:E; [done|lia]. }
  apply spec_store_Ok in Hs as (c & e & Hc & -> & He).
  assert (name_fits c) as Hfit.
  { apply canonical_name_fits; [by eapply canonical_path_canonical|by apply Hsh]. }
  exists c, e. split; [done|]. split; [done|]. destruct He as [[_ ->]|(x & Hx & He)].
  - destruct (Hnew c) as [Hn Hsv]. rewrite Hn. split; [done|]. split; [auto|by rewrite Hn].
  - destruct (Hm c x Hx) as [Hn [Hsx _]]. destruct (Hex c x e Hx He) as (Hn' & _ & Hsv).
    rewrite Hn', Hn. split; [done|]. split; [auto|by rewrite Hn', Hn].
Qed.

(** The path an operation works on, and whether it is a deletion. *)
Definition op_name (op : fs_op) : bytes :=
  match op with
  | FsWrite _ name _ _ _ _ _ | FsSeed _ name _ _ | FsDelete name _ _ | FsChmod name _ _ _
  | FsCreate _ name _ _ _ _ | FsLoad name _ _ _ _ _ _ => name
  end.
Definition is_delete (op : fs_op) : bool := match op with FsDelete _ _ _ => true | _ => false end.

Lemma spec_op_change op m m' :
  spec_op op m = (Ok (), m') -> all_storable m -> op_storable op ->
  exists c, canonical_path (op_name op) = Ok c /\
    if is_delete op then m' = delete c m
    else exists e, m' = <[c := e]> m /\ fe_name e = c /\ storable e.
Proof.
  intros Hs Hm Hop.
  destruct op as [now name data id r p ro|now name data ro|name id r|name id r mode|
                  now name data owner p ro|]; simpl in Hs, Hop |- *; try done.
  - destruct Hop as (Hnow & Hp & Hsh).
    apply spec_store_storable in Hs as (c & e & ? & ? & ? & ?); eauto 6.
    + intros c x e Hx He. destruct (fe_readonly x); [done|]. destruct (negb _); [done|]. simplify_eq/=.
      split_and!; try done. intros Hsz []. by constructor.
    + intros c. split; [done|]. intros Hsz. by constructor.
  - destruct Hop as (Hnow & Hsh).
    apply spec_store_storable in Hs as (c & e & ? & ? & ? & ?); eauto 6.
    + intros c x e Hx [= <-]. split_and!; try done. intros Hsz []. by constructor.
    + intros c. split; [done|]. intros Hsz. by constructor.
  - destruct (canonical_path name) as [c|]; [|done]. exists c. split; [done|].
    repeat case_match; by simplify_eq.
  - destruct (canonical_path name) as [c|]; [|done]. exists c. split; [done|].
    destruct (m !! c) as [x|] eqn:Hx; [|done]. destruct (owner_access x id r); [|done].
    destruct (Hm c x Hx) as [Hn [Hsv Hfit]].
    destruct (apply_mode_string (fe_permissions x) mode) as [q valid] eqn:Eq. destruct valid; [|done].
    simplify_eq. eexists. split_and!; [done|done|]. split; [|done]. destruct Hsv. constructor; try done.
    assert (q = (apply_mode_string (fe_permissions x) mode).1) as -> by (by rewrite Eq).
    by destruct mode as [|? [|? [|? [|? []]]]].
  - destruct Hop as (Hnow & Ho & Hpo & Hsh).
    destruct (blen data >? MAX_FILE_SIZE) eqn:Esz; [done|].
    destruct (canonical_path name) as [c|] eqn:Ec; [|done]. exists c. split; [done|].
    repeat (case_match; simplify_eq/=). eexists. split_and!; [done|done|]. split.
    + constructor; try done. simpl. lia.
    + apply canonical_name_fits; [by eapply canonical_path_canonical|by apply Hsh].
Qed.

Section mirror.
Context {S : Type} `{Backend S}.

Lemma op_backend op (w w' : FsWorld S) :
  run_fs_op op w = (Ok (), w') -> op_storable op ->
  exists c, canonical_path (op_name op) = Ok c /\
    backend w' = if is_delete op then maybe_delete_path c (backend w)
                 else match find (fs w') c with
                      | Some e => maybe_sync_file_entry e (backend w)
                      | None => backend w
                      end.
Proof.
  intros Hrun Hop.
  assert (forall c (w0 : FsWorld S), backend w0 = backend w ->
    backend (sync_found c w0) = match find (fs (sync_found c w0)) c with
      | Some e => maybe_sync_file_entry e (backend w) | None => backend w end) as Hsync.
  { intros c w0 Hb. rewrite sync_found_fs. unfold sync_found. rewrite <- Hb. by destruct (find (fs w0) c). }
  destruct op as [now name data id r p ro|now name data ro|name id r|name id r mode|
                  now name data owner p ro|]; simpl in Hrun, Hop |- *; try done.
  - unfold write_internal_owned in Hrun. repeat (case_match; simplify_eq/=); eexists; split; try done; by apply Hsync.
  - unfold seed_system in Hrun. repeat (case_match; simplify_eq/=); eexists; split; try done; by apply Hsync.
  - unfold delete_as in Hrun. repeat (case_match; simplify_eq/=). eauto.
  - unfold chmod_as in Hrun. repeat (case_match; simplify_eq/=); eexists; split; try done; by apply Hsync.
  - unfold create_new_as in Hrun. repeat (case_match; simplify_eq/=); eexists; split; try done; by apply Hsync.
Qed.
End mirror.

Section disk_mirror.
Context {S : Type} `{SSL : SectorStoreLaws S} `{Padding}.

Lemma failed_op_same op (w w' : FsWorld (option S)) e :
  run_fs_op op w = (Err e, w') -> op_storable op -> w' = w.
Proof.
  intros Hrun Hop.
  destruct op as [now name data id r p ro|now name data ro|name id r|name id r mode|
                  now name data owner p ro|]; simpl in Hrun, Hop; [| | | | |done].
  - unfold write_internal_owned in Hrun. by repeat (case_match; simplify_eq/=).
  - unfold seed_system in Hrun. by repeat (case_match; simplify_eq/=).
  - unfold delete_as in Hrun. by repeat (case_match; simplify_eq/=).
  - unfold chmod_as in Hrun.
    destruct (canonical_path name); [|by simplify_eq]. destruct (find (fs w) _) as [x|]; [|by simplify_eq].
    rewrite (mode_valid_any (fe_permissions x) perm_system), Hop in Hrun.
    by repeat (case_match; simplify_eq/=).
  - unfold create_new_as in Hrun. by repeat (case_match; simplify_eq/=).
Qed.

Lemma persistable_insert m c e :
  persistable_part (<[c := e]> m) =
  if is_persistable_path c then <[c := e]> (persistable_part m) else persistable_part m.
Proof.
  unfold persistable_part. rewrite map_filter_insert. simpl. case_decide as Hp.
  - by rewrite Hp.
  - destruct (is_persistable_path c) eqn:E; [done|]. rewrite map_filter_delete, delete_id; [done|].
    apply map_lookup_filter_None. right. intros x _. simpl. by rewrite E.
Qed.

Lemma persistable_delete m c :
  persistable_part (delete c m) = delete c (persistable_part m).
Proof. apply map_filter_delete. Qed.

Lemma persistable_absent m c : is_persistable_path c = false -> persistable_part m !! c = None.
Proof. intros E. apply map_lookup_filter_None. right. intros x _. simpl. by rewrite E. Qed.

(** What saving does to the disk in the lock. *)
Lemma sync_entry_mirror cap v s e :
  layout_ok cap v -> at_view cap v s -> storable e ->
  exists v' s', maybe_sync_file_entry e (Some s) = Some s' /\ at_view cap v' s' /\ layout_ok cap v' /\
    (disk_map v' = (if is_persistable_path (fe_name e) then <[fe_name e := e]> (disk_map v) else disk_map v) \/
     (save_entry e s).1 = Err DiskFull).
Proof.
  intros Hl Hs He. simpl. destruct (is_persistable_path (fe_name e)); simpl; [|exists v, s; auto].
  destruct (exec_save cap v e Hl He) as (r & v' & Hx & Hl' & Hr).
  destruct (Hx s Hs) as (s' & E & Hs'). exists v', s'. rewrite E. simpl.
  split_and!; try done. naive_solver.
Qed.

Lemma delete_path_mirror cap v s c :
  layout_ok cap v -> at_view cap v s ->
  exists v' s', maybe_delete_path c (Some s) = Some s' /\ at_view cap v' s' /\ layout_ok cap v' /\
    disk_map v' = if is_persistable_path c then delete c (disk_map v) else disk_map v.
Proof.
  intros Hl Hs. simpl. destruct (is_persistable_path c); simpl; [|exists v, s; auto].
  destruct (exec_delete cap v c Hl) as (v' & Hl' & Hm & Hx).
  destruct (Hx s Hs) as (s' & E & Hs'). exists v', s'. by rewrite E.
Qed.


(** On a sound volume, saving a file returns [Ok], leaves a sound volume in
    the clean state and maps the file's name to exactly that file, every other
    file unchanged; or it returns [DiskFull], every file unchanged and the
    volume marked dirty.  No other outcome is possible. *)
Theorem save_entry_correct cap v e :
  layout_ok cap v -> storable e ->
  exists r v', exec (save_entry e) cap v r v' /\ layout_ok cap v' /\
    (r = Ok () /\ disk_map v' = <[fe_name e := e]> (disk_map v) /\ sb_state (sb_of v') = FS_STATE_CLEAN \/
     r = Err DiskFull /\ disk_map v' = disk_map v /\ sb_state (sb_of v') = FS_STATE_DIRTY).
Proof. apply exec_save. Qed.

(** On a sound volume, deleting a name removes exactly that file, and
    reports [FileNotFound] exactly when there is none. *)
Theorem delete_file_correct cap v name :
  layout_ok cap v ->
  exists v', layout_ok cap v' /\ disk_map v' = delete name (disk_map v) /\
    exec (delete_file_from_disk name) cap v
      (match disk_map v !! name with Some _ => Ok () | None => Err DiskFileNotFound end) v'.
Proof. apply exec_delete. Qed.

Lemma disk_files_names cap v l :
  layout_ok cap v -> NoDup l -> (forall i, i ∈ l -> (i < TABLE_SIZE)%nat) ->
  NoDup (map fe_name (omap (slot v) l)).
Proof.
  intros Hl Hnd Hin. induction Hnd as [|i l Hi Hnd IH]; [constructor|]. cbn [omap list_omap].
  specialize (IH (fun j Hj => Hin j ltac:(by right))).
  destruct (slot v i) as [e|] eqn:Es; [|done]. simpl. constructor; [|done].
  intros (g & Hg & (j & Hj & Hsj)%list_elem_of_omap)%list_elem_of_fmap. apply Hi.
  assert (i = j) as -> by (eapply (slot_unique cap v i j e g); try done; apply Hin; [left|by right]). done.
Qed.

Lemma abs_new : abs fs_new = ∅.
Proof. done. Qed.

(** Two sound file systems with the same map are the same list. *)
Lemma files_of_abs f l :
  fs_ok f -> StronglySorted name_lt l -> abs f = to_map l -> files f = l.
Proof.
  intros Hf Hl He. apply (StronglySorted_perm_eq name_lt).
  - apply name_lt_trans.
  - intros x. apply bytes_lt_irrefl.
  - apply Hf.
  - done.
  - rewrite <- (entries_of_to_map (files f)) by (by apply fs_ok_NoDup).
    rewrite <- (entries_of_to_map l) by (by apply sorted_names_NoDup). unfold abs in He. by rewrite He.
Qed.

Lemma StronglySorted_filter {A} (R : A -> A -> Prop) p (l : list A) :
  StronglySorted R l -> StronglySorted R (List.filter p l).
Proof.
  induction 1 as [|x l Hl IH Hx]; simpl; [constructor|]. case_match; [|done]. constructor; [done|].
  rewrite Forall_forall in *. intros y (Hy & _)%list_elem_of_In%filter_In. apply Hx. by apply list_elem_of_In.
Qed.

(** Loading a volume whose files fit into memory. *)
Lemma load_volume cap v s L :
  layout_ok cap v -> at_view cap v s -> L = kept_files (disk_files v) ->
  Forall loadable L -> map_used (to_map L) <= TOTAL_CAPACITY -> Z.of_nat (size (to_map L)) <= MAX_FILES ->
  exists s' f', load_filesystem (s, fs_new) = (Ok (blen L), (s', f')) /\ at_view cap v s' /\
    fs_ok f' /\ abs f' = to_map L.
Proof.
  intros Hl Hs HL Hld Hu Hn.
  assert (NoDup (map fe_name L)) as Hnd.
  { rewrite HL. apply NoDup_names_filter, (disk_files_names cap); [done|apply NoDup_seq|intros i; apply in_table]. }
  assert (fold_left (fun m e => <[fe_name e := e]> m) L ∅ = to_map L) as HF by (by apply fold_insert_to_map).
  destruct (load_loop cap v (seq 0 TABLE_SIZE) 0 s fs_new L (to_map L) Hl Hs fs_new_ok)
    as (s' & f' & Hrun & Hs' & Hok & Habs); [| | |exact Hnd| |exact Hu|exact Hn|].
  - intros i. apply in_table.
  - unfold disk_files in HL. exact HL.
  - rewrite abs_new, HF. reflexivity.
  - eapply Forall_impl; [exact Hld|]. intros e He. split; [exact He|]. by rewrite abs_new, lookup_empty.
  - exists s', f'. by split_and!.
Qed.

Lemma kept_subset f : fs_ok f -> to_map (kept_files (files f)) ⊆ abs f.
Proof.
  intros Hf. apply map_subseteq_spec. intros n e (g & Hg & Hin)%elem_of_list_to_map_2%list_elem_of_fmap.
  simplify_eq. apply list_elem_of_In, filter_In in Hin as [Hin _]. apply list_elem_of_In in Hin.
  unfold abs. apply elem_of_list_to_map_1; [by rewrite map_keys; apply fs_ok_NoDup|].
  apply list_elem_of_fmap. by exists g.
Qed.

Lemma kept_loadable f :
  fs_ok f -> Forall (fun e => is_persistable_path (fe_name e) = true -> storable e) (files f) ->
  Forall loadable (kept_files (files f)).
Proof.
  intros Hf Hst. rewrite Forall_forall in *. intros e (Hin & Hp)%list_elem_of_In%filter_In.
  apply list_elem_of_In in Hin. destruct (Hst e Hin Hp) as [Hsv _].
  pose proof (fo_names _ Hf) as Hn. rewrite Forall_forall in Hn. destruct (Hn e Hin).
  by split; [| |apply Hsv|apply Hsv].
Qed.

(** The files of a volume whose map is that of a list, in some order. *)
Lemma disk_files_perm cap v l :
  layout_ok cap v -> NoDup (map fe_name l) -> disk_map v = to_map l ->
  Permutation (disk_files v) l.
Proof.
  intros Hl Hnd Hm. rewrite <- (entries_of_to_map l) by done. rewrite <- Hm, disk_map_files.
  rewrite entries_of_to_map; [done|].
  apply (disk_files_names cap); [done|apply NoDup_seq|intros i; apply in_table].
Qed.

Lemma filter_perm {A} (p : A -> bool) (l k : list A) :
  Permutation l k -> Permutation (List.filter p l) (List.filter p k).
Proof.
  induction 1 as [|x l k Hp IH|x y l|l1 l2 l3 H1 IH1 H2 IH2]; simpl; [done| | |by rewrite IH1].
  - destruct (p x); [by rewrite IH|done].
  - destruct (p x), (p y); try done. apply Permutation_swap.
Qed.

Lemma kept_idem l : kept_files (kept_files l) = kept_files l.
Proof.
  unfold kept_files. induction l as [|e l IH]; simpl; [done|].
  destruct (is_persistable_path (fe_name e)) eqn:E; simpl; [by rewrite E, IH|done].
Qed.


(** A path of the full 96 bytes the file system allows does not survive on
    disk: saving such a file reports success and fills a free slot, but the
    slot holds the first 95 bytes of the name, so that no file on the volume
    has the path and the next save will fill another slot. *)
Theorem long_name_lost cap v e i :
  layout_ok cap v -> savable e -> canonical (fe_name e) -> length (fe_name e) = MAX_FILENAME ->
  fe_data e = [] -> disk_map v !! fe_name e = None -> (i < TABLE_SIZE)%nat -> ~ active_at v i ->
  exists v' j, exec (upsert_entry e) cap v (Ok ()) v' /\ ~ active_at v j /\ active_at v' j /\
    entry_name (entry_at v' j) = Ok (take 95 (fe_name e)) /\
    forall k, active_at v' k -> entry_name (entry_at v' k) <> Ok (fe_name e).
Proof.
  intros Hl He Hc Hlen Hd Hn Hi Hna.
  assert (forall k, active_at v k -> entry_name (entry_at v k) <> Ok (fe_name e)) as Hno.
  { intros k Hk Hk'. pose proof (file_of_name _ _ _ Hl Hk) as Hf. rewrite Hk' in Hf.
    enough (disk_map v !! fe_name e = Some (file_of v (entry_at v k))) by congruence.
    apply (disk_map_lookup cap); [done|]. exists k. injection Hf as Hf.
    split_and!; [apply Hk|apply slot_Some; split; [apply Hk|done]|done]. }
  destruct (exec_scan cap v (fe_name e) (seq 0 TABLE_SIZE) None Hl (fun j => proj1 (in_table j)))
    as (target & empty & Hscan & Hspec).
  destruct target as [[j d]|].
  { destruct Hspec as (_ & Ha & -> & Hnm). by apply Hno in Hnm. }
  destruct Hspec as (_ & Hem & Hall).
  destruct empty as [j|]; [|destruct Hna; apply Hall; [done|by apply in_table]].
  destruct (Hem j eq_refl) as [|[Hj%in_table Hja]]; [done|].
  assert (good_place v j 0 (block_count_for_len (blen (fe_data e)))) as Hp.
  { rewrite Hd. split_and!; [done|done|]. intros. by left. }
  assert (entry_name (disk_entry e 0) = Ok (take 95 (fe_name e))) as Hnm.
  { by apply canonical_entry_name. }
  exists (put_view v j 0 e), j. split_and!.
  - assert (block_count_for_len (blen (fe_data e)) = 0) as E0 by (by rewrite Hd).
    unfold upsert_entry, upsert_file_entry. eapply exec_bind; [exact Hscan|].
    eapply exec_bind; [apply exec_lift|]. cbn beta iota.
    eapply exec_bind; [rewrite E0; apply exec_ret|].
    eapply exec_bind; [eapply exec_write_data; [done|apply He|exact Hp]|].
    apply (exec_write_entry j (disk_entry e 0)); [done|by eapply layout_cap|by eapply put_entry_wf].
  - done.
  - apply put_active; [done|done|done|by left].
  - by rewrite put_entry_eq.
  - intros k Hk. apply put_active in Hk as [->|[Hkj Hk]]; [| |done..].
    + rewrite put_entry_eq, Hnm by done. intros [= Ht]. apply (f_equal length) in Ht.
      rewrite length_take in Ht. unfold MAX_FILENAME in Hlen. lia.
    + destruct Hk as [Hk Hka]. rewrite put_entry_ne by done. by apply Hno.
Qed.
End disk_mirror.

(** ** Concrete runs *)

(** The blank disk, formatted. *)
Definition formatted_disk : Disk RamDev := (format_disk 7 blank_disk).2.

Lemma formatted_at_view : at_view 200 formatted_view formatted_disk.
Proof.
  destruct (exec_format (S := Disk RamDev) 7 200 blank_view) with blank_disk as (s & E & Hs);
    [done|done|apply blank_at_view|]. unfold formatted_disk. by rewrite E.
Qed.

Lemma formatted_map : disk_map formatted_view = ∅.
Proof.
  apply map_empty. intros n. apply (disk_map_None 200); [apply formatted_view_ok|].
  intros i Ha. by apply formatted_inactive in Ha.
Qed.

Definition notes_entry : FileEntry :=
  mkEntry notes (str "hello") 5 5 false 1000 (perm_private 1000).

Lemma notes_storable : storable notes_entry.
Proof.
  split; [by constructor|]. apply canonical_name_fits; [|vm_compute; lia].
  apply canonical_iff. vm_compute. reflexivity.
Qed.

Lemma save_entry_correct_witness :
  exists r v', exec (S := Disk RamDev) (save_entry notes_entry) 200 formatted_view r v' /\ layout_ok 200 v'.
Proof.
  destruct (save_entry_correct (S := Disk RamDev) 200 formatted_view notes_entry)
    as (r & v' & Hx & Hl & _); [exact formatted_view_ok|exact notes_storable|]. eauto.
Defined.

Lemma delete_file_correct_witness :
  exists v', layout_ok 200 v' /\
    exec (S := Disk RamDev) (delete_file_from_disk notes) 200 formatted_view (Err DiskFileNotFound) v'.
Proof.
  destruct (delete_file_correct (S := Disk RamDev) 200 formatted_view notes)
    as (v' & Hl & _ & Hx); [exact formatted_view_ok|]. rewrite formatted_map, lookup_empty in Hx. eauto.
Defined.


Definition motd_entry : FileEntry :=
  mkEntry (str "/etc/motd") (str "welcome") 6 6 true 0 perm_system.

Lemma sample_files : files (fs sample) = [motd_entry; notes_entry].
Proof. vm_compute. reflexivity. Qed.

Lemma motd_storable : storable motd_entry.
Proof.
  split; [by constructor|]. apply canonical_name_fits; [|vm_compute; lia].
  apply canonical_iff. vm_compute. reflexivity.
Qed.


(** A path of 96 bytes: four components of 23 letters. *)
Definition long_path : bytes :=
  concat (replicate 4 (slash :: replicate 23 x61)).

Lemma long_name_lost_witness :
  exists v' j, exec (S := Disk RamDev)
    (upsert_entry (mkEntry long_path [] 5 5 false 1000 (perm_private 1000))) 200 formatted_view (Ok ()) v' /\
    entry_name (entry_at v' j) = Ok (take 95 long_path).
Proof.
  destruct (long_name_lost (S := Disk RamDev) 200 formatted_view
    (mkEntry long_path [] 5 5 false 1000 (perm_private 1000)) 0) as (v' & j & Hx & _ & _ & Hn & _).
  - exact formatted_view_ok.
  - by constructor.
  - apply canonical_iff. vm_compute. reflexivity.
  - reflexivity.
  - reflexivity.
  - by rewrite formatted_map, lookup_empty.
  - exact table_nonempty.
  - apply formatted_inactive.
  - exists v', j. done.
Defined.
