(* ===== verification/AuditLog.v ===== *)
(** * The audit log (kernel/src/security/audit)

    A bounded queue of numbered events.  The textual form of the events
    ([Display]) is not modelled. *)
From S2P Require Import Prelude RustStr.

Inductive AuditEvent : Type :=
| LoginSuccess (username : bytes) (uid : Z)
| LoginFailed (username reason : bytes)
| Logout (username : bytes) (uid : Z)
| FileCreated (path : bytes) (uid : Z)
| FileModified (path : bytes) (uid : Z)
| FileDeleted (path : bytes) (uid : Z)
| FileAccessDenied (path : bytes) (uid : Z) (operation : bytes)
| ProcessSpawned (pid : Z) (name : bytes) (uid : Z)
| ProcessExited (pid exit_code : Z)
| ProcessExec (pid : Z) (path : bytes) (uid : Z) (caps_before caps_after : bytes)
| CapabilityDenied (pid : Z) (capability : bytes)
| FirewallMatch (rule_id : Z) (direction protocol action reason : bytes)
    (src_ip dst_ip src_port dst_port : Z)
| NetworkConnection (src_ip src_port dst_ip dst_port : Z) (protocol : bytes)
| TlsValidation (host anchor outcome detail : bytes)
| PackageVerification (name version outcome reason : bytes)
| PackageInstalled (name version : bytes) (uid : Z)
| QuantumRegisterAllocated (pid qubits : Z)
| SecurityPolicyChanged (change : bytes) (uid : Z)
| IntegrityViolation (path expected_hash actual_hash : bytes)
| SystemBoot (kernel_version : bytes).

Definition event_category (event : AuditEvent) : bytes :=
  match event with
  | LoginSuccess _ _ | LoginFailed _ _ | Logout _ _ => str "auth"
  | FileCreated _ _ | FileModified _ _ | FileDeleted _ _ | FileAccessDenied _ _ _ => str "file"
  | ProcessSpawned _ _ _ | ProcessExec _ _ _ _ _ | ProcessExited _ _ => str "process"
  | CapabilityDenied _ _ => str "capability"
  | FirewallMatch _ _ _ _ _ _ _ _ _ | TlsValidation _ _ _ _ | NetworkConnection _ _ _ _ _ => str "network"
  | PackageVerification _ _ _ _ | PackageInstalled _ _ _ => str "package"
  | QuantumRegisterAllocated _ _ => str "quantum"
  | SecurityPolicyChanged _ _ => str "security"
  | IntegrityViolation _ _ _ => str "integrity"
  | SystemBoot _ => str "system"
  end.

Definition MAX_ENTRIES : nat := 100 * 100.
#[global] Opaque MAX_ENTRIES.

Record AuditEntry : Type := mkAuditEntry {
  ae_id : Z;
  ae_timestamp : Z;
  ae_event : AuditEvent;
}.

Record AuditLogger : Type := mkLogger {
  al_entries : list AuditEntry;
  al_next_id : Z;
}.

Definition logger_new : AuditLogger := mkLogger [] 1.

(** [timestamp] is the reading of the tick counter. *)
Definition log (timestamp : Z) (event : AuditEvent) (l : AuditLogger) : AuditLogger :=
  let id := al_next_id l in
  let entries := if (MAX_ENTRIES <=? length (al_entries l))%nat
                 then drop 1 (al_entries l) else al_entries l in
  mkLogger (entries ++ [mkAuditEntry id timestamp event]) (wrap 64 (id + 1)).

Definition last_n (l : AuditLogger) (n : nat) : list AuditEntry :=
  drop (length (al_entries l) - n) (al_entries l).
Definition total_count (l : AuditLogger) : Z := sat_sub (al_next_id l) 1.
Definition current_count (l : AuditLogger) : nat := length (al_entries l).

(** The counts per category, as the entries of the [BTreeMap]. *)
Definition count_by_category (l : AuditLogger) : gmap bytes Z :=
  fold_left (fun counts e => <[event_category (ae_event e) :=
                                default 0 (counts !! event_category (ae_event e)) + 1]> counts)
            (al_entries l) ∅.

Definition auth_stats (l : AuditLogger) : Z * Z :=
  fold_left (fun '(ok, fail) e =>
               match ae_event e with
               | LoginSuccess _ _ => (ok + 1, fail)
               | LoginFailed _ _ => (ok, fail + 1)
               | _ => (ok, fail)
               end) (al_entries l) (0, 0).

(** ** The log is a window on everything that was logged *)

(** What a log that never drops anything would hold. *)
Definition numbered (events : list (Z * AuditEvent)) : list AuditEntry :=
  imap (fun i te => mkAuditEntry (Z.of_nat i + 1) te.1 te.2) events.

Definition log_all (events : list (Z * AuditEvent)) (l : AuditLogger) : AuditLogger :=
  fold_left (fun l te => log te.1 te.2 l) events l.

Lemma numbered_app es e :
  numbered (es ++ [e]) = numbered es ++ [mkAuditEntry (Z.of_nat (length es) + 1) e.1 e.2].
Proof. unfold numbered. rewrite imap_app. simpl. by rewrite Nat.add_0_r. Qed.

Lemma max_entries_pos : (0 < MAX_ENTRIES)%nat.
Proof. by apply Nat.ltb_lt. Qed.

Lemma log_all_window events :
  Z.of_nat (length events) + 1 < 2 ^ 64 ->
  log_all events logger_new =
  mkLogger (drop (length events - MAX_ENTRIES) (numbered events)) (Z.of_nat (length events) + 1).
Proof.
  induction events as [|e es IH] using rev_ind; intros Hn; [done|].
  rewrite length_app in *. simpl length in *.
  unfold log_all in *. rewrite fold_left_app, IH by lia. simpl. unfold log. cbn [al_entries al_next_id].
  rewrite numbered_app. assert (length (numbered es) = length es) as Hl by apply length_imap.
  rewrite length_drop, Hl. pose proof max_entries_pos. f_equal.
  - destruct (Nat.leb_spec MAX_ENTRIES (length es - (length es - MAX_ENTRIES))).
    + rewrite drop_drop, drop_app_le by lia. do 2 f_equal; lia.
    + rewrite drop_app_le by lia. do 2 f_equal. lia.
  - rewrite wrap_small; lia.
Qed.

(** The audit log numbers events consecutively from 1, counts all of them,
    and holds exactly the latest [MAX_ENTRIES] in order; asking for the last
    [n] returns the [n] latest of those. *)
Theorem audit_log_window events n :
  Z.of_nat (length events) + 1 < 2 ^ 64 ->
  let l := log_all events logger_new in
  total_count l = Z.of_nat (length events) /\
  (current_count l <= MAX_ENTRIES)%nat /\
  al_entries l = drop (length events - MAX_ENTRIES) (numbered events) /\
  last_n l n = drop (length events - Nat.min n MAX_ENTRIES) (numbered events).
Proof.
  intros Hn l. subst l. rewrite log_all_window by done.
  assert (length (numbered events) = length events) as Hl by apply length_imap.
  unfold total_count, current_count, last_n, sat_sub. cbn [al_entries al_next_id].
  rewrite length_drop, Hl. split_and!; [lia|lia|done|].
  rewrite drop_drop. f_equal. lia.
Qed.

Lemma audit_log_window_witness :
  al_entries (log_all [(7, Logout (str "ana") 1000)] logger_new)
  = [mkAuditEntry 1 7 (Logout (str "ana") 1000)].
Proof.
  destruct (audit_log_window [(7, Logout (str "ana") 1000)] 1) as (_ & _ & -> & _); [done|]. reflexivity.
Defined.
