(* ===== verification/Session.v ===== *)
(** * Sessions and path protection (kernel/src/auth/session.rs,
    kernel/src/auth/permissions.rs)

    The session lock is the argument [CURRENT_SESSION], an optional session;
    without one the kernel acts as user 0 in the administrator role. *)
From S2P Require Import Prelude RustStr Paths Auth.

Record Session : Type := mkSession {
  se_user : UserAccount;
  se_cwd : bytes;
  se_started_at : Z;
}.

Definition session_new (now : Z) (user : UserAccount) : Session := mkSession user (home_dir user) now.
Definition session_is_admin (s : Session) : bool := bool_decide (role (se_user s) = Admin).
Definition is_recovery (s : Session) : bool := bool_decide (username (se_user s) = str "recovery").

Definition prompt_path (s : Session) : bytes :=
  if bool_decide (se_cwd s = home_dir (se_user s)) then str "~"
  else match strip_prefix (home_dir (se_user s)) (se_cwd s) with
       | Some rest => str "~" ++ rest
       | None => se_cwd s
       end.

(** ** The session lock *)

Definition start (now : Z) (user : UserAccount) : option Session := Some (session_new now user).
Definition start_recovery (now : Z) : option Session :=
  Some (mkSession (mkUser 0 (str "recovery") (zeros 32) (zeros 16) Admin (str "/recovery") true now now)
                  (str "/recovery") now).
Definition logout : option Session := None.

Section current.
Context (CURRENT_SESSION : option Session).

Definition current_user : option UserAccount := se_user <$> CURRENT_SESSION.
Definition is_logged_in : bool := match CURRENT_SESSION with Some _ => true | None => false end.
Definition is_admin : bool :=
  match CURRENT_SESSION with Some s => session_is_admin s | None => false end.
Definition current_uid : Z := match CURRENT_SESSION with Some s => uid (se_user s) | None => 0 end.
Definition current_username : bytes :=
  match CURRENT_SESSION with Some s => username (se_user s) | None => str "unknown" end.
Definition current_role : UserRole :=
  match CURRENT_SESSION with Some s => role (se_user s) | None => Admin end.
Definition current_home : bytes :=
  match CURRENT_SESSION with Some s => home_dir (se_user s) | None => str "/" end.
Definition current_prompt_path : bytes :=
  match CURRENT_SESSION with Some s => prompt_path s | None => str "/" end.
Definition current_cwd : bytes :=
  match CURRENT_SESSION with Some s => se_cwd s | None => str "/" end.
Definition is_recovery_session : bool :=
  match CURRENT_SESSION with Some s => is_recovery s | None => false end.
Definition set_cwd (path : bytes) : option Session :=
  match CURRENT_SESSION with
  | Some s => Some (mkSession (se_user s) path (se_started_at s))
  | None => None
  end.

Definition resolve_path (input : bytes) : bytes :=
  let trimmed := trim input in
  if bool_decide (trimmed = []) then current_home
  else match CURRENT_SESSION with
  | None => trimmed
  | Some s =>
      if bool_decide (trimmed = str "~") then home_dir (se_user s)
      else if bool_decide (trimmed = str ".") then se_cwd s
      else match strip_prefix (str "~/") trimmed with
      | Some rest => home_dir (se_user s) ++ [slash] ++ rest
      | None =>
          match strip_prefix (str "./") trimmed with
          | Some rest => se_cwd s ++ [slash] ++ rest
          | None => if starts_with trimmed [slash] then trimmed
                    else se_cwd s ++ [slash] ++ trimmed
          end
      end
  end.
End current.

(** ** Whose home a path lies in *)

Definition protected_path_owner (USER_DB : UserDB) (path : bytes) : option (Z * bytes) :=
  if bool_decide (path = str "/root") || starts_with path (str "/root/") then Some (0, str "root")
  else
    match strip_prefix (str "/home/") path with
    | None => None
    | Some remainder =>
        match split_on slash remainder with
        | [] => None
        | name :: _ => (fun u => (uid u, username u)) <$> find_by_name USER_DB name
        end
    end.

Definition can_access_path (CURRENT_SESSION : option Session) (USER_DB : UserDB) (path : bytes)
    (write : bool) : bool :=
  match current_user CURRENT_SESSION with
  | None => true
  | Some user =>
      if bool_decide (role user = Admin) then true
      else match protected_path_owner USER_DB (trim path) with
           | None => true
           | Some (owner_uid, _) => owner_uid =? uid user
           end
  end.

Definition username_for_uid (USER_DB : UserDB) (id : Z) : bytes :=
  match find_by_uid USER_DB id with
  | Some user => username user
  | None => str "uid" ++ decimal id
  end.
