(* ===== verification/FsCurrent.v ===== *)
(** * File operations of the logged-in user (kernel/src/fs/mod.rs)

    The functions the shell, the loader and the system calls use: they resolve
    a path against the session, check that it does not lie in somebody else's
    home, run the operation of [WarFS] for the session's user and log it.  The
    global state they lock is the record [Kernel]. *)
From S2P Require Import Prelude RustStr Paths Auth Session AuditLog WarFS.

Record Kernel (S : Type) : Type := mkKernel {
  CURRENT_SESSION : option Session;
  USER_DB : UserDB;
  FILESYSTEM : FsWorld S;
  LOGGER : AuditLogger;
}.
Arguments mkKernel {S} _ _ _ _.
Arguments CURRENT_SESSION {S} _.
Arguments USER_DB {S} _.
Arguments FILESYSTEM {S} _.
Arguments LOGGER {S} _.

Definition default_permissions_for (path : bytes) (id : Z) : FilePermissions :=
  if bool_decide (path = str "/root") || starts_with path (str "/root/") || starts_with path (str "/home/")
  then perm_private id else perm_shared id.

Record DirEntryView : Type := mkDirEntry {
  dv_path : bytes;
  dv_name : bytes;
  dv_is_dir : bool;
  dv_size : Z;
  dv_modified_at : Z;
  dv_readonly : bool;
  dv_owner_uid : Z;
  dv_permissions : FilePermissions;
}.

Record GrepMatch : Type := mkGrepMatch { gm_line_number : Z; gm_line : bytes }.
Record WordCount : Type := mkWordCount { wc_lines : Z; wc_words : Z; wc_bytes : Z }.

Section current.
Context {S : Type} `{Backend S}.
(** The readings of the tick counter during one operation: by the file system
    and by the audit log. *)
Context (now now_log : Z).

Abbreviation kst A := (stm (Kernel S) FsError A).

Definition session_of : kst (option Session) := gets CURRENT_SESSION.
Definition list_files : kst (list FileEntry) := gets (fun k => files (fs (FILESYSTEM k))).

(** Run an operation on the locked file system. *)
Definition with_fs {A} (m : stm (FsWorld S) FsError A) : kst A :=
  fun k => let '(r, w) := m (FILESYSTEM k) in (r, mkKernel (CURRENT_SESSION k) (USER_DB k) w (LOGGER k)).
Definition reading_fs {A} (f : WarFS -> result FsError A) : kst A :=
  fun k => (f (fs (FILESYSTEM k)), k).
Definition log_event (event : AuditEvent) : kst () :=
  fun k => (Ok (), mkKernel (CURRENT_SESSION k) (USER_DB k) (FILESYSTEM k) (log now_log event (LOGGER k))).

(** [resolve_path], then [can_access_path] or return. *)
Definition resolve_checked (name : bytes) (write : bool) : kst bytes :=
  fun k =>
    let resolved := resolve_path (CURRENT_SESSION k) name in
    if negb (can_access_path (CURRENT_SESSION k) (USER_DB k) resolved write)
    then (Err PermissionDenied, k) else (Ok resolved, k).

Definition write_current (name data : bytes) : kst bytes :=
  resolved ← resolve_checked name true;
  se ← session_of;
  let id := current_uid se in
  let r := current_role se in
  let permissions := default_permissions_for resolved id in
  existed ← reading_fs (fun f => Ok (bool_decide (is_Some (find f resolved))));
  _ ← with_fs (write_as now resolved data id r permissions);
  _ ← log_event (if existed : bool then FileModified resolved id else FileCreated resolved id);
  mret resolved.

Definition write_current_owned (name data : bytes) : kst bytes :=
  resolved ← resolve_checked name true;
  se ← session_of;
  let id := current_uid se in
  let r := current_role se in
  let permissions := default_permissions_for resolved id in
  existed ← reading_fs (fun f => Ok (bool_decide (is_Some (find f resolved))));
  _ ← with_fs (write_owned_as now resolved data id r permissions);
  _ ← log_event (if existed : bool then FileModified resolved id else FileCreated resolved id);
  mret resolved.

(** [directory_exists], on the list of files. *)
Definition directory_exists (path : bytes) : kst bool :=
  fun k =>
    let resolved := resolve_path (CURRENT_SESSION k) path in
    (Ok (if bool_decide (resolved = [slash]) then true
         else existsb (fun e => bool_decide (fe_name e = directory_marker_path resolved)
                                || starts_with (fe_name e) (resolved ++ [slash]))
                      (files (fs (FILESYSTEM k)))), k).

Definition validate_create_new_current (name : bytes) : kst bytes :=
  resolved ← resolve_checked name true;
  canonical ← lift_result (canonical_path resolved);
  if bool_decide (canonical = [slash]) then throw InvalidFilename
  else
    found ← reading_fs (fun f => Ok (bool_decide (is_Some (find f canonical))));
    if found : bool then throw AlreadyExists
    else
      parent_exists ← directory_exists (parent_directory canonical);
      if negb parent_exists then throw FileNotFound else mret canonical.

Definition create_new_current (name data : bytes) : kst bytes :=
  resolved ← validate_create_new_current name;
  se ← session_of;
  let id := current_uid se in
  let permissions := default_permissions_for resolved id in
  _ ← with_fs (create_new_as now resolved data id permissions false);
  _ ← log_event (FileCreated resolved id);
  mret resolved.

Definition touch_current (name : bytes) : kst bytes :=
  resolved ← resolve_checked name true;
  se ← session_of;
  let id := current_uid se in
  let r := current_role se in
  _ ← with_fs (touch_as now resolved id r (default_permissions_for resolved id));
  mret resolved.

Definition read_current (name : bytes) : kst (bytes * bytes) :=
  resolved ← resolve_checked name false;
  se ← session_of;
  data ← reading_fs (fun f => read_as f resolved (current_uid se) (current_role se));
  mret (resolved, data).

Definition delete_current (name : bytes) : kst bytes :=
  resolved ← resolve_checked name true;
  se ← session_of;
  let id := current_uid se in
  _ ← with_fs (delete_as resolved id (current_role se));
  _ ← log_event (FileDeleted resolved id);
  mret resolved.

Definition stat_current (name : bytes) : kst FileEntry :=
  resolved ← resolve_checked name false;
  se ← session_of;
  reading_fs (fun f => stat_as f resolved (current_uid se) (current_role se)).

Definition chmod_current (name mode : bytes) : kst bytes :=
  resolved ← resolve_checked name true;
  se ← session_of;
  _ ← with_fs (chmod_as resolved (current_uid se) (current_role se) mode);
  mret resolved.

(** [path.map(resolve_path).unwrap_or_else(default)]. *)
Definition directory_argument (path : option bytes) (default_dir : option Session -> bytes) : kst bytes :=
  fun k => (Ok (match path with
                | Some p => resolve_path (CURRENT_SESSION k) p
                | None => default_dir (CURRENT_SESSION k)
                end), k).

Definition check_access (path : bytes) (write : bool) : kst () :=
  fun k => if negb (can_access_path (CURRENT_SESSION k) (USER_DB k) path write)
           then (Err PermissionDenied, k) else (Ok (), k).

Definition list_current (path : option bytes) : kst (bytes * list FileEntry) :=
  directory ← directory_argument path current_home;
  _ ← check_access directory false;
  se ← session_of;
  entries ← reading_fs (fun f => list_dir_as f directory (current_uid se) (current_role se));
  mret (directory, entries).

(** One turn of the loop of [list_entries_current]: the entries so far and the
    directories already listed. *)
Definition list_entry_step (directory : bytes) (id : Z) (r : UserRole)
    (st : list DirEntryView * list bytes) (entry : FileEntry) : list DirEntryView * list bytes :=
  let '(entries, seen_directories) := st in
  if negb (can_read (fe_permissions entry) id r) then st
  else match relative_child_path directory (fe_name entry) with
  | None => st
  | Some relative =>
      if bool_decide (relative = []) then st
      else match split_on slash relative with
      | [] => st
      | first_component :: rest =>
          if bool_decide (first_component = DIRECTORY_MARKER_NAME) then st
          else match rest with
          | _ :: _ =>
              if existsb (fun name => bool_decide (name = first_component)) seen_directories then st
              else
                let child_path := if bool_decide (directory = [slash]) then slash :: first_component
                                  else directory ++ [slash] ++ first_component in
                (entries ++ [mkDirEntry child_path first_component true 0 (fe_modified_at entry) false
                               (fe_owner_uid entry) (fe_permissions entry)],
                 seen_directories ++ [first_component])
          | [] =>
              (entries ++ [mkDirEntry (fe_name entry) first_component false (blen (fe_data entry))
                             (fe_modified_at entry) (fe_readonly entry) (fe_owner_uid entry)
                             (fe_permissions entry)],
               seen_directories)
          end
      end
  end.

Definition list_entries_current (path : option bytes) : kst (bytes * list DirEntryView) :=
  directory ← directory_argument path current_cwd;
  _ ← check_access directory false;
  there ← directory_exists directory;
  if negb there then throw FileNotFound
  else
    se ← session_of;
    fs_list ← list_files;
    let entries := (fold_left (list_entry_step directory (current_uid se) (current_role se))
                      fs_list ([], [])).1 in
    mret (directory, sort_by (fun left right => bytes_leb (dv_name left) (dv_name right)) entries).

Definition change_directory (path : bytes) : kst bytes :=
  resolved ← resolve_checked path false;
  there ← directory_exists resolved;
  if negb there then throw FileNotFound
  else fun k => (Ok resolved, mkKernel (set_cwd (CURRENT_SESSION k) resolved) (USER_DB k)
                                       (FILESYSTEM k) (LOGGER k)).

Definition mkdir_current (path : bytes) : kst bytes :=
  resolved ← resolve_checked path true;
  parent_exists ← directory_exists (parent_directory resolved);
  if negb parent_exists then throw FileNotFound
  else
    se ← session_of;
    let id := current_uid se in
    _ ← with_fs (write_as now (directory_marker_path resolved) [] id (current_role se)
                   (default_permissions_for resolved id));
    mret resolved.

Definition rmdir_current (path : bytes) : kst bytes :=
  resolved ← resolve_checked path true;
  let marker := directory_marker_path resolved in
  fs_list ← list_files;
  if existsb (fun e => starts_with (fe_name e) (resolved ++ [slash])
                       && negb (bool_decide (fe_name e = marker))) fs_list
  then throw ReadOnly
  else
    se ← session_of;
    _ ← with_fs (delete_as marker (current_uid se) (current_role se));
    mret resolved.

Definition copy_current (source destination : bytes) : kst bytes :=
  '(_, data) ← read_current source;
  write_current destination data.

Definition move_current (source destination : bytes) : kst bytes :=
  '(_, data) ← read_current source;
  path ← write_current destination data;
  _ ← delete_current source;
  mret path.

Definition find_current (pattern : bytes) : kst (list bytes) :=
  let query := trim pattern in
  if bool_decide (query = []) then throw InvalidFilename
  else
    fs_list ← list_files;
    mret (map fe_name
            (List.filter (fun e => contains (fe_name e) query || contains (basename (fe_name e)) query)
               (List.filter (fun e => negb (is_directory_marker (fe_name e))) fs_list))).

(** [core::str::from_utf8(&data).map_err(|_| InvalidFilename)] *)
Definition text_of (data : bytes) : kst bytes :=
  if utf8_valid data then mret data else throw InvalidFilename.

Definition grep_current (pattern path : bytes) : kst (list GrepMatch) :=
  '(_, data) ← read_current path;
  text ← text_of data;
  mret (map (fun il => mkGrepMatch (Z.of_nat il.1 + 1) il.2)
          (List.filter (fun il => contains il.2 pattern) (imap pair (lines text)))).

Definition head_current (path : bytes) (n : nat) : kst (list bytes) :=
  '(_, data) ← read_current path;
  text ← text_of data;
  mret (take n (lines text)).

Definition tail_current (path : bytes) (n : nat) : kst (list bytes) :=
  '(_, data) ← read_current path;
  text ← text_of data;
  let collected := lines text in
  let keep := Nat.min n (length collected) in
  mret (drop (length collected - keep) collected).

Definition wc_current (path : bytes) : kst WordCount :=
  '(_, data) ← read_current path;
  text ← text_of data;
  mret (mkWordCount (blen (lines text)) (blen (split_whitespace text)) (blen data)).

(** One turn of the loop of [diff_current]. *)
Definition diff_line (left right : option bytes) : list bytes :=
  match left, right with
  | Some l, Some r => if bool_decide (l = r) then [] else [str "- " ++ l; str "+ " ++ r]
  | Some l, None => [str "- " ++ l]
  | None, Some r => [str "+ " ++ r]
  | None, None => []
  end.

Definition diff_lines (left_lines right_lines : list bytes) : list bytes :=
  concat (map (fun i => diff_line (left_lines !! i) (right_lines !! i))
              (seq 0 (Nat.max (length left_lines) (length right_lines)))).

Definition diff_current (left right : bytes) : kst (list bytes) :=
  '(_, left_data) ← read_current left;
  '(_, right_data) ← read_current right;
  left_text ← text_of left_data;
  right_text ← text_of right_data;
  mret (diff_lines (lines left_text) (lines right_text)).

Definition sort_current (path : bytes) : kst (list bytes) :=
  '(_, data) ← read_current path;
  text ← text_of data;
  mret (sort_by bytes_leb (lines text)).

Definition display_path (CURRENT_SESSION : option Session) (path : bytes) : bytes :=
  let home := current_home CURRENT_SESSION in
  if negb (bool_decide (home = [slash])) && bool_decide (path = home) then str "~"
  else if negb (bool_decide (home = [slash])) && starts_with path (home ++ [slash])
  then str "~" ++ drop (length home) path
  else path.

(** Seeding at boot: [seed_system_path] and [clear_seed_output]. *)
Definition seed_system_path (path data : bytes) (readonly : bool) : stm (FsWorld S) FsError () :=
  seed_system now path data readonly.
Definition clear_seed_output (path : bytes) : stm (FsWorld S) FsError () :=
  fun w => match delete_file path w with
           | (Err FileNotFound, w') => (Ok (), w')
           | rw => rw
           end.
End current.

Definition PIT_FREQUENCY_HZ : Z := 100.
Definition format_timestamp (ticks : Z) : bytes :=
  let hz := Z.max PIT_FREQUENCY_HZ 1 in
  let seconds := ticks / hz in
  str "boot+" ++ decimal_02 (seconds / 3600) ++ str ":" ++ decimal_02 (seconds mod 3600 / 60)
  ++ str ":" ++ decimal_02 (seconds mod 60).

Definition owner_label : UserDB -> bytes -> option (Z * bytes) := protected_path_owner.

(** ** What an operation of a session can do to the file system

    [acts_for u m]: whatever the state, when the user of the session is [u],
    the effect of [m] on the file system is that of a sequence of [WarFS]
    operations performed for [u], and the user of the session stays [u]. *)

Section acting.
Context {S : Type} `{Backend S}.
Context (now now_log : Z).

Definition user_uid (u : option UserAccount) : Z := match u with Some x => uid x | None => 0 end.
Definition user_role (u : option UserAccount) : UserRole := match u with Some x => role x | None => Admin end.

Definition performed_by (u : option UserAccount) (op : fs_op) : Prop :=
  match op with
  | FsWrite _ _ _ id r _ _ | FsDelete _ id r | FsChmod _ id r _ => id = user_uid u /\ r = user_role u
  | FsCreate _ _ _ owner _ _ => owner = user_uid u
  | FsSeed _ _ _ _ | FsLoad _ _ _ _ _ _ _ => False
  end.

Definition acts_for {A} (u : option UserAccount) (m : stm (Kernel S) FsError A) : Prop :=
  forall k, current_user (CURRENT_SESSION k) = u ->
    exists ops, Forall (performed_by u) ops /\
      FILESYSTEM (m k).2 = (run_trace ops (FILESYSTEM k)).2 /\
      current_user (CURRENT_SESSION (m k).2) = u.

Lemma run_trace_app ops ops' (w : FsWorld S) :
  (run_trace (ops ++ ops') w).2 = (run_trace ops' (run_trace ops w).2).2.
Proof.
  revert w. induction ops as [|op ops IH]; intros w; simpl; [done|].
  destruct (run_fs_op op w) as [r w1]. specialize (IH w1).
  destruct (run_trace (ops ++ ops') w1), (run_trace ops w1). done.
Qed.

Lemma acts_bind {A B} u (m : stm (Kernel S) FsError A) (f : A -> stm (Kernel S) FsError B) :
  acts_for u m -> (forall a, acts_for u (f a)) -> acts_for u (m ≫= f).
Proof.
  intros Hm Hf k Hk. destruct (Hm k Hk) as (ops & H1 & H2 & H3). unfold mbind, stm_bind.
  destruct (m k) as [[a|e] k1]; simpl in *; [|eauto].
  destruct (Hf a k1 H3) as (ops' & H1' & H2' & H3'). exists (ops ++ ops').
  rewrite run_trace_app, <- H2. split_and!; try done. by apply Forall_app.
Qed.

(** Computations that leave the file system and the session's user alone. *)
Lemma acts_pure {A} u (m : stm (Kernel S) FsError A) :
  (forall k, FILESYSTEM (m k).2 = FILESYSTEM k /\
             current_user (CURRENT_SESSION (m k).2) = current_user (CURRENT_SESSION k)) ->
  acts_for u m.
Proof. intros Hm k Hk. destruct (Hm k) as [H1 H2]. exists []. split_and!; [constructor|done|congruence]. Qed.

Lemma acts_session {A} u (f : option Session -> stm (Kernel S) FsError A) :
  (forall se, current_user se = u -> acts_for u (f se)) -> acts_for u (session_of ≫= f).
Proof. intros Hf k Hk. apply (Hf (CURRENT_SESSION k) Hk k Hk). Qed.

Lemma acts_op u op :
  performed_by u op -> acts_for u (with_fs (run_fs_op op)).
Proof.
  intros Hp k Hk. exists [op]. unfold with_fs. simpl. destruct (run_fs_op op (FILESYSTEM k)) as [r w]. simpl.
  split_and!; [by repeat constructor|done|done].
Qed.

Lemma current_uid_user se u : current_user se = u -> current_uid se = user_uid u.
Proof. intros <-. by destruct se. Qed.
Lemma current_role_user se u : current_user se = u -> current_role se = user_role u.
Proof. intros <-. by destruct se. Qed.

Ltac acts_step :=
  match goal with
  | |- acts_for _ (session_of ≫= _) => apply acts_session; intros ?se ?Hse
  | |- acts_for _ (_ ≫= _) => apply acts_bind; [|intros ?x]
  | |- acts_for _ (with_fs (write_as ?n ?p ?d ?id ?r ?pm)) =>
      apply (acts_op _ (FsWrite n p d id r pm false)); simpl; eauto using current_uid_user, current_role_user
  | |- acts_for _ (with_fs (write_owned_as ?n ?p ?d ?id ?r ?pm)) =>
      apply (acts_op _ (FsWrite n p d id r pm false)); simpl; eauto using current_uid_user, current_role_user
  | |- acts_for _ (with_fs (touch_as ?n ?p ?id ?r ?pm)) =>
      apply (acts_op _ (FsWrite n p [] id r pm false)); simpl; eauto using current_uid_user, current_role_user
  | |- acts_for _ (with_fs (delete_as ?p ?id ?r)) =>
      apply (acts_op _ (FsDelete p id r)); simpl; eauto using current_uid_user, current_role_user
  | |- acts_for _ (with_fs (chmod_as ?p ?id ?r ?md)) =>
      apply (acts_op _ (FsChmod p id r md)); simpl; eauto using current_uid_user, current_role_user
  | |- acts_for _ (with_fs (create_new_as ?n ?p ?d ?o ?pm ?ro)) =>
      apply (acts_op _ (FsCreate n p d o pm ro)); simpl; eauto using current_uid_user, current_role_user
  | |- acts_for _ (match ?x with _ => _ end) => destruct x
  | |- acts_for _ _ =>
      apply acts_pure; intros ?k; unfold resolve_checked, reading_fs, log_event, directory_exists,
        check_access, text_of, list_files, directory_argument, gets, throw, lift_result, mret, stm_ret;
      repeat case_match; by simplify_eq/=
  end.
Ltac acts := repeat acts_step.

Lemma acts_write u name data : acts_for u (write_current now now_log name data).
Proof. unfold write_current. acts. Qed.
Lemma acts_write_owned u name data : acts_for u (write_current_owned now now_log name data).
Proof. unfold write_current_owned. acts. Qed.
Lemma acts_read u name : acts_for u (read_current name).
Proof. unfold read_current. acts. Qed.
Lemma acts_delete u name : acts_for u (delete_current now_log name).
Proof. unfold delete_current. acts. Qed.
Lemma acts_create u name data : acts_for u (create_new_current now now_log name data).
Proof. unfold create_new_current, validate_create_new_current. acts. Qed.
Lemma acts_touch u name : acts_for u (touch_current now name).
Proof. unfold touch_current. acts. Qed.
Lemma acts_chmod u name mode : acts_for u (chmod_current name mode).
Proof. unfold chmod_current. acts. Qed.
Lemma acts_mkdir u path : acts_for u (mkdir_current now path).
Proof. unfold mkdir_current. acts. Qed.
Lemma acts_rmdir u path : acts_for u (rmdir_current path).
Proof. unfold rmdir_current. acts. Qed.

Lemma acts_copy u src dst : acts_for u (copy_current now now_log src dst).
Proof.
  unfold copy_current. apply acts_bind; [apply acts_read|]. intros [_ data]. apply acts_write.
Qed.
Lemma acts_move u src dst : acts_for u (move_current now now_log src dst).
Proof.
  unfold move_current. apply acts_bind; [apply acts_read|]. intros [_ data].
  apply acts_bind; [apply acts_write|]. intros path. apply acts_bind; [apply acts_delete|]. intros ?. acts.
Qed.
Lemma acts_cd u path : acts_for u (change_directory path).
Proof.
  unfold change_directory. do 2 (apply acts_bind; [acts|intros ?]). case_match; [acts|].
  apply acts_pure. intros k. simpl. by destruct (CURRENT_SESSION k).
Qed.

(** ** Sequences of commands of one session *)

Inductive shell_op : Type :=
| ShWrite (name data : bytes)
| ShCreate (name data : bytes)
| ShTouch (name : bytes)
| ShDelete (name : bytes)
| ShChmod (name mode : bytes)
| ShMkdir (path : bytes)
| ShRmdir (path : bytes)
| ShCopy (source destination : bytes)
| ShMove (source destination : bytes)
| ShCd (path : bytes).

Definition run_shell_op (op : shell_op) (k : Kernel S) : Kernel S :=
  match op with
  | ShWrite name data => (write_current now now_log name data k).2
  | ShCreate name data => (create_new_current now now_log name data k).2
  | ShTouch name => (touch_current now name k).2
  | ShDelete name => (delete_current now_log name k).2
  | ShChmod name mode => (chmod_current name mode k).2
  | ShMkdir path => (mkdir_current now path k).2
  | ShRmdir path => (rmdir_current path k).2
  | ShCopy source destination => (copy_current now now_log source destination k).2
  | ShMove source destination => (move_current now now_log source destination k).2
  | ShCd path => (change_directory path k).2
  end.
Definition run_shell (ops : list shell_op) (k : Kernel S) : Kernel S :=
  fold_left (fun k op => run_shell_op op k) ops k.

Lemma run_shell_op_acts op k u :
  current_user (CURRENT_SESSION k) = u ->
  exists ops, Forall (performed_by u) ops /\
    FILESYSTEM (run_shell_op op k) = (run_trace ops (FILESYSTEM k)).2 /\
    current_user (CURRENT_SESSION (run_shell_op op k)) = u.
Proof.
  intros Hu. destruct op; simpl;
    [apply (acts_write u)|apply (acts_create u)|apply (acts_touch u)|apply (acts_delete u)|apply (acts_chmod u)
    |apply (acts_mkdir u)|apply (acts_rmdir u)|apply (acts_copy u)|apply (acts_move u)|apply (acts_cd u)]; done.
Qed.

Lemma run_shell_acts ops k u :
  current_user (CURRENT_SESSION k) = u ->
  exists fops, Forall (performed_by u) fops /\
    FILESYSTEM (run_shell ops k) = (run_trace fops (FILESYSTEM k)).2.
Proof.
  unfold run_shell. revert k. induction ops as [|op ops IH]; intros k Hu; simpl; [by exists []|].
  destruct (run_shell_op_acts op k u Hu) as (f1 & H1 & H2 & H3).
  destruct (IH _ H3) as (f2 & H4 & H5). exists (f1 ++ f2).
  rewrite run_trace_app, <- H2. split; [by apply Forall_app|done].
Qed.

(** C14: in a session of a user who is not an administrator, no sequence of file
    commands, whatever the paths and the working directory, changes or removes
    a file that the user neither owns nor may write. *)
Theorem session_respects_permissions ops (k : Kernel S) u c e :
  fs_ok (fs (FILESYSTEM k)) -> current_user (CURRENT_SESSION k) = Some u -> role u <> Admin ->
  find (fs (FILESYSTEM k)) c = Some e -> fe_owner_uid e <> uid u ->
  can_write (fe_permissions e) (uid u) (role u) = false ->
  find (fs (FILESYSTEM (run_shell ops k))) c = Some e.
Proof.
  intros Hok Hu Hr Hf Ho Hw. destruct (run_shell_acts ops k _ Hu) as (fops & Hops & ->).
  apply (trace_keeps (performed_by (Some u))); try done. intros op m Hp Hm.
  apply (spec_op_unauthorised op m c e (uid u) (role u)); try done.
  destruct op; simpl in Hp; try done; [left|left|left|by right]; destruct Hp as [-> ->]; done.
Qed.

(** In any session, the administrator's included, no sequence of file
    commands changes or removes a file marked read-only. *)
Theorem session_keeps_readonly ops (k : Kernel S) c e :
  fs_ok (fs (FILESYSTEM k)) -> find (fs (FILESYSTEM k)) c = Some e -> fe_readonly e = true ->
  find (fs (FILESYSTEM (run_shell ops k))) c = Some e.
Proof.
  intros Hok Hf Hro. destruct (run_shell_acts ops k _ eq_refl) as (fops & Hops & ->).
  apply (trace_keeps (performed_by (current_user (CURRENT_SESSION k)))); try done. intros op m Hp Hm.
  apply spec_op_readonly; [|done|done]. by destruct op.
Qed.
End acting.

(** ** Paths of a session *)

Lemma canonical_slash c : canonical c -> exists s, c = slash :: s.
Proof. intros (comps & _ & -> & _). apply render_cons_slash. Qed.

Lemma canonical_trim c : canonical c -> trim c = c.
Proof. intros (comps & Hv & -> & _). by apply trim_render. Qed.

Lemma resolve_absolute se s :
  trim (slash :: s) = slash :: s -> resolve_path se (slash :: s) = slash :: s.
Proof.
  intros Ht. unfold resolve_path. rewrite Ht. cbn zeta. rewrite bool_decide_false by done.
  destruct se as [se|]; [|done]. by rewrite !bool_decide_false by done.
Qed.

Lemma resolve_canonical se c : canonical c -> resolve_path se c = c.
Proof.
  intros Hc. destruct (canonical_slash c Hc) as [s ->]. apply resolve_absolute. by apply canonical_trim.
Qed.

Lemma double_slash_trim c : canonical c -> trim (slash :: c) = slash :: c.
Proof.
  intros (comps & Hv & -> & _). destruct (render_last comps Hv) as (b & Hl & Hb & _).
  apply (trim_id _ _ b); [by apply component_byte_not_space; right|by apply component_byte_not_space|].
  destruct (render comps); [done|]. by rewrite last_cons_cons.
Qed.

Lemma double_slash_canonical c : canonical c -> canonical_path (slash :: c) = Ok c.
Proof.
  intros Hc. apply canonical_path_Ok. rewrite double_slash_trim by done. split; [done|].
  pose proof (canonical_path_id c Hc) as Hid. apply canonical_path_Ok in Hid as (_ & Hv & He & Hlen).
  rewrite canonical_trim in Hv, He by done. simpl. done.
Qed.

(** The protection of home directories can be bypassed by spelling: put a
    second slash in front of any canonical path, and every session passes the
    access check for it, though the file system goes on to operate on the
    same file. *)
Theorem protection_bypass se db c write :
  canonical c ->
  resolve_path se (slash :: c) = slash :: c /\
  can_access_path se db (slash :: c) write = true /\ canonical_path (slash :: c) = Ok c.
Proof.
  intros Hc. pose proof (double_slash_trim c Hc) as Ht. split_and!.
  - by apply resolve_absolute.
  - unfold can_access_path. destruct (current_user se) as [u|]; [|done]. case_bool_decide; [done|].
    rewrite Ht. unfold protected_path_owner. destruct (canonical_slash c Hc) as [s ->].
    by rewrite bool_decide_false by done.
  - by apply double_slash_canonical.
Qed.

Definition ana : UserAccount := mkUser 1000 (str "ana") [] [] User (str "/home/ana") true 0 0.
Definition bob : UserAccount := mkUser 1001 (str "bob") [] [] User (str "/home/bob") true 0 0.
Definition two_users : UserDB := mkUserDB [ana; bob] 1002.

(** The spelling decides: [ana] may not enter [bob]'s home, but may. *)
Lemma protection_bypass_witness :
  can_access_path (start 0 ana) two_users (str "/home/bob/diary") true = false /\
  can_access_path (start 0 ana) two_users (str "//home/bob/diary") true = true /\
  canonical_path (str "//home/bob/diary") = Ok (str "/home/bob/diary").
Proof.
  split; [reflexivity|].
  apply (protection_bypass (start 0 ana) two_users (str "/home/bob/diary") true).
  apply canonical_iff. vm_compute. reflexivity.
Defined.

(** ** Homes are protected from canonical paths *)

(** Spelled canonically, a path in another user's home (or in [/root]) is
    out of reach: every command on it is refused and nothing changes. *)
Theorem canonical_home_protected {S : Type} `{Backend S} now now_log (k : Kernel S) u c o n data mode :
  canonical c -> current_user (CURRENT_SESSION k) = Some u -> role u <> Admin ->
  protected_path_owner (USER_DB k) c = Some (o, n) -> o <> uid u ->
  write_current now now_log c data k = (Err PermissionDenied, k) /\
  create_new_current now now_log c data k = (Err PermissionDenied, k) /\
  touch_current now c k = (Err PermissionDenied, k) /\
  read_current c k = (Err PermissionDenied, k) /\
  delete_current now_log c k = (Err PermissionDenied, k) /\
  chmod_current c mode k = (Err PermissionDenied, k) /\
  stat_current c k = (Err PermissionDenied, k).
Proof.
  intros Hc Hu Hr Hp Ho.
  assert (forall w, resolve_checked c w k = (Err PermissionDenied, k)) as Hres.
  { intros w. unfold resolve_checked. rewrite resolve_canonical by done. unfold can_access_path.
    rewrite Hu, bool_decide_false, canonical_trim, Hp by done. by rewrite (proj2 (Z.eqb_neq _ _) Ho). }
  unfold write_current, create_new_current, validate_create_new_current, touch_current, read_current,
    delete_current, chmod_current, stat_current, mbind, stm_bind.
  by rewrite !Hres.
Qed.

Definition sample_kernel : Kernel () := mkKernel (start 0 ana) two_users sample logger_new.

Lemma canonical_home_protected_witness :
  read_current (str "/home/bob/diary") sample_kernel = (Err PermissionDenied, sample_kernel).
Proof.
  apply (canonical_home_protected 1 1 sample_kernel ana (str "/home/bob/diary") 1001 (str "bob") [] []);
    [|reflexivity|discriminate|reflexivity|discriminate].
  apply canonical_iff. vm_compute. reflexivity.
Defined.

Lemma session_respects_permissions_witness :
  find (fs (FILESYSTEM (run_shell 8 8 [ShDelete (str "//home/ana/notes.txt"); ShMove (str "/home/ana/notes.txt") (str "x")]
     (mkKernel (start 0 bob) two_users sample logger_new)))) notes =
  Some (mkEntry notes (str "hello") 5 5 false 1000 (perm_private 1000)).
Proof.
  apply (session_respects_permissions 8 8 _ (mkKernel (start 0 bob) two_users sample logger_new) bob);
    [exact sample_ok|reflexivity|discriminate|vm_compute; reflexivity|discriminate|reflexivity].
Defined.

Lemma session_keeps_readonly_witness :
  find (fs (FILESYSTEM (run_shell 8 8 [ShDelete (str "/etc/motd")]
     (mkKernel (start_recovery 0) two_users sample logger_new)))) (str "/etc/motd") =
  Some (mkEntry (str "/etc/motd") (str "welcome") 6 6 true 0 perm_system).
Proof.
  apply (session_keeps_readonly 8 8 _ (mkKernel (start_recovery 0) two_users sample logger_new));
    [exact sample_ok|vm_compute; reflexivity|reflexivity].
Defined.

(** ** Moving, logging, comparing *)

Section commands.
Context {S : Type} `{Backend S}.
Context (now now_log : Z).

(** Writing back to a file the user may write. *)
Lemma rewrite_file (w : FsWorld S) c e id r p data :
  fs_ok (fs w) -> find (fs w) c = Some e -> fe_readonly e = false -> can_write (fe_permissions e) id r = true ->
  blen data <= blen (fe_data e) ->
  exists w', write_as now c data id r p w = (Ok (), w') /\ fs_ok (fs w') /\
    find (fs w') c = Some (mkEntry c data (fe_created_at e) now false (fe_owner_uid e) (fe_permissions e)).
Proof.
  intros Hok Hf Hro Hw Hle. destruct (entry_name_ok _ _ _ Hok Hf) as [Hin Hn].
  pose proof (fo_names _ Hok) as Hnames. rewrite Forall_forall in Hnames. destruct (Hnames e Hin) as [Hc Hroot].
  pose proof (fo_sizes _ Hok) as Hsizes. rewrite Forall_forall in Hsizes. pose proof (Hsizes e Hin) as Hsz.
  rewrite Hn in Hc, Hroot.
  pose proof (op_refines (FsWrite now c data id r p false) w Hok) as (Hres & Habs & Hok').
  assert (spec_op (FsWrite now c data id r p false) (abs (fs w)) =
    (Ok (), <[c := mkEntry c data (fe_created_at e) now false (fe_owner_uid e) (fe_permissions e)]> (abs (fs w))))
    as Hspec.
  { unfold spec_op, spec_store. rewrite canonical_path_id, bool_decide_false by done.
    rewrite abs_lookup, Hf, Hro, Hw, Hn. cbn [negb].
    pose proof (fo_total _ Hok) as Ht. rewrite <- map_used_abs in Ht by done.
    rewrite <- (insert_id (abs (fs w)) c e) in Ht by (by rewrite abs_lookup). rewrite map_used_insert in Ht.
    destruct (blen data >? MAX_FILE_SIZE) eqn:E1; [lia|].
    destruct (_ >? TOTAL_CAPACITY) eqn:E2; [lia|done]. }
  rewrite Hspec in Hres, Habs. simpl in Hres, Habs, Hok'.
  change (write_as now c data id r p w) with (write_internal_owned now c data id r p false w).
  destruct (write_internal_owned now c data id r p false w) as [r1 w'] eqn:Ew. simpl in *. subst r1.
  exists w'. split_and!; [done|done|]. by rewrite <- abs_lookup, Habs, lookup_insert_eq.
Qed.

Lemma delete_owned (w : FsWorld S) c e id r :
  fs_ok (fs w) -> find (fs w) c = Some e -> fe_readonly e = false -> (r = Admin \/ fe_owner_uid e = id) ->
  exists w', delete_as c id r w = (Ok (), w') /\ find (fs w') c = None.
Proof.
  intros Hok Hf Hro Hacc. destruct (entry_name_ok _ _ _ Hok Hf) as [Hin Hn].
  pose proof (fo_names _ Hok) as Hnames. rewrite Forall_forall in Hnames. destruct (Hnames e Hin) as [Hc _].
  rewrite Hn in Hc.
  pose proof (op_refines (FsDelete c id r) w Hok) as (Hres & Habs & _).
  assert (spec_op (FsDelete c id r) (abs (fs w)) = (Ok (), delete c (abs (fs w)))) as Hspec.
  { unfold spec_op. rewrite canonical_path_id, abs_lookup, Hf by done. unfold owner_access. rewrite Hro.
    destruct Hacc as [->| ->]; [by rewrite bool_decide_false by tauto|by rewrite Z.eqb_refl, andb_false_r]. }
  rewrite Hspec in Hres, Habs. simpl in Hres, Habs.
  destruct (delete_as c id r w) as [r1 w'] eqn:Ed. simpl in *. subst r1.
  exists w'. split; [done|]. by rewrite <- abs_lookup, Habs, lookup_delete_eq.
Qed.

(** Moving a file onto itself destroys it: the owner of a file they may
    read and write asks to move it to its own path, the command reports
    success, and the file is gone. *)
Theorem move_onto_itself_deletes (k : Kernel S) u c e :
  fs_ok (fs (FILESYSTEM k)) -> current_user (CURRENT_SESSION k) = Some u ->
  can_access_path (CURRENT_SESSION k) (USER_DB k) c true = true ->
  find (fs (FILESYSTEM k)) c = Some e -> fe_readonly e = false -> fe_owner_uid e = uid u ->
  can_read (fe_permissions e) (uid u) (role u) = true -> can_write (fe_permissions e) (uid u) (role u) = true ->
  exists k', move_current now now_log c c k = (Ok c, k') /\ find (fs (FILESYSTEM k')) c = None.
Proof.
  intros Hok Hu Hacc Hf Hro Ho Hr Hw. destruct (entry_name_ok _ _ _ Hok Hf) as [Hin Hn].
  pose proof (fo_names _ Hok) as Hnames. rewrite Forall_forall in Hnames. destruct (Hnames e Hin) as [Hc _].
  rewrite Hn in Hc. destruct k as [se db w lg]. cbn [CURRENT_SESSION USER_DB FILESYSTEM LOGGER] in *.
  pose proof (current_uid_user _ _ Hu) as Huid. pose proof (current_role_user _ _ Hu) as Hrole. simpl in Huid, Hrole.
  assert (forall wr, can_access_path se db c wr = true) as Hacc' by done.
  destruct (rewrite_file w c e (uid u) (role u) (default_permissions_for c (uid u)) (fe_data e)) as (w1 & E1 & Hok1 & Hf1);
    try done.
  destruct (delete_owned w1 c _ (uid u) (role u) Hok1 Hf1) as (w2 & E2 & Hf2); [done|by right|].
  unfold move_current, read_current, write_current, delete_current, resolve_checked, session_of, with_fs,
    reading_fs, log_event, gets, mbind, stm_bind, mret, stm_ret.
  cbn [CURRENT_SESSION USER_DB FILESYSTEM LOGGER fst snd].
  rewrite resolve_canonical, !Hacc' by done. cbn [negb CURRENT_SESSION USER_DB FILESYSTEM LOGGER].
  rewrite Huid, Hrole. unfold read_as. rewrite canonical_path_id by done. cbn [mbind result_bind].
  rewrite Hf. cbn [ok_or mbind result_bind]. rewrite Hr. cbn [negb]. rewrite resolve_canonical, !Hacc' by done.
  cbn [negb CURRENT_SESSION USER_DB FILESYSTEM LOGGER]. rewrite Huid, Hrole, E1.
  cbn [CURRENT_SESSION USER_DB FILESYSTEM LOGGER]. rewrite resolve_canonical, !Hacc' by done.
  cbn [negb CURRENT_SESSION USER_DB FILESYSTEM LOGGER]. rewrite Huid, Hrole, E2.
  eexists. split; [reflexivity|done].
Qed.

(** Writing, creating and deleting are accountable: each success appends
    exactly one event to the audit log, naming the path and the session's
    user, and each failure appends none. *)
Theorem changes_are_logged (k : Kernel S) name data :
  let id := current_uid (CURRENT_SESSION k) in
  (match write_current now now_log name data k with
   | (Ok p, k') => LOGGER k' = log now_log (FileCreated p id) (LOGGER k) \/
                   LOGGER k' = log now_log (FileModified p id) (LOGGER k)
   | (Err _, k') => LOGGER k' = LOGGER k
   end) /\
  (match create_new_current now now_log name data k with
   | (Ok p, k') => LOGGER k' = log now_log (FileCreated p id) (LOGGER k)
   | (Err _, k') => LOGGER k' = LOGGER k
   end) /\
  (match delete_current now_log name k with
   | (Ok p, k') => LOGGER k' = log now_log (FileDeleted p id) (LOGGER k)
   | (Err _, k') => LOGGER k' = LOGGER k
   end).
Proof.
  unfold write_current, create_new_current, validate_create_new_current, delete_current, resolve_checked,
    session_of, with_fs, reading_fs, log_event, directory_exists, lift_result, throw, gets, mbind, stm_bind, mret, stm_ret.
  split_and!; repeat match goal with
    | |- context [if ?b then _ else _] => destruct b; cbn [negb fst snd LOGGER CURRENT_SESSION USER_DB FILESYSTEM]
    | |- context [match ?m ?w with (_, _) => _ end] => destruct (m w) as [[?|?] ?];
        cbn [fst snd LOGGER CURRENT_SESSION USER_DB FILESYSTEM]
    | |- context [match canonical_path ?p with _ => _ end] => destruct (canonical_path p)
    end; auto.
Qed.

Lemma diff_line_nil a b : diff_line a b = [] <-> a = b.
Proof.
  destruct a as [a|], b as [b|]; simpl; try done. case_bool_decide; [naive_solver|]. split; [done|congruence].
Qed.

Lemma concat_nil {A} (ls : list (list A)) : concat ls = [] <-> Forall (fun l => l = []) ls.
Proof.
  induction ls as [|l ls IH]; simpl; [split; [constructor|done]|].
  rewrite app_nil, IH. by rewrite Forall_cons.
Qed.

(** The comparison of two files reports no difference exactly when they
    have the same lines. *)
Theorem diff_lines_empty (left right : list bytes) : diff_lines left right = [] <-> left = right.
Proof.
  unfold diff_lines. rewrite concat_nil, Forall_forall. split.
  - intros Hd. apply list_eq. intros i.
    destruct (decide (i < Nat.max (length left) (length right))%nat) as [Hi|Hi].
    + apply diff_line_nil. apply Hd. apply list_elem_of_fmap. exists i. split; [done|].
      apply elem_of_seq. lia.
    + rewrite !lookup_ge_None_2; [done|lia|lia].
  - intros -> l (i & -> & _)%list_elem_of_fmap. by apply diff_line_nil.
Qed.
End commands.

Lemma move_onto_itself_deletes_witness :
  exists k', move_current 9 9 notes notes sample_kernel = (Ok notes, k') /\ find (fs (FILESYSTEM k')) notes = None.
Proof.
  apply (move_onto_itself_deletes 9 9 sample_kernel ana notes
    (mkEntry notes (str "hello") 5 5 false 1000 (perm_private 1000)));
    [exact sample_ok|reflexivity|reflexivity|vm_compute; reflexivity|reflexivity..].
Defined.
