(* ===== verification/Firewall.v ===== *)
(** * The firewall WarGuard (kernel/src/security/firewall)

    Rules matched first to last, a table of outbound connections that lets
    their replies in, counters, and an entry in the audit log per decision. *)
From S2P Require Import Prelude RustStr AuditLog.

(** ** Rules ([rules.rs]) *)

Inductive Direction : Type := Inbound | Outbound.
Inductive Protocol : Type := Tcp | Udp | Icmp | AnyProtocol.
Inductive Action : Type := Allow | Deny.
#[global] Instance Direction_eq_dec : EqDecision Direction.
Proof. solve_decision. Defined.
#[global] Instance Protocol_eq_dec : EqDecision Protocol.
Proof. solve_decision. Defined.
#[global] Instance Action_eq_dec : EqDecision Action.
Proof. solve_decision. Defined.

Definition direction_label (d : Direction) : bytes :=
  match d with Inbound => str "IN" | Outbound => str "OUT" end.
Definition protocol_label (p : Protocol) : bytes :=
  match p with Tcp => str "TCP" | Udp => str "UDP" | Icmp => str "ICMP" | AnyProtocol => str "ANY" end.
Definition action_label (a : Action) : bytes :=
  match a with Allow => str "ALLOW" | Deny => str "DENY" end.

Record FirewallRule : Type := mkRule {
  ru_id : Z;
  ru_direction : Direction;
  ru_protocol : Protocol;
  ru_port : option Z;
  ru_action : Action;
  ru_description : bytes;
  ru_hit_count : Z;
}.

Definition rule_matches (r : FirewallRule) (direction : Direction) (protocol : Protocol) (port : Z) : bool :=
  if negb (bool_decide (ru_direction r = direction)) then false
  else if negb (bool_decide (ru_protocol r = AnyProtocol)) && negb (bool_decide (ru_protocol r = protocol))
  then false
  else match ru_port r with
       | Some rule_port => rule_port =? port
       | None => true
       end.

Definition default_rules : list FirewallRule :=
  [mkRule 1 Outbound Tcp (Some 443) Allow (str "HTTPS outbound") 0;
   mkRule 2 Outbound Tcp (Some 80) Allow (str "HTTP outbound") 0;
   mkRule 3 Outbound Udp (Some 53) Allow (str "DNS outbound") 0;
   mkRule 4 Outbound Icmp None Allow (str "ICMP outbound (ping)") 0;
   mkRule 5 Outbound AnyProtocol None Allow (str "Allow all outbound") 0;
   mkRule 6 Inbound AnyProtocol None Deny (str "Deny all inbound") 0].

(** ** Connections ([connection_track.rs]) *)

(** Source and destination address, source and destination port, protocol. *)
Record Tuple : Type := mkTuple {
  tu_src_ip : Z;
  tu_dst_ip : Z;
  tu_src_port : Z;
  tu_dst_port : Z;
  tu_protocol : Z;
}.
#[global] Instance Tuple_eq_dec : EqDecision Tuple.
Proof. solve_decision. Defined.

Definition reversed (t : Tuple) : Tuple :=
  mkTuple (tu_dst_ip t) (tu_src_ip t) (tu_dst_port t) (tu_src_port t) (tu_protocol t).

Record TrackedConnection : Type := mkConn {
  tc_tuple : Tuple;
  tc_established_at : Z;
  tc_last_seen : Z;
  tc_packets : Z;
}.

Definition CONNECTION_TIMEOUT_TICKS : Z := 30000.
Definition MAX_CONNECTIONS : Z := 1024.

Definition fresh (now : Z) (c : TrackedConnection) : bool :=
  sat_sub now (tc_last_seen c) <? CONNECTION_TIMEOUT_TICKS.

Definition expire (now : Z) (cs : list TrackedConnection) : list TrackedConnection :=
  List.filter (fresh now) cs.

Definition conn_is (t : Tuple) (c : TrackedConnection) : bool := bool_decide (tc_tuple c = t).

(** [now] and [now_expire] are two readings of the tick counter. *)
Definition track_outbound (now now_expire : Z) (t : Tuple) (cs : list TrackedConnection) :
    list TrackedConnection :=
  match find_first (conn_is t) cs with
  | Some _ => update_first (conn_is t)
                (fun c => mkConn (tc_tuple c) (tc_established_at c) now (wrap 64 (tc_packets c + 1))) cs
  | None =>
      let cs := expire now_expire cs in
      let cs := if MAX_CONNECTIONS <=? blen cs then drop 1 cs else cs in
      cs ++ [mkConn t now now 1]
  end.

Definition is_established_response (now : Z) (t : Tuple) (cs : list TrackedConnection) : bool :=
  existsb (fun c => bool_decide (tc_tuple c = reversed t) && fresh now c) cs.

(** ** The firewall ([mod.rs]) *)

Record FirewallStats : Type := mkStats {
  st_allowed : Z; st_denied : Z;
  st_inbound_allowed : Z; st_inbound_denied : Z;
  st_outbound_allowed : Z; st_outbound_denied : Z;
  st_tcp_allowed : Z; st_tcp_denied : Z;
  st_udp_allowed : Z; st_udp_denied : Z;
  st_icmp_allowed : Z; st_icmp_denied : Z;
  st_stateful_allows : Z;
}.

Record WarGuard : Type := mkGuard {
  rules : list FirewallRule;
  tracker : list TrackedConnection;
  enabled : bool;
  default_inbound : Action;
  default_outbound : Action;
  stats : FirewallStats;
  next_rule_id : Z;
}.

Definition warguard_new : WarGuard :=
  mkGuard default_rules [] true Deny Allow (mkStats 0 0 0 0 0 0 0 0 0 0 0 0 0)
          (fold_left Z.max (map ru_id default_rules) 0 + 1).

Definition inc (on : bool) (n : Z) : Z := if on then wrap 64 (n + 1) else n.

Definition record_decision (direction : Direction) (protocol : Protocol) (action : Action)
    (stateful : bool) (s : FirewallStats) : FirewallStats :=
  let a := bool_decide (action = Allow) in
  let d := bool_decide (action = Deny) in
  let i := bool_decide (direction = Inbound) in
  let o := bool_decide (direction = Outbound) in
  let p q := bool_decide (protocol = q) in
  mkStats (inc a (st_allowed s)) (inc d (st_denied s))
    (inc (a && i) (st_inbound_allowed s)) (inc (d && i) (st_inbound_denied s))
    (inc (a && o) (st_outbound_allowed s)) (inc (d && o) (st_outbound_denied s))
    (inc (a && p Tcp) (st_tcp_allowed s)) (inc (d && p Tcp) (st_tcp_denied s))
    (inc (a && p Udp) (st_udp_allowed s)) (inc (d && p Udp) (st_udp_denied s))
    (inc (a && p Icmp) (st_icmp_allowed s)) (inc (d && p Icmp) (st_icmp_denied s))
    (inc (a && stateful) (st_stateful_allows s)).

Definition protocol_number (p : Protocol) : Z :=
  match p with Tcp => 6 | Udp => 17 | Icmp => 1 | AnyProtocol => 0 end.

(** A packet as [process_packet] sees it, and the readings of the tick counter
    while it is processed. *)
Record Packet : Type := mkPacket {
  pk_direction : Direction;
  pk_protocol : Protocol;
  pk_src_ip : Z;
  pk_dst_ip : Z;
  pk_src_port : Z;
  pk_dst_port : Z;
}.
Record Ticks : Type := mkTicks { tk_check : Z; tk_track : Z; tk_expire : Z; tk_log : Z }.

Definition tuple_of (p : Packet) : Tuple :=
  mkTuple (pk_src_ip p) (pk_dst_ip p) (pk_src_port p) (pk_dst_port p) (protocol_number (pk_protocol p)).

Definition log_firewall_decision (t : Ticks) (rule_id : Z) (p : Packet) (action : Action) (reason : bytes)
    (l : AuditLogger) : AuditLogger :=
  log (tk_log t)
    (FirewallMatch rule_id (direction_label (pk_direction p)) (protocol_label (pk_protocol p))
       (action_label action) reason (pk_src_ip p) (pk_dst_ip p) (pk_src_port p) (pk_dst_port p)) l.

Definition set_stats (g : WarGuard) (s : FirewallStats) : WarGuard :=
  mkGuard (rules g) (tracker g) (enabled g) (default_inbound g) (default_outbound g) s (next_rule_id g).
Definition set_tracker (g : WarGuard) (cs : list TrackedConnection) : WarGuard :=
  mkGuard (rules g) cs (enabled g) (default_inbound g) (default_outbound g) (stats g) (next_rule_id g).
Definition set_rules (g : WarGuard) (rs : list FirewallRule) : WarGuard :=
  mkGuard rs (tracker g) (enabled g) (default_inbound g) (default_outbound g) (stats g) (next_rule_id g).

Definition process_packet (t : Ticks) (p : Packet) (g : WarGuard) (l : AuditLogger) :
    Action * WarGuard * AuditLogger :=
  let direction := pk_direction p in
  let protocol := pk_protocol p in
  if negb (enabled g) then (Allow, g, l)
  else if bool_decide (direction = Inbound) && is_established_response (tk_check t) (tuple_of p) (tracker g)
  then (Allow, set_stats g (record_decision direction protocol Allow true (stats g)),
        log_firewall_decision t 0 p Allow (str "stateful-response") l)
  else
    let hit r := rule_matches r direction protocol (pk_dst_port p) in
    match find_first hit (rules g) with
    | Some rule =>
        let g := set_rules g (update_first hit
                   (fun r => mkRule (ru_id r) (ru_direction r) (ru_protocol r) (ru_port r) (ru_action r)
                               (ru_description r) (wrap 64 (ru_hit_count r + 1))) (rules g)) in
        let l := log_firewall_decision t (ru_id rule) p (ru_action rule) (ru_description rule) l in
        match ru_action rule with
        | Allow =>
            let g := set_stats g (record_decision direction protocol Allow false (stats g)) in
            (Allow, if bool_decide (direction = Outbound)
                    then set_tracker g (track_outbound (tk_track t) (tk_expire t) (tuple_of p) (tracker g))
                    else g, l)
        | Deny => (Deny, set_stats g (record_decision direction protocol Deny false (stats g)), l)
        end
    | None =>
        let action := match direction with
                      | Inbound => default_inbound g
                      | Outbound => default_outbound g
                      end in
        (action, set_stats g (record_decision direction protocol action false (stats g)),
         log_firewall_decision t 0 p action (str "default-policy") l)
    end.

Definition add_rule (direction : Direction) (protocol : Protocol) (port : option Z) (action : Action)
    (description : bytes) (g : WarGuard) : Z * WarGuard :=
  let id := next_rule_id g in
  let pos := if (1 <? length (rules g))%nat then (length (rules g) - 1)%nat else length (rules g) in
  (id, mkGuard (take pos (rules g) ++ mkRule id direction protocol port action description 0 :: drop pos (rules g))
         (tracker g) (enabled g) (default_inbound g) (default_outbound g) (stats g) (wrap 32 (id + 1))).

Definition remove_rule (id : Z) (g : WarGuard) : bool * WarGuard :=
  let rs := List.filter (fun r => negb (ru_id r =? id)) (rules g) in
  ((length rs <? length (rules g))%nat, set_rules g rs).

Definition set_enabled (on : bool) (g : WarGuard) : WarGuard :=
  mkGuard (rules g) (tracker g) on (default_inbound g) (default_outbound g) (stats g) (next_rule_id g).

(** *** The public functions, on the global lock *)

Definition api_process_packet (t : Ticks) (p : Packet) (WARGUARD : option WarGuard) (l : AuditLogger) :
    Action * option WarGuard * AuditLogger :=
  match WARGUARD with
  | None => (Allow, None, l)
  | Some g => let '(a, g', l') := process_packet t p g l in (a, Some g', l')
  end.
Definition api_add_rule direction protocol port action description (WARGUARD : option WarGuard) :
    Z * option WarGuard :=
  match WARGUARD with
  | None => (0, None)
  | Some g => let '(id, g') := add_rule direction protocol port action description g in (id, Some g')
  end.
Definition api_remove_rule (id : Z) (WARGUARD : option WarGuard) : bool * option WarGuard :=
  match WARGUARD with
  | None => (false, None)
  | Some g => let '(b, g') := remove_rule id g in (b, Some g')
  end.
Definition is_enabled (WARGUARD : option WarGuard) : bool :=
  match WARGUARD with Some g => enabled g | None => false end.
Definition rule_count (WARGUARD : option WarGuard) : nat :=
  match WARGUARD with Some g => length (rules g) | None => O end.
Definition active_connections (WARGUARD : option WarGuard) : nat :=
  match WARGUARD with Some g => length (tracker g) | None => O end.
Definition api_stats (WARGUARD : option WarGuard) : Z * Z :=
  match WARGUARD with Some g => (st_allowed (stats g), st_denied (stats g)) | None => (0, 0) end.

(** ** Histories *)

Inductive fw_event : Type :=
| FwPacket (t : Ticks) (p : Packet)
| FwAddRule (direction : Direction) (protocol : Protocol) (port : option Z) (action : Action) (description : bytes)
| FwRemoveRule (id : Z)
| FwSetEnabled (on : bool).

Definition fw_step (g : WarGuard) (e : fw_event) : WarGuard :=
  match e with
  | FwPacket t p => (process_packet t p g logger_new).1.2
  | FwAddRule direction protocol port action description =>
      (add_rule direction protocol port action description g).2
  | FwRemoveRule id => (remove_rule id g).2
  | FwSetEnabled on => set_enabled on g
  end.
Definition fw_run (events : list fw_event) : WarGuard := fold_left fw_step events warguard_new.

(** The log does not influence decisions. *)
Lemma process_packet_log t p g l l' :
  (process_packet t p g l).1 = (process_packet t p g l').1.
Proof. unfold process_packet. by repeat case_match. Qed.

(** Every tracked connection has an origin [Q tuple last_seen]; tuples are
    unique; the table is bounded. *)
Record tracker_ok (Q : Tuple -> Z -> Prop) (cs : list TrackedConnection) : Prop := mkTrackerOk {
  to_origin : forall c, c ∈ cs -> Q (tc_tuple c) (tc_last_seen c);
  to_unique : NoDup (map tc_tuple cs);
  to_bound : blen cs <= MAX_CONNECTIONS;
}.

Lemma conn_is_spec t c : conn_is t c = true <-> tc_tuple c = t.
Proof. apply bool_decide_eq_true. Qed.

Lemma tracker_ok_weaken (Q Q' : Tuple -> Z -> Prop) cs :
  (forall u n, Q u n -> Q' u n) -> tracker_ok Q cs -> tracker_ok Q' cs.
Proof. intros HQ [H1 H2 H3]. split; auto. Qed.

(** The table before the new connection is appended. *)
Lemma tracker_make_room Q now cs :
  tracker_ok Q cs ->
  let cs1 := expire now cs in
  let cs2 := if MAX_CONNECTIONS <=? blen cs1 then drop 1 cs1 else cs1 in
  (forall c, c ∈ cs2 -> c ∈ cs) /\ NoDup (map tc_tuple cs2) /\ blen cs2 < MAX_CONNECTIONS.
Proof.
  intros [_ Hn Hb] cs1 cs2.
  assert (forall c, c ∈ cs1 -> c ∈ cs) as H1.
  { intros c (Hc & _)%list_elem_of_In%filter_In. by apply list_elem_of_In. }
  pose proof (length_filter_le (fresh now) cs) as Hle. fold (expire now cs) in Hle. fold cs1 in Hle.
  assert (NoDup (map tc_tuple cs1)) by (by apply NoDup_map_filter).
  subst cs2. destruct (Z.leb_spec MAX_CONNECTIONS (blen cs1)); [|done].
  split_and!.
  - intros c Hc. by eapply H1, elem_of_drop.
  - by apply NoDup_map_drop.
  - unfold blen, MAX_CONNECTIONS in *. rewrite length_drop. lia.
Qed.

Lemma track_outbound_ok (Q : Tuple -> Z -> Prop) now now' t cs :
  Q t now -> tracker_ok Q cs -> tracker_ok Q (track_outbound now now' t cs).
Proof.
  intros HQ Hok. unfold track_outbound. destruct (find_first _ _) as [c0|] eqn:Ef.
  - set (upd := fun c => mkConn _ _ _ _).
    pose proof (update_first_keys tc_tuple (conn_is t) upd cs (fun _ => eq_refl)) as Hk.
    destruct (update_first_found (conn_is t) upd cs c0 Ef) as (l1 & l2 & Hl & Hl' & _).
    apply find_first_Some in Ef as [Hc0 Heq%conn_is_spec]. destruct Hok as [H1 H2 H3]. split.
    + intros c Hc. rewrite Hl' in Hc. apply elem_of_app in Hc as [Hc|[->|Hc]%elem_of_cons].
      * apply H1. rewrite Hl. apply elem_of_app. by left.
      * simpl. by rewrite Heq.
      * apply H1. rewrite Hl. apply elem_of_app. right. by right.
    + by rewrite Hk.
    + unfold blen in *. by rewrite length_update_first.
  - pose proof (tracker_make_room Q now' cs Hok) as (Hs & Hn & Hb). cbn zeta in *.
    set (cs2 := if _ <=? _ then _ else _) in *.
    apply (find_key_None tc_tuple _ t (conn_is_spec t)) in Ef.
    destruct Hok as [H1 H2 H3]. split.
    + intros c [Hc|[->|Hc]%elem_of_cons]%elem_of_app; [auto|done|by apply elem_of_nil in Hc].
    + rewrite map_app. apply NoDup_app. split_and!; [done| |apply NoDup_singleton].
      intros u (c & -> & Hc)%list_elem_of_fmap [Hu|Hu]%elem_of_cons; [|by apply elem_of_nil in Hu].
      apply Ef. simpl in Hu. rewrite <- Hu. by apply list_elem_of_fmap_2, Hs.
    + unfold blen in *. rewrite length_app. simpl length. lia.
Qed.

Lemma track_outbound_tracked now now' t cs :
  exists c, c ∈ track_outbound now now' t cs /\ tc_tuple c = t /\ tc_last_seen c = now.
Proof.
  unfold track_outbound. destruct (find_first _ _) as [c0|] eqn:Ef.
  - set (upd := fun c => mkConn _ _ _ _). exists (upd c0).
    destruct (update_first_found (conn_is t) upd cs c0 Ef) as (l1 & l2 & _ & -> & _).
    apply find_first_Some in Ef as [_ Heq%conn_is_spec].
    split; [|by split]. apply elem_of_app. right. left.
  - exists (mkConn t now now 1). split; [|by split]. apply elem_of_app. right. left.
Qed.

Definition accepts (t : Ticks) (p : Packet) (g : WarGuard) : bool :=
  bool_decide ((process_packet t p g logger_new).1.1 = Allow).

(** What one packet does to the connection table. *)
Lemma process_packet_tracker t p g :
  let g' := (process_packet t p g logger_new).1.2 in
  tracker g' = tracker g \/
  pk_direction p = Outbound /\ enabled g = true /\ accepts t p g = true /\
  tracker g' = track_outbound (tk_track t) (tk_expire t) (tuple_of p) (tracker g).
Proof.
  unfold accepts. rewrite bool_decide_eq_true. unfold process_packet. destruct (enabled g); simpl; [|auto].
  repeat (case_bool_decide || case_match); simpl; auto 6.
Qed.

Lemma process_packet_policy t p g :
  let g' := (process_packet t p g logger_new).1.2 in
  default_inbound g' = default_inbound g /\ enabled g' = enabled g /\
  (forall d q n, existsb (fun r => rule_matches r d q n && bool_decide (ru_action r = Allow)) (rules g') =
                 existsb (fun r => rule_matches r d q n && bool_decide (ru_action r = Allow)) (rules g)).
Proof.
  assert (forall (h : FirewallRule -> bool) f d q n rs,
    (forall r, rule_matches (f r) d q n = rule_matches r d q n /\ ru_action (f r) = ru_action r) ->
    existsb (fun r => rule_matches r d q n && bool_decide (ru_action r = Allow)) (update_first h f rs) =
    existsb (fun r => rule_matches r d q n && bool_decide (ru_action r = Allow)) rs) as Hupd.
  { intros h f d q n rs Hf. induction rs as [|r rs IH]; simpl; [done|].
    destruct (h r); simpl; [|by rewrite IH]. by destruct (Hf r) as [-> ->]. }
  unfold process_packet. repeat (case_bool_decide || case_match); simpl; split_and!; try done;
    intros; by apply Hupd.
Qed.

Lemma fw_run_snoc es e : fw_run (es ++ [e]) = fw_step (fw_run es) e.
Proof. unfold fw_run. by rewrite fold_left_app. Qed.

(** An outbound packet of the history, let through by the active firewall at
    time [now], had the tuple [u]. *)
Definition opened (es : list fw_event) (u : Tuple) (now : Z) : Prop :=
  exists es1 t p es2, es = es1 ++ FwPacket t p :: es2 /\ pk_direction p = Outbound /\
    enabled (fw_run es1) = true /\ accepts t p (fw_run es1) = true /\ tuple_of p = u /\ tk_track t = now.

Lemma opened_snoc es e u now : opened es u now -> opened (es ++ [e]) u now.
Proof.
  intros (es1 & t & p & es2 & -> & H). exists es1, t, p, (es2 ++ [e]). split; [|done].
  by rewrite <- app_assoc.
Qed.

Lemma fw_run_ok es : tracker_ok (opened es) (tracker (fw_run es)) /\ default_inbound (fw_run es) = Deny.
Proof.
  induction es as [|e es [IH Hd]] using rev_ind.
  { split; [|done]. split; [by intros c Hc%elem_of_nil|constructor|done]. }
  rewrite fw_run_snoc.
  assert (tracker_ok (opened (es ++ [e])) (tracker (fw_run es))) as IH'.
  { eapply tracker_ok_weaken, IH. intros u n. apply opened_snoc. }
  destruct e as [t p|d q n a s|id|on]; simpl; try done. split.
  - destruct (process_packet_tracker t p (fw_run es)) as [->|(Ho & He & Ha & ->)]; [done|].
    apply track_outbound_ok; [|done]. by exists es, t, p, [].
  - by rewrite (proj1 (process_packet_policy t p (fw_run es))).
Qed.

Lemma established_spec now t cs :
  is_established_response now t cs = true <->
  exists c, c ∈ cs /\ tc_tuple c = reversed t /\ now - tc_last_seen c < CONNECTION_TIMEOUT_TICKS.
Proof.
  unfold is_established_response. rewrite existsb_exists. apply exist_proper. intros c.
  rewrite andb_true_iff, bool_decide_eq_true, list_elem_of_In. unfold fresh, sat_sub. rewrite Z.ltb_lt.
  unfold CONNECTION_TIMEOUT_TICKS. intuition lia.
Qed.

(** No rule of [g] lets the packet in. *)
Definition not_exempted (p : Packet) (g : WarGuard) : bool :=
  forallb (fun r => negb (rule_matches r (pk_direction p) (pk_protocol p) (pk_dst_port p) &&
                          bool_decide (ru_action r = Allow))) (rules g).

(** C17: the firewall is stateful and closed. After any history of packets, rule
    changes and switching on and off, an inbound packet that no rule allows
    passes the active firewall only if an earlier outbound packet with exactly
    the reversed addresses, ports and protocol was itself let through by the
    active firewall, less than 30000 ticks ago. *)
Theorem inbound_needs_outbound es t p :
  enabled (fw_run es) = true -> pk_direction p = Inbound -> not_exempted p (fw_run es) = true ->
  accepts t p (fw_run es) = true ->
  exists now, opened es (reversed (tuple_of p)) now /\ tk_check t - now < CONNECTION_TIMEOUT_TICKS.
Proof.
  destruct (fw_run_ok es) as [[Ho _ _] Hd]. intros He Hi Hne Ha.
  assert (is_established_response (tk_check t) (tuple_of p) (tracker (fw_run es)) = true) as Hest.
  { unfold accepts in Ha. rewrite bool_decide_eq_true in Ha. revert Ha. unfold process_packet.
    rewrite He, Hi, bool_decide_eq_true_2 by done. simpl.
    destruct (is_established_response _ _ _); [done|]. destruct (find_first _ _) as [r|] eqn:Ef.
    - apply find_first_Some in Ef as [Hr Hm]. unfold not_exempted in Hne.
      rewrite forallb_forall in Hne. apply list_elem_of_In, Hne in Hr. rewrite Hi, Hm in Hr.
      destruct (ru_action r); [|done]. by rewrite bool_decide_eq_true_2 in Hr.
    - simpl. by rewrite Hd. }
  apply established_spec in Hest as (c & Hc & Ht & Hlt). exists (tc_last_seen c).
  rewrite <- Ht. split; [by apply Ho|done].
Qed.

Definition web : Packet := mkPacket Outbound Tcp 100 200 5000 443.
Definition reply_of (p : Packet) : Packet :=
  mkPacket Inbound (pk_protocol p) (pk_dst_ip p) (pk_src_ip p) (pk_dst_port p) (pk_src_port p).
Definition at_tick (n : Z) : Ticks := mkTicks n n n n.

Lemma inbound_needs_outbound_witness :
  exists now, opened [FwPacket (at_tick 7) web] (reversed (tuple_of (reply_of web))) now /\
    29000 - now < CONNECTION_TIMEOUT_TICKS.
Proof. apply (inbound_needs_outbound _ (at_tick 29000)); vm_compute; reflexivity. Defined.

(** In every reachable state the connection table has at most 1024
    entries, no two of them with the same addresses, ports and protocol. *)
Theorem tracker_bounded es :
  blen (tracker (fw_run es)) <= MAX_CONNECTIONS /\ NoDup (map tc_tuple (tracker (fw_run es))).
Proof. by destruct (fw_run_ok es) as [[_ Hn Hb] _]. Qed.

(** Replies get through. Once a rule has let an outbound packet pass, the
    packet that answers it passes for 30000 ticks, whatever the state of the
    connection table and of the rules. *)
Theorem reply_allowed t t' p r g :
  enabled g = true -> pk_direction p = Outbound ->
  find_first (fun r => rule_matches r Outbound (pk_protocol p) (pk_dst_port p)) (rules g) = Some r ->
  ru_action r = Allow -> tk_check t' - tk_track t < CONNECTION_TIMEOUT_TICKS ->
  accepts t' (reply_of p) (process_packet t p g logger_new).1.2 = true.
Proof.
  intros He Ho Hf Ha Ht. unfold accepts. apply bool_decide_eq_true.
  assert (tracker (process_packet t p g logger_new).1.2 =
          track_outbound (tk_track t) (tk_expire t) (tuple_of p) (tracker g)) as Htr.
  { unfold process_packet. rewrite He, Ho, bool_decide_eq_false_2 by done. simpl. by rewrite Hf, Ha. }
  destruct (process_packet_policy t p g) as (_ & He' & _). revert Htr He'.
  generalize (process_packet t p g logger_new).1.2. intros g' Htr He'.
  assert (is_established_response (tk_check t') (tuple_of (reply_of p)) (tracker g') = true) as Hest.
  { apply established_spec. rewrite Htr.
    destruct (track_outbound_tracked (tk_track t) (tk_expire t) (tuple_of p) (tracker g)) as (c & Hc & Hu & Hn).
    exists c. split_and!; [done|by rewrite Hu|by rewrite Hn]. }
  unfold process_packet. by rewrite He', He, Hest.
Qed.

Lemma reply_allowed_witness :
  accepts (at_tick 20000) (reply_of web) (process_packet (at_tick 5) web warguard_new logger_new).1.2 = true.
Proof. by eapply reply_allowed. Defined.

(** ** Where added rules go *)

Definition without_hits (r : FirewallRule) : FirewallRule :=
  mkRule (ru_id r) (ru_direction r) (ru_protocol r) (ru_port r) (ru_action r) (ru_description r) 0.
Definition allow_all_outbound : FirewallRule :=
  mkRule 5 Outbound AnyProtocol None Allow (str "Allow all outbound") 0.
Definition deny_all_inbound : FirewallRule :=
  mkRule 6 Inbound AnyProtocol None Deny (str "Deny all inbound") 0.

(** The catch-all for outbound packets comes before everything that could deny
    one, and something comes after it. *)
Definition outbound_open (rs : list FirewallRule) : Prop :=
  exists l1 l2, map without_hits rs = l1 ++ allow_all_outbound :: l2 ++ [deny_all_inbound] /\
    Forall (fun r => ru_action r = Allow) l1.

Lemma outbound_open_allows rs q n :
  outbound_open rs ->
  exists r, find_first (fun r => rule_matches r Outbound q n) rs = Some r /\ ru_action r = Allow.
Proof.
  intros (l1 & l2 & Hrs & Hl1).
  pose proof (find_first_map without_hits (fun r => rule_matches r Outbound q n) rs) as Hm.
  change (fun x => rule_matches (without_hits x) Outbound q n) with (fun x => rule_matches x Outbound q n) in Hm.
  rewrite Hrs, find_first_app in Hm.
  assert (rule_matches allow_all_outbound Outbound q n = true) as Hall by (by destruct q).
  destruct (find_first _ l1) as [r1|] eqn:E1.
  - apply find_first_Some in E1 as [Hin _]. rewrite Forall_forall in Hl1. apply Hl1 in Hin.
    destruct (find_first _ rs) as [r|]; [|done]. exists r. split; [done|]. simplify_eq/=. done.
  - cbn [find_first List.find] in Hm. rewrite Hall in Hm. destruct (find_first _ rs) as [r|]; [|done].
    exists r. split; [done|]. injection Hm as _ _ _ _ Ha _. done.
Qed.

Lemma outbound_open_insert rs r :
  outbound_open rs -> let pos := (length rs - 1)%nat in outbound_open (take pos rs ++ r :: drop pos rs).
Proof.
  intros (l1 & l2 & Hrs & Hl1) pos. exists l1, (l2 ++ [without_hits r]). split; [|done].
  rewrite map_app. cbn [map]. rewrite <- firstn_map, <- skipn_map.
  assert (pos = length (l1 ++ allow_all_outbound :: l2)) as ->.
  { subst pos. rewrite <- (length_map without_hits rs), Hrs. repeat (rewrite length_app || simpl length). lia. }
  rewrite Hrs, app_comm_cons, app_assoc, take_app_length, drop_app_length.
  rewrite <- (app_assoc l2). by rewrite <- app_assoc.
Qed.

Lemma outbound_open_remove rs id :
  id <> 5 -> id <> 6 -> outbound_open rs -> outbound_open (List.filter (fun r => negb (ru_id r =? id)) rs).
Proof.
  intros H5 H6 (l1 & l2 & Hrs & Hl1).
  exists (List.filter (fun r => negb (ru_id r =? id)) l1), (List.filter (fun r => negb (ru_id r =? id)) l2).
  split.
  - change (fun r => negb (ru_id r =? id)) with (fun r => (fun r => negb (ru_id r =? id)) (without_hits r)) at 1.
    rewrite filter_map_comm, Hrs, List.filter_app. cbn [List.filter ru_id allow_all_outbound].
    rewrite List.filter_app. cbn [List.filter ru_id deny_all_inbound].
    by rewrite (proj2 (Z.eqb_neq 5 id)), (proj2 (Z.eqb_neq 6 id)) by congruence.
  - rewrite Forall_forall in *. intros r [Hr _]%list_elem_of_In%filter_In.
    apply Hl1. by apply list_elem_of_In.
Qed.

Lemma outbound_open_process t p g :
  outbound_open (rules g) -> outbound_open (rules (process_packet t p g logger_new).1.2).
Proof.
  intros H. unfold process_packet. repeat (case_bool_decide || case_match); try done;
    unfold outbound_open; cbn [fst snd rules set_stats set_tracker set_rules];
    rewrite (update_first_keys without_hits) by done; done.
Qed.

(** The two catch-all rules, 5 and 6, stay. *)
Definition keeps_catch_alls (e : fw_event) : bool :=
  match e with FwRemoveRule id => negb (id =? 5) && negb (id =? 6) | _ => true end.

Lemma fw_run_outbound_open es : forallb keeps_catch_alls es = true -> outbound_open (rules (fw_run es)).
Proof.
  induction es as [|e es IH] using rev_ind; intros He.
  { exists (take 4 default_rules), []. split; [done|]. by repeat constructor. }
  rewrite forallb_app in He. apply andb_true_iff in He as [Hes He]. simpl in He.
  rewrite andb_true_r in He. specialize (IH Hes). rewrite fw_run_snoc. destruct e as [t p|d q n a s|id|on].
  - by apply outbound_open_process.
  - cbn [fw_step add_rule snd rules].
    assert ((1 <? length (rules (fw_run es)))%nat = true) as ->; [|by apply outbound_open_insert].
    destruct IH as (l1 & l2 & Hrs & _). apply Nat.ltb_lt. rewrite <- (length_map without_hits), Hrs.
    repeat (rewrite length_app || simpl length). lia.
  - simpl in He. apply andb_true_iff in He as [H5 H6]. cbn [fw_step remove_rule snd rules set_rules].
    apply outbound_open_remove; [by intros ->|by intros ->|done].
  - done.
Qed.

(** [add_rule] does not insert "before the last catch-all rule" as far as
    outbound packets are concerned: it inserts after "Allow all outbound".
    Whatever rules are added, and removed again, while the two catch-all rules
    stay, every outbound packet is let through; an added rule that denies
    outbound traffic never takes effect. *)
Theorem outbound_deny_ineffective es t p :
  forallb keeps_catch_alls es = true -> pk_direction p = Outbound -> accepts t p (fw_run es) = true.
Proof.
  intros He Ho. destruct (outbound_open_allows _ (pk_protocol p) (pk_dst_port p) (fw_run_outbound_open es He))
    as (r & Hr & Ha).
  unfold accepts. apply bool_decide_eq_true. unfold process_packet. destruct (enabled _); [|done].
  rewrite Ho, bool_decide_eq_false_2 by done. cbn [negb andb]. by rewrite Hr, Ha.
Qed.

Lemma outbound_deny_ineffective_witness :
  accepts (at_tick 9) web (fw_run [FwAddRule Outbound Tcp (Some 443) Deny (str "no web")]) = true.
Proof. by apply outbound_deny_ineffective. Defined.
