(* ===== verification/Frames.v ===== *)
(** * Physical frames (kernel/src/memory/physical.rs)

    The bitmap allocator of 4 KiB frames, initialised from the memory map of
    the bootloader, and the summary of that map in kernel/src/memory/mod.rs.
    The bitmap is an array of bytes indexed by [Z]; a set bit means allocated
    or unusable.  The theorems: a frame has at most one owner, every frame
    handed out is usable memory, and allocation fails exactly when nothing is
    free. *)
From S2P Require Import Prelude.

Definition FRAME_SIZE : Z := 4096.
Definition MAX_TRACKED_PHYSICAL_MEMORY : Z := 4 * 1024 * 1024 * 1024.
Definition MAX_TRACKED_FRAMES : Z := MAX_TRACKED_PHYSICAL_MEMORY / FRAME_SIZE.
Definition BITMAP_BYTES : Z := MAX_TRACKED_FRAMES / 8.

(** The memory map as the bootloader hands it over. *)
Inductive MemoryRegionKind : Type :=
| Usable
| Bootloader
| UnknownUefi (tag : Z)
| UnknownBios (tag : Z).
#[global] Instance MemoryRegionKind_eq_dec : EqDecision MemoryRegionKind.
Proof. solve_decision. Defined.
Record MemoryRegion : Type := mkRegion { rg_start : Z; rg_end : Z; rg_kind : MemoryRegionKind }.

Record BitmapAllocator : Type := mkAlloc {
  bitmap : Z -> Z;
  total_frames : Z;
  free_frames : Z;
  scan_hint : Z;
  max_frame_index : Z;
}.

Definition is_allocated (a : BitmapAllocator) (frame_index : Z) : bool :=
  negb (Z.land (bitmap a (frame_index / 8)) (Z.shiftl 1 (frame_index mod 8)) =? 0).

Definition set_allocated (frame_index : Z) (allocated : bool) (a : BitmapAllocator) : BitmapAllocator :=
  let byte := frame_index / 8 in
  let mask := Z.shiftl 1 (frame_index mod 8) in
  mkAlloc (fun i => if i =? byte
                    then if allocated then Z.lor (bitmap a byte) mask
                         else Z.land (bitmap a byte) (Z.lxor 255 mask)
                    else bitmap a i)
          (total_frames a) (free_frames a) (scan_hint a) (max_frame_index a).

Definition set_counts (a : BitmapAllocator) (total free hint max : Z) : BitmapAllocator :=
  mkAlloc (bitmap a) total free hint max.

(** One frame of a usable region. *)
Definition init_frame (a : BitmapAllocator) (frame_index : Z) : BitmapAllocator :=
  if is_allocated a frame_index then
    let a := set_allocated frame_index false a in
    set_counts a (total_frames a + 1) (free_frames a + 1) (scan_hint a) (max_frame_index a)
  else a.

Definition start_frame (region : MemoryRegion) : Z :=
  (if rg_start region =? 0 then FRAME_SIZE else rg_start region) / FRAME_SIZE.
Definition end_frame (region : MemoryRegion) : Z :=
  Z.min (rg_end region) MAX_TRACKED_PHYSICAL_MEMORY / FRAME_SIZE.

Definition init_region (a : BitmapAllocator) (region : MemoryRegion) : BitmapAllocator :=
  if bool_decide (rg_kind region <> Usable) then a
  else
    let a := fold_left init_frame
               (seqZ (start_frame region) (end_frame region - start_frame region)) a in
    set_counts a (total_frames a) (free_frames a) (scan_hint a)
               (Z.max (max_frame_index a) (end_frame region)).

Definition frames_init (memory_regions : list MemoryRegion) : BitmapAllocator :=
  fold_left init_region memory_regions (mkAlloc (fun _ => 255) 0 0 1 1).

(** The loop of [allocate_frame]: the first free frame from the hint on. *)
Definition scan_index (a : BitmapAllocator) (max offset : Z) : Z := (scan_hint a + offset) mod max.
Definition scan_frame (a : BitmapAllocator) (max : Z) : option Z :=
  find_first (fun i => negb ((i =? 0) || is_allocated a i)) (map (scan_index a max) (seqZ 0 max)).

Definition allocate_frame (a : BitmapAllocator) : option Z * BitmapAllocator :=
  if free_frames a =? 0 then (None, a)
  else
    let max := Z.min (max_frame_index a) MAX_TRACKED_FRAMES in
    match scan_frame a max with
    | Some frame_index =>
        let a := set_allocated frame_index true a in
        (Some (frame_index * FRAME_SIZE),
         set_counts a (total_frames a) (free_frames a - 1) (frame_index + 1) (max_frame_index a))
    | None => (None, a)
    end.

Definition run_is_free (a : BitmapAllocator) (count start_index : Z) : bool :=
  negb (existsb (fun offset => is_allocated a (start_index + offset)) (seqZ 0 count)).

Definition allocate_contiguous_frames (count : Z) (a : BitmapAllocator) : option Z * BitmapAllocator :=
  if (count =? 0) || (free_frames a <? count) then (None, a)
  else
    let max := Z.min (max_frame_index a) MAX_TRACKED_FRAMES in
    if max <=? count then (None, a)
    else
      let search_limit := sat_sub max count in
      match find_first (run_is_free a count) (seqZ 1 search_limit) with
      | Some start_index =>
          let a := fold_left (fun a offset => set_allocated (start_index + offset) true a) (seqZ 0 count) a in
          (Some (start_index * FRAME_SIZE),
           set_counts a (total_frames a) (free_frames a - count) (start_index + count) (max_frame_index a))
      | None => (None, a)
      end.

(** Clearing one frame if it is allocated. *)
Definition release (a : BitmapAllocator) (frame_index : Z) : BitmapAllocator :=
  if is_allocated a frame_index then
    let a := set_allocated frame_index false a in
    set_counts a (total_frames a) (free_frames a + 1) (scan_hint a) (max_frame_index a)
  else a.

Definition free_frame (address : Z) (a : BitmapAllocator) : BitmapAllocator :=
  let frame_index := address / FRAME_SIZE in
  if (frame_index =? 0) || (max_frame_index a <=? frame_index) then a else release a frame_index.

Definition free_contiguous_frames (address count : Z) (a : BitmapAllocator) : BitmapAllocator :=
  let start_index := address / FRAME_SIZE in
  if (start_index =? 0) || (count =? 0) then a
  else
    let end_index := Z.min (sat_add 64 start_index count) (max_frame_index a) in
    fold_left release (seqZ start_index (end_index - start_index)) a.

(** ** The memory map ([memory/mod.rs]) *)

Definition max_physical_address (regions : list MemoryRegion) : Z :=
  fold_left Z.max (map rg_end regions) 0.
Definition classify_physical_address (regions : list MemoryRegion) (address : Z) : option MemoryRegion :=
  find_first (fun r => (rg_start r <=? address) && (address <? rg_end r)) regions.
Definition classify_direct_map_address (offset : option Z) (regions : list MemoryRegion) (address : Z) :
    option (Z * option MemoryRegion) :=
  offset ← offset;
  let max_physical := max_physical_address regions in
  if (max_physical =? 0) || (address <? offset) then None
  else
    let physical_address := address - offset in
    if max_physical <=? physical_address then None
    else Some (physical_address, classify_physical_address regions physical_address).

Record BootMemorySummary : Type := mkSummary {
  bs_total_regions : Z; bs_usable_regions : Z; bs_bootloader_regions : Z; bs_other_regions : Z;
  bs_usable_bytes : Z; bs_max_physical_address : Z; bs_direct_map_offset : option Z;
}.
Definition summary_step (s : Z * Z * Z * Z) (region : MemoryRegion) : Z * Z * Z * Z :=
  let '(usable, bootloader, other, usable_bytes) := s in
  match rg_kind region with
  | Usable => (usable + 1, bootloader, other,
               sat_add 64 usable_bytes (sat_sub (rg_end region) (rg_start region)))
  | Bootloader => (usable, bootloader + 1, other, usable_bytes)
  | _ => (usable, bootloader, other + 1, usable_bytes)
  end.
Definition boot_memory_summary (offset : option Z) (regions : list MemoryRegion) : BootMemorySummary :=
  let '(usable, bootloader, other, usable_bytes) := fold_left summary_step regions (0, 0, 0, 0) in
  mkSummary (blen regions) usable bootloader other usable_bytes (max_physical_address regions) offset.

(** ** Bits *)

Lemma is_allocated_bit a i : is_allocated a i = Z.testbit (bitmap a (i / 8)) (i mod 8).
Proof. apply testbit_mask. pose proof (Z.mod_pos_bound i 8). lia. Qed.

Lemma is_allocated_set a i b j : is_allocated (set_allocated i b a) j = if j =? i then b else is_allocated a j.
Proof.
  rewrite !is_allocated_bit. unfold set_allocated. cbn [bitmap].
  pose proof (Z.mod_pos_bound i 8). pose proof (Z.mod_pos_bound j 8).
  pose proof (Z.div_mod i 8). pose proof (Z.div_mod j 8).
  destruct (Z.eqb_spec (j / 8) (i / 8)) as [Hq|Hq].
  2:{ destruct (Z.eqb_spec j i) as [->|]; [done|]. done. }
  rewrite Z.shiftl_1_l, Hq. destruct b.
  - rewrite Z.lor_spec, Z.pow2_bits_eqb by lia.
    destruct (Z.eqb_spec j i) as [->|]; [by rewrite Z.eqb_refl, orb_true_r|].
    rewrite (proj2 (Z.eqb_neq (i mod 8) (j mod 8))) by lia. by rewrite orb_false_r.
  - rewrite Z.land_spec, Z.lxor_spec, Z.pow2_bits_eqb by lia.
    assert (Z.testbit 255 (j mod 8) = true) as ->.
    { change 255 with (Z.ones 8). apply Z.ones_spec_low. lia. }
    destruct (Z.eqb_spec j i) as [->|]; [by rewrite Z.eqb_refl, andb_false_r|].
    rewrite (proj2 (Z.eqb_neq (i mod 8) (j mod 8))) by lia. by rewrite andb_true_r.
Qed.

Lemma is_allocated_counts a t f h m i : is_allocated (set_counts a t f h m) i = is_allocated a i.
Proof. done. Qed.

(** ** Counting free frames *)

Lemma length_filter_flip {A} (p q : A -> bool) x l :
  NoDup l -> x ∈ l -> p x = false -> q x = true -> (forall y, y <> x -> q y = p y) ->
  blen (List.filter q l) = blen (List.filter p l) + 1.
Proof.
  intros Hnd Hx Hp Hq Hpq. unfold blen. induction Hnd as [|y l Hy Hnd IH]; [by apply elem_of_nil in Hx|].
  apply elem_of_cons in Hx as [->|Hx]; simpl.
  - rewrite Hp, Hq. simpl length. enough (List.filter q l = List.filter p l) as -> by lia.
    apply List.filter_ext_in. intros z Hz%list_elem_of_In. apply Hpq. congruence.
  - specialize (IH Hx). rewrite (Hpq y) by congruence. destruct (p y); simpl length; lia.
Qed.

Definition is_free (a : BitmapAllocator) (i : Z) : bool := negb (is_allocated a i).
Definition free_count (a : BitmapAllocator) (max : Z) : Z := blen (List.filter (is_free a) (seqZ 0 max)).

Lemma free_count_set_true a i max :
  0 <= i < max -> is_allocated a i = false ->
  free_count (set_allocated i true a) max = free_count a max - 1.
Proof.
  intros Hi Ha. unfold free_count.
  rewrite (length_filter_flip (is_free (set_allocated i true a)) (is_free a) i); [lia|apply NoDup_seqZ| | | |].
  - apply elem_of_seqZ. lia.
  - unfold is_free. by rewrite is_allocated_set, Z.eqb_refl.
  - unfold is_free. by rewrite Ha.
  - intros y Hy. unfold is_free. by rewrite is_allocated_set, (proj2 (Z.eqb_neq y i)).
Qed.

Lemma free_count_set_false a i max :
  0 <= i < max -> is_allocated a i = true ->
  free_count (set_allocated i false a) max = free_count a max + 1.
Proof.
  intros Hi Ha. unfold free_count.
  rewrite (length_filter_flip (is_free a) (is_free (set_allocated i false a)) i); [done|apply NoDup_seqZ| | | |].
  - apply elem_of_seqZ. lia.
  - unfold is_free. by rewrite Ha.
  - unfold is_free. by rewrite is_allocated_set, Z.eqb_refl.
  - intros y Hy. unfold is_free. by rewrite is_allocated_set, (proj2 (Z.eqb_neq y i)).
Qed.

Lemma free_count_counts a t f h m max : free_count (set_counts a t f h m) max = free_count a max.
Proof. done. Qed.

Lemma free_count_grow a m m' :
  0 <= m <= m' -> (forall i, m <= i < m' -> is_allocated a i = true) -> free_count a m' = free_count a m.
Proof.
  intros Hm Ha. unfold free_count. replace m' with (m + (m' - m)) by lia.
  rewrite seqZ_app, List.filter_app by lia.
  assert (List.filter (is_free a) (seqZ (0 + m) (m' - m)) = []) as ->; [|by rewrite app_nil_r].
  destruct (List.filter _ _) as [|i l] eqn:E; [done|]. exfalso.
  assert (In i (List.filter (is_free a) (seqZ (0 + m) (m' - m)))) as Hi by (rewrite E; by left).
  apply filter_In in Hi as [Hi%list_elem_of_In%elem_of_seqZ Hf]. unfold is_free in Hf.
  by rewrite Ha in Hf by lia.
Qed.

Lemma free_count_pos a max : 0 < free_count a max -> exists i, 0 <= i < max /\ is_allocated a i = false.
Proof.
  unfold free_count. destruct (List.filter (is_free a) (seqZ 0 max)) as [|i l] eqn:E; [done|]. intros _.
  assert (In i (List.filter (is_free a) (seqZ 0 max))) as Hin by (rewrite E; by left).
  apply filter_In in Hin as [Hin%list_elem_of_In%elem_of_seqZ Hf%negb_true_iff]. exists i. split; [lia|done].
Qed.

Lemma free_count_nonneg a max : 0 <= free_count a max.
Proof. apply blen_nonneg. Qed.

Lemma free_count_zero a max i :
  free_count a max = 0 -> 0 <= i < max -> is_allocated a i = true.
Proof.
  intros Hz Hi. destruct (is_allocated a i) eqn:E; [done|]. exfalso. unfold free_count, blen in Hz.
  assert (In i (List.filter (is_free a) (seqZ 0 max))) as Hin.
  { apply filter_In. split; [apply list_elem_of_In, elem_of_seqZ; lia|]. unfold is_free. by rewrite E. }
  destruct (List.filter _ _); [done|]. simpl in Hz. lia.
Qed.

Lemma free_count_run a s count max :
  0 <= s -> 0 <= count -> s + count <= max -> (forall i, s <= i < s + count -> is_allocated a i = false) ->
  count <= free_count a max.
Proof.
  intros Hs Hc Hm Ha. enough (length (seqZ s count) <= length (List.filter (is_free a) (seqZ 0 max)))%nat as Hl.
  { rewrite length_seqZ in Hl. unfold free_count, blen. lia. }
  apply NoDup_incl_length; [apply NoDup_ListNoDup, NoDup_seqZ|]. intros i Hi%list_elem_of_In%elem_of_seqZ.
  apply filter_In. split; [apply list_elem_of_In, elem_of_seqZ; lia|]. unfold is_free. by rewrite Ha.
Qed.

#[global] Opaque free_count.

(** ** The invariant

    [U] holds of the usable frames, [own] are the frames handed out, [m] bounds
    the frames that may be free. *)
Record frames_inv (U : Z -> Prop) (own : gset Z) (m : Z) (a : BitmapAllocator) : Prop := mkFramesInv {
  fi_bound : 1 <= m <= MAX_TRACKED_FRAMES;
  fi_count : free_frames a = free_count a MAX_TRACKED_FRAMES;
  fi_hint : 0 <= scan_hint a;
  fi_free : forall i, 0 <= i -> is_allocated a i = false -> U i /\ i ∉ own /\ i < m;
  fi_own : forall i, i ∈ own -> 0 < i < m /\ U i /\ is_allocated a i = true;
}.

Lemma inv_take U own m a i t h mx :
  frames_inv U own m a -> 0 < i -> is_allocated a i = false -> 0 <= h ->
  frames_inv U ({[i]} ∪ own) m (set_counts (set_allocated i true a) t (free_frames a - 1) h mx).
Proof.
  intros [Hb Hc Hh Hf Ho] Hi Ha Hh'. destruct (Hf i) as (HU & Hno & Hm); [lia|done|]. split; [done| |done| |].
  - cbn [free_frames set_counts]. rewrite free_count_counts, free_count_set_true, Hc; [done|lia|done].
  - intros j Hj. rewrite is_allocated_counts, is_allocated_set. destruct (Z.eqb_spec j i); [done|].
    intros Haj. destruct (Hf j Hj Haj) as (? & ? & ?). set_solver.
  - intros j Hj. rewrite is_allocated_counts, is_allocated_set. destruct (Z.eqb_spec j i) as [->|Hne]; [done|].
    apply Ho. set_solver.
Qed.

Lemma inv_release U own m a i :
  frames_inv U own m a -> i ∈ own -> frames_inv U (own ∖ {[i]}) m (release a i).
Proof.
  intros [Hb Hc Hh Hf Ho] Hi. destruct (Ho i Hi) as (Hm & HU & Ha). unfold release. rewrite Ha. split; [done| |done| |].
  - cbn [free_frames set_counts set_allocated]. rewrite free_count_counts, free_count_set_false, Hc; [done|lia|done].
  - intros j Hj. rewrite is_allocated_counts, is_allocated_set. destruct (Z.eqb_spec j i) as [->|Hne].
    + intros _. split_and!; [done|set_solver|lia].
    + intros Haj. destruct (Hf j Hj Haj) as (? & ? & ?). set_solver.
  - intros j Hj. rewrite is_allocated_counts, is_allocated_set.
    rewrite (proj2 (Z.eqb_neq j i)) by set_solver. apply Ho. set_solver.
Qed.

Lemma inv_init_frame U m a i :
  frames_inv U ∅ m a -> 0 <= i < m -> U i -> frames_inv U ∅ m (init_frame a i).
Proof.
  intros [Hb Hc Hh Hf Ho] Hi HU. unfold init_frame. destruct (is_allocated a i) eqn:Ha; [|done]. split; [done| |done| |].
  - cbn [free_frames set_counts set_allocated]. rewrite free_count_counts, free_count_set_false, Hc; [done|lia|done].
  - intros j Hj. rewrite is_allocated_counts, is_allocated_set. destruct (Z.eqb_spec j i) as [->|Hne].
    + intros _. split_and!; [done|set_solver|lia].
    + intros Haj. by apply Hf.
  - set_solver.
Qed.

Lemma inv_weaken U own m m' a :
  frames_inv U own m a -> m <= m' <= MAX_TRACKED_FRAMES -> frames_inv U own m' a.
Proof.
  intros [Hb Hc Hh Hf Ho] Hm. split; [lia|done|done| |].
  - intros i Hi Ha. destruct (Hf i Hi Ha) as (? & ? & ?). split_and!; [done|done|lia].
  - intros i Hi. destruct (Ho i Hi) as (? & ? & ?). split_and!; [lia|lia|done|done].
Qed.

Lemma inv_set_max U own m a mx :
  frames_inv U own m a -> frames_inv U own m (set_counts a (total_frames a) (free_frames a) (scan_hint a) mx).
Proof.
  intros [H1 H2 H3 H4 H5].
  split; [exact H1|rewrite free_count_counts; exact H2|exact H3|exact H4|exact H5].
Qed.

Lemma init_frame_max a i : max_frame_index (init_frame a i) = max_frame_index a.
Proof. unfold init_frame. by case_match. Qed.

Lemma inv_init_frames U m l a :
  frames_inv U ∅ m a -> (forall i, i ∈ l -> 0 <= i < m /\ U i) ->
  frames_inv U ∅ m (fold_left init_frame l a) /\ max_frame_index (fold_left init_frame l a) = max_frame_index a.
Proof.
  revert a. induction l as [|i l IH]; intros a Ha Hl; simpl; [done|].
  destruct (Hl i) as [Hi HU]; [left|]. destruct (IH (init_frame a i)) as [IH1 IH2].
  - by apply inv_init_frame.
  - intros j Hj. apply Hl. by right.
  - by rewrite IH2, init_frame_max.
Qed.

(** A frame that lies in a usable region of the memory map. *)
Definition usable_frame (regions : list MemoryRegion) (i : Z) : Prop :=
  exists r, (r ∈ regions) /\ rg_kind r = Usable /\ rg_start r <= i * FRAME_SIZE /\ (i + 1) * FRAME_SIZE <= rg_end r.

(** What the bootloader guarantees: regions start at a page boundary. *)
Definition region_aligned (r : MemoryRegion) : bool := (0 <=? rg_start r) && (rg_start r mod FRAME_SIZE =? 0).

Lemma region_frames_usable r i :
  region_aligned r = true -> start_frame r <= i < end_frame r ->
  0 <= i < MAX_TRACKED_FRAMES /\ rg_start r <= i * FRAME_SIZE /\ (i + 1) * FRAME_SIZE <= rg_end r.
Proof.
  unfold region_aligned, start_frame, end_frame, FRAME_SIZE. rewrite andb_true_iff, Z.leb_le, Z.eqb_eq.
  change MAX_TRACKED_FRAMES with (2 ^ 20). change MAX_TRACKED_PHYSICAL_MEMORY with (2 ^ 32).
  intros [H0 Hmod] Hi.
  assert (i + 1 <= Z.min (rg_end r) (2 ^ 32) / 4096) as He by lia.
  assert ((i + 1) * 4096 <= Z.min (rg_end r) (2 ^ 32)) as He'.
  { pose proof (Z.mul_div_le (Z.min (rg_end r) (2 ^ 32)) 4096). lia. }
  destruct (Z.eqb_spec (rg_start r) 0) as [Hz|Hz].
  - change (4096 / 4096) with 1 in Hi. lia.
  - pose proof (Z.div_mod (rg_start r) 4096). lia.
Qed.

Lemma inv_init_region regions r a :
  r ∈ regions -> region_aligned r = true ->
  frames_inv (usable_frame regions) ∅ (max_frame_index a) a ->
  frames_inv (usable_frame regions) ∅ (max_frame_index (init_region a r)) (init_region a r).
Proof.
  intros Hr Hal Ha. unfold init_region.
  destruct (bool_decide_reflect (rg_kind r <> Usable)) as [|Hk]; [exact Ha|]. apply dec_stable in Hk. cbn zeta.
  set (m := Z.max (max_frame_index a) (end_frame r)).
  assert (m <= MAX_TRACKED_FRAMES) as Hmax.
  { destruct Ha as [? _ _ _ _]. unfold m, end_frame. apply Z.max_lub; [lia|]. apply Z.div_le_mono; [done|]. lia. }
  destruct (inv_init_frames (usable_frame regions) m
              (seqZ (start_frame r) (end_frame r - start_frame r)) a) as [Hf Hf'].
  - eapply inv_weaken; [exact Ha|]. lia.
  - intros i Hi%elem_of_seqZ. destruct (region_frames_usable r i Hal) as (? & ? & ?); [lia|].
    split; [lia|]. by exists r.
  - cbn [max_frame_index set_counts]. rewrite Hf'. by apply inv_set_max.
Qed.

Lemma inv_init_regions regions rs a :
  Forall (fun r => (r ∈ regions) /\ region_aligned r = true) rs ->
  frames_inv (usable_frame regions) ∅ (max_frame_index a) a ->
  frames_inv (usable_frame regions) ∅ (max_frame_index (fold_left init_region rs a)) (fold_left init_region rs a).
Proof.
  intros Hrs. revert a. induction Hrs as [|r rs [Hr Hal] Hrs IH]; intros a Ha; [exact Ha|].
  simpl. by apply IH, inv_init_region.
Qed.

Lemma frames_init_inv regions :
  forallb region_aligned regions = true ->
  frames_inv (usable_frame regions) ∅ (max_frame_index (frames_init regions)) (frames_init regions).
Proof.
  intros Hr. apply inv_init_regions.
  2:{ assert (forall i, is_allocated (mkAlloc (fun _ => 255) 0 0 1 1) i = true) as Hall.
    { intros i. rewrite is_allocated_bit. change 255 with (Z.ones 8). apply Z.ones_spec_low.
      pose proof (Z.mod_pos_bound i 8). lia. }
    split; [done| |done| |set_solver].
    + rewrite (free_count_grow _ 0 MAX_TRACKED_FRAMES); [done|done|]. intros. apply Hall.
    + intros i _. by rewrite Hall. }
  rewrite Forall_forall. intros r Hin. split; [done|].
  apply list_elem_of_In in Hin. rewrite forallb_forall in Hr. by apply Hr.
Qed.

(** ** The operations *)

Lemma scan_frame_Some a max i :
  0 < max -> scan_frame a max = Some i -> 0 < i < max /\ is_allocated a i = false.
Proof.
  intros Hm [Hin Hp]%find_first_Some. apply negb_true_iff, orb_false_iff in Hp as [Hz Ha].
  apply list_elem_of_fmap in Hin as (o & -> & _). unfold scan_index in *.
  pose proof (Z.mod_pos_bound (scan_hint a + o) max Hm). apply Z.eqb_neq in Hz. split; [lia|done].
Qed.

Lemma scan_frame_None a max i :
  scan_frame a max = None -> 0 < i < max -> is_allocated a i = true.
Proof.
  intros Hn Hi. pose proof (find_first_None _ _ Hn i) as Hp.
  assert (i ∈ map (scan_index a max) (seqZ 0 max)) as Hin.
  { apply list_elem_of_fmap. exists ((i - scan_hint a) mod max). split.
    - unfold scan_index. rewrite Z.add_mod_idemp_r by lia. replace (scan_hint a + (i - scan_hint a)) with i by lia.
      by rewrite Z.mod_small by lia.
    - apply elem_of_seqZ. pose proof (Z.mod_pos_bound (i - scan_hint a) max). lia. }
  apply Hp in Hin. apply negb_false_iff, orb_true_iff in Hin as [Hz|Ha]; [|done]. apply Z.eqb_eq in Hz. lia.
Qed.

Section operations.
Context (U : Z -> Prop) (own : gset Z) (a : BitmapAllocator).
Context (Hinv : frames_inv U own (max_frame_index a) a).

Lemma max_is_bound : Z.min (max_frame_index a) MAX_TRACKED_FRAMES = max_frame_index a.
Proof. destruct Hinv as [? _ _ _ _]. lia. Qed.

Lemma allocate_frame_spec :
  match allocate_frame a with
  | (Some f, a') => exists i, f = i * FRAME_SIZE /\ 0 < i < max_frame_index a /\ is_allocated a i = false /\
                    max_frame_index a' = max_frame_index a /\
                    frames_inv U ({[i]} ∪ own) (max_frame_index a') a'
  | (None, a') => a' = a /\ forall i, 0 < i < max_frame_index a -> is_allocated a i = true
  end.
Proof.
  pose proof Hinv as [Hb Hc Hh Hf Ho]. unfold allocate_frame. rewrite max_is_bound.
  destruct (Z.eqb_spec (free_frames a) 0) as [Hz|Hz].
  { split; [done|]. intros i Hi. apply (free_count_zero a MAX_TRACKED_FRAMES); [congruence|lia]. }
  destruct (scan_frame a _) as [i|] eqn:E; [|split; [done|]; intros i Hi; by eapply scan_frame_None].
  apply scan_frame_Some in E as [Hi Ha]; [|lia]. exists i. split_and!; try done; [lia|lia|].
  apply (inv_take U own (max_frame_index a) a i); [exact Hinv|lia|done|lia].
Qed.

Lemma set_allocated_counts i b x t f h m :
  set_allocated i b (set_counts x t f h m) = set_counts (set_allocated i b x) t f h m.
Proof. done. Qed.

Lemma fold_set_counts s l x t f h m :
  fold_left (fun x o => set_allocated (s + o) true x) l (set_counts x t f h m) =
  set_counts (fold_left (fun x o => set_allocated (s + o) true x) l x) t f h m.
Proof. revert x. induction l as [|o l IH]; intros x; simpl; [done|]. by rewrite set_allocated_counts, IH. Qed.
End operations.

Lemma inv_take_run U m s l own a t h mx :
  frames_inv U own m a -> 0 <= h -> NoDup l -> (forall o, o ∈ l -> 0 < s + o /\ is_allocated a (s + o) = false) ->
  frames_inv U (list_to_set (map (Z.add s) l) ∪ own) m
    (set_counts (fold_left (fun a o => set_allocated (s + o) true a) l a) t (free_frames a - blen l) h mx).
Proof.
  intros Ha Hh Hnd. revert own a Ha. induction Hnd as [|o l Ho Hnd IH]; intros own a Ha Hl.
  - destruct Ha as [H1 H2 H3 H4 H5]. simpl. rewrite Z.sub_0_r, union_empty_l_L.
    split; [exact H1|rewrite free_count_counts; exact H2|exact Hh|exact H4|exact H5].
  - destruct (Hl o) as [Hpos Hfree]; [left|].
    pose proof (inv_take U own m a (s + o) (total_frames a) (scan_hint a) (max_frame_index a) Ha Hpos Hfree
                  (fi_hint _ _ _ _ Ha)) as H1.
    apply IH in H1.
    2:{ intros o' Ho'. destruct (Hl o') as [? ?]; [by right|]. split; [done|].
        rewrite is_allocated_counts, is_allocated_set, (proj2 (Z.eqb_neq _ _)); [done|]. intros E. apply Ho.
        by replace o with o' by lia. }
    rewrite fold_set_counts in H1. cbn [set_counts free_frames bitmap] in H1. simpl fold_left.
    replace (free_frames a - blen (o :: l)) with (free_frames a - 1 - blen l) by (unfold blen; simpl length; lia).
    replace (list_to_set (map (Z.add s) (o :: l)) ∪ own)
      with (list_to_set (map (Z.add s) l) ∪ ({[s + o]} ∪ own) : gset Z) by set_solver.
    exact H1.
Qed.

Lemma map_add_seqZ s n : map (Z.add s) (seqZ 0 n) = seqZ s n.
Proof. rewrite <- (Z.add_0_r s) at 2. apply (fmap_add_seqZ s 0 n). Qed.

Lemma run_is_free_spec a count s :
  run_is_free a count s = true <-> forall i, s <= i < s + count -> is_allocated a i = false.
Proof.
  unfold run_is_free. rewrite negb_true_iff. rewrite <- not_true_iff_false, existsb_exists. split.
  - intros H i Hi. destruct (is_allocated a i) eqn:E; [|done]. exfalso. apply H. exists (i - s).
    split; [apply list_elem_of_In, elem_of_seqZ; lia|]. by replace (s + (i - s)) with i by lia.
  - intros H (o & Ho%list_elem_of_In%elem_of_seqZ & Ha). rewrite H in Ha; [done|lia].
Qed.

Lemma run_not_free a count s :
  run_is_free a count s = false -> exists i, s <= i < s + count /\ is_allocated a i = true.
Proof.
  unfold run_is_free. intros H%negb_false_iff. apply existsb_exists in H as (o & Ho%list_elem_of_In%elem_of_seqZ & Ha).
  exists (s + o). split; [lia|done].
Qed.

(** A run longer than the number of free frames is not free. *)
Lemma run_too_long U own a count s :
  frames_inv U own (max_frame_index a) a -> 0 <= count -> free_frames a < count -> 0 < s -> s + count <= max_frame_index a ->
  exists i, s <= i < s + count /\ is_allocated a i = true.
Proof.
  intros Hinv Hpos Hlt Hs Hle. destruct (run_is_free a count s) eqn:E; [|by apply run_not_free].
  exfalso. rewrite run_is_free_spec in E. destruct Hinv as [Hb Hc _ _ _]. rewrite Hc in Hlt.
  pose proof (free_count_run a s count MAX_TRACKED_FRAMES ltac:(lia) Hpos ltac:(lia) E). lia.
Qed.

Lemma fold_set_max s l a :
  max_frame_index (fold_left (fun x o => set_allocated (s + o) true x) l a) = max_frame_index a.
Proof. revert a. induction l as [|o l IH]; intros a; simpl; [done|]. by rewrite IH. Qed.
Lemma fold_set_free s l a :
  free_frames (fold_left (fun x o => set_allocated (s + o) true x) l a) = free_frames a.
Proof. revert a. induction l as [|o l IH]; intros a; simpl; [done|]. by rewrite IH. Qed.
Lemma length_seqZ_Z m n : 0 <= n -> blen (seqZ m n) = n.
Proof. intros. unfold blen. rewrite length_seqZ. lia. Qed.

Lemma allocate_contiguous_spec U own a count :
  frames_inv U own (max_frame_index a) a -> 0 <= count ->
  match allocate_contiguous_frames count a with
  | (Some f, a') => exists s, f = s * FRAME_SIZE /\ 0 < s /\ 0 < count /\ s + count <= max_frame_index a /\
                    (forall i, s <= i < s + count -> is_allocated a i = false) /\
                    max_frame_index a' = max_frame_index a /\
                    frames_inv U (list_to_set (seqZ s count) ∪ own) (max_frame_index a') a'
  | (None, a') => a' = a /\ (0 < count -> forall s, 0 < s -> s + count <= max_frame_index a ->
                    exists i, s <= i < s + count /\ is_allocated a i = true)
  end.
Proof.
  intros Hinv Hcount. unfold allocate_contiguous_frames. rewrite (max_is_bound U own a Hinv).
  destruct (Z.eqb_spec count 0) as [Hz|Hz]; [split; [done|lia]|]. simpl orb.
  destruct (Z.ltb_spec (free_frames a) count) as [Hlt|Hge].
  { split; [done|]. intros _ s Hs Hle. by eapply run_too_long. }
  destruct (Z.leb_spec (max_frame_index a) count) as [|Hmax]; [split; [done|lia]|].
  unfold sat_sub. rewrite Z.max_l by lia. destruct (find_first _ _) as [s|] eqn:E.
  - apply find_first_Some in E as [Hs%elem_of_seqZ Hfree]. rewrite run_is_free_spec in Hfree.
    exists s. split_and!; try done; try lia.
    + cbn [max_frame_index set_counts]. by rewrite fold_set_max.
    + cbn [max_frame_index set_counts]. rewrite fold_set_max, fold_set_free.
      rewrite <- map_add_seqZ. rewrite <- (length_seqZ_Z 0 count) at 4 by lia.
      apply inv_take_run; [exact Hinv|lia|apply NoDup_seqZ|].
      intros o Ho%elem_of_seqZ. split; [lia|]. apply Hfree. lia.
  - split; [done|]. intros _ s Hs Hle. assert (run_is_free a count s = false) as Hn.
    { eapply find_first_None; [exact E|]. apply elem_of_seqZ. lia. }
    by apply run_not_free in Hn.
Qed.

Lemma release_max a i : max_frame_index (release a i) = max_frame_index a.
Proof. unfold release. by case_match. Qed.

Lemma inv_release_list U m l own a :
  frames_inv U own m a -> NoDup l -> (forall i, i ∈ l -> i ∈ own) ->
  frames_inv U (own ∖ list_to_set l) m (fold_left release l a) /\
  max_frame_index (fold_left release l a) = max_frame_index a.
Proof.
  intros Ha Hnd. revert own a Ha. induction Hnd as [|i l Hi Hnd IH]; intros own a Ha Hl; simpl.
  - by rewrite difference_empty_L.
  - destruct (IH (own ∖ {[i]}) (release a i)) as [H1 H2].
    + apply inv_release; [done|]. apply Hl. left.
    + intros j Hj. apply elem_of_difference. split; [apply Hl; by right|]. by intros ->%elem_of_singleton.
    + rewrite H2, release_max. split; [|done].
      by replace (own ∖ ({[i]} ∪ list_to_set l)) with (own ∖ {[i]} ∖ list_to_set l : gset Z)
        by (by rewrite difference_difference_l_L).
Qed.

Lemma free_frame_spec U own a i :
  frames_inv U own (max_frame_index a) a -> i ∈ own ->
  frames_inv U (own ∖ {[i]}) (max_frame_index (free_frame (i * FRAME_SIZE) a)) (free_frame (i * FRAME_SIZE) a).
Proof.
  intros Ha Hi. destruct (fi_own _ _ _ _ Ha i Hi) as (Hm & _ & _). unfold free_frame.
  rewrite Z.div_mul by done. rewrite (proj2 (Z.eqb_neq i 0)), (proj2 (Z.leb_gt _ i)) by lia. cbn [orb].
  rewrite release_max. by apply inv_release.
Qed.

Lemma free_contiguous_spec U own a s count :
  frames_inv U own (max_frame_index a) a -> 0 < count -> (forall i, s <= i < s + count -> i ∈ own) ->
  frames_inv U (own ∖ list_to_set (seqZ s count))
    (max_frame_index (free_contiguous_frames (s * FRAME_SIZE) count a))
    (free_contiguous_frames (s * FRAME_SIZE) count a).
Proof.
  intros Ha Hc Hown. destruct (fi_own _ _ _ _ Ha s) as (Hm & _ & _); [apply Hown; lia|].
  destruct (fi_own _ _ _ _ Ha (s + count - 1)) as (Hm' & _ & _); [apply Hown; lia|].
  unfold free_contiguous_frames. rewrite Z.div_mul by done.
  rewrite (proj2 (Z.eqb_neq s 0)), (proj2 (Z.eqb_neq count 0)) by lia. simpl orb. cbn iota zeta.
  assert (Z.min (sat_add 64 s count) (max_frame_index a) - s = count) as ->.
  { pose proof (fi_bound _ _ _ _ Ha) as Hb. change MAX_TRACKED_FRAMES with (2 ^ 20) in Hb.
    rewrite sat_add_spec by lia. lia. }
  destruct (inv_release_list U (max_frame_index a) (seqZ s count) own a) as [H1 ->]; [done|apply NoDup_seqZ| |done].
  intros i Hi%elem_of_seqZ. apply Hown. lia.
Qed.

(** ** Clients that free only what they hold *)

Definition frames_of (address count : Z) : gset Z := list_to_set (seqZ (address / FRAME_SIZE) count).

Inductive frame_step : BitmapAllocator * gset Z -> BitmapAllocator * gset Z -> Prop :=
| step_allocate a own address a' :
    allocate_frame a = (Some address, a') -> frame_step (a, own) (a', frames_of address 1 ∪ own)
| step_allocate_contiguous a own count address a' :
    0 <= count -> allocate_contiguous_frames count a = (Some address, a') ->
    frame_step (a, own) (a', frames_of address count ∪ own)
| step_free a own address :
    address mod FRAME_SIZE = 0 -> frames_of address 1 ⊆ own ->
    frame_step (a, own) (free_frame address a, own ∖ frames_of address 1)
| step_free_contiguous a own address count :
    address mod FRAME_SIZE = 0 -> 0 < count -> frames_of address count ⊆ own ->
    frame_step (a, own) (free_contiguous_frames address count a, own ∖ frames_of address count).

Lemma frames_of_1 i : frames_of (i * FRAME_SIZE) 1 = {[i]}.
Proof. unfold frames_of. rewrite Z.div_mul by done. set_solver. Qed.

Lemma aligned_address address : address mod FRAME_SIZE = 0 -> address = address / FRAME_SIZE * FRAME_SIZE.
Proof. intros H. pose proof (Z.div_mod address FRAME_SIZE). unfold FRAME_SIZE in *. lia. Qed.

Lemma frame_step_inv U a own a' own' :
  frame_step (a, own) (a', own') ->
  frames_inv U own (max_frame_index a) a -> frames_inv U own' (max_frame_index a') a'.
Proof.
  inversion 1 as [? ? f ? Hf|? ? n f ? Hn Hf|? ? f Hal Hsub|? ? f n Hal Hn Hsub]; subst; intros Ha.
  - pose proof (allocate_frame_spec U own a Ha) as Hs. rewrite Hf in Hs.
    destruct Hs as (i & -> & _ & _ & _ & Hs). by rewrite frames_of_1.
  - pose proof (allocate_contiguous_spec U own a n Ha Hn) as Hs. rewrite Hf in Hs.
    destruct Hs as (s & -> & _ & _ & _ & _ & _ & Hs). unfold frames_of. by rewrite Z.div_mul.
  - rewrite (aligned_address f Hal) in Hsub |- *. rewrite frames_of_1 in Hsub |- *.
    apply free_frame_spec; [done|set_solver].
  - unfold frames_of. rewrite (aligned_address f Hal) at 2 3. apply free_contiguous_spec; [done|done|].
    intros i Hi. apply Hsub. unfold frames_of. apply elem_of_list_to_set, elem_of_seqZ. lia.
Qed.

Lemma frames_reachable_inv regions a own :
  forallb region_aligned regions = true -> rtc frame_step (frames_init regions, ∅) (a, own) ->
  frames_inv (usable_frame regions) own (max_frame_index a) a.
Proof.
  intros Hr Hsteps. remember (frames_init regions, ∅) as st eqn:Est. remember (a, own) as st' eqn:Est'.
  assert (frames_inv (usable_frame regions) st.2 (max_frame_index st.1) st.1) as H0.
  { subst. by apply frames_init_inv. }
  clear Est. assert (frames_inv (usable_frame regions) st'.2 (max_frame_index st'.1) st'.1) as H1; [|by subst].
  clear Est'. induction Hsteps as [|[a1 o1] [a2 o2] st3 Hstep Hsteps IH]; [done|].
  apply IH. by eapply frame_step_inv.
Qed.

(** C9: physical frames have one owner. Started from the memory map, whatever
    clients allocate (single frames and contiguous runs) and give back, the
    next frames handed out belong to nobody and lie inside a usable region. *)
Theorem frames_never_shared regions a own :
  forallb region_aligned regions = true -> rtc frame_step (frames_init regions, ∅) (a, own) ->
  (forall address a', allocate_frame a = (Some address, a') ->
     address mod FRAME_SIZE = 0 /\
     forall i, i ∈ frames_of address 1 -> i ∉ own /\ usable_frame regions i) /\
  (forall count address a', 0 <= count -> allocate_contiguous_frames count a = (Some address, a') ->
     address mod FRAME_SIZE = 0 /\
     forall i, i ∈ frames_of address count -> i ∉ own /\ usable_frame regions i).
Proof.
  intros Hr Hsteps. pose proof (frames_reachable_inv regions a own Hr Hsteps) as Hinv. split.
  - intros f a' Hf. pose proof (allocate_frame_spec _ own a Hinv) as Hs. rewrite Hf in Hs.
    destruct Hs as (i & -> & Hi & Ha & _). split; [by apply Z.mod_mul|]. rewrite frames_of_1.
    intros j ->%elem_of_singleton. destruct (fi_free _ _ _ _ Hinv i) as (? & ? & ?); [lia|done|done].
  - intros n f a' Hn Hf. pose proof (allocate_contiguous_spec _ own a n Hinv Hn) as Hs. rewrite Hf in Hs.
    destruct Hs as (s & -> & Hs & _ & _ & Hfree & _). split; [by apply Z.mod_mul|]. unfold frames_of.
    rewrite Z.div_mul by done. intros j Hj%elem_of_list_to_set%elem_of_seqZ.
    destruct (fi_free _ _ _ _ Hinv j) as (? & ? & ?); [lia|apply Hfree; lia|done].
Qed.

(** The allocator is complete. In every reachable state a single frame is
    refused only if every frame is taken, and a run of [count] frames only if
    no [count] consecutive frames are free; a refusal changes nothing. *)
Theorem frames_refused_only_when_full regions a own :
  forallb region_aligned regions = true -> rtc frame_step (frames_init regions, ∅) (a, own) ->
  (forall a', allocate_frame a = (None, a') ->
     a' = a /\ forall i, 0 < i < max_frame_index a -> is_allocated a i = true) /\
  (forall count a', 0 < count -> allocate_contiguous_frames count a = (None, a') ->
     a' = a /\ forall s, 0 < s -> s + count <= max_frame_index a ->
       exists i, s <= i < s + count /\ is_allocated a i = true).
Proof.
  intros Hr Hsteps. pose proof (frames_reachable_inv regions a own Hr Hsteps) as Hinv. split.
  - intros a' Hf. pose proof (allocate_frame_spec _ own a Hinv) as Hs. by rewrite Hf in Hs.
  - intros n a' Hn Hf. assert (0 <= n) as Hn' by lia.
    pose proof (allocate_contiguous_spec _ own a n Hinv Hn') as Hs. rewrite Hf in Hs.
    destruct Hs as [-> Hs]. split; [done|]. by apply Hs.
Qed.

Definition sample_map : list MemoryRegion :=
  [mkRegion 0 0x9000 Usable; mkRegion 0x9000 0xa000 Bootloader; mkRegion 0xa000 0xd000 Usable].

Definition sample_frames : BitmapAllocator := (allocate_frame (frames_init sample_map)).2.

Lemma pair_of_fst {A B} (p : A * B) a : p.1 = a -> p = (a, p.2).
Proof. destruct p; simpl. by intros ->. Qed.

Lemma sample_frames_reachable :
  rtc frame_step (frames_init sample_map, ∅) (sample_frames, frames_of 0x1000 1 ∪ ∅).
Proof.
  apply rtc_once, step_allocate. unfold sample_frames.
  apply (pair_of_fst (allocate_frame (frames_init sample_map)) (Some 0x1000)). vm_compute. reflexivity.
Qed.

Lemma frames_never_shared_witness :
  (allocate_frame sample_frames).1 = Some 0x2000 /\ usable_frame sample_map 2.
Proof.
  assert ((allocate_frame sample_frames).1 = Some 0x2000) as Hf by (vm_compute; reflexivity).
  split; [exact Hf|]. apply pair_of_fst in Hf.
  destruct (frames_never_shared sample_map _ _ eq_refl sample_frames_reachable) as [H _].
  apply (H _ _ Hf). vm_compute. reflexivity.
Defined.

Lemma frames_refused_only_when_full_witness :
  exists i, 2 <= i < 2 + 8 /\ is_allocated sample_frames i = true.
Proof.
  assert ((allocate_contiguous_frames 8 sample_frames).1 = None) as Hf by (vm_compute; reflexivity).
  apply pair_of_fst in Hf.
  destruct (frames_refused_only_when_full sample_map _ _ eq_refl sample_frames_reachable) as [_ H].
  destruct (H 8 _ eq_refl Hf) as [_ H']. apply (H' 2); [reflexivity|]. vm_compute. discriminate.
Defined.
