(* ===== verification/Elf.v ===== *)
(** * ELF images (kernel/src/exec/elf.rs)

    The parser of 64-bit ELF executables: the checks of the header, the walk
    over the program headers and the bounds check of every loadable segment.
    The theorems: what it accepts stays inside the file, and a well-formed
    image is parsed into exactly its loadable segments. *)
From S2P Require Import Prelude.

(** [ExecError] (kernel/src/exec/mod.rs). *)
Inductive ExecError : Type :=
| TooSmall
| NotElf
| Not64Bit
| NotLittleEndian
| WrongArchitecture
| NotExecutable
| InvalidProgramHeader
| SegmentOverflow
| NoLoadableSegments
| MemoryAllocationFailed
| PageTableError
| ExecFileNotFound
| ExecPermissionDenied
| ProcessTableFull
| InvalidSyscall
| ProcessNotFound
| LoadFailed.
#[global] Instance ExecError_eq_dec : EqDecision ExecError.
Proof. solve_decision. Defined.

(** [SegmentFlags] (kernel/src/exec/process.rs): a bit set. *)
Definition SEG_READ : Z := 1.
Definition SEG_WRITE : Z := 2.
Definition SEG_EXECUTE : Z := 4.
Definition seg_contains (flags f : Z) : bool := Z.land flags f =? f.

Record Elf64Header : Type := mkElfHeader {
  e_ident : bytes;
  e_type : Z; e_machine : Z; e_version : Z;
  e_entry : Z; e_phoff : Z; e_shoff : Z;
  e_flags : Z; e_ehsize : Z; e_phentsize : Z; e_phnum : Z;
  e_shentsize : Z; e_shnum : Z; e_shstrndx : Z;
}.
Record Elf64ProgramHeader : Type := mkProgram {
  p_type : Z; p_flags : Z;
  p_offset : Z; p_vaddr : Z; p_paddr : Z; p_filesz : Z; p_memsz : Z; p_align : Z;
}.

Definition PT_LOAD : Z := 1.
Definition PF_X : Z := 1.
Definition PF_W : Z := 2.
Definition PF_R : Z := 4.

Record ElfSegment : Type := mkSegment {
  sg_vaddr : Z; sg_memsz : Z; sg_filesz : Z; sg_offset : Z; sg_flags : Z; sg_align : Z;
}.
Record ElfInfo : Type := mkElfInfo { entry_point : Z; segments : list ElfSegment; is_pie : bool }.

(** The structures are [repr(C)] without padding and read in place. *)
Definition header_size : Z := 64.
Definition program_size : Z := 56.

Definition header_of_bytes (bs : bytes) : Elf64Header :=
  let u off len := le_val (field off len bs) in
  mkElfHeader (field 0 16 bs) (u 16 2)%nat (u 18 2)%nat (u 20 4)%nat (u 24 8)%nat (u 32 8)%nat (u 40 8)%nat
    (u 48 4)%nat (u 52 2)%nat (u 54 2)%nat (u 56 2)%nat (u 58 2)%nat (u 60 2)%nat (u 62 2)%nat.
Definition program_of_bytes (bs : bytes) : Elf64ProgramHeader :=
  let u off len := le_val (field off len bs) in
  mkProgram (u 0 4)%nat (u 4 4)%nat (u 8 8)%nat (u 16 8)%nat (u 24 8)%nat (u 32 8)%nat (u 40 8)%nat (u 48 8)%nat.

Definition read_struct {T} (size : Z) (decode : bytes -> T) (data : bytes) (offset : Z) : result ExecError T :=
  if sat_add 64 offset size >? blen data then Err InvalidProgramHeader
  else Ok (decode (field (Z.to_nat offset) (Z.to_nat size) data)).

Definition segment_flags (flags : Z) : Z :=
  Z.lor (Z.lor (if negb (Z.land flags PF_R =? 0) then SEG_READ else 0)
               (if negb (Z.land flags PF_W =? 0) then SEG_WRITE else 0))
        (if negb (Z.land flags PF_X =? 0) then SEG_EXECUTE else 0).

Definition segment_of (program : Elf64ProgramHeader) : ElfSegment :=
  mkSegment (p_vaddr program) (p_memsz program) (p_filesz program) (p_offset program)
            (segment_flags (p_flags program)) (p_align program).

(** One turn of the loop over the program headers. *)
Definition parse_program (data : bytes) (ph_offset ph_size : Z) (acc : list ElfSegment) (index : Z) :
    result ExecError (list ElfSegment) :=
  let offset := wrap 64 (ph_offset + sat_mul 64 index ph_size) in
  program ← read_struct program_size program_of_bytes data offset;
  if negb (p_type program =? PT_LOAD) then Ok acc
  else if p_memsz program <? p_filesz program then Err SegmentOverflow
  else
    let file_end := sat_add 64 (p_offset program) (p_filesz program) in
    if file_end >? blen data then Err SegmentOverflow
    else Ok (acc ++ [segment_of program]).

Fixpoint parse_programs (data : bytes) (ph_offset ph_size : Z) (indices : list Z) (acc : list ElfSegment) :
    result ExecError (list ElfSegment) :=
  match indices with
  | [] => Ok acc
  | index :: rest =>
      acc ← parse_program data ph_offset ph_size acc index; parse_programs data ph_offset ph_size rest acc
  end.

Definition parse_elf (data : bytes) : result ExecError ElfInfo :=
  if blen data <? header_size then Err TooSmall
  else
    header ← read_struct header_size header_of_bytes data 0;
    let ident i := bval (nth i (e_ident header) x00) in
    if negb (bool_decide (field 0 4 (e_ident header) = [x7f; x45; x4c; x46])) then Err NotElf
    else if negb (ident 4%nat =? 2) then Err Not64Bit
    else if negb (ident 5%nat =? 1) then Err NotLittleEndian
    else if negb (e_machine header =? 0x3E) then Err WrongArchitecture
    else if negb ((e_type header =? 2) || (e_type header =? 3)) then Err NotExecutable
    else if negb (e_phentsize header =? program_size) then Err InvalidProgramHeader
    else
      segs ← parse_programs data (e_phoff header) (e_phentsize header) (seqZ 0 (e_phnum header)) [];
      if bool_decide (segs = []) then Err NoLoadableSegments
      else Ok (mkElfInfo (e_entry header) segs (e_type header =? 3)).

(** ** Safety of what is accepted *)

(** A loadable segment whose file part lies in a file of [n] bytes. *)
Record segment_ok (n : Z) (s : ElfSegment) : Prop := mkSegmentOk {
  so_file : 0 <= sg_offset s /\ 0 <= sg_filesz s /\ sg_offset s + sg_filesz s <= n;
  so_mem : sg_filesz s <= sg_memsz s < 2 ^ 64;
  so_vaddr : in_u64 (sg_vaddr s);
  so_flags : 0 <= sg_flags s < 8;
}.

Lemma le_val_field_u64 off bs : in_u64 (le_val (field off 8 bs)).
Proof.
  pose proof (le_val_bound (field off 8 bs)) as Hb. unfold in_u. split; [lia|].
  assert (blen (field off 8 bs) <= 8) as Hl by (unfold blen, field; rewrite length_take; lia).
  pose proof (Z.pow_le_mono_r 256 (blen (field off 8 bs)) 8). change (256 ^ 8) with (2 ^ 64) in *. lia.
Qed.

Lemma segment_flags_range f : 0 <= segment_flags f < 8.
Proof.
  unfold segment_flags. destruct (negb _), (negb _), (negb _); split; by vm_compute.
Qed.

Lemma parse_program_ok data off size acc i acc' :
  blen data < 2 ^ 64 - 1 ->
  parse_program data off size acc i = Ok acc' -> Forall (segment_ok (blen data)) acc ->
  Forall (segment_ok (blen data)) acc'.
Proof.
  intros Hlen Hp Hacc. unfold parse_program in Hp. apply result_bind_Ok in Hp as (p & Hread & Hp).
  unfold read_struct in Hread. destruct (_ >? _) in Hread; [done|]. injection Hread as <-.
  set (bs := field _ _ data) in Hp. destruct (negb (_ =? PT_LOAD)); [by injection Hp as <-|].
  destruct (Z.ltb_spec (p_memsz (program_of_bytes bs)) (p_filesz (program_of_bytes bs))) as [|Hmem]; [done|].
  destruct (sat_add 64 _ _ >? blen data) eqn:E; [done|]. injection Hp as <-.
  apply Forall_app. split; [done|]. constructor; [|constructor].
  rewrite Z.gtb_ltb in E. apply Z.ltb_ge in E. rewrite sat_add_le_iff in E by done.
  pose proof (le_val_field_u64 8 bs) as H8. pose proof (le_val_field_u64 16 bs) as H16.
  pose proof (le_val_field_u64 32 bs) as H32. pose proof (le_val_field_u64 40 bs) as H40.
  split; [split_and!| | |]; cbn in *; [apply H8|apply H32|exact E| |exact H16|apply segment_flags_range].
  unfold in_u in H40. lia.
Qed.

Lemma parse_programs_ok data off size l acc acc' :
  blen data < 2 ^ 64 - 1 ->
  parse_programs data off size l acc = Ok acc' -> Forall (segment_ok (blen data)) acc ->
  Forall (segment_ok (blen data)) acc'.
Proof.
  intros Hlen. revert acc. induction l as [|i l IH]; intros acc Hp Hacc; simpl in Hp; [by injection Hp as <-|].
  apply result_bind_Ok in Hp as (acc1 & H1 & H2). eapply IH; [exact H2|]. by eapply parse_program_ok.
Qed.

(** The checks an accepted file has passed. *)
Lemma parse_elf_Ok data info :
  parse_elf data = Ok info ->
  exists header segs, read_struct header_size header_of_bytes data 0 = Ok header /\
    parse_programs data (e_phoff header) (e_phentsize header) (seqZ 0 (e_phnum header)) [] = Ok segs /\
    segs <> [] /\ info = mkElfInfo (e_entry header) segs (e_type header =? 3).
Proof.
  unfold parse_elf. destruct (_ <? _); [done|]. intros H. apply result_bind_Ok in H as (h & Hh & H). exists h.
  do 6 (destruct (negb _) in H; [done|]). apply result_bind_Ok in H as (segs & Hs & H). exists segs.
  destruct (bool_decide_reflect (segs = [])); [done|]. by injection H as <-.
Qed.

(** Whatever bytes a program file holds, if the ELF parser accepts it then
    it has a loadable segment, and every segment's file part lies inside the
    file and is no longer than its memory part: the slice the loader copies
    from is always in range. *)
Theorem elf_segments_in_file data info :
  blen data < 2 ^ 64 - 1 -> parse_elf data = Ok info ->
  segments info <> [] /\ Forall (segment_ok (blen data)) (segments info).
Proof.
  intros Hlen H. apply parse_elf_Ok in H as (h & segs & _ & Hs & Hne & ->). split; [done|].
  eapply parse_programs_ok; [done|exact Hs|constructor].
Qed.

(** ** Well-formed images *)

Definition header_bytes (h : Elf64Header) : bytes :=
  e_ident h ++ le_bytes 2 (e_type h) ++ le_bytes 2 (e_machine h) ++ le_bytes 4 (e_version h) ++
  le_bytes 8 (e_entry h) ++ le_bytes 8 (e_phoff h) ++ le_bytes 8 (e_shoff h) ++ le_bytes 4 (e_flags h) ++
  le_bytes 2 (e_ehsize h) ++ le_bytes 2 (e_phentsize h) ++ le_bytes 2 (e_phnum h) ++
  le_bytes 2 (e_shentsize h) ++ le_bytes 2 (e_shnum h) ++ le_bytes 2 (e_shstrndx h).
Definition program_bytes (p : Elf64ProgramHeader) : bytes :=
  le_bytes 4 (p_type p) ++ le_bytes 4 (p_flags p) ++ le_bytes 8 (p_offset p) ++ le_bytes 8 (p_vaddr p) ++
  le_bytes 8 (p_paddr p) ++ le_bytes 8 (p_filesz p) ++ le_bytes 8 (p_memsz p) ++ le_bytes 8 (p_align p).

(** A file: the header, the program headers right after it, and the rest. *)
Definition image (h : Elf64Header) (programs : list Elf64ProgramHeader) (rest : bytes) : bytes :=
  header_bytes h ++ concat (map program_bytes programs) ++ rest.

Record program_ok (n : Z) (p : Elf64ProgramHeader) : Prop := mkProgramOk {
  po_widths : in_u32 (p_type p) /\ in_u32 (p_flags p) /\ in_u64 (p_offset p) /\ in_u64 (p_vaddr p) /\
              in_u64 (p_paddr p) /\ in_u64 (p_filesz p) /\ in_u64 (p_memsz p) /\ in_u64 (p_align p);
  po_load : p_type p = PT_LOAD -> p_filesz p <= p_memsz p /\ p_offset p + p_filesz p <= n;
}.
Record header_ok (h : Elf64Header) (count : Z) : Prop := mkHeaderOk {
  ho_ident : e_ident h = [x7f; x45; x4c; x46; x02; x01] ++ drop 6 (e_ident h) /\ length (e_ident h) = 16%nat;
  ho_kind : (e_type h = 2 \/ e_type h = 3) /\ e_machine h = 0x3E;
  ho_table : e_phoff h = header_size /\ e_phentsize h = program_size /\ e_phnum h = count /\ count < 2 ^ 16;
  ho_widths : in_u32 (e_version h) /\ in_u64 (e_entry h) /\ in_u64 (e_shoff h) /\ in_u32 (e_flags h) /\
              in_u16 (e_ehsize h) /\ in_u16 (e_shentsize h) /\ in_u16 (e_shnum h) /\ in_u16 (e_shstrndx h);
}.

Lemma length_program_bytes p : length (program_bytes p) = 56%nat.
Proof. done. Qed.
Lemma length_header_bytes h : length (e_ident h) = 16%nat -> length (header_bytes h) = 64%nat.
Proof. intros H. unfold header_bytes. rewrite length_app, H. done. Qed.

Lemma program_roundtrip n p : program_ok n p -> program_of_bytes (program_bytes p) = p.
Proof.
  intros [(H1 & H2 & H3 & H4 & H5 & H6 & H7 & H8) _]. unfold program_of_bytes, program_bytes.
  repeat field_step. rewrite !le_val_le_bytes_small by done. by destruct p.
Qed.

Lemma header_roundtrip h count : 0 <= count -> header_ok h count -> header_of_bytes (header_bytes h) = h.
Proof.
  intros Hc [[_ Hid] [Ht Hm] (Ho & Hs & Hn & Hlt) (H1 & H2 & H3 & H4 & H5 & H6 & H7 & H8)].
  unfold header_of_bytes, header_bytes. repeat field_step.
  rewrite !le_val_le_bytes_small; [by destruct h|..]; try done; unfold header_size, program_size in *;
    rewrite ?Hm, ?Ho, ?Hs, ?Hn; try done; destruct Ht as [->| ->]; done.
Qed.

Definition loadable (programs : list Elf64ProgramHeader) : list ElfSegment :=
  map segment_of (List.filter (fun p => p_type p =? PT_LOAD) programs).

Lemma length_program_table ps : length (concat (map program_bytes ps)) = (56 * length ps)%nat.
Proof. induction ps as [|p ps IH]; [done|]. cbn [map concat]. rewrite length_app, length_program_bytes, IH. simpl length. lia. Qed.

Lemma field_middle a b c : field (length a) (length b) (a ++ b ++ c) = b.
Proof. unfold field. by rewrite drop_app_length, take_app_length. Qed.

Lemma read_program_at h l1 p l2 rest :
  length (e_ident h) = 16%nat ->
  field (Z.to_nat (header_size + blen l1 * program_size)) (Z.to_nat program_size) (image h (l1 ++ p :: l2) rest) =
  program_bytes p.
Proof.
  intros Hid. unfold image. rewrite map_app, concat_app. cbn [map concat]. rewrite <- !app_assoc.
  rewrite (app_assoc (header_bytes h)).
  replace (Z.to_nat (header_size + blen l1 * program_size))
    with (length (header_bytes h ++ concat (map program_bytes l1))).
  2:{ rewrite length_app, length_header_bytes, length_program_table by done. unfold header_size, program_size, blen. lia. }
  change (Z.to_nat program_size) with (length (program_bytes p)). apply field_middle.
Qed.

Lemma length_image h ps rest :
  length (e_ident h) = 16%nat -> blen (image h ps rest) = header_size + blen ps * program_size + blen rest.
Proof.
  intros Hid. unfold image, blen. rewrite !length_app, length_header_bytes, length_program_table by done.
  unfold header_size, program_size. lia.
Qed.

Lemma parse_image_program h l1 p l2 rest acc :
  length (e_ident h) = 16%nat -> blen (l1 ++ p :: l2) < 2 ^ 16 -> blen (image h (l1 ++ p :: l2) rest) < 2 ^ 64 - 1 ->
  program_ok (blen (image h (l1 ++ p :: l2) rest)) p ->
  parse_program (image h (l1 ++ p :: l2) rest) header_size program_size acc (blen l1) = Ok (acc ++ loadable [p]).
Proof.
  intros Hid Hn Hlen Hp. unfold parse_program.
  assert (blen (l1 ++ p :: l2) = blen l1 + 1 + blen l2) as Hl by (unfold blen; rewrite length_app; simpl length; lia).
  pose proof (blen_nonneg l1). pose proof (blen_nonneg l2). pose proof (blen_nonneg rest).
  assert (wrap 64 (header_size + sat_mul 64 (blen l1) program_size) = header_size + blen l1 * program_size) as ->.
  { unfold sat_mul, header_size, program_size. rewrite Z.min_l by lia. apply wrap_small. lia. }
  unfold read_struct. rewrite read_program_at by done.
  assert ((sat_add 64 (header_size + blen l1 * program_size) program_size >?
           blen (image h (l1 ++ p :: l2) rest)) = false) as ->.
  { rewrite Z.gtb_ltb. apply Z.ltb_ge. rewrite length_image by done. unfold header_size, program_size.
    rewrite sat_add_spec by lia. lia. }
  unfold mbind, result_bind. cbn beta iota zeta. rewrite (program_roundtrip _ p Hp). unfold loadable. simpl List.filter.
  destruct (Z.eqb_spec (p_type p) PT_LOAD) as [Ht|Ht]; cbn; [|by rewrite app_nil_r].
  destruct Hp as [_ Hload]. destruct (Hload Ht) as [Hm Hf].
  rewrite (proj2 (Z.ltb_ge _ _)) by lia.
  assert ((sat_add 64 (p_offset p) (p_filesz p) >? blen (image h (l1 ++ p :: l2) rest)) = false) as ->; [|done].
  rewrite Z.gtb_ltb. apply Z.ltb_ge. unfold sat_add. lia.
Qed.

Lemma parse_image_programs h l1 l2 rest acc :
  length (e_ident h) = 16%nat -> blen (l1 ++ l2) < 2 ^ 16 -> blen (image h (l1 ++ l2) rest) < 2 ^ 64 - 1 ->
  Forall (program_ok (blen (image h (l1 ++ l2) rest))) l2 ->
  parse_programs (image h (l1 ++ l2) rest) header_size program_size (seqZ (blen l1) (blen l2)) acc =
  Ok (acc ++ loadable l2).
Proof.
  intros Hid. revert l1 acc. induction l2 as [|p l2 IH]; intros l1 acc Hn Hlen Hps.
  { simpl. by rewrite app_nil_r. }
  rewrite seqZ_cons by (unfold blen; simpl length; lia). cbn [parse_programs].
  apply Forall_cons in Hps as [Hp Hps]. rewrite parse_image_program by done. simpl mbind.
  replace (Z.succ (blen l1)) with (blen (l1 ++ [p])) by (unfold blen; rewrite length_app; simpl; lia).
  replace (Z.pred (blen (p :: l2))) with (blen l2) by (unfold blen; simpl length; lia).
  assert (l1 ++ p :: l2 = (l1 ++ [p]) ++ l2) as Hl by (by rewrite <- app_assoc).
  rewrite Hl in *. rewrite IH by done. f_equal. rewrite <- app_assoc. f_equal. unfold loadable. simpl List.filter.
  destruct (p_type p =? PT_LOAD); done.
Qed.

(** A well-formed executable (header, program headers right after it,
    segments inside the file) is parsed into its entry point and exactly its
    loadable segments, in order. *)
Theorem elf_parse_image h programs rest :
  let data := image h programs rest in
  header_ok h (blen programs) -> Forall (program_ok (blen data)) programs -> blen data < 2 ^ 64 - 1 ->
  loadable programs <> [] ->
  parse_elf data = Ok (mkElfInfo (e_entry h) (loadable programs) (e_type h =? 3)).
Proof.
  intros data Hh Hps Hlen Hne. pose proof Hh as [[Hid Hid'] [Ht Hm] (Ho & Hs & Hn & Hlt) _].
  assert (header_size <= blen data) as Hsz.
  { unfold data. rewrite length_image by done. pose proof (blen_nonneg programs). pose proof (blen_nonneg rest).
    unfold program_size. lia. }
  unfold parse_elf. rewrite (proj2 (Z.ltb_ge _ _)) by done.
  assert (read_struct header_size header_of_bytes data 0 = Ok h) as ->.
  { unfold read_struct. rewrite sat_add_spec, Z.gtb_ltb by done.
    rewrite (proj2 (Z.ltb_ge _ _)) by lia. f_equal. etransitivity; [|apply (header_roundtrip h (blen programs)); [apply blen_nonneg|done]].
    f_equal. unfold data, image. apply field_app_here. by apply length_header_bytes. }
  assert (parse_programs data (e_phoff h) (e_phentsize h) (seqZ 0 (e_phnum h)) [] = Ok (loadable programs)) as Hp.
  { rewrite Ho, Hs, Hn. by apply (parse_image_programs h [] programs rest []). }
  unfold mbind, result_bind. cbn beta iota zeta. rewrite Hp, Hm, Hs, Hid.
  assert ((e_type h =? 2) || (e_type h =? 3) = true) as -> by (by destruct Ht as [-> | ->]).
  rewrite (bool_decide_eq_true_2 (field 0 4 _ = _)), bool_decide_eq_false_2 by done. reflexivity.
Qed.

(** A program of one page: header, one loadable and one other program header. *)
Definition hello_header : Elf64Header :=
  mkElfHeader ([x7f; x45; x4c; x46; x02; x01] ++ zeros 10) 2 0x3E 1 0x400080 64 0 0 64 56 2 0 0 0.
Definition hello_programs : list Elf64ProgramHeader :=
  [mkProgram 1 5 0 0x400000 0x400000 176 4096 4096; mkProgram 4 4 64 0 0 56 56 8].

Lemma elf_parse_image_witness :
  parse_elf (image hello_header hello_programs []) =
  Ok (mkElfInfo 0x400080 [mkSegment 0x400000 4096 176 0 5 4096] false).
Proof.
  apply (elf_parse_image hello_header hello_programs []).
  - split; [by vm_compute|split; [by left|done]|done|done].
  - repeat constructor; vm_compute; intuition congruence.
  - reflexivity.
  - discriminate.
Defined.

Lemma elf_segments_in_file_witness :
  Forall (segment_ok 176) [mkSegment 0x400000 4096 176 0 5 4096].
Proof.
  apply (elf_segments_in_file (image hello_header hello_programs [])
           (mkElfInfo 0x400080 [mkSegment 0x400000 4096 176 0 5 4096] false)); reflexivity.
Defined.
