(* ===== verification/Caps.v ===== *)
(** * Capability sets (kernel/src/security/capabilities.rs)

    Capabilities are bits of a 64-bit word.  This file has the bits, their
    names, the default sets and the rules by which a set is inherited; the
    functions that read or change a process are in [Exec]. *)
From S2P Require Import Prelude RustStr Auth Session.

(** The flags, and the bit of each. *)
Inductive Capability : Type :=
| USER_ADMIN | FS_ADMIN | FILE_READ_ALL | FILE_WRITE_ALL | PROCESS_ADMIN | NET_ADMIN | NET_RAW
| NET_BIND_SERVICE | HW_ACCESS | SYS_TIME | SYS_POWER | PKG_INSTALL | QUANTUM_ALLOC | QUANTUM_EXECUTE
| QUANTUM_REMOTE | CRYPTO_PQ | CRYPTO_KEYGEN | ENTROPY_ACCESS | AI_INFERENCE | SECURITY_ADMIN | AUDIT_READ
| FIREWALL_BYPASS.
Definition cap_bit (c : Capability) : Z :=
  Z.shiftl 1 (match c with
    | USER_ADMIN => 0 | FS_ADMIN => 1 | FILE_READ_ALL => 2 | FILE_WRITE_ALL => 3 | PROCESS_ADMIN => 4
    | NET_ADMIN => 5 | NET_RAW => 6 | NET_BIND_SERVICE => 7 | HW_ACCESS => 8 | SYS_TIME => 9 | SYS_POWER => 10
    | PKG_INSTALL => 11 | QUANTUM_ALLOC => 16 | QUANTUM_EXECUTE => 17 | QUANTUM_REMOTE => 18 | CRYPTO_PQ => 19
    | CRYPTO_KEYGEN => 20 | ENTROPY_ACCESS => 21 | AI_INFERENCE => 22 | SECURITY_ADMIN => 23 | AUDIT_READ => 24
    | FIREWALL_BYPASS => 25
    end).
Coercion cap_bit : Capability >-> Z.

Definition union_of (l : list Capability) : Z := fold_left (fun caps c => Z.lor caps (cap_bit c)) l 0.

Definition ADMIN_DEFAULT : Z :=
  union_of [USER_ADMIN; FS_ADMIN; FILE_READ_ALL; FILE_WRITE_ALL; PROCESS_ADMIN; NET_ADMIN; NET_RAW;
            NET_BIND_SERVICE; HW_ACCESS; SYS_TIME; SYS_POWER; PKG_INSTALL; QUANTUM_ALLOC; QUANTUM_EXECUTE;
            QUANTUM_REMOTE; CRYPTO_PQ; CRYPTO_KEYGEN; ENTROPY_ACCESS; AI_INFERENCE; SECURITY_ADMIN;
            AUDIT_READ; FIREWALL_BYPASS].
Definition USER_DEFAULT : Z :=
  union_of [QUANTUM_ALLOC; QUANTUM_EXECUTE; CRYPTO_PQ; CRYPTO_KEYGEN; AI_INFERENCE; NET_BIND_SERVICE].
Definition SANDBOXED : Z := 0.

Definition ALL_CAPABILITIES : list (Capability * bytes) :=
  [(USER_ADMIN, str "USER_ADMIN"); (FS_ADMIN, str "FS_ADMIN"); (FILE_READ_ALL, str "FILE_READ_ALL");
   (FILE_WRITE_ALL, str "FILE_WRITE_ALL"); (PROCESS_ADMIN, str "PROCESS_ADMIN"); (NET_ADMIN, str "NET_ADMIN");
   (NET_RAW, str "NET_RAW"); (NET_BIND_SERVICE, str "NET_BIND_SERVICE"); (HW_ACCESS, str "HW_ACCESS");
   (SYS_TIME, str "SYS_TIME"); (SYS_POWER, str "SYS_POWER"); (PKG_INSTALL, str "PKG_INSTALL");
   (QUANTUM_ALLOC, str "QUANTUM_ALLOC"); (QUANTUM_EXECUTE, str "QUANTUM_EXECUTE");
   (QUANTUM_REMOTE, str "QUANTUM_REMOTE"); (CRYPTO_PQ, str "CRYPTO_PQ"); (CRYPTO_KEYGEN, str "CRYPTO_KEYGEN");
   (ENTROPY_ACCESS, str "ENTROPY_ACCESS"); (AI_INFERENCE, str "AI_INFERENCE");
   (SECURITY_ADMIN, str "SECURITY_ADMIN"); (AUDIT_READ, str "AUDIT_READ");
   (FIREWALL_BYPASS, str "FIREWALL_BYPASS")].

(** The set operations of the generated type. *)
Definition cap_contains (caps cap : Z) : bool := Z.land caps cap =? cap.
Definition cap_remove (caps cap : Z) : Z := Z.ldiff caps cap.

Definition default_for_identity (id : Z) (r : UserRole) : Z :=
  if (id =? 0) || bool_decide (r = Admin) then ADMIN_DEFAULT else USER_DEFAULT.

Definition cap_role_for_uid (CURRENT_SESSION : option Session) (USER_DB : UserDB) (id : Z) : UserRole :=
  let from_db := match find_by_uid USER_DB id with
                 | Some user => role user
                 | None => if id =? 0 then Admin else User
                 end in
  match current_user CURRENT_SESSION with
  | Some user => if uid user =? id then role user else from_db
  | None => from_db
  end.

Definition default_for_uid (CURRENT_SESSION : option Session) (USER_DB : UserDB) (id : Z) : Z :=
  default_for_identity id (cap_role_for_uid CURRENT_SESSION USER_DB id).

Definition parse_capability (name : bytes) : option Z :=
  (fun c => cap_bit c.1) <$> find_first (fun '(_, label) => eq_ignore_ascii_case label name) ALL_CAPABILITIES.
Definition all_capability_names : list bytes := map snd ALL_CAPABILITIES.

Definition summary_add (caps : Z) (summary : bytes) (c : Capability * bytes) : bytes :=
  let '(capability, name) := c in
  if cap_contains caps (cap_bit capability)
  then (if bool_decide (summary = []) then [] else summary ++ str ",") ++ name
  else summary.
Definition summarize_capabilities (caps : Z) : bytes :=
  let summary := fold_left (summary_add caps) ALL_CAPABILITIES [] in
  if bool_decide (summary = []) then str "none" else summary.

Definition newline : bytes := [x0a].
Fixpoint join (sep : bytes) (l : list bytes) : bytes :=
  match l with [] => [] | [x] => x | x :: l' => x ++ sep ++ join sep l' end.
Definition format_capabilities (caps : Z) : bytes :=
  join newline (map (fun '(capability, name) => str "  " ++ (if cap_contains caps (cap_bit capability) then str "[x]" else str "[ ]")
                                           ++ str " " ++ name) ALL_CAPABILITIES).

(** ** Sets of capabilities *)

(** Every capability of [a] is one of [b]. *)
Definition cap_subset (a b : Z) : Prop := forall i, 0 <= i -> Z.testbit a i = true -> Z.testbit b i = true.
#[global] Instance cap_subset_preorder : PreOrder cap_subset.
Proof. split; [by intros a i|]. intros a b c H1 H2 i Hi Ha. auto. Qed.

Lemma cap_subset_land_l a b : cap_subset (Z.land a b) a.
Proof. intros i Hi. rewrite Z.land_spec. by intros [? _]%andb_true_iff. Qed.
Lemma cap_subset_land_r a b : cap_subset (Z.land a b) b.
Proof. intros i Hi. rewrite Z.land_spec. by intros [_ ?]%andb_true_iff. Qed.
Lemma cap_subset_remove a b : cap_subset (cap_remove a b) a.
Proof. intros i Hi. unfold cap_remove. rewrite Z.ldiff_spec. by intros [? _]%andb_true_iff. Qed.
Create HintDb caps.
#[export] Hint Resolve cap_subset_land_l cap_subset_land_r cap_subset_remove : caps.

Lemma cap_contains_subset a b c : cap_subset a b -> cap_contains a c = true -> cap_contains b c = true.
Proof.
  unfold cap_contains. rewrite !Z.eqb_eq. intros Hab Hac. apply Z.bits_inj'. intros i Hi.
  apply (f_equal (fun z => Z.testbit z i)) in Hac. rewrite Z.land_spec in *.
  destruct (Z.testbit c i) eqn:Ec; [|by rewrite andb_false_r]. rewrite andb_true_r in *. by apply Hab.
Qed.

Lemma cap_contains_removed a c : c <> 0 -> 0 <= c -> cap_contains (cap_remove a c) c = false.
Proof.
  intros Hc Hpos. unfold cap_contains, cap_remove. apply Z.eqb_neq. intros H. apply Hc, Z.bits_inj'. intros i Hi.
  apply (f_equal (fun z => Z.testbit z i)) in H. rewrite Z.land_spec, Z.ldiff_spec in H. rewrite Z.bits_0.
  destruct (Z.testbit c i); [|done]. by rewrite andb_false_r in H.
Qed.
