(* ===== verification/Process.v ===== *)
(** * Processes and the scheduler (kernel/src/exec)

    Descriptor tables ([fd_table.rs]), user address spaces
    ([address_space.rs]), processes ([process.rs]), the process table and its
    users ([mod.rs]) and the scheduler ([scheduler.rs], [context.rs]).  The
    contents of a kernel stack are never inspected: only its length is kept.
    Whether the timer interrupt finds the process table unlocked is an input of
    [timer_tick]. *)
From S2P Require Import Prelude RustStr Elf.

(** ** Descriptors ([fd_table.rs]) *)

Inductive FileHandleAccess : Type := ReadOnlyAccess | CreateWrite.
#[global] Instance FileHandleAccess_eq_dec : EqDecision FileHandleAccess.
Proof. solve_decision. Defined.

Record FileHandle : Type := mkFileHandle {
  fh_path : bytes; fh_offset : Z; fh_access : FileHandleAccess; fh_staged_data : bytes;
}.
Record DirectoryEntryHandle : Type := mkDirEntryHandle { dh_name : bytes; dh_is_dir : bool }.
Record DirectoryHandle : Type := mkDirectoryHandle {
  dh_path : bytes; dh_entries : list DirectoryEntryHandle; dh_cursor : Z;
}.

Inductive DescriptorTarget : Type :=
| Stdin
| Stdout
| Stderr
| TargetFile (handle : FileHandle)
| TargetDirectory (handle : DirectoryHandle)
| Socket (id : Z)
| Pipe (id : Z).

Record FileDescriptor : Type := mkFd { fd_number : Z; fd_target : DescriptorTarget }.
Abbreviation FileDescriptorTable := (list (option FileDescriptor)).

Definition new_with_stdio : FileDescriptorTable :=
  [Some (mkFd 0 Stdin); Some (mkFd 1 Stdout); Some (mkFd 2 Stderr)].

Definition is_none {A} (o : option A) : bool := match o with None => true | Some _ => false end.

Definition fd_insert (target : DescriptorTarget) (t : FileDescriptorTable) : Z * FileDescriptorTable :=
  match position is_none t with
  | Some index => let fd := wrap 32 (Z.of_nat index) in (fd, <[index := Some (mkFd fd target)]> t)
  | None => let fd := wrap 32 (blen t) in (fd, t ++ [Some (mkFd fd target)])
  end.

Definition fd_get (fd : Z) (t : FileDescriptorTable) : option FileDescriptor :=
  match t !! Z.to_nat fd with Some (Some d) => Some d | _ => None end.

(** Assignment through [get_mut]. *)
Definition fd_set_target (fd : Z) (target : DescriptorTarget) (t : FileDescriptorTable) : FileDescriptorTable :=
  match fd_get fd t with
  | Some d => <[Z.to_nat fd := Some (mkFd (fd_number d) target)]> t
  | None => t
  end.

Definition fd_close (fd : Z) (t : FileDescriptorTable) : bool * FileDescriptorTable :=
  match t !! Z.to_nat fd with
  | Some (Some _) => (true, <[Z.to_nat fd := None]> t)
  | _ => (false, t)
  end.

Fixpoint close_all_from (index : Z) (t : FileDescriptorTable) : list (Z * DescriptorTarget) :=
  match t with
  | [] => []
  | Some d :: rest => (wrap 32 index, fd_target d) :: close_all_from (index + 1) rest
  | None :: rest => close_all_from (index + 1) rest
  end.
Definition close_all (t : FileDescriptorTable) : list (Z * DescriptorTarget) * FileDescriptorTable :=
  (close_all_from 0 t, map (fun _ => None) t).

(** ** Address spaces ([address_space.rs]) *)

Record MemorySegment : Type := mkMemSegment { ms_vaddr : Z; ms_size : Z; ms_flags : Z }.

Record AddressSpace : Type := mkAddressSpace {
  as_segments : list MemorySegment;
  brk : Z;
  initial_brk : Z;
  heap_limit : Z;
  stack_top : Z;
  stack_bottom : Z;
  mmap_top : Z;
  as_page_table_phys : Z;
}.

Definition USER_HEAP_BASE : Z := 0x10000000.
Definition USER_STACK_TOP : Z := 0x7FFFF000.
Definition USER_STACK_SIZE : Z := 0x200000.
Definition USER_MMAP_TOP : Z := 0x60000000.

Definition address_space_new (page_table_phys : Z) : AddressSpace :=
  mkAddressSpace [] USER_HEAP_BASE USER_HEAP_BASE USER_MMAP_TOP USER_STACK_TOP
    (USER_STACK_TOP - USER_STACK_SIZE) USER_MMAP_TOP page_table_phys.

Definition register_segment (vaddr size flags : Z) (a : AddressSpace) : AddressSpace :=
  mkAddressSpace (as_segments a ++ [mkMemSegment vaddr size flags]) (brk a) (initial_brk a) (heap_limit a)
    (stack_top a) (stack_bottom a) (mmap_top a) (as_page_table_phys a).

(** [& !0xFFF] *)
Definition page_floor (z : Z) : Z := z - z mod 4096.

Definition max_of (l : list Z) : option Z :=
  match l with [] => None | x :: l' => Some (fold_left Z.max l' x) end.

Definition finalize_heap_layout (a : AddressSpace) : AddressSpace :=
  let heap_base := default USER_HEAP_BASE
                     (max_of (map (fun s => wrap 64 (ms_vaddr s + ms_size s)) (as_segments a))) in
  let aligned := page_floor (wrap 64 (heap_base + 0xFFF)) in
  let start := Z.max aligned USER_HEAP_BASE in
  mkAddressSpace (as_segments a) start start (Z.min (mmap_top a) (stack_bottom a))
    (stack_top a) (stack_bottom a) (mmap_top a) (as_page_table_phys a).

Definition range_within_region (start end_ region_start region_end : Z) : bool :=
  (region_start <? region_end) && (region_start <=? start) && (end_ <=? region_end).

Definition checked_add (w a b : Z) : option Z := if a + b <? 2 ^ w then Some (a + b) else None.

Definition contains_user_range (start len : Z) (a : AddressSpace) : bool :=
  if len =? 0 then true
  else match checked_add 64 start len with
  | None => false
  | Some end_ =>
      if (start =? 0) || (end_ <=? start) then false
      else range_within_region start end_ (stack_bottom a) (stack_top a)
           || range_within_region start end_ (initial_brk a) (brk a)
           || existsb (fun s => match checked_add 64 (ms_vaddr s) (ms_size s) with
                                | None => false
                                | Some segment_end => range_within_region start end_ (ms_vaddr s) segment_end
                                end) (as_segments a)
  end.

(** W^X ([security/memory_protection.rs]). *)
Definition writable_and_executable (s : MemorySegment) : bool :=
  seg_contains (ms_flags s) SEG_WRITE && seg_contains (ms_flags s) SEG_EXECUTE.
Definition verify_wx (segs : list MemorySegment) : bool := forallb (fun s => negb (writable_and_executable s)) segs.
Definition enforce_wx_segment (s : MemorySegment) : MemorySegment :=
  if writable_and_executable s
  then mkMemSegment (ms_vaddr s) (ms_size s) (Z.ldiff (ms_flags s) SEG_EXECUTE) else s.
Definition enforce_wx (segs : list MemorySegment) : Z * list MemorySegment :=
  (blen (List.filter writable_and_executable segs), map enforce_wx_segment segs).

(** ** Processes ([process.rs]) *)

Inductive ProcessImageKind : Type := KernelShell | ShellCommand | ShellScript | ElfImage.
Inductive ProcessState : Type := Ready | Running | Blocked | Stopped | Zombie.
Inductive BlockReason : Type :=
| IoWait (n : Z) | Sleep (ticks : Z) | WaitChild (pid : Z) | QuantumJob (id : bytes)
| NetworkRecv | PipeRead | InputWait.
Inductive Priority : Type := RealTime | System | Quantum | Interactive | Normal | Batch | Idle.
#[global] Instance ProcessImageKind_eq_dec : EqDecision ProcessImageKind.
Proof. solve_decision. Defined.
#[global] Instance ProcessState_eq_dec : EqDecision ProcessState.
Proof. solve_decision. Defined.
#[global] Instance Priority_eq_dec : EqDecision Priority.
Proof. solve_decision. Defined.

Record CpuContext : Type := mkContext {
  rax : Z; rbx : Z; rcx : Z; rdx : Z; rsi : Z; rdi : Z; rbp : Z; rsp : Z;
  r8 : Z; r9 : Z; r10 : Z; r11 : Z; r12 : Z; r13 : Z; r14 : Z; r15 : Z;
  rip : Z; rflags : Z; cs : Z; ss : Z; cr3 : Z; fpu_state : bytes; fpu_valid : bool;
}.
Definition context_new : CpuContext :=
  mkContext 0 0 0 0 0 0 0 0 0 0 0 0 0 0 0 0 0 0x202 0x23 0x1B 0 (zeros 512) false.
Definition for_user (entry stack page_table : Z) : CpuContext :=
  mkContext 0 0 0 0 0 0 0 stack 0 0 0 0 0 0 0 0 entry 0x202 0x23 0x1B page_table (zeros 512) false.

Record Process : Type := mkProcess {
  pid : Z;
  parent_pid : Z;
  pr_name : bytes;
  pr_uid : Z;
  state : ProcessState;
  context : CpuContext;
  exit_code : option Z;
  page_table_phys : Z;
  address_space : AddressSpace;
  kernel_stack_len : Z;
  kernel_stack_top : Z;
  fd_table : FileDescriptorTable;
  cwd : bytes;
  env : list (bytes * bytes);
  quantum_registers : list Z;
  crypto_keys : list Z;
  priority : Priority;
  cpu_ticks : Z;
  time_slice : Z;
  pr_created_at : Z;
  blocked_on : option BlockReason;
  syscall_count : Z;
  page_fault_count : Z;
  memory_pages : Z;
  task_id : option Z;
  image_kind : ProcessImageKind;
  image_path : bytes;
  effective_capabilities : Z;
}.

Definition set_pid (v : Z) (p : Process) : Process :=
  mkProcess v (parent_pid p) (pr_name p) (pr_uid p) (state p) (context p) (exit_code p) (page_table_phys p)
    (address_space p) (kernel_stack_len p) (kernel_stack_top p) (fd_table p) (cwd p) (env p)
    (quantum_registers p) (crypto_keys p) (priority p) (cpu_ticks p) (time_slice p) (pr_created_at p)
    (blocked_on p) (syscall_count p) (page_fault_count p) (memory_pages p) (task_id p) (image_kind p)
    (image_path p) (effective_capabilities p).
Definition set_pr_name (v : bytes) (p : Process) : Process :=
  mkProcess (pid p) (parent_pid p) v (pr_uid p) (state p) (context p) (exit_code p) (page_table_phys p)
    (address_space p) (kernel_stack_len p) (kernel_stack_top p) (fd_table p) (cwd p) (env p)
    (quantum_registers p) (crypto_keys p) (priority p) (cpu_ticks p) (time_slice p) (pr_created_at p)
    (blocked_on p) (syscall_count p) (page_fault_count p) (memory_pages p) (task_id p) (image_kind p)
    (image_path p) (effective_capabilities p).
Definition set_state (v : ProcessState) (p : Process) : Process :=
  mkProcess (pid p) (parent_pid p) (pr_name p) (pr_uid p) v (context p) (exit_code p) (page_table_phys p)
    (address_space p) (kernel_stack_len p) (kernel_stack_top p) (fd_table p) (cwd p) (env p)
    (quantum_registers p) (crypto_keys p) (priority p) (cpu_ticks p) (time_slice p) (pr_created_at p)
    (blocked_on p) (syscall_count p) (page_fault_count p) (memory_pages p) (task_id p) (image_kind p)
    (image_path p) (effective_capabilities p).
Definition set_context (v : CpuContext) (p : Process) : Process :=
  mkProcess (pid p) (parent_pid p) (pr_name p) (pr_uid p) (state p) v (exit_code p) (page_table_phys p)
    (address_space p) (kernel_stack_len p) (kernel_stack_top p) (fd_table p) (cwd p) (env p)
    (quantum_registers p) (crypto_keys p) (priority p) (cpu_ticks p) (time_slice p) (pr_created_at p)
    (blocked_on p) (syscall_count p) (page_fault_count p) (memory_pages p) (task_id p) (image_kind p)
    (image_path p) (effective_capabilities p).
Definition set_exit_code (v : option Z) (p : Process) : Process :=
  mkProcess (pid p) (parent_pid p) (pr_name p) (pr_uid p) (state p) (context p) v (page_table_phys p)
    (address_space p) (kernel_stack_len p) (kernel_stack_top p) (fd_table p) (cwd p) (env p)
    (quantum_registers p) (crypto_keys p) (priority p) (cpu_ticks p) (time_slice p) (pr_created_at p)
    (blocked_on p) (syscall_count p) (page_fault_count p) (memory_pages p) (task_id p) (image_kind p)
    (image_path p) (effective_capabilities p).
Definition set_page_table_phys (v : Z) (p : Process) : Process :=
  mkProcess (pid p) (parent_pid p) (pr_name p) (pr_uid p) (state p) (context p) (exit_code p) v (address_space
    p) (kernel_stack_len p) (kernel_stack_top p) (fd_table p) (cwd p) (env p) (quantum_registers p)
    (crypto_keys p) (priority p) (cpu_ticks p) (time_slice p) (pr_created_at p) (blocked_on p) (syscall_count
    p) (page_fault_count p) (memory_pages p) (task_id p) (image_kind p) (image_path p) (effective_capabilities
    p).
Definition set_address_space (v : AddressSpace) (p : Process) : Process :=
  mkProcess (pid p) (parent_pid p) (pr_name p) (pr_uid p) (state p) (context p) (exit_code p) (page_table_phys
    p) v (kernel_stack_len p) (kernel_stack_top p) (fd_table p) (cwd p) (env p) (quantum_registers p)
    (crypto_keys p) (priority p) (cpu_ticks p) (time_slice p) (pr_created_at p) (blocked_on p) (syscall_count
    p) (page_fault_count p) (memory_pages p) (task_id p) (image_kind p) (image_path p) (effective_capabilities
    p).
Definition set_fd_table (v : FileDescriptorTable) (p : Process) : Process :=
  mkProcess (pid p) (parent_pid p) (pr_name p) (pr_uid p) (state p) (context p) (exit_code p) (page_table_phys
    p) (address_space p) (kernel_stack_len p) (kernel_stack_top p) v (cwd p) (env p) (quantum_registers p)
    (crypto_keys p) (priority p) (cpu_ticks p) (time_slice p) (pr_created_at p) (blocked_on p) (syscall_count
    p) (page_fault_count p) (memory_pages p) (task_id p) (image_kind p) (image_path p) (effective_capabilities
    p).
Definition set_pr_cwd (v : bytes) (p : Process) : Process :=
  mkProcess (pid p) (parent_pid p) (pr_name p) (pr_uid p) (state p) (context p) (exit_code p) (page_table_phys
    p) (address_space p) (kernel_stack_len p) (kernel_stack_top p) (fd_table p) v (env p) (quantum_registers
    p) (crypto_keys p) (priority p) (cpu_ticks p) (time_slice p) (pr_created_at p) (blocked_on p)
    (syscall_count p) (page_fault_count p) (memory_pages p) (task_id p) (image_kind p) (image_path p)
    (effective_capabilities p).
Definition set_env (v : list (bytes * bytes)) (p : Process) : Process :=
  mkProcess (pid p) (parent_pid p) (pr_name p) (pr_uid p) (state p) (context p) (exit_code p) (page_table_phys
    p) (address_space p) (kernel_stack_len p) (kernel_stack_top p) (fd_table p) (cwd p) v (quantum_registers
    p) (crypto_keys p) (priority p) (cpu_ticks p) (time_slice p) (pr_created_at p) (blocked_on p)
    (syscall_count p) (page_fault_count p) (memory_pages p) (task_id p) (image_kind p) (image_path p)
    (effective_capabilities p).
Definition set_quantum_registers (v : list Z) (p : Process) : Process :=
  mkProcess (pid p) (parent_pid p) (pr_name p) (pr_uid p) (state p) (context p) (exit_code p) (page_table_phys
    p) (address_space p) (kernel_stack_len p) (kernel_stack_top p) (fd_table p) (cwd p) (env p) v (crypto_keys
    p) (priority p) (cpu_ticks p) (time_slice p) (pr_created_at p) (blocked_on p) (syscall_count p)
    (page_fault_count p) (memory_pages p) (task_id p) (image_kind p) (image_path p) (effective_capabilities
    p).
Definition set_cpu_ticks (v : Z) (p : Process) : Process :=
  mkProcess (pid p) (parent_pid p) (pr_name p) (pr_uid p) (state p) (context p) (exit_code p) (page_table_phys
    p) (address_space p) (kernel_stack_len p) (kernel_stack_top p) (fd_table p) (cwd p) (env p)
    (quantum_registers p) (crypto_keys p) (priority p) v (time_slice p) (pr_created_at p) (blocked_on p)
    (syscall_count p) (page_fault_count p) (memory_pages p) (task_id p) (image_kind p) (image_path p)
    (effective_capabilities p).
Definition set_time_slice (v : Z) (p : Process) : Process :=
  mkProcess (pid p) (parent_pid p) (pr_name p) (pr_uid p) (state p) (context p) (exit_code p) (page_table_phys
    p) (address_space p) (kernel_stack_len p) (kernel_stack_top p) (fd_table p) (cwd p) (env p)
    (quantum_registers p) (crypto_keys p) (priority p) (cpu_ticks p) v (pr_created_at p) (blocked_on p)
    (syscall_count p) (page_fault_count p) (memory_pages p) (task_id p) (image_kind p) (image_path p)
    (effective_capabilities p).
Definition set_syscall_count (v : Z) (p : Process) : Process :=
  mkProcess (pid p) (parent_pid p) (pr_name p) (pr_uid p) (state p) (context p) (exit_code p) (page_table_phys
    p) (address_space p) (kernel_stack_len p) (kernel_stack_top p) (fd_table p) (cwd p) (env p)
    (quantum_registers p) (crypto_keys p) (priority p) (cpu_ticks p) (time_slice p) (pr_created_at p)
    (blocked_on p) v (page_fault_count p) (memory_pages p) (task_id p) (image_kind p) (image_path p)
    (effective_capabilities p).
Definition set_memory_pages (v : Z) (p : Process) : Process :=
  mkProcess (pid p) (parent_pid p) (pr_name p) (pr_uid p) (state p) (context p) (exit_code p) (page_table_phys
    p) (address_space p) (kernel_stack_len p) (kernel_stack_top p) (fd_table p) (cwd p) (env p)
    (quantum_registers p) (crypto_keys p) (priority p) (cpu_ticks p) (time_slice p) (pr_created_at p)
    (blocked_on p) (syscall_count p) (page_fault_count p) v (task_id p) (image_kind p) (image_path p)
    (effective_capabilities p).
Definition set_task_id (v : option Z) (p : Process) : Process :=
  mkProcess (pid p) (parent_pid p) (pr_name p) (pr_uid p) (state p) (context p) (exit_code p) (page_table_phys
    p) (address_space p) (kernel_stack_len p) (kernel_stack_top p) (fd_table p) (cwd p) (env p)
    (quantum_registers p) (crypto_keys p) (priority p) (cpu_ticks p) (time_slice p) (pr_created_at p)
    (blocked_on p) (syscall_count p) (page_fault_count p) (memory_pages p) v (image_kind p) (image_path p)
    (effective_capabilities p).
Definition set_image_kind (v : ProcessImageKind) (p : Process) : Process :=
  mkProcess (pid p) (parent_pid p) (pr_name p) (pr_uid p) (state p) (context p) (exit_code p) (page_table_phys
    p) (address_space p) (kernel_stack_len p) (kernel_stack_top p) (fd_table p) (cwd p) (env p)
    (quantum_registers p) (crypto_keys p) (priority p) (cpu_ticks p) (time_slice p) (pr_created_at p)
    (blocked_on p) (syscall_count p) (page_fault_count p) (memory_pages p) (task_id p) v (image_path p)
    (effective_capabilities p).
Definition set_image_path (v : bytes) (p : Process) : Process :=
  mkProcess (pid p) (parent_pid p) (pr_name p) (pr_uid p) (state p) (context p) (exit_code p) (page_table_phys
    p) (address_space p) (kernel_stack_len p) (kernel_stack_top p) (fd_table p) (cwd p) (env p)
    (quantum_registers p) (crypto_keys p) (priority p) (cpu_ticks p) (time_slice p) (pr_created_at p)
    (blocked_on p) (syscall_count p) (page_fault_count p) (memory_pages p) (task_id p) (image_kind p) v
    (effective_capabilities p).
Definition set_effective_capabilities (v : Z) (p : Process) : Process :=
  mkProcess (pid p) (parent_pid p) (pr_name p) (pr_uid p) (state p) (context p) (exit_code p) (page_table_phys
    p) (address_space p) (kernel_stack_len p) (kernel_stack_top p) (fd_table p) (cwd p) (env p)
    (quantum_registers p) (crypto_keys p) (priority p) (cpu_ticks p) (time_slice p) (pr_created_at p)
    (blocked_on p) (syscall_count p) (page_fault_count p) (memory_pages p) (task_id p) (image_kind p)
    (image_path p) v.

(** ** The process table ([mod.rs]) *)

Record ProcessTable : Type := mkTable {
  processes : list Process;
  next_pid : Z;
  shell_pid : option Z;
}.

Definition table_new : ProcessTable := mkTable [] 1 None.
Definition set_processes (ps : list Process) (t : ProcessTable) : ProcessTable :=
  mkTable ps (next_pid t) (shell_pid t).

Definition pid_is (id : Z) (p : Process) : bool := pid p =? id.

Definition create_process (process : Process) (t : ProcessTable) : result ExecError Z * ProcessTable :=
  if 256 <=? blen (processes t) then (Err ProcessTableFull, t)
  else
    let id := next_pid t in
    (Ok id, mkTable (processes t ++ [set_pid id process]) (sat_add 32 (next_pid t) 1) (shell_pid t)).

Definition pt_get (id : Z) (t : ProcessTable) : option Process := find_first (pid_is id) (processes t).
(** Assignments through [get_mut]. *)
Definition pt_update (id : Z) (f : Process -> Process) (t : ProcessTable) : ProcessTable :=
  set_processes (update_first (pid_is id) f (processes t)) t.
Definition pt_remove (id : Z) (t : ProcessTable) : ProcessTable :=
  set_processes (List.filter (fun p => negb (pid_is id p)) (processes t)) t.
Definition list_active (t : ProcessTable) : list Process :=
  List.filter (fun p => negb (bool_decide (state p = Zombie))) (processes t).

(** [as i32] *)
Definition to_i32 (z : Z) : Z := let w := wrap 32 z in if w <? 2 ^ 31 then w else w - 2 ^ 32.

Definition zombie_child (parent target : Z) (p : Process) : bool :=
  (parent_pid p =? parent) && bool_decide (state p = Zombie) &&
  ((target =? -1) || (to_i32 (pid p) =? target)).
Definition find_zombie_child (parent target : Z) (t : ProcessTable) : option (Z * Z) :=
  (fun p => (pid p, default 0 (exit_code p))) <$> find_first (zombie_child parent target) (processes t).

Record ProcessSnapshot : Type := mkSnapshot {
  sn_pid : Z; sn_parent_pid : Z; sn_uid : Z; sn_name : bytes; sn_state : ProcessState; sn_priority : Priority;
  sn_cpu_ticks : Z; sn_memory_pages : Z; sn_qubits : Z; sn_image_kind : ProcessImageKind; sn_exit_code : option Z;
}.
Definition snapshot (t : ProcessTable) : list ProcessSnapshot :=
  map (fun p => mkSnapshot (pid p) (parent_pid p) (pr_uid p) (pr_name p) (state p) (priority p) (cpu_ticks p)
                  (memory_pages p) (blen (quantum_registers p)) (image_kind p) (exit_code p)) (processes t).

(** ** The scheduler ([scheduler.rs]) *)

Definition DEFAULT_TIME_SLICE : Z := 10.
Definition QUANTUM_TIME_SLICE : Z := 50.
Definition RUN_QUEUE_CAPACITY : Z := 256.

Record Scheduler : Type := mkScheduler {
  run_queues : list (list Z);
  current_pid : option Z;
  idle_pid : Z;
  context_switch_count : Z;
  sched_enabled : bool;
}.

(** What an interrupt or a system call sees: the two locks and the stack
    pointers the CPU loads on the next entry into the kernel. *)
Record ExecState : Type := mkExec {
  PROCESS_TABLE : ProcessTable;
  SCHEDULER : Scheduler;
  kernel_rsp : Z;
  tss_rsp0 : Z;
}.

Definition scheduler_new : Scheduler := mkScheduler (replicate 7 []) None 0 0 false.
Definition set_sched_enabled (on : bool) (s : Scheduler) : Scheduler :=
  mkScheduler (run_queues s) (current_pid s) (idle_pid s) (context_switch_count s) on.
Definition set_run_queues (qs : list (list Z)) (s : Scheduler) : Scheduler :=
  mkScheduler qs (current_pid s) (idle_pid s) (context_switch_count s) (sched_enabled s).

Definition priority_index (p : Priority) : nat :=
  match p with
  | RealTime => 0 | System => 1 | Quantum => 2 | Interactive => 3 | Normal => 4 | Batch => 5 | Idle => 6
  end.
Definition time_slice_for (p : Priority) : Z :=
  match p with
  | RealTime => 100 | System => 50 | Quantum => QUANTUM_TIME_SLICE | Interactive => 20
  | Normal => DEFAULT_TIME_SLICE | Batch => 5 | Idle => 1
  end.

Definition enqueue (id : Z) (p : Priority) (s : Scheduler) : Scheduler :=
  match run_queues s !! priority_index p with
  | None => s
  | Some queue =>
      if existsb (Z.eqb id) queue then s
      else if blen queue <? RUN_QUEUE_CAPACITY
      then set_run_queues (<[priority_index p := queue ++ [id]]> (run_queues s)) s
      else s
  end.

Definition dequeue (id : Z) (s : Scheduler) : Scheduler :=
  mkScheduler (map (List.filter (fun candidate => negb (candidate =? id))) (run_queues s))
    (if bool_decide (current_pid s = Some id) then None else current_pid s)
    (idle_pid s) (context_switch_count s) (sched_enabled s).

(** [activate_process] ([context.rs]); [table_free]: [try_lock] succeeds. *)
Definition activate_process (table_free : bool) (id : option Z) (x : ExecState) : ExecState :=
  match id with
  | None => mkExec (PROCESS_TABLE x) (SCHEDULER x) (tss_rsp0 x) (tss_rsp0 x)
  | Some id =>
      if table_free then
        match pt_get id (PROCESS_TABLE x) with
        | Some p => mkExec (PROCESS_TABLE x) (SCHEDULER x) (kernel_stack_top p) (kernel_stack_top p)
        | None => x
        end
      else x
  end.

Definition set_scheduler (s : Scheduler) (x : ExecState) : ExecState :=
  mkExec (PROCESS_TABLE x) s (kernel_rsp x) (tss_rsp0 x).
Definition set_table (t : ProcessTable) (x : ExecState) : ExecState :=
  mkExec t (SCHEDULER x) (kernel_rsp x) (tss_rsp0 x).

Definition set_current_pid (table_free : bool) (id : option Z) (x : ExecState) : ExecState :=
  let s := SCHEDULER x in
  if bool_decide (current_pid s <> id) then
    activate_process table_free id
      (set_scheduler (mkScheduler (run_queues s) id (idle_pid s) (sat_add 64 (context_switch_count s) 1)
                        (sched_enabled s)) x)
  else x.

(** The first non-empty queue gives up its first process. *)
Fixpoint pop_first (queues : list (list Z)) : option (Z * list (list Z)) :=
  match queues with
  | [] => None
  | [] :: rest => (fun '(id, rest') => (id, [] :: rest')) <$> pop_first rest
  | (id :: queue) :: rest => Some (id, queue :: rest)
  end.

Definition select_next (table_free : bool) (x : ExecState) : ExecState :=
  match pop_first (run_queues (SCHEDULER x)) with
  | Some (id, queues) =>
      let x := set_current_pid table_free (Some id) (set_scheduler (set_run_queues queues (SCHEDULER x)) x) in
      if table_free then set_table (pt_update id (set_state Running) (PROCESS_TABLE x)) x else x
  | None =>
      let s := SCHEDULER x in
      if is_none (current_pid s) && negb (idle_pid s =? 0)
      then set_current_pid table_free (Some (idle_pid s)) x else x
  end.

(** The accounting of one tick. *)
Definition charged (p : Process) : Process :=
  set_time_slice (sat_sub (time_slice p) 1) (set_cpu_ticks (sat_add 64 (cpu_ticks p) 1) p).
Definition expired (p : Process) : Process :=
  set_time_slice (time_slice_for (priority p)) (set_state Ready (charged p)).

Definition charge_tick (x : ExecState) (id : Z) : ExecState :=
  match pt_get id (PROCESS_TABLE x) with
  | None => x
  | Some p =>
      if time_slice (charged p) =? 0 then
        set_scheduler (enqueue id (priority p) (SCHEDULER x)) (set_table (pt_update id expired (PROCESS_TABLE x)) x)
      else set_table (pt_update id charged (PROCESS_TABLE x)) x
  end.

Definition account (table_free : bool) (x : ExecState) : ExecState :=
  match current_pid (SCHEDULER x) with
  | Some id => if table_free then charge_tick x id else x
  | None => x
  end.

Definition timer_tick (table_free : bool) (x : ExecState) : ExecState :=
  if negb (sched_enabled (SCHEDULER x)) then x else select_next table_free (account table_free x).

(** [exec::tick]: the timer interrupt, when it finds the scheduler unlocked. *)
Definition tick (scheduler_free table_free : bool) (x : ExecState) : ExecState :=
  if scheduler_free then timer_tick table_free x else x.

(** ** Descriptor tables are finite maps with the lowest free number *)

Lemma position_spec {A} (p : A -> bool) l i :
  position p l = Some i ->
  (exists x, l !! i = Some x /\ p x = true) /\ forall j x, (j < i)%nat -> l !! j = Some x -> p x = false.
Proof.
  revert i. induction l as [|y l IH]; intros i; simpl; [done|]. destruct (p y) eqn:E.
  - intros [= <-]. split; [by exists y|]. lia.
  - destruct (position p l) as [k|]; [|done]. intros [= <-]. destruct (IH k eq_refl) as [H1 H2].
    split; [done|]. intros [|j] x Hj; simpl; [by intros [= <-]|]. apply H2. lia.
Qed.

Lemma position_None_all {A} (p : A -> bool) l j x : position p l = None -> l !! j = Some x -> p x = false.
Proof. rewrite position_None_find. intros H Hj. eapply find_first_None; [done|]. by eapply list_elem_of_lookup_2. Qed.

Lemma fd_get_spec fd t d : fd_get fd t = Some d <-> t !! Z.to_nat fd = Some (Some d).
Proof. unfold fd_get. destruct (t !! Z.to_nat fd) as [[|]|]; naive_solver. Qed.

Lemma fd_get_insert fd t e f :
  0 <= fd < blen t -> 0 <= f ->
  fd_get f (<[Z.to_nat fd := e]> t) = if f =? fd then e else fd_get f t.
Proof.
  intros Hfd Hf. unfold fd_get, blen in *. destruct (Z.eqb_spec f fd) as [->|Hne].
  - rewrite list_lookup_insert_eq by lia. by destruct e.
  - by rewrite list_lookup_insert_ne by lia.
Qed.

Lemma fd_get_snoc t e f :
  0 <= f -> fd_get f (t ++ [e]) = if f =? blen t then e else fd_get f t.
Proof.
  intros Hf. unfold fd_get, blen. destruct (Z.eqb_spec f (Z.of_nat (length t))) as [->|Hne].
  - rewrite Nat2Z.id, list_lookup_middle by done. by destruct e.
  - destruct (decide (Z.to_nat f < length t)%nat).
    + by rewrite lookup_app_l by done.
    + rewrite lookup_ge_None_2 by (rewrite length_app; simpl; lia). by rewrite lookup_ge_None_2 by lia.
Qed.

(** Opening a descriptor returns the lowest free number, at which the new
    target is found; every other descriptor keeps its target. Closing removes
    exactly that descriptor, and closing it again is refused. *)
Theorem descriptor_table_correct (t : FileDescriptorTable) target :
  blen t < 2 ^ 32 ->
  let '(fd, t') := fd_insert target t in
  let '(closed, t'') := fd_close fd t' in
  (fd_get fd t = None /\ forall f, 0 <= f < fd -> is_Some (fd_get f t)) /\
  (forall f, 0 <= f -> fd_get f t' = if f =? fd then Some (mkFd fd target) else fd_get f t) /\
  closed = true /\ (forall f, 0 <= f -> fd_get f t'' = fd_get f t) /\
  fd_close fd t'' = (false, t'').
Proof.
  intros Hlen. destruct (fd_insert target t) as [fd t'] eqn:Ei.
  assert (0 <= fd < blen t' /\ fd_get fd t = None /\ (forall f, 0 <= f < fd -> is_Some (fd_get f t)) /\
          forall f, 0 <= f -> fd_get f t' = if f =? fd then Some (mkFd fd target) else fd_get f t) as (Hr & H1 & H2 & H3).
  { unfold fd_insert in Ei. pose proof (blen_nonneg t). destruct (position is_none t) as [i|] eqn:Ep.
    - apply position_spec in Ep as [([d|] & Hi & Hn) Hlow]; [done|].
      assert (Z.of_nat i < blen t) as Hb by (unfold blen; apply lookup_lt_Some in Hi; lia).
      rewrite wrap_small in Ei by lia. injection Ei as <- <-. split_and!; [lia|unfold blen; rewrite length_insert; apply Hb| | |].
      + unfold fd_get. by rewrite Nat2Z.id, Hi.
      + intros f Hf. unfold fd_get. destruct (t !! Z.to_nat f) as [[d|]|] eqn:Ef; [done| |].
        * apply Hlow in Ef; [done|lia].
        * apply lookup_ge_None_1 in Ef. unfold blen in Hb. lia.
      + intros f Hf. rewrite <- (Nat2Z.id i) at 1. by apply fd_get_insert; [lia|].
    - rewrite wrap_small in Ei by lia. injection Ei as <- <-. split_and!; [done|rewrite blen_app; unfold blen; simpl; lia| | |].
      + unfold fd_get, blen. by rewrite Nat2Z.id, lookup_ge_None_2 by done.
      + intros f Hf. unfold fd_get. destruct (t !! Z.to_nat f) as [[d|]|] eqn:Ef; [done| |].
        * by apply (position_None_all _ _ _ _ Ep) in Ef.
        * apply lookup_ge_None_1 in Ef. unfold blen in Hf. lia.
      + intros f Hf. by apply fd_get_snoc. }
  assert (t' !! Z.to_nat fd = Some (Some (mkFd fd target))) as Hfd.
  { apply fd_get_spec. rewrite H3 by lia. by rewrite Z.eqb_refl. }
  unfold fd_close. rewrite Hfd. split_and!; try done.
  - intros f Hf. rewrite fd_get_insert, H3 by done. destruct (Z.eqb_spec f fd); [by subst|done].
  - rewrite list_lookup_insert_eq; [done|]. by eapply lookup_lt_Some.
Qed.

Lemma descriptor_table_correct_witness :
  (fd_insert Stdin [Some (mkFd 0 Stdin); None; Some (mkFd 2 Stderr)]).1 = 1 /\
  fd_get 2 (fd_insert Stdin [Some (mkFd 0 Stdin); None; Some (mkFd 2 Stderr)]).2 = Some (mkFd 2 Stderr).
Proof.
  pose proof (descriptor_table_correct [Some (mkFd 0 Stdin); None; Some (mkFd 2 Stderr)] Stdin eq_refl) as H.
  split; [reflexivity|]. destruct H as (_ & H & _). refine (H 2 _). discriminate.
Defined.

(** ** The scheduler *)

Lemma pop_first_Some qs id qs' :
  pop_first qs = Some (id, qs') ->
  exists i q, qs !! i = Some (id :: q) /\ (forall j, (j < i)%nat -> qs !! j = Some []) /\ qs' = <[i := q]> qs.
Proof.
  revert qs'. induction qs as [|[|x q] qs IH]; intros qs'; simpl; [done| |].
  - destruct (pop_first qs) as [[id' rest]|]; simpl; [|done]. intros [= -> <-].
    destruct (IH rest eq_refl) as (i & q & H1 & H2 & ->). exists (S i), q. split_and!; [done| |done].
    intros [|j] Hj; [done|]. apply H2. lia.
  - intros [= -> <-]. exists O, q. split_and!; [done|lia|done].
Qed.

Lemma pop_first_None qs : pop_first qs = None <-> Forall (fun q => q = []) qs.
Proof.
  induction qs as [|[|x q] qs IH]; simpl; [by split; [constructor|]| |].
  - rewrite Forall_cons, <- IH. destruct (pop_first qs) as [[]|]; naive_solver.
  - split; [done|]. by intros [? _]%Forall_cons.
Qed.

Lemma set_current_pid_sched tf id x :
  current_pid (SCHEDULER (set_current_pid tf id x)) = id /\
  run_queues (SCHEDULER (set_current_pid tf id x)) = run_queues (SCHEDULER x) /\
  idle_pid (SCHEDULER (set_current_pid tf id x)) = idle_pid (SCHEDULER x) /\
  sched_enabled (SCHEDULER (set_current_pid tf id x)) = sched_enabled (SCHEDULER x) /\
  PROCESS_TABLE (set_current_pid tf id x) = PROCESS_TABLE x.
Proof.
  unfold set_current_pid. case_bool_decide as Hc.
  - unfold activate_process. by destruct id; repeat case_match.
  - done.
Qed.

Lemma account_sched tf x :
  current_pid (SCHEDULER (account tf x)) = current_pid (SCHEDULER x) /\
  idle_pid (SCHEDULER (account tf x)) = idle_pid (SCHEDULER x) /\
  sched_enabled (SCHEDULER (account tf x)) = sched_enabled (SCHEDULER x).
Proof. unfold account, charge_tick, enqueue. repeat case_match; done. Qed.

Lemma select_next_sched tf x :
  match pop_first (run_queues (SCHEDULER x)) with
  | Some (id, queues) => current_pid (SCHEDULER (select_next tf x)) = Some id /\
                         run_queues (SCHEDULER (select_next tf x)) = queues
  | None => run_queues (SCHEDULER (select_next tf x)) = run_queues (SCHEDULER x) /\
            (current_pid (SCHEDULER (select_next tf x)) = current_pid (SCHEDULER x) \/
             current_pid (SCHEDULER (select_next tf x)) = Some (idle_pid (SCHEDULER x)) /\
             current_pid (SCHEDULER x) = None)
  end /\ idle_pid (SCHEDULER (select_next tf x)) = idle_pid (SCHEDULER x).
Proof.
  unfold select_next. destruct (pop_first _) as [[id queues]|].
  - set (x1 := set_scheduler _ x). destruct (set_current_pid_sched tf (Some id) x1) as (H1 & H2 & H3 & _).
    destruct tf; cbn [SCHEDULER set_table]; done.
  - destruct (current_pid (SCHEDULER x)) eqn:Ec; cbn [is_none andb]; [by auto|].
    destruct (negb _); [|by auto].
    destruct (set_current_pid_sched tf (Some (idle_pid (SCHEDULER x))) x) as (H1 & H2 & H3 & _). auto.
Qed.

(** C37: at each tick of the enabled scheduler the process that runs next is the
    one that has waited longest in the non-empty queue of highest priority; it
    leaves its queue and nothing else changes in the queues. When no process
    waits, the running one goes on. *)
Theorem tick_runs_highest_priority tf x :
  sched_enabled (SCHEDULER x) = true ->
  let queues := run_queues (SCHEDULER (account tf x)) in
  let s' := SCHEDULER (timer_tick tf x) in
  (forall i id q, queues !! i = Some (id :: q) -> (forall j, (j < i)%nat -> queues !! j = Some []) ->
     current_pid s' = Some id /\ run_queues s' = <[i := q]> queues) /\
  (Forall (fun q => q = []) queues -> is_Some (current_pid (SCHEDULER x)) ->
     current_pid s' = current_pid (SCHEDULER x) /\ run_queues s' = queues).
Proof.
  intros He queues s'. unfold s', timer_tick. rewrite He. cbn [negb].
  pose proof (select_next_sched tf (account tf x)) as [Hs _]. fold queues in Hs.
  destruct (account_sched tf x) as (Hc & _). split.
  - intros i id q Hi Hlow. destruct (pop_first queues) as [[id' qs']|] eqn:Ep.
    + apply pop_first_Some in Ep as (i' & q' & Hi' & Hlow' & ->).
      destruct (lt_eq_lt_dec i i') as [[Hlt| ->]|Hlt].
      * rewrite (Hlow' i Hlt) in Hi. done.
      * rewrite Hi' in Hi. by injection Hi as -> ->.
      * rewrite (Hlow i' Hlt) in Hi'. done.
    + rewrite pop_first_None, Forall_lookup in Ep. by apply Ep in Hi.
  - intros Hall [id Hid]. apply pop_first_None in Hall. rewrite Hall in Hs. destruct Hs as [-> [->|[_ Hn]]]; [done|].
    congruence.
Qed.

(** ** Processes the scheduler no longer knows *)

Definition absent (id : Z) (s : Scheduler) : Prop :=
  Forall (fun q => id ∉ q) (run_queues s) /\ current_pid s <> Some id /\ idle_pid s <> id.

Lemma pid_is_spec id p : pid_is id p = true <-> pid p = id.
Proof. apply Z.eqb_eq. Qed.

Lemma pt_get_update_ne id id' f t :
  id <> id' -> (forall p, pid p = id' -> pid (f p) = id') -> pt_get id (pt_update id' f t) = pt_get id t.
Proof.
  intros Hne Hf. unfold pt_get, pt_update. cbn [processes set_processes].
  induction (processes t) as [|p ps IH]; simpl; [done|]. unfold pid_is at 2.
  destruct (Z.eqb_spec (pid p) id') as [Hp|Hp]; simpl.
  - unfold pid_is. rewrite (Hf p Hp), Hp. by rewrite (proj2 (Z.eqb_neq id' id)) by done.
  - by rewrite IH.
Qed.

Lemma pt_get_update_eq id f t p :
  (forall q, pid (f q) = pid q) -> pt_get id t = Some p -> pt_get id (pt_update id f t) = Some (f p).
Proof. intros Hf. apply (find_update_first pid (pid_is id) id (pid_is_spec id)). done. Qed.

Lemma pt_get_pid id t p : pt_get id t = Some p -> pid p = id.
Proof. intros [_ H]%find_first_Some. by apply pid_is_spec. Qed.

Lemma absent_enqueue id id' p s : id <> id' -> absent id s -> absent id (enqueue id' p s).
Proof.
  intros Hne (Hq & Hc & Hi). unfold enqueue. repeat case_match; try done. split; [|done].
  cbn [run_queues set_run_queues]. apply Forall_insert; [done|].
  rewrite not_elem_of_app, not_elem_of_cons. rewrite Forall_lookup in Hq.
  split_and!; [by eapply Hq|done|apply not_elem_of_nil].
Qed.

Lemma account_absent id tf x :
  absent id (SCHEDULER x) ->
  absent id (SCHEDULER (account tf x)) /\ pt_get id (PROCESS_TABLE (account tf x)) = pt_get id (PROCESS_TABLE x).
Proof.
  intros Ha. unfold account. destruct (current_pid (SCHEDULER x)) as [id'|] eqn:Ec; [|done].
  destruct tf; [|done]. assert (id <> id') as Hne by (intros ->; by destruct Ha as (_ & Hc & _)).
  unfold charge_tick. destruct (pt_get id' (PROCESS_TABLE x)) as [p|]; [|done]. destruct (_ =? 0); cbn [PROCESS_TABLE SCHEDULER set_table set_scheduler];
    (split; [by try apply absent_enqueue|by apply pt_get_update_ne]).
Qed.

Lemma select_next_absent id tf x :
  absent id (SCHEDULER x) ->
  absent id (SCHEDULER (select_next tf x)) /\
  pt_get id (PROCESS_TABLE (select_next tf x)) = pt_get id (PROCESS_TABLE x).
Proof.
  intros (Hq & Hc & Hi). pose proof (select_next_sched tf x) as [Hs Hidle].
  assert (absent id (SCHEDULER (select_next tf x)) /\
          forall id' qs, pop_first (run_queues (SCHEDULER x)) = Some (id', qs) -> id <> id') as [Habs Hne].
  { destruct (pop_first _) as [[id' qs]|] eqn:Ep.
    - apply pop_first_Some in Ep as (i & q & Hiq & _ & ->). rewrite Forall_lookup in Hq.
      pose proof (Hq i _ Hiq) as Hn. rewrite not_elem_of_cons in Hn. destruct Hn as [Hn Hn'].
      destruct Hs as [Hs1 Hs2]. unfold absent. rewrite Hs1, Hs2, Hidle. split; [|by intros ? ? [= <- <-]].
      split_and!; [|congruence|done]. apply Forall_insert; [by apply Forall_lookup|done].
    - destruct Hs as [Hs1 Hs2]. unfold absent. rewrite Hs1, Hidle. split; [|done]. split_and!; [done| |done].
      destruct Hs2 as [-> |[-> _]]; congruence. }
  split; [done|]. unfold select_next. destruct (pop_first _) as [[id' qs]|] eqn:Ep.
  - set (x1 := set_scheduler _ x). destruct (set_current_pid_sched tf (Some id') x1) as (_ & _ & _ & _ & Ht).
    destruct tf; cbn [PROCESS_TABLE set_table]; rewrite Ht; [|done]. by apply pt_get_update_ne; [eapply Hne|].
  - case_match; [|done]. by destruct (set_current_pid_sched tf (Some (idle_pid (SCHEDULER x))) x) as (_ & _ & _ & _ & ->).
Qed.

(** A sequence of timer interrupts, each with the state of the two locks. *)
Definition ticks (l : list (bool * bool)) (x : ExecState) : ExecState :=
  fold_left (fun x '(scheduler_free, table_free) => tick scheduler_free table_free x) l x.

Lemma ticks_absent id l x :
  absent id (SCHEDULER x) ->
  absent id (SCHEDULER (ticks l x)) /\ pt_get id (PROCESS_TABLE (ticks l x)) = pt_get id (PROCESS_TABLE x).
Proof.
  revert x. induction l as [|[sf tf] l IH]; intros x Ha; simpl; [done|].
  assert (absent id (SCHEDULER (tick sf tf x)) /\
          pt_get id (PROCESS_TABLE (tick sf tf x)) = pt_get id (PROCESS_TABLE x)) as [H1 H2].
  { unfold tick, timer_tick. destruct sf; [|done]. destruct (negb _); [done|].
    destruct (account_absent id tf x Ha) as [H1 H2]. rewrite <- H2. by apply select_next_absent. }
  destruct (IH _ H1) as [H3 H4]. by rewrite H4, H2.
Qed.

(** C38: preemption loses processes. If a process is running, has more than one
    tick of its slice left and any other process waits, the next tick hands the
    CPU over without putting the running process back into a queue: no later
    timer tick ever runs it again, though the process table keeps calling it
    running. *)
Theorem preempted_process_lost x id p q others :
  sched_enabled (SCHEDULER x) = true -> current_pid (SCHEDULER x) = Some id -> idle_pid (SCHEDULER x) = 0 ->
  id <> 0 -> pt_get id (PROCESS_TABLE x) = Some p -> state p = Running -> 1 < time_slice p ->
  Forall (fun queue => id ∉ queue) (run_queues (SCHEDULER x)) ->
  q :: others ∈ run_queues (SCHEDULER x) ->
  forall later, let x' := ticks later (timer_tick true x) in
    current_pid (SCHEDULER x') <> Some id /\
    exists p', pt_get id (PROCESS_TABLE x') = Some p' /\ state p' = Running.
Proof.
  intros He Hc Hidle Hid Hp Hst Hts Hq Hin later x'.
  assert (account true x = set_table (pt_update id charged (PROCESS_TABLE x)) x) as Hacc.
  { unfold account, charge_tick. rewrite Hc, Hp. unfold charged at 1, sat_sub. cbn [time_slice set_time_slice].
    rewrite (proj2 (Z.eqb_neq _ _)) by lia. done. }
  pose proof (select_next_sched true (account true x)) as [Hs Hi]. rewrite Hacc in Hs, Hi.
  cbn [SCHEDULER set_table] in Hs, Hi.
  destruct (pop_first (run_queues (SCHEDULER x))) as [[id' qs]|] eqn:Ep.
  2:{ apply pop_first_None in Ep. rewrite Forall_forall in Ep. by apply Ep in Hin. }
  destruct (pop_first_Some _ _ _ Ep) as (i & q' & Hiq & _ & ->).
  assert (id ∉ id' :: q') as Hn by (rewrite Forall_lookup in Hq; by eapply Hq).
  apply not_elem_of_cons in Hn as [Hn Hn'].
  assert (absent id (SCHEDULER (timer_tick true x))) as Habs.
  { unfold timer_tick. rewrite He. cbn [negb]. unfold absent. rewrite Hacc. destruct Hs as [-> ->]. rewrite Hi, Hidle.
    split_and!; [by apply Forall_insert|congruence|congruence]. }
  destruct (ticks_absent id later _ Habs) as [(_ & H1 & _) H2]. split; [exact H1|]. unfold x'. rewrite H2.
  unfold timer_tick. rewrite He. cbn [negb]. unfold select_next. rewrite Hacc. cbn [SCHEDULER set_table]. rewrite Ep.
  cbn [PROCESS_TABLE set_table]. set (x1 := set_scheduler _ _).
  destruct (set_current_pid_sched true (Some id') x1) as (_ & _ & _ & _ & ->). cbn [PROCESS_TABLE set_table set_scheduler x1].
  rewrite pt_get_update_ne by done. eexists.
  split; [apply (pt_get_update_eq id charged); [done|exact Hp]|exact Hst].
Qed.

Definition idle_process : Process :=
  mkProcess 1 0 [] 0 Running context_new None 0 (address_space_new 0) 0 0 [] [] [] [] [] Normal 0 10 0 None 0 0 0 None
    ShellCommand [] 0.
Definition two_processes : ExecState :=
  mkExec (mkTable [idle_process; set_pid 2 (set_state Ready idle_process)] 3 None)
    (mkScheduler [[]; []; []; []; [2]; []; []] (Some 1) 0 0 true) 0 0.

Lemma preempted_process_lost_witness :
  current_pid (SCHEDULER (ticks (replicate 50 (true, true)) (timer_tick true two_processes))) <> Some 1.
Proof.
  apply (preempted_process_lost two_processes 1 idle_process 2 []); try reflexivity.
  - discriminate.
  - repeat constructor; simpl; rewrite ?elem_of_cons, ?elem_of_nil; intuition discriminate.
  - simpl. set_solver.
Defined.

Lemma tick_runs_highest_priority_witness :
  current_pid (SCHEDULER (timer_tick true two_processes)) = Some 2.
Proof.
  destruct (tick_runs_highest_priority true two_processes eq_refl) as [H _].
  apply (H 4%nat 2 []); [reflexivity|]. intros j Hj. do 4 (destruct j as [|j]; [reflexivity|]). lia.
Defined.
