(* ===== verification/Exec.v ===== *)
(** * Process life cycle (kernel/src/exec/mod.rs, kernel/src/task/mod.rs and the
    process-related part of kernel/src/security/capabilities.rs)

    Creating, running, ending and reaping processes, the background tasks of
    the shell, and the capabilities of processes, on the global state [Machine]:
    the locks of [FsCurrent.Kernel], the process table, the scheduler and the
    task queue.  A function holds one lock at a time and never two; the timer
    interrupt ([Process.tick]) is a step of its own. *)
From S2P Require Import Prelude RustStr Paths Auth Session AuditLog WarFS FsCurrent Elf Process Caps.

(** ** Background tasks ([task/mod.rs]) *)

Inductive TaskState : Type := TaskReady | TaskRunning | TaskWaiting | TaskCompleted.
(** The future of a task is code of its creator; [ta_body] names it. *)
Record Task : Type := mkTask { ta_id : Z; ta_name : bytes; ta_state : TaskState; ta_body : bytes }.
Record TaskScheduler : Type := mkTasks { ts_tasks : list Task; ts_next_id : Z }.
Definition tasks_new : TaskScheduler := mkTasks [] 1.

Definition task_name (name : bytes) : result bytes bytes :=
  let trimmed := trim name in
  if bool_decide (trimmed = []) then Err (str "task name cannot be empty")
  else if 32 <? blen trimmed then Err (str "task name exceeds 32 characters")
  else Ok trimmed.

Definition task_spawn (name body : bytes) (ts : TaskScheduler) : result bytes Z * TaskScheduler :=
  match task_name name with
  | Err e => (Err e, ts)
  | Ok name =>
      let id := ts_next_id ts in
      (Ok id, mkTasks (ts_tasks ts ++ [mkTask id name TaskReady body]) (wrap 64 (id + 1)))
  end.

(** One round: every task is polled once; [ready] is the answer of its future. *)
Definition poll_task (ready : Z -> bool) (queue : list Task) (task : Task) : list Task :=
  if ready (ta_id task) then queue
  else queue ++ [mkTask (ta_id task) (ta_name task) TaskWaiting (ta_body task)].
Definition task_tick (ready : Z -> bool) (ts : TaskScheduler) : TaskScheduler :=
  mkTasks (fold_left (poll_task ready) (ts_tasks ts) []) (ts_next_id ts).

Definition task_kill (id : Z) (ts : TaskScheduler) : result bytes () * TaskScheduler :=
  match position (fun t => ta_id t =? id) (ts_tasks ts) with
  | None => (Err (str "task not found"), ts)
  | Some index => (Ok (), mkTasks (delete index (ts_tasks ts)) (ts_next_id ts))
  end.
Definition task_snapshot (ts : TaskScheduler) : list (Z * bytes * TaskState) :=
  map (fun t => (ta_id t, ta_name t, ta_state t)) (ts_tasks ts).
Definition has_tasks (ts : TaskScheduler) : bool := negb (bool_decide (length (ts_tasks ts) = O)).

(** ** The global state *)

Record Machine (S : Type) : Type := mkMachine {
  kernel : Kernel S;
  exec : ExecState;
  tasks : TaskScheduler;
}.
Arguments mkMachine {S} _ _ _.
Arguments kernel {S} _.
Arguments exec {S} _.
Arguments tasks {S} _.

Section exec.
Context {S : Type}.

Abbreviation session_lock m := (CURRENT_SESSION (kernel m)).
Abbreviation user_db m := (USER_DB (kernel m)).
Abbreviation table m := (PROCESS_TABLE (exec m)).
Abbreviation sched m := (SCHEDULER (exec m)).

Definition with_exec (f : ExecState -> ExecState) (m : Machine S) : Machine S :=
  mkMachine (kernel m) (f (exec m)) (tasks m).
Definition with_table (f : ProcessTable -> ProcessTable) (m : Machine S) : Machine S :=
  with_exec (fun x => set_table (f (PROCESS_TABLE x)) x) m.
Definition with_sched (f : Scheduler -> Scheduler) (m : Machine S) : Machine S :=
  with_exec (fun x => set_scheduler (f (SCHEDULER x)) x) m.
Definition with_tasks (f : TaskScheduler -> TaskScheduler) (m : Machine S) : Machine S :=
  mkMachine (kernel m) (exec m) (f (tasks m)).
Definition audit (now : Z) (event : AuditEvent) (m : Machine S) : Machine S :=
  let k := kernel m in
  mkMachine (mkKernel (CURRENT_SESSION k) (USER_DB k) (FILESYSTEM k) (log now event (LOGGER k)))
            (exec m) (tasks m).

(** Foreground code takes the lock: the table is free for the activation. *)
Definition make_current (id : option Z) : Machine S -> Machine S := with_exec (set_current_pid true id).

(** *** Capabilities of processes *)

Definition process_capabilities (id : Z) (m : Machine S) : option Z :=
  effective_capabilities <$> pt_get id (table m).
Definition current_capabilities (m : Machine S) : option Z :=
  id ← current_pid (sched m); process_capabilities id m.
Definition session_capabilities_for_uid (id : Z) (m : Machine S) : Z :=
  default_for_uid (session_lock m) (user_db m) id.
Definition current_or_session_capabilities (m : Machine S) : Z :=
  default (session_capabilities_for_uid (current_uid (session_lock m)) m) (current_capabilities m).
Definition shell_capabilities_for_uid (id : Z) (m : Machine S) : Z := session_capabilities_for_uid id m.

Definition spawn_capabilities (parent id : Z) (m : Machine S) : Z :=
  let baseline := default_for_uid (session_lock m) (user_db m) id in
  Z.land (default (session_capabilities_for_uid id m) (process_capabilities parent m)) baseline.
Definition exec_capabilities (current id : Z) (m : Machine S) : Z :=
  Z.land current (default_for_uid (session_lock m) (user_db m) id).

Definition has_capability (cap : Z) (m : Machine S) : bool :=
  match current_capabilities m with Some caps => cap_contains caps cap | None => false end.

(** The denial is logged with the text of [{:?}], the parameter [debug]. *)
Definition log_denied (debug : Z -> bytes) (now cap : Z) (m : Machine S) : Machine S :=
  audit now (CapabilityDenied (default 0 (current_pid (sched m))) (debug cap)) m.
Definition require_capability (debug : Z -> bytes) (now cap : Z) (m : Machine S) : bool * Machine S :=
  if has_capability cap m then (true, m) else (false, log_denied debug now cap m).
Definition session_require (debug : Z -> bytes) (now cap : Z) (m : Machine S) : bool * Machine S :=
  if cap_contains (current_or_session_capabilities m) cap then (true, m)
  else (false, log_denied debug now cap m).

Definition without_caps (caps : Z) (p : Process) : Process :=
  set_effective_capabilities (cap_remove (effective_capabilities p) caps) p.
Definition drop_capabilities (now caps : Z) (m : Machine S) : Machine S :=
  match current_pid (sched m) with
  | None => m
  | Some id =>
      match pt_get id (table m) with
      | None => m
      | Some p =>
          audit now (SecurityPolicyChanged
                       (str "cap_drop pid=" ++ decimal id ++ str " now="
                        ++ summarize_capabilities (effective_capabilities (without_caps caps p))) (pr_uid p))
            (with_table (pt_update id (without_caps caps)) m)
      end
  end.

Definition set_process_capabilities (id caps : Z) (m : Machine S) : Machine S :=
  with_table (pt_update id (set_effective_capabilities caps)) m.

(** The capabilities of a process after [execve]. *)
Definition exec_transition (id : Z) (m : Machine S) : Machine S :=
  with_table (pt_update id (fun p => set_effective_capabilities
                (exec_capabilities (effective_capabilities p) (pr_uid p) m) p)) m.

(** *** The shell process *)

Definition KERNEL_STACK_LEN : Z := 16 * 1024.

(** A process that runs inside the kernel: the shell or one of its commands. *)
Definition kernel_process (now : Z) (parent : Z) (name : bytes) (st : ProcessState) (pr : Priority)
    (kind : ProcessImageKind) (path : bytes) (caps : Z) (m : Machine S) : Process :=
  mkProcess 0 parent name (current_uid (session_lock m)) st context_new None 0 (address_space_new 0)
    KERNEL_STACK_LEN (tss_rsp0 (exec m)) new_with_stdio (resolve_path (session_lock m) [dot]) [] [] []
    pr 0 DEFAULT_TIME_SLICE now None 0 0 0 None kind path caps.

Definition existing_shell (m : Machine S) : option Z :=
  id ← shell_pid (table m);
  p ← pt_get id (table m);
  if pr_uid p =? current_uid (session_lock m) then Some id else None.

Definition set_shell_pid (id : option Z) (t : ProcessTable) : ProcessTable :=
  mkTable (processes t) (next_pid t) id.

Definition ensure_shell_process (now now_log : Z) (m : Machine S) : Z * Machine S :=
  match existing_shell m with
  | Some id => (id, make_current (Some id) m)
  | None =>
      let id_user := current_uid (session_lock m) in
      let process := kernel_process now 0 (str "waros-shell") Running Interactive KernelShell (str "shell")
                       (shell_capabilities_for_uid id_user m) m in
      let '(r, t) := create_process process (table m) in
      let id := match r with Ok id => id | Err _ => 1 end in
      let m := with_table (fun _ => set_shell_pid (Some id) t) m in
      let m := audit now_log (ProcessSpawned id (str "waros-shell") id_user) m in
      (id, make_current (Some id) m)
  end.

Definition reset_shell_process (m : Machine S) : Machine S :=
  match shell_pid (table m) with
  | None => m
  | Some id =>
      let task := pt_get id (table m) ≫= task_id in
      let m := with_table (fun t => pt_remove id (set_shell_pid None t)) m in
      let m := with_sched (dequeue id) m in
      match task with
      | Some t => with_tasks (fun ts => (task_kill t ts).2) m
      | None => m
      end
  end.

(** *** Running and ending *)

Definition mark_running (id : Z) (m : Machine S) : Machine S :=
  make_current (Some id)
    (with_table (pt_update id (fun p => set_cpu_ticks (sat_add 64 (cpu_ticks p) 1) (set_state Running p))) m).

Definition ended (code : Z) (p : Process) : Process := set_exit_code (Some code) (set_state Zombie p).

Definition mark_exit (now id code : Z) (m : Machine S) : Machine S :=
  audit now (ProcessExited id code) (with_sched (dequeue id) (with_table (pt_update id (ended code)) m)).

Definition exec_current_uid (m : Machine S) : Z :=
  default (current_uid (session_lock m))
          (id ← current_pid (sched m); pr_uid <$> pt_get id (table m)).

Definition kill_process (now id code : Z) (m : Machine S) : result ExecError () * Machine S :=
  let m := match pt_get id (table m) ≫= task_id with
           | Some t => with_tasks (fun ts => (task_kill t ts).2) m
           | None => m
           end in
  match pt_get id (table m) with
  | None => (Err ProcessNotFound, m)
  | Some _ =>
      (Ok (), audit now (ProcessExited id code)
                (with_sched (dequeue id) (with_table (pt_update id (ended code)) m)))
  end.

Definition attach_task (id t : Z) (m : Machine S) : Machine S :=
  with_table (pt_update id (set_task_id (Some t))) m.

(** [str::is_char_boundary]; slicing elsewhere panics. *)
Definition is_char_boundary (s : bytes) (i : nat) : bool :=
  match s !! i with
  | Some b => negb ((128 <=? bval b) && (bval b <? 192))
  | None => (i =? length s)%nat
  end.
Definition first_32 (s : bytes) : option bytes :=
  if 32 <? blen s then (if is_char_boundary s 32 then Some (take 32 s) else None) else Some s.

Definition spawn_shell_command (now now_shell now_log : Z) (command_line : bytes) (pr : Priority)
    (m : Machine S) : result (fault ExecError) Z * Machine S :=
  let id_user := current_uid (session_lock m) in
  let '(parent, m) := ensure_shell_process now_shell now_log m in
  let command := trim command_line in
  match first_32 command_line with
  | None => (Err Panicked, m)
  | Some name =>
      let process := kernel_process now parent (trim name) Ready pr ShellCommand command
                       (spawn_capabilities parent id_user m) m in
      match create_process process (table m) with
      | (Err e, _) => (Err (Raised e), m)
      | (Ok id, t) =>
          let m := with_table (fun _ => t) m in
          let m := audit now_log (ProcessSpawned id command id_user) m in
          let m := with_sched (enqueue id pr) m in
          match task_spawn name command (tasks m) with
          | (Err _, _) => (Err (Raised LoadFailed), m)
          | (Ok t, ts) => (Ok id, attach_task id t (with_tasks (fun _ => ts) m))
          end
      end
  end.

End exec.

(** ** Ended processes stay ended *)

Section ended.
Context {S : Type}.

Lemma dequeue_absent id s : idle_pid s <> id -> absent id (dequeue id s).
Proof.
  intros Hi. split_and!; [| |done]; cbn [run_queues current_pid dequeue].
  - apply Forall_forall. intros q (q0 & -> & _)%list_elem_of_fmap.
    intros [_ Hf]%list_elem_of_In%filter_In. by rewrite Z.eqb_refl in Hf.
  - by case_bool_decide.
Qed.

(** Once a process has exited, no sequence of timer interrupts, whatever
    the state of the locks when they arrive, runs it again, and it stays in the
    table as a zombie with its exit code until it is reaped. *)
Theorem exited_process_never_runs now id code (m : Machine S) p later :
  idle_pid (SCHEDULER (exec m)) <> id -> pt_get id (PROCESS_TABLE (exec m)) = Some p ->
  let x := ticks later (exec (mark_exit now id code m)) in
  current_pid (SCHEDULER x) <> Some id /\ pt_get id (PROCESS_TABLE x) = Some (ended code p).
Proof.
  intros Hi Hp x. set (m1 := mark_exit now id code m) in *.
  assert (absent id (SCHEDULER (exec m1))) as Ha by (by apply dequeue_absent).
  destruct (ticks_absent id later (exec m1) Ha) as [(_ & H1 & _) H2]. split; [exact H1|]. unfold x. rewrite H2.
  by apply (pt_get_update_eq id (ended code)).
Qed.
End ended.

(** ** Capabilities only shrink along a line of descent *)

Record table_ok (t : ProcessTable) : Prop := mkTableOk {
  tb_unique : NoDup (map pid (processes t));
  tb_pids : Forall (fun p => pid p < next_pid t) (processes t);
  tb_bound : blen (processes t) <= 256;
}.

Lemma map_pid_update id f t :
  (forall p, pid (f p) = pid p) -> map pid (processes (pt_update id f t)) = map pid (processes t).
Proof. intros Hf. by apply update_first_keys. Qed.

Lemma Forall_pid_map (P : Z -> Prop) ps : Forall (fun p => P (pid p)) ps <-> Forall P (map pid ps).
Proof. by rewrite Forall_fmap. Qed.

Lemma table_ok_update id f t : (forall p, pid (f p) = pid p) -> table_ok t -> table_ok (pt_update id f t).
Proof.
  intros Hf [H1 H2 H3]. split.
  - by rewrite map_pid_update.
  - rewrite (Forall_pid_map (fun z => z < next_pid t)) in *. by rewrite map_pid_update.
  - unfold pt_update, blen in *. cbn [processes set_processes]. by rewrite length_update_first.
Qed.

Lemma table_ok_remove id t : table_ok t -> table_ok (pt_remove id t).
Proof.
  intros [H1 H2 H3]. split; cbn [processes pt_remove set_processes next_pid].
  - by apply NoDup_map_filter.
  - apply Forall_forall. intros p [Hp _]%list_elem_of_In%filter_In. rewrite Forall_forall in H2.
    by apply H2, list_elem_of_In.
  - pose proof (length_filter_le (fun p => negb (pid_is id p)) (processes t)). lia.
Qed.

Lemma create_process_ok p t id t' :
  table_ok t -> next_pid t < 2 ^ 32 - 1 -> create_process p t = (Ok id, t') ->
  id = next_pid t /\ table_ok t' /\ processes t' = processes t ++ [set_pid id p] /\ next_pid t' = id + 1 /\
  shell_pid t' = shell_pid t.
Proof.
  intros [H1 H2 H3] Hn. unfold create_process. destruct (Z.leb_spec 256 (blen (processes t))); [done|].
  intros [= <- <-]. rewrite sat_add_spec by lia. split_and!; try done. split; cbn [processes next_pid].
  - rewrite map_app. apply NoDup_app. split_and!; [done| |apply NoDup_singleton].
    intros i (q & -> & Hq)%list_elem_of_fmap [Hi|Hi]%elem_of_cons; [|by apply elem_of_nil in Hi].
    rewrite Forall_forall in H2. apply H2 in Hq. simpl in Hi. lia.
  - rewrite Forall_app. split; [eapply Forall_impl; [exact H2|]; simpl; lia|].
    constructor; [simpl; lia|constructor].
  - rewrite blen_app. unfold blen in *. simpl length. lia.
Qed.

Section lineage.
Context {S : Type} (c : Z).

Abbreviation table m := (PROCESS_TABLE (exec m)).

(** No process of the set [D] of process numbers holds the capability [c]. *)
Record lacks (D : gset Z) (t : ProcessTable) : Prop := mkLacks {
  lk_table : table_ok t;
  lk_bound : forall i, i ∈ D -> i < next_pid t;
  lk_caps : forall p, p ∈ processes t -> pid p ∈ D -> cap_contains (effective_capabilities p) c = false;
}.

(** Changes that at most shrink capabilities. *)
Definition shrinks (f : Process -> Process) : Prop :=
  forall p, pid (f p) = pid p /\ cap_subset (effective_capabilities (f p)) (effective_capabilities p).

Lemma lacks_mono (D : gset Z) p q :
  cap_subset (effective_capabilities q) (effective_capabilities p) -> pid q = pid p ->
  (pid p ∈ D -> cap_contains (effective_capabilities p) c = false) ->
  pid q ∈ D -> cap_contains (effective_capabilities q) c = false.
Proof.
  intros Hs Hp H HD. rewrite Hp in HD. destruct (cap_contains (effective_capabilities q) c) eqn:E; [|done].
  rewrite (cap_contains_subset _ _ _ Hs E) in H. by apply H.
Qed.

Lemma update_first_elem_or {A} (p : A -> bool) f l (y : A) :
  y ∈ update_first p f l -> y ∈ l \/ exists x, x ∈ l /\ y = f x.
Proof.
  induction l as [|x l IH]; simpl; [auto|]. destruct (p x).
  - intros [->|Hy]%elem_of_cons; [right; exists x|left; by right]. split; [left|done].
  - intros [->|Hy]%elem_of_cons; [left; left|].
    destruct (IH Hy) as [?|(z & ? & ->)]; [left; by right|right; exists z; split; [by right|done]].
Qed.

Lemma lacks_update D id f t : shrinks f -> lacks D t -> lacks D (pt_update id f t).
Proof.
  intros Hf [H1 H2 H3]. split; [by apply table_ok_update; [intros p; apply Hf|]|done|].
  intros q [Hq|(p & Hp & ->)]%update_first_elem_or; [by apply H3|].
  eapply (lacks_mono D p); [apply Hf|apply Hf|by apply H3].
Qed.

Lemma lacks_remove D id t : lacks D t -> lacks D (pt_remove id t).
Proof.
  intros [H1 H2 H3]. split; [by apply table_ok_remove|done|].
  intros p [Hp _]%list_elem_of_In%filter_In. apply H3. by apply list_elem_of_In.
Qed.

Lemma lacks_set_shell D id t : lacks D t -> lacks D (set_shell_pid id t).
Proof. intros [[H1 H2 H3] H4 H5]. split; [by split|done|done]. Qed.

(** A new process joins the set or stays outside. *)
Lemma lacks_create D p t id t' (inside : bool) :
  next_pid t < 2 ^ 32 - 1 -> lacks D t -> create_process p t = (Ok id, t') ->
  (inside = true -> cap_contains (effective_capabilities p) c = false) ->
  lacks (if inside then {[id]} ∪ D else D) t' /\ next_pid t' = next_pid t + 1.
Proof.
  intros Hn [H1 H2 H3] Hc Hcap. apply create_process_ok in Hc as (-> & Hok & Hps & Hnext & _); [|done|done].
  split; [|lia]. split; [done| |].
  - intros i Hi. rewrite Hnext. destruct inside; [|apply H2 in Hi; lia].
    apply elem_of_union in Hi as [->%elem_of_singleton|Hi]; [lia|]. apply H2 in Hi. lia.
  - rewrite Hps. intros q [Hq|[->|Hq]%elem_of_cons]%elem_of_app Hin; [| |by apply elem_of_nil in Hq].
    + apply H3; [done|]. destruct inside; [|done]. apply elem_of_union in Hin as [Hin%elem_of_singleton|Hin]; [|done].
      destruct H1 as [_ Hlt _]. rewrite Forall_forall in Hlt. apply Hlt in Hq. lia.
    + destruct inside; [by apply Hcap|]. apply H2 in Hin. simpl in Hin. lia.
Qed.

Lemma lacks_tick D sf tf x :
  lacks D (PROCESS_TABLE x) ->
  lacks D (PROCESS_TABLE (tick sf tf x)) /\ next_pid (PROCESS_TABLE (tick sf tf x)) = next_pid (PROCESS_TABLE x).
Proof.
  intros H. unfold tick, timer_tick. destruct sf; [|done]. destruct (negb _); [done|].
  assert (lacks D (PROCESS_TABLE (account tf x)) /\
          next_pid (PROCESS_TABLE (account tf x)) = next_pid (PROCESS_TABLE x)) as [H1 <-].
  { unfold account, charge_tick. repeat case_match; try done; (split; [|done]); by apply lacks_update. }
  unfold select_next. destruct (pop_first _) as [[id qs]|].
  - set (x1 := set_scheduler _ _). destruct (set_current_pid_sched tf (Some id) x1) as (_ & _ & _ & _ & Ht).
    destruct tf; cbn [PROCESS_TABLE set_table]; rewrite Ht; [|done]. split; [|done]. by apply lacks_update.
  - case_match; [|done]. by destruct (set_current_pid_sched tf (Some (idle_pid (SCHEDULER (account tf x)))) (account tf x))
      as (_ & _ & _ & _ & ->).
Qed.

Lemma table_make_current id (m : Machine S) : table (make_current id m) = table m.
Proof. apply (set_current_pid_sched true id (exec m)). Qed.

Lemma create_process_full p t e t' : create_process p t = (Err e, t') -> t' = t /\ 256 <= blen (processes t).
Proof. unfold create_process. destruct (Z.leb_spec 256 (blen (processes t))); [|done]. by intros [= _ <-]. Qed.

Lemma ensure_shell_lacks D now now_log (m : Machine S) id m' :
  next_pid (table m) < 2 ^ 32 - 1 -> lacks D (table m) -> ensure_shell_process now now_log m = (id, m') ->
  lacks D (table m') /\ next_pid (table m) <= next_pid (table m') <= next_pid (table m) + 1 /\
  (is_Some (pt_get id (table m')) \/ 256 <= blen (processes (table m'))).
Proof.
  intros Hn H. unfold ensure_shell_process. destruct (existing_shell m) as [id'|] eqn:Ee.
  - intros [= -> <-]. rewrite table_make_current. split_and!; [done|lia|lia|]. left. unfold existing_shell in Ee.
    destruct (shell_pid (table m)) as [i|]; [|done]. simpl in Ee. destruct (pt_get i (table m)) eqn:Eg; [|done].
    simpl in Ee. destruct (_ =? _) in Ee; [|done]. injection Ee as ->. by rewrite Eg.
  - destruct (create_process _ (table m)) as [[id'|e] t] eqn:Ec; intros [= <- <-]; rewrite table_make_current;
      cbn [table exec audit with_table with_exec set_table PROCESS_TABLE].
    + pose proof Ec as Ec'. apply (lacks_create D _ _ _ _ false) in Ec as [H1 H2]; [|done|done|done].
      split_and!; [by apply lacks_set_shell|cbn; lia|cbn; lia|]. left.
      apply create_process_ok in Ec' as (_ & _ & Hps & _); [|apply H|done].
      unfold pt_get. cbn [processes set_shell_pid]. rewrite Hps, find_first_app.
      destruct (find_first _ (processes (table m))); [done|]. simpl. unfold pid_is. cbn. by rewrite Z.eqb_refl.
    + apply create_process_full in Ec as [-> Hfull].
      split_and!; [by apply lacks_set_shell|cbn; lia|cbn; lia|by right].
Qed.

(** ** Histories of processes *)

Inductive life_op : Type :=
| LifeShell (now now_log : Z)
| LifeReset
| LifeSpawn (now now_shell now_log : Z) (command_line : bytes) (pr : Priority)
| LifeRun (id : Z)
| LifeExec (id : Z)
| LifeDrop (now caps : Z)
| LifeExit (now id code : Z)
| LifeKill (now id code : Z)
| LifeReap (id : Z)
| LifeTick (scheduler_free table_free : bool).

(** One step, with the set of the descendants of some process. *)
Definition live (op : life_op) (st : Machine S * gset Z) : Machine S * gset Z :=
  let '(m, D) := st in
  match op with
  | LifeShell now now_log => ((ensure_shell_process now now_log m).2, D)
  | LifeReset => (reset_shell_process m, D)
  | LifeSpawn now now_shell now_log line pr =>
      let parent := (ensure_shell_process now_shell now_log m).1 in
      match spawn_shell_command now now_shell now_log line pr m with
      | (Ok id, m') => (m', if decide (parent ∈ D) then {[id]} ∪ D else D)
      | (Err _, m') => (m', D)
      end
  | LifeRun id => (mark_running id m, D)
  | LifeExec id => (exec_transition id m, D)
  | LifeDrop now caps => (drop_capabilities now caps m, D)
  | LifeExit now id code => (mark_exit now id code m, D)
  | LifeKill now id code => ((kill_process now id code m).2, D)
  | LifeReap id => (with_table (pt_remove id) m, D)
  | LifeTick sf tf => (with_exec (tick sf tf) m, D)
  end.

Lemma spawn_shell_lacks D now now_shell now_log line pr (m : Machine S) :
  next_pid (table m) < 2 ^ 32 - 2 -> lacks D (table m) ->
  let st := live (LifeSpawn now now_shell now_log line pr) (m, D) in
  lacks st.2 (table st.1) /\ next_pid (table m) <= next_pid (table st.1) <= next_pid (table m) + 2.
Proof.
  intros Hn H. cbn [live]. unfold spawn_shell_command.
  destruct (ensure_shell_process now_shell now_log m) as [parent m1] eqn:Ee.
  apply (ensure_shell_lacks D) in Ee as (H1 & Hn1 & Hpar); [|lia|done]. cbn [fst].
  destruct (first_32 line) as [name|]; [|cbn [fst snd]; split; [done|lia]].
  set (process := kernel_process _ _ _ _ _ _ _ _ m1).
  destruct (create_process process (table m1)) as [[id|e] t] eqn:Ec; [|cbn [fst snd]; split; [done|lia]].
  assert (forall inside : bool, (inside = true -> parent ∈ D) ->
    lacks (if inside then {[id]} ∪ D else D) t /\ next_pid t = next_pid (table m1) + 1) as Hcreate.
  { intros inside Hin. eapply lacks_create; [|done|exact Ec|]; [lia|]. intros ->. specialize (Hin eq_refl).
    destruct Hpar as [[p Hp]|Hfull].
    2:{ unfold create_process in Ec. rewrite (proj2 (Z.leb_le _ _)) in Ec by done. done. }
    pose proof Hp as Hp0. apply find_first_Some in Hp0 as [Hpin Hpid%pid_is_spec].
    destruct (cap_contains (effective_capabilities process) c) eqn:E; [|done].
    assert (cap_contains (effective_capabilities p) c = false) as Hl.
    { apply (lk_caps _ _ H1); [done|by rewrite Hpid]. }
    rewrite <- Hl. symmetry. eapply cap_contains_subset, E.
    unfold process, kernel_process, spawn_capabilities, process_capabilities. cbn [effective_capabilities].
    rewrite Hp. simpl. auto with caps. }
  destruct (task_spawn name (trim line) _) as [[t'|] ts]; cbn [fst snd].
  - destruct (decide (parent ∈ D)) as [Hin|Hin].
    + destruct (Hcreate true) as [H2 H3]; [done|]. split; [|cbn; lia]. by apply (lacks_update _ _ (set_task_id (Some t'))).
    + destruct (Hcreate false) as [H2 H3]; [done|]. split; [|cbn; lia]. by apply (lacks_update _ _ (set_task_id (Some t'))).
  - destruct (Hcreate false) as [H2 H3]; [done|]. split; [done|cbn; lia].
Qed.

Lemma live_lacks op D (m : Machine S) :
  next_pid (table m) < 2 ^ 32 - 2 -> lacks D (table m) ->
  let st := live op (m, D) in
  lacks st.2 (table st.1) /\ next_pid (table m) <= next_pid (table st.1) <= next_pid (table m) + 2.
Proof.
  intros Hn H. destruct op; [| |by apply spawn_shell_lacks|..]; cbn [live fst snd].
  - destruct (ensure_shell_process _ _ m) as [id m1] eqn:E. apply (ensure_shell_lacks D) in E as (? & ? & ?); [|lia|done].
    cbn [snd]. split; [done|lia].
  - unfold reset_shell_process. destruct (shell_pid (table m)); [|split; [done|lia]].
    destruct (pt_get z (table m) ≫= task_id); cbn; (split; [by apply lacks_remove, lacks_set_shell|lia]).
  - unfold mark_running. rewrite table_make_current. cbn. split; [|lia]. by apply lacks_update.
  - cbn. split; [|lia]. apply lacks_update; [|done]. intros q. split; [done|]. apply cap_subset_land_l.
  - unfold drop_capabilities. repeat case_match; cbn; (split; [|lia]); try done. apply lacks_update; [|done].
    intros q. split; [done|]. apply cap_subset_remove.
  - cbn. split; [|lia]. by apply lacks_update.
  - unfold kill_process. destruct (pt_get id (table m) ≫= task_id); cbn; destruct (pt_get id _); cbn;
      (split; [|lia]); try done; by apply lacks_update.
  - cbn. split; [|lia]. by apply lacks_remove.
  - destruct (lacks_tick D scheduler_free table_free (exec m) H) as [H1 H2]. cbn [with_exec exec]. split; [done|lia].
Qed.

Lemma lives_lack ops D (m : Machine S) :
  next_pid (table m) + 2 * blen ops < 2 ^ 32 - 2 -> lacks D (table m) ->
  let st := fold_left (fun st op => live op st) ops (m, D) in lacks st.2 (table st.1).
Proof.
  revert D m. induction ops as [|op ops IH]; intros D m Hn H; [done|]. cbn [fold_left].
  unfold blen in *. simpl length in Hn. rewrite Nat2Z.inj_succ in Hn.
  destruct (live_lacks op D m) as [H1 H2]; [lia|done|].
  destruct (live op (m, D)) as [m1 D1]. cbn [fst snd] in *. apply IH; [lia|done].
Qed.

End lineage.

(** ** Examples *)

Definition booted : Machine () :=
  mkMachine sample_kernel (mkExec table_new scheduler_new 0 0) tasks_new.
(** Ana's shell, with process number 1. *)
Definition ana_shell : Machine () := (ensure_shell_process 0 0 booted).2.

Lemma exited_process_never_runs_witness :
  let m := (spawn_shell_command 1 1 1 (str "echo hi") Normal ana_shell).2 in
  current_pid (SCHEDULER (ticks [(true, true); (true, true)] (exec (mark_exit 3 2 0 m)))) <> Some 2.
Proof.
  intros m. destruct (pt_get 2 (PROCESS_TABLE (exec m))) as [p|] eqn:E; [|vm_compute in E; discriminate].
  refine (proj1 (exited_process_never_runs 3 2 0 m p [(true, true); (true, true)] _ E)).
  vm_compute. discriminate.
Defined.

(** Ana's shell drops its right to bind a service port, starts a command and is interrupted. *)
Definition dropping_history : list life_op := [LifeSpawn 2 2 2 (str "echo hi") Normal; LifeTick true true; LifeRun 2].

Abbreviation dropped_state :=
  (fold_left (fun st op => live op st) dropping_history
     (drop_capabilities 1 (cap_bit NET_BIND_SERVICE) ana_shell, ({[1]} : gset Z))).

(** The command it started is process 2, which descends from the shell. *)
Lemma dropped_state_child : is_Some (pt_get 2 (PROCESS_TABLE (exec dropped_state.1))) /\ 2 ∈ dropped_state.2.
Proof.
  split.
  - destruct (pt_get 2 (PROCESS_TABLE (exec dropped_state.1))) eqn:E; [done|]. vm_compute in E. discriminate.
  - apply (bool_decide_eq_true_1 (2 ∈ dropped_state.2)). vm_compute. reflexivity.
Qed.

Lemma ana_shell_table :
  0 < NET_BIND_SERVICE /\ table_ok (PROCESS_TABLE (exec ana_shell)) /\
  current_pid (SCHEDULER (exec ana_shell)) = Some 1 /\
  is_Some (pt_get 1 (PROCESS_TABLE (exec ana_shell))) /\
  next_pid (PROCESS_TABLE (exec ana_shell)) + 2 * blen dropping_history < 2 ^ 32 - 2.
Proof.
  repeat split; try (vm_compute; done).
  - vm_compute. constructor; [apply not_elem_of_nil|constructor].
  - vm_compute. repeat constructor.
  - by eexists; vm_compute.
Qed.

Lemma pt_get_elem (t : ProcessTable) id p : pt_get id t = Some p -> p ∈ processes t.
Proof. intros [Hp _]%find_first_Some. exact Hp. Qed.

