(* ===== verification/Vm.v ===== *)
(** * Virtual memory (kernel/src/memory/paging.rs and the page tables it drives)

    The x86_64 crate walks and edits page tables; it is the class [Paging], with
    what its documentation promises in [PagingLaws].  A [Vm] is the machine the
    loader and the memory calls act on: the active root (CR3), the page tables,
    physical memory, the frame allocator.  Kernel code reaches user memory
    through the active tables, so a store translates every address and faults on
    a page that is missing, or read-only while the CPU honours write protection
    in ring 0 ([CR0_WP], which the bootloader decides); the handler of a page
    fault panics.

    The lemmas relate a [Vm] to what a user program sees ([view]): a partial map
    from addresses to a byte and its page's flags.  Mapping a fresh page,
    storing, changing flags and unmapping have on the view exactly the effect
    their names say, because no two user pages share a frame ([user_ok]). *)
From S2P Require Import Prelude Frames Process.

(** ** Page table flags *)

Definition PRESENT : Z := 1.
Definition WRITABLE : Z := 2.
Definition USER_ACCESSIBLE : Z := 4.
Definition NO_EXECUTE : Z := Z.shiftl 1 63.
Definition flag_set (flags f : Z) : bool := Z.land flags f =? f.

Inductive MapToError : Type :=
| FrameAllocationFailed
| ParentEntryHugePage
| PageAlreadyMapped (frame : Z).

(** Page tables of the x86_64 crate.  A table is named by the physical address
    of its root; [translate] is the walk of the CPU: the physical page and the
    flags of a virtual page. *)
Class Paging (PT : Type) : Type := {
  pml4 : Z -> PT -> list Z;
  write_pml4 : Z -> list Z -> PT -> PT;
  translate : Z -> PT -> Z -> option (Z * Z);
  huge_parent : Z -> PT -> Z -> bool;
  map_to : Z -> Z -> Z -> Z -> PT * BitmapAllocator -> result MapToError () * (PT * BitmapAllocator);
  unmap : Z -> Z -> PT -> option Z * PT;
  update_flags : Z -> Z -> Z -> PT -> bool * PT;
}.

Definition allocations (n : nat) (a : BitmapAllocator) : BitmapAllocator :=
  Nat.iter n (fun a => (allocate_frame a).2) a.
Definition slot (page : Z) : nat := Z.to_nat ((page / 2 ^ 39) mod 512).
Definition entry_present (entries : list Z) (i : nat) : bool := flag_set (nth i entries 0) PRESENT.

Class PagingLaws (PT : Type) `{Paging PT} : Prop := {
  (** [map_to] takes at most three frames, for the tables on the way. *)
  map_to_allocates root page frame flags pt a :
    exists n, (n <= 3)%nat /\ (map_to root page frame flags (pt, a)).2.2 = allocations n a;
  map_to_ok root page frame flags pt a pt' a' :
    map_to root page frame flags (pt, a) = (Ok (), (pt', a')) ->
    translate root pt page = None /\
    (forall p, translate root pt' p = if p =? page then Some (frame, flags) else translate root pt p) /\
    (forall p, huge_parent root pt' p = huge_parent root pt p);
  map_to_err root page frame flags pt a e pt' a' :
    map_to root page frame flags (pt, a) = (Err e, (pt', a')) ->
    (forall p, translate root pt' p = translate root pt p) /\
    (forall p, huge_parent root pt' p = huge_parent root pt p) /\
    match e with
    | FrameAllocationFailed => exists n, (n <= 2)%nat /\ (allocate_frame (allocations n a)).1 = None
    | ParentEntryHugePage => huge_parent root pt page = true
    | PageAlreadyMapped _ => is_Some (translate root pt page)
    end;
  unmap_spec root page pt :
    match unmap root page pt with
    | (Some frame, pt') =>
        (exists flags, translate root pt page = Some (frame, flags)) /\
        (forall p, translate root pt' p = if p =? page then None else translate root pt p) /\
        (forall p, huge_parent root pt' p = huge_parent root pt p)
    | (None, pt') =>
        (translate root pt page = None \/ huge_parent root pt page = true) /\ pt' = pt
    end;
  update_flags_spec root page flags pt :
    match update_flags root page flags pt with
    | (true, pt') =>
        (exists frame old, translate root pt page = Some (frame, old) /\
           forall p, translate root pt' p = if p =? page then Some (frame, flags) else translate root pt p) /\
        (forall p, huge_parent root pt' p = huge_parent root pt p)
    | (false, pt') =>
        (translate root pt page = None \/ huge_parent root pt page = true) /\ pt' = pt
    end;
  pml4_written root entries pt : pml4 root (write_pml4 root entries pt) = entries;
  (** A missing level-4 entry maps nothing. *)
  slot_missing root entries pt page :
    entry_present entries (slot page) = false ->
    translate root (write_pml4 root entries pt) page = None /\
    huge_parent root (write_pml4 root entries pt) page = false;
}.

(** ** The machine *)

Record Vm (PT : Type) : Type := mkVm {
  CR3 : Z;
  KERNEL_CR3 : Z;
  page_tables : PT;
  ram : Z -> byte;
  FRAME_ALLOCATOR : option BitmapAllocator;
  physical_memory_offset : option Z;
  ASLR_ENABLED : bool;
  CR0_WP : bool;
}.
Arguments mkVm {PT} _ _ _ _ _ _ _ _.
Arguments CR3 {PT} _.
Arguments KERNEL_CR3 {PT} _.
Arguments page_tables {PT} _.
Arguments ram {PT} _ _.
Arguments FRAME_ALLOCATOR {PT} _.
Arguments physical_memory_offset {PT} _.
Arguments ASLR_ENABLED {PT} _.
Arguments CR0_WP {PT} _.

(** [VirtAddr::new] panics on an address that is not sign-extended. *)
Definition canonical_address (a : Z) : bool := (a <? 2 ^ 47) || (2 ^ 64 - 2 ^ 47 <=? a).

(** [(start..end).step_by(4096)] *)
Definition pages (start end_ : Z) : list Z :=
  map (fun i => start + 4096 * i) (seqZ 0 ((end_ - start + 4095) / 4096)).

Section machine.
Context {PT : Type} `{Paging PT}.

Definition set_cr3 (root : Z) (vm : Vm PT) : Vm PT :=
  mkVm root (KERNEL_CR3 vm) (page_tables vm) (ram vm) (FRAME_ALLOCATOR vm) (physical_memory_offset vm)
    (ASLR_ENABLED vm) (CR0_WP vm).
Definition set_tables (pt : PT) (vm : Vm PT) : Vm PT :=
  mkVm (CR3 vm) (KERNEL_CR3 vm) pt (ram vm) (FRAME_ALLOCATOR vm) (physical_memory_offset vm) (ASLR_ENABLED vm)
    (CR0_WP vm).
Definition set_ram (m : Z -> byte) (vm : Vm PT) : Vm PT :=
  mkVm (CR3 vm) (KERNEL_CR3 vm) (page_tables vm) m (FRAME_ALLOCATOR vm) (physical_memory_offset vm)
    (ASLR_ENABLED vm) (CR0_WP vm).
Definition set_allocator (a : BitmapAllocator) (vm : Vm PT) : Vm PT :=
  mkVm (CR3 vm) (KERNEL_CR3 vm) (page_tables vm) (ram vm) (Some a) (physical_memory_offset vm)
    (ASLR_ENABLED vm) (CR0_WP vm).

(** *** Memory accesses *)

Definition lookup_page (vm : Vm PT) (address : Z) : option (Z * Z) :=
  translate (CR3 vm) (page_tables vm) (page_floor address).
Definition phys_of (vm : Vm PT) (address : Z) : option Z :=
  '(frame, _) ← lookup_page vm address; Some (frame + address mod 4096).
Definition may_write (vm : Vm PT) (address : Z) : bool :=
  match lookup_page vm address with Some (_, flags) => flag_set flags WRITABLE || negb (CR0_WP vm) | None => false end.

Definition addresses (start n : Z) : list Z := map (fun i => wrap 64 (start + i)) (seqZ 0 n).

Definition poke (vm : Vm PT) (m : Z -> byte) (cell : Z * byte) : Z -> byte :=
  match phys_of vm cell.1 with
  | Some p => fun q => if q =? p then cell.2 else m q
  | None => m
  end.
Definition store {E} (address : Z) (data : bytes) : stm (Vm PT) (fault E) () := fun vm =>
  let cells := addresses address (blen data) in
  if forallb (may_write vm) cells
  then (Ok (), set_ram (fold_left (poke vm) (zip cells data) (ram vm)) vm)
  else (Err Panicked, vm).

Definition peek (vm : Vm PT) (address : Z) : option byte := ram vm <$> phys_of vm address.
Definition load {E} (address n : Z) : stm (Vm PT) (fault E) bytes := fun vm =>
  match mapM (peek vm) (addresses address n) with
  | Some data => (Ok data, vm)
  | None => (Err Panicked, vm)
  end.

(** *** Page operations on the active table *)

Definition virt_addr {E} (address : Z) : stm (Vm PT) (fault E) Z :=
  if canonical_address address then mret address else throw Panicked.

Definition allocate {E} : stm (Vm PT) E (option Z) := fun vm =>
  match FRAME_ALLOCATOR vm with
  | Some a => let '(frame, a) := allocate_frame a in (Ok frame, set_allocator a vm)
  | None => (Ok None, vm)
  end.
Definition release_frame {E} (frame : Z) : stm (Vm PT) E () := fun vm =>
  match FRAME_ALLOCATOR vm with
  | Some a => (Ok (), set_allocator (free_frame frame a) vm)
  | None => (Ok (), vm)
  end.

Definition map_page {E} (page frame flags : Z) : stm (Vm PT) E (result MapToError ()) := fun vm =>
  match FRAME_ALLOCATOR vm with
  | Some a =>
      let '(r, (pt, a)) := map_to (CR3 vm) page frame flags (page_tables vm, a) in
      (Ok r, set_allocator a (set_tables pt vm))
  | None => (Ok (Err FrameAllocationFailed), vm)
  end.
Definition unmap_page {E} (page : Z) : stm (Vm PT) E (option Z) := fun vm =>
  let '(frame, pt) := unmap (CR3 vm) page (page_tables vm) in (Ok frame, set_tables pt vm).
Definition protect_page {E} (page flags : Z) : stm (Vm PT) E bool := fun vm =>
  let '(done, pt) := update_flags (CR3 vm) page flags (page_tables vm) in (Ok done, set_tables pt vm).

(** Unmap the page of an address and return its frame. *)
Definition unmap_address {E} (address : Z) : stm (Vm PT) (fault E) () :=
  page ← virt_addr address;
  frame ← unmap_page (page_floor page);
  match frame with Some frame => release_frame frame | None => mret tt end.

Definition for_each {E A} (f : A -> stm (Vm PT) E ()) (l : list A) : stm (Vm PT) E () :=
  foldM (fun x _ => f x) l tt.

End machine.

(** ** Allocation *)

Section allocation.
Context (U : Z -> Prop).

Record alloc_ok (own : gset Z) (a : BitmapAllocator) : Prop := mkAllocOk {
  al_inv : frames_inv U own (max_frame_index a) a;
  al_zero : is_allocated a 0 = true;
}.

Lemma free_frame_exists own a :
  alloc_ok own a -> 0 < free_frames a -> exists i, 0 < i < max_frame_index a /\ is_allocated a i = false.
Proof.
  intros [Hi Hz] Hf. rewrite (fi_count _ _ _ _ Hi) in Hf. apply free_count_pos in Hf as (i & Hb & Hfree).
  exists i. split; [|done]. destruct (decide (i = 0)) as [->|]; [congruence|].
  destruct (fi_free _ _ _ _ Hi i) as (_ & _ & ?); [lia|done|lia].
Qed.

Lemma allocate_frame_ok own a :
  alloc_ok own a -> 0 < free_frames a ->
  exists i a', allocate_frame a = (Some (i * FRAME_SIZE), a') /\ 0 < i /\ i ∉ own /\
    alloc_ok ({[i]} ∪ own) a' /\ free_frames a' = free_frames a - 1.
Proof.
  intros Hok Hf. destruct (free_frame_exists own a Hok Hf) as (j & Hj & Hja). destruct Hok as [Hi Hz].
  pose proof (allocate_frame_spec U own a Hi) as Hs.
  assert (forall x a', allocate_frame a = (Some x, a') -> free_frames a' = free_frames a - 1 /\
            (is_allocated a 0 = true -> is_allocated a' 0 = true)) as Hfree.
  { unfold allocate_frame. intros x a'. destruct (free_frames a =? 0); [done|].
    destruct (scan_frame a _) as [k|]; [|done]. intros [= <- <-]. split; [done|].
    intros H0. rewrite is_allocated_counts, is_allocated_set. by destruct (0 =? k). }
  destruct (allocate_frame a) as [[f|] a'] eqn:E.
  - destruct Hs as (i & -> & Hb & Hnew & Hm & Hinv). destruct (Hfree _ _ eq_refl) as [H1 H2].
    exists i, a'. split_and!; try done; [lia| |by split; [|apply H2]].
    intros Hin. apply (fi_own _ _ _ _ Hi) in Hin as (_ & _ & Hin). congruence.
  - destruct Hs as [_ Hs]. rewrite Hs in Hja; [done|lia].
Qed.

Lemma allocations_ok n own a :
  alloc_ok own a -> Z.of_nat n <= free_frames a ->
  exists own', own ⊆ own' /\ alloc_ok own' (allocations n a) /\
    free_frames (allocations n a) = free_frames a - Z.of_nat n.
Proof.
  intros Hok. induction n as [|n IH]; intros Hn; [exists own; split_and!; [done|done|simpl; lia]|].
  destruct IH as (own1 & Hsub & Hok1 & Hfree); [lia|]. change (allocations (S n) a) with (allocate_frame (allocations n a)).2.
  destruct (allocate_frame_ok own1 (allocations n a) Hok1) as (i & a' & -> & _ & _ & Hok2 & Hf2); [lia|].
  exists ({[i]} ∪ own1). split_and!; [set_solver|done|]. cbn [snd]. lia.
Qed.
End allocation.

(** ** What a user program sees *)

Definition USER_SPACE : Z := 2 ^ 39.
Definition user_address (a : Z) : Prop := 0 <= a < USER_SPACE.
Definition aligned (a : Z) : Prop := a mod 4096 = 0.

Lemma page_floor_aligned a : aligned (page_floor a).
Proof. unfold aligned, page_floor. rewrite Zminus_mod_idemp_r. by rewrite Z.sub_diag. Qed.
Lemma page_floor_id a : aligned a -> page_floor a = a.
Proof. unfold aligned, page_floor. lia. Qed.
Lemma page_floor_user a : user_address a -> user_address (page_floor a).
Proof.
  unfold user_address, page_floor. pose proof (Z.mod_pos_bound a 4096).
  pose proof (Z.mod_le a 4096). lia.
Qed.
Lemma page_floor_near a : page_floor a <= a < page_floor a + 4096.
Proof. unfold page_floor. pose proof (Z.mod_pos_bound a 4096). lia. Qed.
Lemma aligned_le a b : aligned a -> aligned b -> a < b -> a + 4096 <= b.
Proof. unfold aligned. intros Ha Hb Hlt. pose proof (Z.div_mod a 4096). pose proof (Z.div_mod b 4096). lia. Qed.
Lemma page_floor_in p a : aligned p -> p <= a < p + 4096 -> page_floor a = p.
Proof.
  intros Hp Ha. pose proof (page_floor_near a). pose proof (page_floor_aligned a) as Hf.
  destruct (Z.lt_trichotomy (page_floor a) p) as [Hlt|[?|Hlt]]; [|done|].
  - apply aligned_le in Hlt; [lia|done|done].
  - apply aligned_le in Hlt; [lia|done|done].
Qed.
Create HintDb vm.
#[export] Hint Resolve page_floor_aligned page_floor_user : vm.

Section user.
Context {PT : Type} {HP : Paging PT} {HL : PagingLaws PT} (U : Z -> Prop).
Implicit Type vm : Vm PT.

Definition view vm (a : Z) : option (byte * Z) :=
  '(frame, flags) ← lookup_page vm a; Some (ram vm (frame + a mod 4096), flags).

Record user_ok (own : gset Z) vm : Prop := mkUserOk {
  uo_alloc : exists a, FRAME_ALLOCATOR vm = Some a /\ alloc_ok U own a;
  uo_owned : forall p frame flags, user_address p -> aligned p ->
    translate (CR3 vm) (page_tables vm) p = Some (frame, flags) -> aligned frame /\ frame / 4096 ∈ own;
  uo_inj : forall p q frame fl fl', user_address p -> aligned p -> user_address q -> aligned q ->
    translate (CR3 vm) (page_tables vm) p = Some (frame, fl) ->
    translate (CR3 vm) (page_tables vm) q = Some (frame, fl') -> p = q;
  uo_huge : forall p, user_address p -> huge_parent (CR3 vm) (page_tables vm) p = false;
}.

Definition free_of vm : Z := match FRAME_ALLOCATOR vm with Some a => free_frames a | None => 0 end.

(** What the operations on pages leave alone. *)
Record same_cpu vm vm' : Prop := mkSameCpu {
  sc_cr3 : CR3 vm' = CR3 vm;
  sc_kernel : KERNEL_CR3 vm' = KERNEL_CR3 vm;
  sc_offset : physical_memory_offset vm' = physical_memory_offset vm;
  sc_aslr : ASLR_ENABLED vm' = ASLR_ENABLED vm;
  sc_wp : CR0_WP vm' = CR0_WP vm;
}.
#[global] Instance same_cpu_preorder : PreOrder same_cpu.
Proof. split; [by split|]. intros x y z [] []. split; congruence. Qed.

Lemma phys_inj own vm a b p :
  user_ok own vm -> user_address a -> user_address b -> phys_of vm a = Some p -> phys_of vm b = Some p -> a = b.
Proof.
  intros Hok Ha Hb. unfold phys_of, lookup_page.
  destruct (translate _ _ (page_floor a)) as [[f fl]|] eqn:Ea; [|done].
  destruct (translate _ _ (page_floor b)) as [[f' fl']|] eqn:Eb; [|done]. simpl. intros [= <-] [= Heq].
  destruct (uo_owned _ _ Hok _ _ _ (page_floor_user _ Ha) (page_floor_aligned _) Ea) as [Hf _].
  destruct (uo_owned _ _ Hok _ _ _ (page_floor_user _ Hb) (page_floor_aligned _) Eb) as [Hf' _].
  unfold aligned in *. pose proof (Z.mod_pos_bound a 4096). pose proof (Z.mod_pos_bound b 4096).
  pose proof (Z.div_mod f 4096). pose proof (Z.div_mod f' 4096).
  assert (f = f') as <- by lia.
  assert (page_floor a = page_floor b) as Hp
    by (eapply (uo_inj _ _ Hok _ _ f); eauto using page_floor_user, page_floor_aligned).
  unfold page_floor in Hp. lia.
Qed.

Lemma view_phys vm a : view vm a = '(frame, flags) ← lookup_page vm a; p ← phys_of vm a; Some (ram vm p, flags).
Proof. unfold view, phys_of. by destruct (lookup_page vm a) as [[f fl]|]. Qed.

Lemma lookup_view vm a flags : (exists b, view vm a = Some (b, flags)) <-> exists f, lookup_page vm a = Some (f, flags).
Proof. unfold view. destruct (lookup_page vm a) as [[f fl]|]; simpl; naive_solver. Qed.

(** *** Storing *)

Definition stored (start : Z) (data : bytes) (v : Z -> option (byte * Z)) (a : Z) : option (byte * Z) :=
  match data !! Z.to_nat (a - start) with
  | Some b => if start <=? a then '(_, flags) ← v a; Some (b, flags) else v a
  | None => v a
  end.

Lemma addresses_cons start n :
  0 <= n -> 0 <= start < 2 ^ 64 -> addresses start (1 + n) = start :: addresses (start + 1) n.
Proof.
  intros Hn Hs. unfold addresses. rewrite seqZ_cons by lia. cbn [map]. rewrite Z.add_0_r, wrap_small by done. f_equal.
  replace (Z.pred (1 + n)) with n by lia. change (Z.succ 0) with (1 + 0). rewrite <- fmap_add_seqZ.
  rewrite <- list_fmap_compose. apply list_fmap_ext. intros _ x _. cbn. f_equal. lia.
Qed.

Lemma elem_addresses start n a :
  0 <= start -> start + n <= 2 ^ 64 -> a ∈ addresses start n <-> start <= a < start + n.
Proof.
  intros H1 H2. unfold addresses. rewrite list_elem_of_fmap. split.
  - intros (i & -> & Hi%elem_of_seqZ). rewrite wrap_small by lia. lia.
  - intros Ha. exists (a - start). rewrite wrap_small by lia. split; [lia|]. apply elem_of_seqZ. lia.
Qed.

Lemma pokes own vm start data m a p :
  user_ok own vm -> 0 <= start -> start + blen data <= USER_SPACE -> user_address a -> phys_of vm a = Some p ->
  (forall x, start <= x < start + blen data -> is_Some (phys_of vm x)) ->
  fold_left (poke vm) (zip (addresses start (blen data)) data) m p =
  match data !! Z.to_nat (a - start) with Some b => if start <=? a then b else m p | None => m p end.
Proof.
  intros Hok. revert start m. induction data as [|b data IH]; intros start m Hs He Ha Hp Hmap; [done|].
  pose proof (blen_nonneg data). rewrite blen_cons in *. rewrite addresses_cons by (unfold USER_SPACE in *; lia). cbn [zip zip_with fold_left].
  rewrite IH; [|lia|lia|done|done|intros x Hx; apply Hmap; lia].
  destruct (Hmap start) as [q Hq]; [lia|].
  unfold poke. cbn [fst snd]. rewrite Hq.
  assert ((p =? q) = (a =? start)) as Hpq.
  { destruct (Z.eqb_spec p q) as [->|Hne].
    - symmetry. apply Z.eqb_eq. eapply phys_inj; eauto. unfold user_address. lia.
    - symmetry. apply Z.eqb_neq. congruence. }
  rewrite Hpq. destruct (Z.eqb_spec a start) as [->|Hne].
  - replace (Z.to_nat (start - start)) with O by lia. cbn [lookup list_lookup]. rewrite Z.leb_refl.
    destruct (data !! _); [|done]. by rewrite (proj2 (Z.leb_gt _ _)) by lia.
  - destruct (Z.leb_spec start a).
    + replace (Z.to_nat (a - start)) with (S (Z.to_nat (a - (start + 1)))) by lia.
      cbn [lookup list_lookup]. destruct (data !! _); [|done]. by rewrite (proj2 (Z.leb_le _ _)) by lia.
    + destruct (data !! _), ((b :: data) !! _); try done; by rewrite (proj2 (Z.leb_gt _ _)) by lia.
Qed.

Definition writable_range vm (start n : Z) : Prop :=
  forall a, start <= a < start + n -> exists b flags, view vm a = Some (b, flags) /\ flag_set flags WRITABLE = true.

Lemma user_ok_ram own vm m : user_ok own vm -> user_ok own (set_ram m vm).
Proof. by intros []; split. Qed.

Lemma store_ok {E} own vm start data :
  user_ok own vm -> 0 <= start -> start + blen data <= USER_SPACE -> writable_range vm start (blen data) ->
  exists m, store (E:=E) start data vm = (Ok (), set_ram m vm) /\ user_ok own (set_ram m vm) /\
    forall a, user_address a -> view (set_ram m vm) a = stored start data (view vm) a.
Proof.
  intros Hok Hs He Hw. unfold store. rewrite (proj2 (forallb_forall _ _)).
  2:{ intros a Ha%list_elem_of_In. apply elem_addresses in Ha; [|done|unfold USER_SPACE in *; lia].
      destruct (Hw a Ha) as (b & fl & Hv & Hfl). destruct (proj1 (lookup_view vm a fl)) as [f Hf]; [by exists b|].
      unfold may_write. by rewrite Hf, Hfl. }
  eexists. split; [done|]. split; [by apply user_ok_ram|]. intros a Ha. rewrite !view_phys. unfold stored.
  change (lookup_page (set_ram ?m vm) a) with (lookup_page vm a). change (phys_of (set_ram ?m vm) a) with (phys_of vm a).
  unfold view. destruct (lookup_page vm a) as [[f fl]|] eqn:El; simpl; [|by repeat case_match].
  assert (phys_of vm a = Some (f + a mod 4096)) as Hp by (unfold phys_of; by rewrite El). rewrite Hp. simpl.
  rewrite (pokes own vm start data _ a) by
    (done || (intros x Hx; destruct (Hw x Hx) as (b & fl' & Hv & _); unfold view in Hv; unfold phys_of;
              destruct (lookup_page vm x) as [[]|]; [by eexists|done])).
  destruct (data !! _); [|done]. by destruct (start <=? a).
Qed.

(** *** Fresh pages *)

Definition mapped (page flags : Z) (v : Z -> option (byte * Z)) (a : Z) : option (byte * Z) :=
  if page_floor a =? page then Some (x00, flags) else v a.

Lemma view_None vm p : aligned p -> view vm p = None <-> translate (CR3 vm) (page_tables vm) p = None.
Proof.
  intros Hp. unfold view, lookup_page. rewrite page_floor_id by done. by destruct (translate _ _ p) as [[]|].
Qed.

Lemma allocations_any n own a :
  alloc_ok U own a -> exists own', own ⊆ own' /\ alloc_ok U own' (allocations n a).
Proof.
  intros Hok. induction n as [|n (own1 & Hsub & Hok1)]; [by exists own|].
  change (allocations (S n) a) with (allocate_frame (allocations n a)).2.
  destruct (decide (0 < free_frames (allocations n a))) as [Hf|Hf].
  - destruct (allocate_frame_ok U own1 _ Hok1 Hf) as (i & a' & -> & _ & _ & Hok2 & _).
    exists ({[i]} ∪ own1). split; [set_solver|done].
  - exists own1. split; [done|]. pose proof (allocate_frame_spec U own1 _ (al_inv _ _ _ Hok1)) as Hs.
    destruct (allocate_frame (allocations n a)) as [[f|] a'] eqn:E; [|by destruct Hs as [-> _]].
    exfalso. destruct Hs as (i & _ & Hb & Hfree & _).
    pose proof (fi_count _ _ _ _ (al_inv _ _ _ Hok1)) as Hcount. unfold allocate_frame in E.
    destruct (Z.eqb_spec (free_frames (allocations n a)) 0) as [|Hne]; [done|].
    pose proof (free_count_nonneg (allocations n a) MAX_TRACKED_FRAMES). lia.
Qed.

(** Mapping a frame nobody owns keeps the pages apart, and works when three
    frames are free for tables. *)
Lemma map_page_cases {E} own vm page i flags :
  user_ok own vm -> user_address page -> aligned page -> view vm page = None ->
  i ∈ own -> (forall p frame fl, user_address p -> aligned p ->
                translate (CR3 vm) (page_tables vm) p = Some (frame, fl) -> frame / 4096 <> i) ->
  exists r vm' own', map_page (E:=E) page (i * FRAME_SIZE) flags vm = (Ok r, vm') /\ own ⊆ own' /\
    user_ok own' vm' /\ same_cpu vm vm' /\ ram vm' = ram vm /\
    (3 <= free_of vm -> r = Ok () /\ free_of vm - 3 <= free_of vm') /\
    forall p, translate (CR3 vm') (page_tables vm') p =
              if is_ok r && (p =? page) then Some (i * FRAME_SIZE, flags) else translate (CR3 vm) (page_tables vm) p.
Proof.
  intros Hok Hu Hp Hv Hi Hnew. apply view_None in Hv; [|done].
  destruct (uo_alloc _ _ Hok) as (a & Ha & Hal). unfold map_page, free_of in *. rewrite Ha in *.
  destruct (map_to_allocates (CR3 vm) page (i * FRAME_SIZE) flags (page_tables vm) a) as (n & Hn & Hall).
  destruct (allocations_any n own a Hal) as (own' & Hsub & Hal').
  assert (3 <= free_frames a -> free_frames a - 3 <= free_frames (allocations n a)) as Hfree.
  { intros Hf. destruct (allocations_ok U n own a Hal) as (_ & _ & _ & ->); lia. }
  destruct (map_to _ _ _ _ _) as [r [pt' a']] eqn:Em. cbn [snd] in Hall. subst a'.
  assert ((forall p, translate (CR3 vm) pt' p =
            if is_ok r && (p =? page) then Some (i * FRAME_SIZE, flags) else translate (CR3 vm) (page_tables vm) p) /\
          (forall p, huge_parent (CR3 vm) pt' p = huge_parent (CR3 vm) (page_tables vm) p)) as [Ht Hh].
  { destruct r as [[]|e]; [by apply map_to_ok in Em as (_ & Ht & Hh)|by apply map_to_err in Em as (Ht & Hh & _)]. }
  eexists r, _, own'. split_and!; [done|done| |by split|done| |exact Ht].
  - split; cbn [CR3 page_tables set_allocator set_tables FRAME_ALLOCATOR].
    + by eexists.
    + intros p f fl Hup Hap. rewrite Ht. destruct (is_ok r && (p =? page)) eqn:Ec; intros Hx.
      * injection Hx as <- <-. unfold FRAME_SIZE, aligned. rewrite Z.mod_mul, Z.div_mul by lia. split; [done|by apply Hsub].
      * destruct (uo_owned _ _ Hok _ _ _ Hup Hap Hx). split; [done|by apply Hsub].
    + intros p q f fl fl' Hup Hap Huq Haq. rewrite !Ht.
      destruct (is_ok r); cbn [andb]; [|by apply (uo_inj _ _ Hok)].
      destruct (Z.eqb_spec p page) as [->|], (Z.eqb_spec q page) as [->|]; intros Hx Hy; [done| | |by eapply (uo_inj _ _ Hok)].
      * injection Hx as <- <-. apply Hnew in Hy; [|done|done]. unfold FRAME_SIZE in Hy. by rewrite Z.div_mul in Hy.
      * injection Hy as <- <-. apply Hnew in Hx; [|done|done]. unfold FRAME_SIZE in Hx. by rewrite Z.div_mul in Hx.
    + intros p Hup. rewrite Hh. by apply (uo_huge _ _ Hok).
  - intros Hf. split; [|by apply Hfree]. destruct r as [[]|e]; [done|]. exfalso.
    apply map_to_err in Em as (_ & _ & He). destruct e as [| |f].
    + destruct He as (k & Hk & Hnone). destruct (allocations_ok U k own a Hal) as (own2 & _ & Hal2 & Hf2); [lia|].
      destruct (allocate_frame_ok U own2 _ Hal2) as (j & a2 & Heq & _); [lia|]. by rewrite Heq in Hnone.
    + by rewrite (uo_huge _ _ Hok) in He.
    + rewrite Hv in He. by destruct He.
Qed.

Lemma map_fresh {E} own vm page i flags :
  user_ok own vm -> user_address page -> aligned page -> view vm page = None -> 3 <= free_of vm ->
  i ∈ own -> (forall p frame fl, user_address p -> aligned p ->
                translate (CR3 vm) (page_tables vm) p = Some (frame, fl) -> frame / 4096 <> i) ->
  exists vm' own', map_page (E:=E) page (i * FRAME_SIZE) flags vm = (Ok (Ok ()), vm') /\ own ⊆ own' /\
    user_ok own' vm' /\ same_cpu vm vm' /\ ram vm' = ram vm /\ free_of vm - 3 <= free_of vm' /\
    forall p, translate (CR3 vm') (page_tables vm') p =
              if p =? page then Some (i * FRAME_SIZE, flags) else translate (CR3 vm) (page_tables vm) p.
Proof.
  intros Hok Hu Hp Hv Hf Hi Hnew.
  destruct (map_page_cases (E:=E) own vm page i flags Hok Hu Hp Hv Hi Hnew) as (r & vm' & own' & R & H1 & H2 & H3 & H4 & H5 & H6).
  destruct (H5 Hf) as [-> H7]. by exists vm', own'.
Qed.

Lemma user_ok_more own vm own' a :
  user_ok own vm -> own ⊆ own' -> alloc_ok U own' a -> user_ok own' (set_allocator a vm).
Proof.
  intros Hok Hsub Ha. split.
  - by exists a.
  - intros p f fl Hu Hp Ht. destruct (uo_owned _ _ Hok p f fl Hu Hp Ht). split; [done|by apply Hsub].
  - apply (uo_inj _ _ Hok).
  - apply (uo_huge _ _ Hok).
Qed.

Lemma allocate_ok {E} own vm :
  user_ok own vm -> 0 < free_of vm ->
  exists i a, allocate (E:=E) vm = (Ok (Some (i * FRAME_SIZE)), set_allocator a vm) /\ i ∉ own /\
    user_ok ({[i]} ∪ own) (set_allocator a vm) /\ free_of (set_allocator a vm) = free_of vm - 1.
Proof.
  intros Hok Hf. destruct (uo_alloc _ _ Hok) as (a & Ha & Hal). unfold allocate, free_of in *. rewrite Ha in *.
  destruct (allocate_frame_ok U own a Hal Hf) as (i & a' & -> & _ & Hi & Hal' & Hf').
  exists i, a'. split_and!; [done|done| |done]. eapply user_ok_more; [done|set_solver|done].
Qed.

Lemma zeros_page_lookup p a :
  aligned p -> user_address a ->
  zeros 4096 !! Z.to_nat (a - p) = if page_floor a =? p then Some x00 else if a <? p then Some x00 else None.
Proof.
  intros Hp Ha. pose proof (page_floor_near a). unfold zeros.
  destruct (Z.eqb_spec (page_floor a) p) as [<-|Hne].
  - apply lookup_replicate. split; [done|]. lia.
  - destruct (Z.ltb_spec a p).
    + replace (Z.to_nat (a - p)) with O by lia. done.
    + apply lookup_replicate_None. destruct (Z.lt_ge_cases a (p + 4096)); [|lia].
      exfalso. apply Hne. apply page_floor_in; [done|lia].
Qed.

(** Clearing a page just mapped. *)
Lemma clear_page {E} own vm vm2 page frame flags :
  user_ok own vm2 -> user_address page -> aligned page -> flag_set flags WRITABLE = true -> ram vm2 = ram vm ->
  (forall p, translate (CR3 vm2) (page_tables vm2) p =
             if p =? page then Some (frame, flags) else translate (CR3 vm) (page_tables vm) p) ->
  exists m, store (E:=E) page (zeros 4096) vm2 = (Ok (), set_ram m vm2) /\ user_ok own (set_ram m vm2) /\
    forall a, user_address a -> view (set_ram m vm2) a = mapped page flags (view vm) a.
Proof.
  intros Hok Hu Hp Hw Hram Ht.
  assert (forall x, lookup_page vm2 x = if page_floor x =? page then Some (frame, flags) else lookup_page vm x) as Hlk
    by (intros x; unfold lookup_page; by rewrite Ht).
  assert (page + 4096 <= USER_SPACE) as Hend by (apply aligned_le; [done|done|apply Hu]).
  destruct (store_ok (E:=E) own vm2 page (zeros 4096) Hok) as (m & Hst & Hok3 & Hview).
  { apply Hu. }
  { unfold blen. rewrite length_zeros. lia. }
  { unfold blen. rewrite length_zeros. intros x Hx. unfold view. rewrite Hlk, (page_floor_in page x), Z.eqb_refl by done.
    by eexists _, _. }
  exists m. split; [exact Hst|]. split; [exact Hok3|].
  intros x Hx. rewrite Hview by done. unfold stored, mapped. rewrite zeros_page_lookup by done.
  pose proof (page_floor_near x). unfold view. rewrite Hlk, Hram.
  destruct (Z.eqb_spec (page_floor x) page) as [Heq|Hne]; [by rewrite (proj2 (Z.leb_le _ _)) by lia|].
  destruct (Z.ltb_spec x page); [by rewrite (proj2 (Z.leb_gt _ _)) by lia|done].
Qed.

(** The three steps by which every component adds a page. *)
Lemma fresh_page {E} own vm page flags :
  user_ok own vm -> user_address page -> aligned page -> view vm page = None -> 4 <= free_of vm ->
  flag_set flags WRITABLE = true ->
  exists frame vm1 vm2 vm3 own',
    allocate (E:=fault E) vm = (Ok (Some frame), vm1) /\
    map_page (E:=fault E) page frame flags vm1 = (Ok (Ok ()), vm2) /\
    store (E:=E) page (zeros 4096) vm2 = (Ok (), vm3) /\
    own ⊆ own' /\ user_ok own' vm3 /\ same_cpu vm vm3 /\ free_of vm - 4 <= free_of vm3 /\
    forall a, user_address a -> view vm3 a = mapped page flags (view vm) a.
Proof.
  intros Hok Hu Hp Hv Hf Hw.
  destruct (allocate_ok (E:=fault E) own vm Hok) as (i & a & Hal & Hi & Hok1 & Hf1); [lia|].
  destruct (map_fresh (E:=fault E) _ _ page i flags Hok1 Hu Hp) as (vm2 & own2 & Hmap & Hsub & Hok2 & Hcpu & Hram & Hf2 & Ht);
    [done|lia|set_solver| |].
  { intros p f fl Hup Hap Htr <-. apply Hi. by apply (uo_owned _ _ Hok p f fl Hup Hap Htr). }
  destruct (clear_page (E:=E) own2 vm vm2 page (i * FRAME_SIZE) flags Hok2 Hu Hp Hw Hram Ht) as (m & Hst & Hok3 & Hview).
  exists (i * FRAME_SIZE), (set_allocator a vm), vm2, (set_ram m vm2), own2.
  split; [exact Hal|]. split; [exact Hmap|]. split; [exact Hst|]. split; [clear -Hsub; set_solver|]. split; [exact Hok3|].
  split; [by destruct Hcpu; split|]. split; [change (free_of (set_ram m vm2)) with (free_of vm2); lia|exact Hview].
Qed.

(** *** Flags and removal *)

Definition protected (page flags : Z) (v : Z -> option (byte * Z)) (a : Z) : option (byte * Z) :=
  if page_floor a =? page then '(b, _) ← v a; Some (b, flags) else v a.

Lemma user_ok_tables own vm pt :
  user_ok own vm ->
  (forall p f fl, translate (CR3 vm) pt p = Some (f, fl) -> exists fl', translate (CR3 vm) (page_tables vm) p = Some (f, fl')) ->
  (forall p, huge_parent (CR3 vm) pt p = huge_parent (CR3 vm) (page_tables vm) p) ->
  user_ok own (set_tables pt vm).
Proof.
  intros Hok Ht Hh. split; cbn [CR3 page_tables set_tables FRAME_ALLOCATOR].
  - apply (uo_alloc _ _ Hok).
  - intros p f fl Hu Hp Hx. apply Ht in Hx as [fl' Hx]. by eapply (uo_owned _ _ Hok).
  - intros p q f fl fl' Hu Hp Hq Haq Hx Hy. apply Ht in Hx as [? Hx]. apply Ht in Hy as [? Hy].
    by eapply (uo_inj _ _ Hok p q f).
  - intros p Hp. rewrite Hh. by apply (uo_huge _ _ Hok).
Qed.

Lemma protect_ok {E} own vm page flags :
  user_ok own vm -> user_address page -> aligned page -> view vm page <> None ->
  exists pt, protect_page (E:=E) page flags vm = (Ok true, set_tables pt vm) /\ user_ok own (set_tables pt vm) /\
    forall a, view (set_tables pt vm) a = protected page flags (view vm) a.
Proof.
  intros Hok Hu Hp Hv. unfold protect_page.
  pose proof (update_flags_spec (CR3 vm) page flags (page_tables vm)) as Hs.
  destruct (update_flags _ _ _ _) as [[] pt].
  - destruct Hs as [(f & old & Htr & Ht) Hh]. exists pt. split_and!; [done| |].
    + apply user_ok_tables; [done| |done]. intros p g fl Hx. rewrite Ht in Hx.
      destruct (Z.eqb_spec p page) as [->|]; [|by exists fl]. injection Hx as <- <-. by exists old.
    + intros a. unfold view, protected, lookup_page. cbn [CR3 page_tables set_tables ram]. rewrite Ht.
      destruct (Z.eqb_spec (page_floor a) page) as [->|]; [|done]. by rewrite Htr.
  - exfalso. destruct Hs as [[Ht|Ht] _]; [|by rewrite (uo_huge _ _ Hok) in Ht]. by apply view_None in Ht.
Qed.

Definition unmapped (page : Z) (v : Z -> option (byte * Z)) (a : Z) : option (byte * Z) :=
  if page_floor a =? page then None else v a.

Lemma free_frame_ok own a i :
  alloc_ok U own a -> i ∈ own ->
  alloc_ok U (own ∖ {[i]}) (free_frame (i * FRAME_SIZE) a) /\
  free_frames (free_frame (i * FRAME_SIZE) a) = free_frames a + 1.
Proof.
  intros [Hinv Hz] Hi. pose proof (free_frame_spec U own a i Hinv Hi) as Hs.
  destruct (fi_own _ _ _ _ Hinv i Hi) as (Hb & _ & Ha).
  assert (free_frame (i * FRAME_SIZE) a = release a i) as Heq.
  { unfold free_frame, FRAME_SIZE. rewrite Z.div_mul by done.
    by rewrite (proj2 (Z.eqb_neq _ _)), (proj2 (Z.leb_gt _ _)) by lia. }
  rewrite Heq in *. split; [split; [done|]|]; unfold release; rewrite Ha; [|done].
  rewrite is_allocated_counts, is_allocated_set. by rewrite (proj2 (Z.eqb_neq _ _)) by lia.
Qed.

Lemma unmap_ok {E} own vm page :
  user_ok own vm -> user_address page -> aligned page ->
  match view vm page with
  | None => unmap_page (E:=E) page vm = (Ok None, vm)
  | Some _ =>
      exists frame vm1 vm2, unmap_page (E:=E) page vm = (Ok (Some frame), vm1) /\
        release_frame (E:=E) frame vm1 = (Ok (), vm2) /\ frame / 4096 ∈ own /\
        user_ok (own ∖ {[frame / 4096]}) vm2 /\ same_cpu vm vm2 /\ free_of vm2 = free_of vm + 1 /\
        (exists flags, translate (CR3 vm) (page_tables vm) page = Some (frame, flags)) /\
        (forall p, translate (CR3 vm2) (page_tables vm2) p =
                   if p =? page then None else translate (CR3 vm) (page_tables vm) p) /\
        forall a, view vm2 a = unmapped page (view vm) a
  end.
Proof.
  intros Hok Hu Hp. unfold unmap_page. pose proof (unmap_spec (CR3 vm) page (page_tables vm)) as Hs.
  destruct (unmap _ _ _) as [[frame|] pt].
  - destruct Hs as ((fl & Htr) & Ht & Hh).
    destruct (view vm page) as [[b0 fl0]|] eqn:Hv; [|by apply view_None in Hv; [congruence|]].
    destruct (uo_owned _ _ Hok _ _ _ Hu Hp Htr) as [Hal Hown].
    destruct (uo_alloc _ _ Hok) as (a & Ha & Hok1). destruct (free_frame_ok own a _ Hok1 Hown) as [Hok2 Hf2].
    assert (frame / 4096 * FRAME_SIZE = frame) as Hfr.
    { unfold FRAME_SIZE, aligned in *. pose proof (Z.div_mod frame 4096). lia. }
    rewrite Hfr in *. eexists frame, _, (set_allocator (free_frame frame a) (set_tables pt vm)).
    split; [done|]. split; [unfold release_frame; cbn; by rewrite Ha|]. split; [done|].
    split; [|split; [by split|split; [|split; [by exists fl|split; [exact Ht|]]]]].
    + split; cbn [CR3 page_tables FRAME_ALLOCATOR set_tables set_allocator].
      * by eexists.
      * intros p f fl' Hup Hap. rewrite Ht. destruct (Z.eqb_spec p page) as [|Hne]; [done|]. intros Hx.
        destruct (uo_owned _ _ Hok p f fl' Hup Hap Hx). split; [done|]. apply elem_of_difference. split; [done|].
        intros Heq%elem_of_singleton. apply Hne. eapply (uo_inj _ _ Hok p page frame); eauto.
        replace frame with f; [done|]. unfold aligned in *. pose proof (Z.div_mod frame 4096). pose proof (Z.div_mod f 4096). lia.
      * intros p q f fl1 fl2 Hup Hap Huq Haq. rewrite !Ht.
        destruct (Z.eqb_spec p page), (Z.eqb_spec q page); try done. by apply (uo_inj _ _ Hok).
      * intros p Hup. rewrite Hh. by apply (uo_huge _ _ Hok).
    + unfold free_of. rewrite Ha. cbn. lia.
    + intros x. unfold view, unmapped, lookup_page. cbn [CR3 page_tables set_tables set_allocator ram]. rewrite Ht.
      by destruct (page_floor x =? page).
  - destruct Hs as [[Ht|Ht] ->]; [|by rewrite (uo_huge _ _ Hok) in Ht].
    rewrite (proj2 (view_None vm page Hp) Ht). by destruct vm.
Qed.

(** No user page lies on the frames [K]. *)
Definition keeps (K : gset Z) vm : Prop :=
  forall p frame flags, user_address p -> aligned p ->
    translate (CR3 vm) (page_tables vm) p = Some (frame, flags) -> frame / 4096 ∉ K.

Lemma unmap_list_ok {E} (K own : gset Z) vm l :
  user_ok own vm -> K ⊆ own -> keeps K vm -> NoDup l ->
  (forall p, p ∈ l -> user_address p /\ aligned p /\ view vm p <> None) ->
  exists vm' own', for_each (unmap_address (E:=E)) l vm = (Ok (), vm') /\ user_ok own' vm' /\ same_cpu vm vm' /\
    K ⊆ own' /\ keeps K vm' /\ free_of vm' = free_of vm + blen l /\
    forall a, view vm' a = if bool_decide (page_floor a ∈ l) then None else view vm a.
Proof.
  intros Hok HK Hkeep Hnd. revert own vm Hok HK Hkeep. induction Hnd as [|p l Hp Hnd IH]; intros own vm Hok HK Hkeep Hl.
  { exists vm, own. split_and!; try done. unfold blen. simpl. lia. }
  destruct (Hl p) as (Hu & Ha & Hv); [by left|].
  pose proof (unmap_ok (E:=fault E) own vm p Hok Hu Ha) as Hs. destruct (view vm p) as [[b fl]|] eqn:Ev; [|done].
  destruct Hs as (frame & vm0 & vm1 & R0 & R1 & Hown & Hok1 & Hc1 & Hf1 & [flp Htr] & Ht1 & Hv1).
  destruct (IH _ vm1 Hok1) as (vm2 & own2 & R2 & Hok2 & Hc2 & HK2 & Hkeep2 & Hf2 & Hv2).
  { pose proof (Hkeep p frame flp Hu Ha Htr). set_solver. }
  { intros q f flq Huq Haq. rewrite Ht1. destruct (q =? p); [done|]. by apply Hkeep. }
  { intros q Hq. destruct (Hl q) as (Huq & Haq & Hvq); [by right|]. split_and!; [done|done|].
    rewrite Hv1. unfold unmapped. rewrite page_floor_id by done. by rewrite (proj2 (Z.eqb_neq q p)) by congruence. }
  exists vm2, own2. split_and!; [|done|by transitivity vm1|done|done|rewrite blen_cons; lia|].
  - unfold for_each. cbn [foldM]. erewrite bind_Ok; [exact R2|]. unfold unmap_address. rewrite (bind_Ok _ _ vm p vm).
    + rewrite page_floor_id by done. rewrite (bind_Ok _ _ _ _ _ R0). exact R1.
    + unfold virt_addr, canonical_address. unfold user_address, USER_SPACE in Hu. by rewrite (proj2 (Z.ltb_lt p (2 ^ 47))) by lia.
  - intros a. rewrite Hv2, Hv1. unfold unmapped. destruct (Z.eqb_spec (page_floor a) p) as [Heq|Hne].
    + rewrite (bool_decide_true (page_floor a ∈ p :: l)) by (rewrite Heq; by left). by case_bool_decide.
    + rewrite (bool_decide_ext (page_floor a ∈ l) (page_floor a ∈ p :: l)); [done|]. rewrite elem_of_cons. naive_solver.
Qed.

(** *** Contents *)

(** The bytes [data] are in user memory from [start] on. *)
Definition holds vm (start : Z) (data : bytes) : Prop :=
  forall i b, data !! i = Some b -> fst <$> view vm (start + Z.of_nat i) = Some b.

(** A change of user memory confined to the bytes from [start] on. *)
Record only_bytes vm vm' (start n : Z) : Prop := mkOnlyBytes {
  ob_cpu : same_cpu vm vm';
  ob_alloc : FRAME_ALLOCATOR vm' = FRAME_ALLOCATOR vm;
  ob_flags : forall a, user_address a -> snd <$> view vm' a = snd <$> view vm a;
  ob_else : forall a, user_address a -> ~ (start <= a < start + n) -> view vm' a = view vm a;
}.

Lemma only_bytes_trans vm1 vm2 vm3 s1 n1 s2 n2 start n :
  only_bytes vm1 vm2 s1 n1 -> only_bytes vm2 vm3 s2 n2 -> start <= s1 -> s1 + n1 <= start + n ->
  start <= s2 -> s2 + n2 <= start + n -> only_bytes vm1 vm3 start n.
Proof.
  intros [H1 H2 H3 H4] [H5 H6 H7 H8] ? ? ? ?. split.
  - by transitivity vm2.
  - congruence.
  - intros a Ha. by rewrite H7, H3.
  - intros a Ha Hr. rewrite H8, H4; [done|done|lia|done|lia].
Qed.

Lemma only_bytes_refl vm start n : only_bytes vm vm start n.
Proof. by split. Qed.

Lemma only_bytes_free vm vm' start n : only_bytes vm vm' start n -> free_of vm' = free_of vm.
Proof. intros [_ Ha _ _]. unfold free_of. by rewrite Ha. Qed.

Lemma only_bytes_mapped vm vm' start n a :
  only_bytes vm vm' start n -> user_address a -> view vm' a = None <-> view vm a = None.
Proof. intros [_ _ Hf _] Ha. specialize (Hf a Ha). destruct (view vm a), (view vm' a); naive_solver. Qed.

Lemma writable_range_mono vm vm' start n start' n' :
  only_bytes vm vm' start n -> 0 <= start' -> start' + n' <= USER_SPACE ->
  writable_range vm start' n' -> writable_range vm' start' n'.
Proof.
  intros Ho Hs He Hw a Ha. destruct (Hw a Ha) as (b & fl & Hv & Hfl).
  pose proof (ob_flags _ _ _ _ Ho a) as Hf. rewrite Hv in Hf.
  destruct (view vm' a) as [[b' fl']|]; [|by specialize (Hf ltac:(unfold user_address; lia))].
  exists b', fl'. split; [done|]. injection (Hf ltac:(unfold user_address; lia)) as ->. done.
Qed.

Lemma holds_mono vm vm' start n start' data :
  only_bytes vm vm' start n -> 0 <= start' -> start' + blen data <= USER_SPACE ->
  start' + blen data <= start \/ start + n <= start' -> holds vm start' data -> holds vm' start' data.
Proof.
  intros Ho Hs He Hd Hh i b Hi. pose proof (lookup_lt_Some _ _ _ Hi). unfold blen in *.
  rewrite (ob_else _ _ _ _ Ho); [by apply Hh|unfold user_address; lia|lia].
Qed.

Lemma holds_app vm start d1 d2 : holds vm start (d1 ++ d2) <-> holds vm start d1 /\ holds vm (start + blen d1) d2.
Proof.
  unfold holds, blen. split.
  - intros Hh. split.
    + intros i b Hi. apply Hh. by apply lookup_app_l_Some.
    + intros i b Hi. rewrite <- Z.add_assoc, <- Nat2Z.inj_add. apply Hh. rewrite lookup_app_r by lia.
      by replace (length d1 + i - length d1)%nat with i by lia.
  - intros [H1 H2] i b [Hi|[Hlt Hi]]%lookup_app_Some; [by apply H1|]. apply H2 in Hi. rewrite <- Hi. do 2 f_equal. lia.
Qed.

Lemma load_holds {E} vm start data :
  0 <= start -> start + blen data <= USER_SPACE -> holds vm start data ->
  load (E:=E) start (blen data) vm = (Ok data, vm).
Proof.
  intros Hs He Hh. unfold load. assert (mapM (peek vm) (addresses start (blen data)) = Some data) as ->; [|done].
  apply mapM_Some. revert start Hs He Hh. induction data as [|b data IH]; intros start Hs He Hh; [constructor|].
  pose proof (blen_nonneg data). rewrite blen_cons in *. rewrite addresses_cons by (unfold USER_SPACE in *; lia). constructor.
  - specialize (Hh O b eq_refl). rewrite Z.add_0_r in Hh. unfold view in Hh. unfold peek, phys_of.
    destruct (lookup_page vm start) as [[f fl]|]; [|done]. cbn in *. exact Hh.
  - apply IH; [lia|lia|]. intros j c Hj. specialize (Hh (S j) c Hj). rewrite <- Hh. do 2 f_equal. lia.
Qed.

Lemma store_holds {E} own vm start data :
  user_ok own vm -> 0 <= start -> start + blen data <= USER_SPACE -> writable_range vm start (blen data) ->
  exists vm', store (E:=E) start data vm = (Ok (), vm') /\ user_ok own vm' /\ page_tables vm' = page_tables vm /\
    only_bytes vm vm' start (blen data) /\ holds vm' start data.
Proof.
  intros Hok Hs He Hw. destruct (store_ok (E:=E) own vm start data Hok Hs He Hw) as (m & Hst & Hok' & Hv).
  exists (set_ram m vm). split_and!; [done|done|done| |].
  - split; [by split|done| |].
    + intros a Ha. rewrite Hv by done. unfold stored. destruct (data !! _); [|done]. destruct (start <=? a); [|done].
      by destruct (view vm a) as [[]|].
    + intros a Ha Hr. rewrite Hv by done. unfold stored. destruct (data !! _) eqn:El; [|done].
      destruct (Z.leb_spec start a); [|done]. apply lookup_lt_Some in El. unfold blen in Hr. lia.
  - intros i b Hi. pose proof (lookup_lt_Some _ _ _ Hi). unfold blen in *. rewrite Hv by (unfold user_address; lia).
    unfold stored. replace (Z.to_nat (start + Z.of_nat i - start)) with i by lia. rewrite Hi.
    rewrite (proj2 (Z.leb_le _ _)) by lia. destruct (Hw (start + Z.of_nat i)) as (b' & fl & -> & _); [lia|]. done.
Qed.
End user.

(** ** Tables to run the model with *)

(** Page tables without levels: what maps what, and the level-4 entries. *)
Record FlatTables : Type := mkFlat { ft_pages : Z -> Z -> option (Z * Z); ft_pml4 : Z -> list Z }.

Definition flat_set (root page : Z) (entry : option (Z * Z)) (t : FlatTables) : FlatTables :=
  mkFlat (fun r p => if (r =? root) && (p =? page) then entry else ft_pages t r p) (ft_pml4 t).

#[global] Instance flat_paging : Paging FlatTables := {|
  pml4 root t := ft_pml4 t root;
  write_pml4 root entries t :=
    mkFlat (fun r p => if (r =? root) && negb (entry_present entries (slot p)) then None else ft_pages t r p)
           (fun r => if r =? root then entries else ft_pml4 t r);
  translate root t page := ft_pages t root page;
  huge_parent _ _ _ := false;
  map_to root page frame flags '(t, a) :=
    match ft_pages t root page with
    | Some (f, _) => (Err (PageAlreadyMapped f), (t, a))
    | None => (Ok (), (flat_set root page (Some (frame, flags)) t, a))
    end;
  unmap root page t :=
    match ft_pages t root page with
    | Some (f, _) => (Some f, flat_set root page None t)
    | None => (None, t)
    end;
  update_flags root page flags t :=
    match ft_pages t root page with
    | Some (f, _) => (true, flat_set root page (Some (f, flags)) t)
    | None => (false, t)
    end;
|}.

Lemma flat_set_spec root page entry t p :
  ft_pages (flat_set root page entry t) root p = if p =? page then entry else ft_pages t root p.
Proof. unfold flat_set. cbn. by rewrite Z.eqb_refl. Qed.

#[global] Instance flat_laws : PagingLaws FlatTables.
Proof.
  split; cbn.
  - intros root page frame flags t a. exists O. split; [lia|]. by destruct (ft_pages t root page) as [[]|].
  - intros root page frame flags t a t' a'. destruct (ft_pages t root page) as [[]|]; [done|].
    intros [= <- <-]. split_and!; [done|apply flat_set_spec|done].
  - intros root page frame flags t a e t' a'. destruct (ft_pages t root page) as [[]|] eqn:E; [|done].
    intros [= <- <- <-]. split_and!; [done|done|by eexists].
  - intros root page t. destruct (ft_pages t root page) as [[f fl]|] eqn:E; [|by split; [left|]].
    split_and!; [by exists fl|apply flat_set_spec|done].
  - intros root page flags t. destruct (ft_pages t root page) as [[f fl]|] eqn:E; [|by split; [left|]].
    split; [|done]. exists f, fl. split; [done|apply flat_set_spec].
  - intros root entries t. by rewrite Z.eqb_refl.
  - intros root entries t page Hp. by rewrite Z.eqb_refl, Hp.
Qed.

(** ** A machine with 16 MiB *)

Definition sixteen_mib : list MemoryRegion := [mkRegion 0 0x1000000 Usable].

Lemma init_frames_allocated l a i :
  is_allocated (fold_left init_frame l a) i = is_allocated a i && negb (bool_decide (i ∈ l)).
Proof.
  revert a. induction l as [|x l IH]; intros a; cbn [fold_left]; [by rewrite andb_true_r|].
  rewrite IH. unfold init_frame.
  destruct (is_allocated a x) eqn:Ex; [rewrite is_allocated_counts, is_allocated_set|].
  - destruct (Z.eqb_spec i x) as [->|Hne]; [by rewrite (bool_decide_true (x ∈ x :: l)), andb_false_r by (by left)|].
    f_equal. f_equal. apply bool_decide_ext. rewrite elem_of_cons. naive_solver.
  - destruct (decide (i = x)) as [->|Hne]; [by rewrite Ex|].
    f_equal. f_equal. apply bool_decide_ext. rewrite elem_of_cons. naive_solver.
Qed.

Lemma sixteen_mib_allocated i :
  0 <= i < MAX_TRACKED_FRAMES -> is_allocated (frames_init sixteen_mib) i = negb (bool_decide (1 <= i < 4096)).
Proof.
  intros Hi. change (frames_init sixteen_mib) with (init_region (mkAlloc (fun _ => 255) 0 0 1 1) (mkRegion 0 0x1000000 Usable)).
  unfold init_region. rewrite bool_decide_false by (cbn; by intros []). rewrite is_allocated_counts, init_frames_allocated.
  assert (is_allocated (mkAlloc (fun _ => 255) 0 0 1 1) i = true) as ->.
  { rewrite is_allocated_bit. cbn [bitmap]. change 255 with (Z.ones 8). pose proof (Z.mod_pos_bound i 8).
    apply Z.ones_spec_low. lia. }
  cbn [andb]. f_equal. apply bool_decide_ext. rewrite elem_of_seqZ. reflexivity.
Qed.

Lemma sixteen_mib_ok : alloc_ok (usable_frame sixteen_mib) ∅ (frames_init sixteen_mib).
Proof.
  split; [by apply frames_init_inv|]. rewrite sixteen_mib_allocated; [|done]. done.
Qed.

Lemma sixteen_mib_free : 4095 <= free_frames (frames_init sixteen_mib).
Proof.
  rewrite (fi_count _ _ _ _ (al_inv _ _ _ sixteen_mib_ok)).
  apply (free_count_run (frames_init sixteen_mib) 1 4095 MAX_TRACKED_FRAMES); [lia|lia|by vm_compute|].
  assert (4096 <= MAX_TRACKED_FRAMES) as Hmax by (by vm_compute).
  intros i Hi. rewrite sixteen_mib_allocated by lia.
  by rewrite bool_decide_true by lia.
Qed.
