(* ===== verification/Loader.v ===== *)
(** * The program loader (kernel/src/exec/loader.rs, kernel/src/security/aslr.rs)

    A program is loaded into page tables of its own: a level-4 table with the
    kernel's entries and an empty user slot, the pages of every ELF segment, the
    file's bytes, the final permissions, a stack with the arguments.  Loading
    acts on [Vm.Vm]; starting a process also reads the file system, enters the
    process table and the run queue ([System]).  Addresses of kernel objects (the
    new kernel stack, the segment selectors) and random numbers are inputs.
    Messages on the serial line are left out. *)
From S2P Require Import Prelude RustStr Paths Auth Session AuditLog WarFS FsCurrent Frames Elf Process Caps Exec Vm.

(** ** Address space randomisation ([aslr.rs]) *)

Definition randomize_stack_offset (enabled : bool) (random : Z) : Z :=
  if negb enabled then 0 else Z.land random 0xFF * 0x1000.
Definition randomize_heap_offset (enabled : bool) (random : Z) : Z :=
  if negb enabled then 0 else Z.land random 0x1FFF * 0x1000.
Definition randomize_mmap_offset (enabled : bool) (random : Z) : Z :=
  if negb enabled then 0 else Z.land random 0x3FFF * 0x1000.

(** ** Pages of a segment *)

Definition align_up (address : Z) : Z := page_floor (sat_add 64 address 0xFFF).
Definition segment_page_range (s : ElfSegment) : Z * Z :=
  (page_floor (sg_vaddr s), align_up (sat_add 64 (sg_vaddr s) (sg_memsz s))).
Definition aligned_page_count (size : Z) : Z := (size + 4095) / 4096.

Definition temporary_segment_page_flags : Z :=
  Z.lor (Z.lor (Z.lor PRESENT USER_ACCESSIBLE) WRITABLE) NO_EXECUTE.
Definition stack_page_flags : Z := Z.lor (Z.lor (Z.lor PRESENT WRITABLE) USER_ACCESSIBLE) NO_EXECUTE.
Definition final_segment_page_flags (s : ElfSegment) : result ExecError Z :=
  let writable := seg_contains (sg_flags s) SEG_WRITE in
  let executable := seg_contains (sg_flags s) SEG_EXECUTE in
  if writable && executable then Err LoadFailed
  else
    let flags := Z.lor PRESENT USER_ACCESSIBLE in
    let flags := if writable then Z.lor flags WRITABLE else flags in
    Ok (if negb executable then Z.lor flags NO_EXECUTE else flags).

Definition file_name (path : bytes) : bytes := default path (last (split_on slash path)).
Definition role_for_uid (USER_DB : UserDB) (id : Z) : UserRole :=
  match find_by_uid USER_DB id with Some user => role user | None => Admin end.
Definition exec_error_of (e : FsError) : ExecError :=
  match e with
  | FileNotFound => ExecFileNotFound
  | PermissionDenied => ExecPermissionDenied
  | _ => LoadFailed
  end.

(** ** Loading *)

Section loader.
Context {PT : Type} `{Paging PT}.
Abbreviation vst A := (stm (Vm PT) (fault ExecError) A).

Definition raise {A} (e : ExecError) : vst A := throw (Raised e).
Definition lift {A} (r : result ExecError A) : vst A := lift_result (map_err Raised r).

(** [active_mapper] and the locked allocator. *)
Definition active_mapper : vst () :=
  offset ← gets physical_memory_offset;
  match offset with Some _ => mret tt | None => raise PageTableError end.
Definition lock_allocator : vst () :=
  allocator ← gets FRAME_ALLOCATOR;
  match allocator with Some _ => mret tt | None => raise MemoryAllocationFailed end.

Definition USER_PML4_SLOT : nat := 0.
Definition copied_entry (index : nat) (entry : Z) : Z :=
  if (index =? USER_PML4_SLOT)%nat || negb (flag_set entry PRESENT) || flag_set entry USER_ACCESSIBLE
  then 0 else entry.
Definition create_user_page_table : vst Z :=
  active_mapper;;
  lock_allocator;;
  frame ← allocate;
  match frame with
  | None => raise MemoryAllocationFailed
  | Some new_phys =>
      modify (fun vm => set_tables (write_pml4 new_phys (imap copied_entry (pml4 (CR3 vm) (page_tables vm)))
                                      (page_tables vm)) vm);;
      mret new_phys
  end.

(** Allocate, map, clear. *)
Definition map_zeroed (refusal : MapToError -> ExecError) (flags address : Z) : vst () :=
  page ← virt_addr address;
  frame ← allocate;
  match frame with
  | None => raise MemoryAllocationFailed
  | Some frame =>
      r ← map_page page frame flags;
      match r with
      | Ok _ => store address (zeros 4096)
      | Err e => raise (refusal e)
      end
  end.

Definition segment_refusal (e : MapToError) : ExecError :=
  match e with PageAlreadyMapped _ => LoadFailed | _ => PageTableError end.
Definition map_segment_pages (s : ElfSegment) : vst () :=
  let '(start, end_) := segment_page_range s in
  for_each (map_zeroed segment_refusal temporary_segment_page_flags) (pages start end_).

Definition populate_segment (elf_data : bytes) (s : ElfSegment) : vst () :=
  let source := field (Z.to_nat (sg_offset s)) (Z.to_nat (sg_filesz s)) elf_data in
  (if wrap 64 (sg_offset s + sg_filesz s) <? sg_offset s then throw Panicked else mret tt);;
  (if blen elf_data <? wrap 64 (sg_offset s + sg_filesz s) then throw Panicked else mret tt);;
  store (sg_vaddr s) source;;
  if sg_filesz s <? sg_memsz s
  then store (wrap 64 (sg_vaddr s + sg_filesz s)) (zeros (Z.to_nat (sg_memsz s - sg_filesz s)))
  else mret tt.

Definition protect_address (flags address : Z) : vst () :=
  page ← virt_addr address;
  done ← protect_page page flags;
  if (done : bool) then mret tt else raise PageTableError.
Definition apply_segment_permissions (s : ElfSegment) : vst () :=
  final_flags ← lift (final_segment_page_flags s);
  let '(start, end_) := segment_page_range s in
  for_each (protect_address final_flags) (pages start end_).

Definition set_stack (top bottom : Z) (a : AddressSpace) : AddressSpace :=
  mkAddressSpace (as_segments a) (brk a) (initial_brk a) (heap_limit a) top bottom (mmap_top a)
    (as_page_table_phys a).
Definition map_stack (random : Z) (a : AddressSpace) : vst AddressSpace :=
  enabled ← gets ASLR_ENABLED;
  let top := USER_STACK_TOP - randomize_stack_offset enabled random in
  let bottom := top - USER_STACK_SIZE in
  for_each (map_zeroed (fun _ => PageTableError) stack_page_flags) (pages bottom top);;
  mret (set_stack top bottom a).

(** The arguments, last first; their addresses in order. *)
Definition push_arg (arg : bytes) (acc : Z * list Z) : vst (Z * list Z) :=
  let '(sp, pointers) := acc in
  let sp := sat_sub sp (blen arg + 1) in
  store sp arg;;
  store (wrap 64 (sp + blen arg)) [x00];;
  mret (sp, sp :: pointers).
Definition write_word (address value : Z) : vst () := store address (le_bytes 8 value).
Definition setup_user_stack (top : Z) (args : list bytes) : vst Z :=
  '(sp, pointers) ← foldM push_arg (reverse args) (top, []);
  let frame_bytes := (blen pointers + 2) * 8 in
  let sp := sat_sub sp frame_bytes in
  let sp := sp - sp mod 16 in
  write_word sp (blen pointers);;
  let argv_base := wrap 64 (sp + 8) in
  for_each (fun '(index, pointer) => write_word (wrap 64 (argv_base + Z.of_nat index * 8)) pointer)
    (imap pair pointers);;
  write_word (wrap 64 (argv_base + blen pointers * 8)) 0;;
  mret sp.

(** The segment selectors of user code and data. *)
Context (user_code user_data : Z).
Definition user_context (entry stack page_table : Z) : CpuContext :=
  let c := for_user entry stack page_table in
  mkContext (rax c) (rbx c) (rcx c) (rdx c) (rsi c) (rdi c) (rbp c) (rsp c) (r8 c) (r9 c) (r10 c) (r11 c)
    (r12 c) (r13 c) (r14 c) (r15 c) (rip c) (rflags c) user_code user_data (cr3 c) (fpu_state c) (fpu_valid c).

Definition map_segment (s : ElfSegment) (acc : AddressSpace * Z) : vst (AddressSpace * Z) :=
  let '(space, memory_pages) := acc in
  map_segment_pages s;;
  mret (register_segment (sg_vaddr s) (sg_memsz s) (sg_flags s) space,
        sat_add 64 memory_pages (aligned_page_count (sg_memsz s))).

Definition map_process_image (random page_table_phys : Z) (elf : ElfInfo) (elf_data : bytes)
    (args : list bytes) : vst (AddressSpace * CpuContext * Z) :=
  active_mapper;;
  lock_allocator;;
  '(space, memory_pages) ← foldM map_segment (segments elf) (address_space_new page_table_phys, 0);
  for_each (populate_segment elf_data) (segments elf);;
  for_each apply_segment_permissions (segments elf);;
  if negb (verify_wx (as_segments space)) then raise LoadFailed
  else
    space ← map_stack random space;
    let memory_pages := sat_add 64 memory_pages (aligned_page_count USER_STACK_SIZE) in
    let space := finalize_heap_layout space in
    stack ← setup_user_stack (stack_top space) args;
    mret (space, user_context (entry_point elf) stack page_table_phys, memory_pages).

(** ** Unloading *)

Definition unmap_range (start end_ : Z) : vst () :=
  for_each unmap_address (pages (page_floor start) (align_up end_)).

Definition teardown_process_image (page_table_phys : Z) (space : AddressSpace) : vst () :=
  kernel ← gets KERNEL_CR3;
  (if negb (page_table_phys =? 0) && negb (page_table_phys =? kernel)
   then modify (set_cr3 (page_floor page_table_phys)) else mret tt);;
  active_mapper;;
  lock_allocator;;
  for_each (fun s => unmap_range (ms_vaddr s) (sat_add 64 (ms_vaddr s) (ms_size s))) (as_segments space);;
  unmap_range (stack_bottom space) (stack_top space);;
  (if negb (kernel =? 0) then modify (set_cr3 (page_floor kernel)) else mret tt);;
  if negb (page_table_phys =? 0) && negb (page_table_phys =? kernel)
  then release_frame page_table_phys else mret tt.

End loader.

(** ** Processes *)

(** Everything a system call can reach.  The last four fields are the statics of
    [syscall.rs] by which a call leaves user mode, and the text printed. *)
Record System (PT S : Type) : Type := mkSystem {
  machine : Machine S;
  vm : Vm PT;
  WAROS_USER_EXIT_CODE : Z;
  WAROS_USER_RETURN_KIND : Z;
  WAROS_USER_RETURN_PENDING : Z;
  console : bytes;
}.
Arguments mkSystem {PT S} _ _ _ _ _ _.
Arguments machine {PT S} _.
Arguments vm {PT S} _.
Arguments WAROS_USER_EXIT_CODE {PT S} _.
Arguments WAROS_USER_RETURN_KIND {PT S} _.
Arguments WAROS_USER_RETURN_PENDING {PT S} _.
Arguments console {PT S} _.

Section processes.
Context {PT S : Type} `{Paging PT}.
Context (user_code user_data : Z).
Abbreviation sst A := (stm (System PT S) (fault ExecError) A).

Definition set_machine (m : Machine S) (y : System PT S) : System PT S :=
  mkSystem m (vm y) (WAROS_USER_EXIT_CODE y) (WAROS_USER_RETURN_KIND y) (WAROS_USER_RETURN_PENDING y) (console y).
Definition set_vm (v : Vm PT) (y : System PT S) : System PT S :=
  mkSystem (machine y) v (WAROS_USER_EXIT_CODE y) (WAROS_USER_RETURN_KIND y) (WAROS_USER_RETURN_PENDING y)
    (console y).
Definition on_vm {E A} (m : stm (Vm PT) E A) : stm (System PT S) E A := fun y =>
  let '(r, v) := m (vm y) in (r, set_vm v y).
Definition on_machine {E} (f : Machine S -> Machine S) : stm (System PT S) E () :=
  modify (fun y => set_machine (f (machine y)) y).

Definition read_image (path : bytes) (id : Z) : stm (System PT S) FsError bytes := fun y =>
  let k := kernel (machine y) in (read_as (fs (FILESYSTEM k)) path id (role_for_uid (USER_DB k) id), y).

(** [build_process]: the image, and the process that runs it. *)
Definition build_process (random now kernel_stack : Z) (path : bytes) (args : list bytes)
    (environment : list (bytes * bytes)) (id parent : Z) (pr : Priority) (elf : ElfInfo) (elf_data : bytes)
    (page_table_phys : Z) : sst Process :=
  '(space, ctx, memory_pages) ← on_vm (map_process_image user_code user_data random page_table_phys elf elf_data args);
  m ← gets machine;
  mret (mkProcess 0 parent (file_name path) id Ready ctx None page_table_phys space KERNEL_STACK_LEN
          (wrap 64 (kernel_stack + KERNEL_STACK_LEN)) new_with_stdio
          (resolve_path (CURRENT_SESSION (kernel m)) [dot]) environment [] [] pr 0 DEFAULT_TIME_SLICE now None 0 0
          memory_pages None ElfImage path (spawn_capabilities parent id m)).

(** Run [m] with [root] as the active table, whatever it returns. *)
Definition with_cr3 {E A} (root saved : Z) (m : stm (System PT S) E A) : stm (System PT S) E A := fun y =>
  let '(r, y) := m (set_vm (set_cr3 (page_floor root) (vm y)) y) in
  (r, set_vm (set_cr3 (page_floor saved) (vm y)) y).

Definition spawn_process (random now now_log kernel_stack : Z) (path : bytes) (args : list bytes)
    (environment : list (bytes * bytes)) (id parent : Z) (pr : Priority) : sst Z :=
  elf_data ← (fun y => let '(r, y) := read_image path id y in (map_err (fun e => Raised (exec_error_of e)) r, y));
  elf ← lift_result (map_err Raised (parse_elf elf_data));
  new_cr3 ← on_vm create_user_page_table;
  saved_cr3 ← gets (fun y => KERNEL_CR3 (vm y));
  process ← with_cr3 new_cr3 saved_cr3
              (build_process random now kernel_stack path args environment id parent pr elf elf_data new_cr3);
  m ← gets machine;
  match create_process process (PROCESS_TABLE (exec m)) with
  | (Err e, _) => throw (Raised e)
  | (Ok new_pid, t) =>
      on_machine (fun m =>
        with_sched (enqueue new_pid pr)
          (audit now_log (ProcessSpawned new_pid (file_name path) id) (with_table (fun _ => t) m)));;
      mret new_pid
  end.

Definition load_elf_metadata (path : bytes) (id : Z) (m : Machine S) : result ExecError (ElfInfo * Z) :=
  data ← map_err exec_error_of
           (read_as (fs (FILESYSTEM (kernel m))) path id (role_for_uid (USER_DB (kernel m)) id));
  elf ← parse_elf data;
  Ok (elf, blen data).

Definition teardown_process (id : Z) : sst () :=
  m ← gets machine;
  match pt_get id (PROCESS_TABLE (exec m)) with
  | None => throw (Raised ProcessNotFound)
  | Some p => on_vm (teardown_process_image (page_table_phys p) (address_space p))
  end.
End processes.

(** ** Pages *)

Lemma elem_pages start end_ p :
  aligned start -> p ∈ pages start end_ <-> aligned p /\ start <= p < end_.
Proof.
  intros Hs. unfold pages, aligned in *. rewrite list_elem_of_fmap.
  pose proof (Z.div_mod (end_ - start + 4095) 4096). pose proof (Z.mod_pos_bound (end_ - start + 4095) 4096). split.
  - intros (i & -> & Hi%elem_of_seqZ). split; [|lia]. replace (start + 4096 * i) with (start + i * 4096) by lia.
    by rewrite Z.mod_add.
  - intros [Hp Hb]. exists ((p - start) / 4096). pose proof (Z.div_mod (p - start) 4096).
    assert ((p - start) mod 4096 = 0) as Hz by (rewrite Zminus_mod, Hp, Hs; done).
    split; [lia|]. apply elem_of_seqZ. lia.
Qed.

Lemma NoDup_pages start end_ : NoDup (pages start end_).
Proof. unfold pages. apply NoDup_fmap_2; [|apply NoDup_seqZ]. intros x y. lia. Qed.

Lemma length_pages start end_ : start <= end_ -> aligned start -> aligned end_ -> blen (pages start end_) = (end_ - start) / 4096.
Proof.
  intros Hle Hs He. unfold pages, blen. rewrite length_fmap, length_seqZ, Z2Nat.id by (apply Z.div_pos; lia).
  unfold aligned in *. pose proof (Z.div_mod start 4096). pose proof (Z.div_mod end_ 4096).
  replace (end_ - start) with ((end_ / 4096 - start / 4096) * 4096) by lia. rewrite Z.div_mul by lia.
  rewrite Z.div_add_l by lia. by rewrite Z.add_0_r.
Qed.

(** ** Loading a well-formed image *)

Definition segment_pages (s : ElfSegment) : list Z := pages (segment_page_range s).1 (segment_page_range s).2.
(** What a segment looks like in memory. *)
Definition segment_image (elf_data : bytes) (s : ElfSegment) : bytes :=
  field (Z.to_nat (sg_offset s)) (Z.to_nat (sg_filesz s)) elf_data ++ zeros (Z.to_nat (sg_memsz s - sg_filesz s)).

Record segment_fits (elf_data : bytes) (s : ElfSegment) : Prop := mkFits {
  sf_vaddr : 0 <= sg_vaddr s;
  sf_end : sg_vaddr s + sg_memsz s <= USER_SPACE;
  sf_size : 0 <= sg_filesz s <= sg_memsz s;
  sf_file : 0 <= sg_offset s /\ sg_offset s + sg_filesz s <= blen elf_data;
}.

Lemma segment_range_bounds data s :
  segment_fits data s ->
  aligned (segment_page_range s).1 /\ aligned (segment_page_range s).2 /\
  0 <= (segment_page_range s).1 <= sg_vaddr s /\
  sg_vaddr s + sg_memsz s <= (segment_page_range s).2 <= USER_SPACE.
Proof.
  intros [Hv He Hs _]. unfold segment_page_range, align_up. cbn [fst snd].
  pose proof (page_floor_near (sg_vaddr s)). unfold USER_SPACE in *.
  rewrite (sat_add_spec 64 (sg_vaddr s)) by lia. rewrite sat_add_spec by lia.
  pose proof (page_floor_near (sg_vaddr s + sg_memsz s + 4095)). pose proof (page_floor_aligned (sg_vaddr s)) as Ha.
  pose proof (page_floor_aligned (sg_vaddr s + sg_memsz s + 4095)) as Hb.
  split_and!; try done; try lia.
  - unfold aligned in Ha. pose proof (Z.div_mod (page_floor (sg_vaddr s)) 4096). lia.
  - apply Z.le_ngt. intros Hlt. apply aligned_le in Hlt; [lia|done|done].
Qed.

Lemma segment_image_length data s : segment_fits data s -> blen (segment_image data s) = sg_memsz s.
Proof.
  intros [Hv He Hs [Ho Hf]]. unfold segment_image, blen in *. rewrite length_app, field_length, length_zeros by lia. lia.
Qed.

Section loading.
Context {PT : Type} {HP : Paging PT} {HL : PagingLaws PT} (U : Z -> Prop).
Implicit Type vm : Vm PT.

Lemma map_zeroed_ok own vm refusal flags p :
  user_ok U own vm -> user_address p -> aligned p -> view vm p = None -> 4 <= free_of vm ->
  flag_set flags WRITABLE = true ->
  exists vm' own', map_zeroed refusal flags p vm = (Ok (), vm') /\ user_ok U own' vm' /\ same_cpu vm vm' /\
    free_of vm - 4 <= free_of vm' /\ forall a, user_address a -> view vm' a = mapped p flags (view vm) a.
Proof.
  intros Hok Hu Hp Hv Hf Hw.
  destruct (fresh_page (E:=ExecError) U own vm p flags Hok Hu Hp Hv Hf Hw)
    as (frame & vm1 & vm2 & vm3 & own' & H1 & H2 & H3 & _ & Hok' & Hc & Hf' & Hview).
  exists vm3, own'. split_and!; try done. unfold map_zeroed.
  rewrite (bind_Ok _ _ vm p vm).
  2:{ unfold virt_addr, canonical_address. unfold user_address, USER_SPACE in Hu.
      by rewrite (proj2 (Z.ltb_lt p (2 ^ 47))) by lia. }
  by rewrite (bind_Ok _ _ _ _ _ H1), (bind_Ok _ _ _ _ _ H2).
Qed.

Lemma map_pages_ok own vm refusal flags l :
  user_ok U own vm -> NoDup l -> (forall p, p ∈ l -> user_address p /\ aligned p /\ view vm p = None) ->
  4 * blen l <= free_of vm -> flag_set flags WRITABLE = true ->
  exists vm' own', for_each (map_zeroed refusal flags) l vm = (Ok (), vm') /\ user_ok U own' vm' /\ same_cpu vm vm' /\
    free_of vm - 4 * blen l <= free_of vm' /\
    forall a, user_address a -> view vm' a = if bool_decide (page_floor a ∈ l) then Some (x00, flags) else view vm a.
Proof.
  intros Hok Hnd. revert own vm Hok. induction Hnd as [|p l Hp Hnd IH]; intros own vm Hok Hl Hf Hw.
  { exists vm, own. split_and!; try done. unfold blen. simpl. lia. }
  rewrite blen_cons in *. pose proof (blen_nonneg l). destruct (Hl p) as (Hu & Ha & Hv); [by left|].
  destruct (map_zeroed_ok own vm refusal flags p Hok Hu Ha Hv) as (vm1 & own1 & H1 & Hok1 & Hc1 & Hf1 & Hv1); [lia|done|].
  destruct (IH own1 vm1 Hok1) as (vm2 & own2 & H2 & Hok2 & Hc2 & Hf2 & Hv2); [|lia|done|].
  { intros q Hq. destruct (Hl q) as (Huq & Haq & Hvq); [by right|]. split_and!; [done|done|].
    rewrite Hv1 by done. unfold mapped. rewrite page_floor_id by done. by rewrite (proj2 (Z.eqb_neq q p)) by congruence. }
  exists vm2, own2. split_and!; [|done|by transitivity vm1|lia|].
  - unfold for_each. cbn [foldM]. by rewrite (bind_Ok _ _ _ _ _ H1).
  - intros a Hua. rewrite Hv2, Hv1 by done. unfold mapped.
    destruct (Z.eqb_spec (page_floor a) p) as [Heq|Hne].
    + rewrite (bool_decide_true (page_floor a ∈ p :: l)) by (rewrite Heq; by left). by case_bool_decide.
    + rewrite (bool_decide_ext (page_floor a ∈ l) (page_floor a ∈ p :: l)); [done|]. rewrite elem_of_cons. naive_solver.
Qed.

Definition image_pages (segs : list ElfSegment) : list Z := concat (map segment_pages segs).

(** The bookkeeping of the first loop. *)
Definition register_all (segs : list ElfSegment) (acc : AddressSpace * Z) : AddressSpace * Z :=
  fold_left (fun '(space, n) s => (register_segment (sg_vaddr s) (sg_memsz s) (sg_flags s) space,
                                   sat_add 64 n (aligned_page_count (sg_memsz s)))) segs acc.

Lemma elem_segment_pages data s p :
  segment_fits data s ->
  p ∈ segment_pages s <-> aligned p /\ (segment_page_range s).1 <= p < (segment_page_range s).2.
Proof. intros Hs. apply elem_pages. by destruct (segment_range_bounds data s Hs). Qed.

Lemma segment_page_user data s p : segment_fits data s -> p ∈ segment_pages s -> user_address p /\ aligned p.
Proof.
  intros Hs Hp. pose proof (segment_range_bounds data s Hs) as (_ & _ & ? & ?).
  apply (elem_segment_pages data) in Hp as [Ha Hb]; [|done]. split; [unfold user_address; lia|done].
Qed.

Lemma map_segments_ok own vm data segs acc :
  user_ok U own vm -> Forall (segment_fits data) segs -> NoDup (image_pages segs) ->
  (forall p, p ∈ image_pages segs -> view vm p = None) -> 4 * blen (image_pages segs) <= free_of vm ->
  exists vm' own', foldM map_segment segs acc vm = (Ok (register_all segs acc), vm') /\ user_ok U own' vm' /\
    same_cpu vm vm' /\ free_of vm - 4 * blen (image_pages segs) <= free_of vm' /\
    forall a, user_address a ->
      view vm' a = if bool_decide (page_floor a ∈ image_pages segs) then Some (x00, temporary_segment_page_flags) else view vm a.
Proof.
  intros Hok Hfit. revert own vm acc Hok. induction Hfit as [|s segs Hs Hfit IH]; intros own vm [space n] Hok Hnd Hnew Hf.
  { exists vm, own. split_and!; try done. unfold blen. simpl. lia. }
  change (image_pages (s :: segs)) with (segment_pages s ++ image_pages segs) in *. rewrite blen_app in *.
  apply NoDup_app in Hnd as (Hnd1 & Hdis & Hnd2). pose proof (blen_nonneg (image_pages segs)).
  destruct (map_pages_ok own vm segment_refusal temporary_segment_page_flags (segment_pages s) Hok Hnd1)
    as (vm1 & own1 & H1 & Hok1 & Hc1 & Hf1 & Hv1); [|lia|done|].
  { intros p Hp. destruct (segment_page_user data s p Hs Hp). split_and!; [done|done|]. apply Hnew. apply elem_of_app. by left. }
  destruct (IH own1 vm1 (register_segment (sg_vaddr s) (sg_memsz s) (sg_flags s) space,
                         sat_add 64 n (aligned_page_count (sg_memsz s))) Hok1 Hnd2)
    as (vm2 & own2 & H2 & Hok2 & Hc2 & Hf2 & Hv2); [|lia|].
  { intros p Hp. assert (user_address p /\ aligned p) as [Hup Hap].
    { apply list_elem_of_In, in_concat in Hp as (l & Hl & Hpl). apply in_map_iff in Hl as (s' & <- & Hs').
      rewrite Forall_forall in Hfit. apply (segment_page_user data s'); [by apply Hfit, list_elem_of_In|by apply list_elem_of_In]. }
    rewrite Hv1 by done. rewrite page_floor_id by done. rewrite bool_decide_false; [|intros Hq; by apply (Hdis p Hq)].
    apply Hnew. apply elem_of_app. by right. }
  exists vm2, own2. split_and!; [|done|by transitivity vm1|lia|].
  - cbn [foldM]. erewrite bind_Ok; [exact H2|]. unfold map_segment, map_segment_pages.
    destruct (segment_page_range s) as [start end_] eqn:Er. erewrite bind_Ok; [done|].
    unfold segment_pages in H1. rewrite Er in H1. exact H1.
  - intros a Ha. rewrite Hv2, Hv1 by done.
    case_bool_decide as Hin; [by rewrite bool_decide_true by (apply elem_of_app; by right)|].
    case_bool_decide as Hin'; [by rewrite bool_decide_true by (apply elem_of_app; by left)|].
    rewrite bool_decide_false; [done|]. by intros [?|?]%elem_of_app.
Qed.

(** *** Contents *)

Lemma populate_ok own vm data s :
  user_ok U own vm -> segment_fits data s -> blen data < 2 ^ 63 -> writable_range vm (sg_vaddr s) (sg_memsz s) ->
  exists vm', populate_segment data s vm = (Ok (), vm') /\ user_ok U own vm' /\
    only_bytes vm vm' (sg_vaddr s) (sg_memsz s) /\ holds vm' (sg_vaddr s) (segment_image data s).
Proof.
  intros Hok Hs Hdata Hw. pose proof (segment_image_length data s Hs) as Hlen. destruct Hs as [Hv He Hsz [Ho Hfile]].
  unfold populate_segment, segment_image in *.
  rewrite (wrap_small 64 (sg_offset s + sg_filesz s)) by lia.
  rewrite (proj2 (Z.ltb_ge (sg_offset s + sg_filesz s) (sg_offset s))), (proj2 (Z.ltb_ge (blen data) (sg_offset s + sg_filesz s))) by lia.
  set (source := field _ _ data) in *. rewrite blen_app in Hlen.
  assert (blen source = sg_filesz s) as Hsrc by (unfold blen, source in *; rewrite field_length in * by lia; lia).
  destruct (store_holds (E:=ExecError) U own vm (sg_vaddr s) source Hok) as (vm1 & H1 & Hok1 & _ & Ho1 & Hh1); [lia|lia| |].
  { intros a Ha. apply Hw. lia. }
  rewrite Hsrc in Ho1. do 2 (erewrite bind_Ok; [|done]). erewrite bind_Ok; [|exact H1].
  destruct (Z.ltb_spec (sg_filesz s) (sg_memsz s)) as [Hlt|Hge].
  - rewrite wrap_small by (unfold USER_SPACE in *; lia).
    destruct (store_holds (E:=ExecError) U own vm1 (sg_vaddr s + sg_filesz s) (zeros (Z.to_nat (sg_memsz s - sg_filesz s))) Hok1)
      as (vm2 & H2 & Hok2 & _ & Ho2 & Hh2); [lia|unfold blen; rewrite length_zeros; lia| |].
    { apply (writable_range_mono vm vm1 (sg_vaddr s) (sg_filesz s)); [done|lia|unfold blen; rewrite length_zeros; lia|].
      intros a Ha. apply Hw. unfold blen in Ha. rewrite length_zeros in Ha. lia. }
    assert (blen (zeros (Z.to_nat (sg_memsz s - sg_filesz s))) = sg_memsz s - sg_filesz s) as Hz
      by (unfold blen; rewrite length_zeros; lia).
    rewrite Hz in Ho2. exists vm2. split_and!; [done|done|eapply only_bytes_trans; [exact Ho1|exact Ho2|lia|lia|lia|lia]|].
    apply holds_app. rewrite Hsrc. split; [|done].
    eapply holds_mono; [exact Ho2|lia|rewrite Hsrc; lia|left; rewrite Hsrc; lia|done].
  - exists vm1. replace (sg_memsz s) with (sg_filesz s) by lia. split_and!; [done|done|done|].
    apply holds_app. split; [done|]. rewrite Z.sub_diag. by intros i b Hi.
Qed.

Definition in_segment (s : ElfSegment) (a : Z) : Prop := sg_vaddr s <= a < sg_vaddr s + sg_memsz s.

Lemma in_segment_page data s a : segment_fits data s -> in_segment s a -> page_floor a ∈ segment_pages s.
Proof.
  intros Hs Ha. pose proof (segment_range_bounds data s Hs) as (H1 & H2 & ? & ?). apply (elem_segment_pages data); [done|].
  split; [apply page_floor_aligned|]. pose proof (page_floor_near a). unfold in_segment in Ha. split; [|lia].
  apply Z.le_ngt. intros Hlt. apply aligned_le in Hlt; [lia|apply page_floor_aligned|done].
Qed.

Lemma image_pages_elem segs s p : s ∈ segs -> p ∈ segment_pages s -> p ∈ image_pages segs.
Proof.
  intros Hs Hp. apply list_elem_of_In, in_concat. exists (segment_pages s). split; [|by apply list_elem_of_In].
  apply in_map_iff. exists s. split; [done|by apply list_elem_of_In].
Qed.

Lemma populate_all_ok own vm data segs :
  user_ok U own vm -> Forall (segment_fits data) segs -> NoDup (image_pages segs) -> blen data < 2 ^ 63 ->
  (forall s, s ∈ segs -> writable_range vm (sg_vaddr s) (sg_memsz s)) ->
  exists vm', for_each (populate_segment data) segs vm = (Ok (), vm') /\ user_ok U own vm' /\
    only_bytes vm vm' 0 USER_SPACE /\
    (forall a, user_address a -> (forall s, s ∈ segs -> ~ in_segment s a) -> view vm' a = view vm a) /\
    forall s, s ∈ segs -> holds vm' (sg_vaddr s) (segment_image data s).
Proof.
  intros Hok Hfit. revert vm Hok. induction Hfit as [|s segs Hs Hfit IH]; intros vm Hok Hnd Hdata Hw.
  { exists vm. split_and!; [done|done|apply only_bytes_refl|done|]. by intros s Hs%elem_of_nil. }
  change (image_pages (s :: segs)) with (segment_pages s ++ image_pages segs) in *.
  apply NoDup_app in Hnd as (_ & Hdis & Hnd2). pose proof Hs as [? ? ? ?].
  destruct (populate_ok own vm data s Hok Hs Hdata) as (vm1 & H1 & Hok1 & Ho1 & Hh1); [apply Hw; by left|].
  destruct (IH vm1 Hok1 Hnd2 Hdata) as (vm2 & H2 & Hok2 & Ho2 & He2 & Hh2).
  { intros s' Hs'. rewrite Forall_forall in Hfit. pose proof (Hfit s' Hs') as [? ? ? ?].
    eapply writable_range_mono; [exact Ho1|done|done|]. apply Hw. by right. }
  exists vm2. split_and!; [|done| | |].
  - unfold for_each. cbn [foldM]. by rewrite (bind_Ok _ _ _ _ _ H1).
  - eapply only_bytes_trans; [exact Ho1|exact Ho2|lia|lia|lia|lia].
  - intros a Ha Hno. rewrite He2; [|done|intros s' Hs'; apply Hno; by right].
    rewrite (ob_else _ _ _ _ Ho1); [done|done|]. apply Hno. by left.
  - intros s' [->|Hs']%elem_of_cons; [|by apply Hh2]. intros i b Hi. pose proof (lookup_lt_Some _ _ _ Hi) as Hlt.
    pose proof (segment_image_length data s Hs) as Hlen. unfold blen in Hlen.
    assert (in_segment s (sg_vaddr s + Z.of_nat i)) as Hin by (unfold in_segment; lia).
    rewrite He2; [by apply Hh1|unfold user_address; lia|]. intros s2 Hs2 Hin2. rewrite Forall_forall in Hfit.
    apply (Hdis (page_floor (sg_vaddr s + Z.of_nat i))); [by eapply in_segment_page|].
    eapply image_pages_elem; [exact Hs2|]. eapply in_segment_page; [by apply Hfit|done].
Qed.

(** *** Permissions *)

Lemma protect_pages_ok own vm flags l :
  user_ok U own vm -> (forall p, p ∈ l -> user_address p /\ aligned p /\ view vm p <> None) ->
  exists vm', for_each (protect_address flags) l vm = (Ok (), vm') /\ user_ok U own vm' /\ same_cpu vm vm' /\
    FRAME_ALLOCATOR vm' = FRAME_ALLOCATOR vm /\
    forall a, view vm' a = if bool_decide (page_floor a ∈ l) then '(b, _) ← view vm a; Some (b, flags) else view vm a.
Proof.
  intros Hok. revert vm Hok. induction l as [|p l IH]; intros vm Hok Hl; [by exists vm|].
  destruct (Hl p) as (Hu & Ha & Hv); [by left|].
  destruct (protect_ok (E:=fault ExecError) U own vm p flags Hok Hu Ha Hv) as (pt & H1 & Hok1 & Hv1).
  destruct (IH (set_tables pt vm) Hok1) as (vm2 & H2 & Hok2 & Hc2 & Hf2 & Hv2).
  { intros q Hq. destruct (Hl q) as (Huq & Haq & Hvq); [by right|]. split_and!; [done|done|]. rewrite Hv1. unfold protected.
    destruct (page_floor q =? p); [|done]. by destruct (view vm q) as [[]|]. }
  exists vm2. split_and!; [|done|by destruct Hc2; split|by rewrite Hf2|].
  - unfold for_each. cbn [foldM]. erewrite bind_Ok; [exact H2|]. unfold protect_address.
    rewrite (bind_Ok _ _ vm p vm); [by rewrite (bind_Ok _ _ _ _ _ H1)|].
    unfold virt_addr, canonical_address. unfold user_address, USER_SPACE in Hu.
    by rewrite (proj2 (Z.ltb_lt p (2 ^ 47))) by lia.
  - intros a. rewrite Hv2, Hv1. unfold protected. destruct (Z.eqb_spec (page_floor a) p) as [Heq|Hne].
    + rewrite (bool_decide_true (page_floor a ∈ p :: l)) by (rewrite Heq; by left).
      case_bool_decide; [|done]. by destruct (view vm a) as [[]|].
    + rewrite (bool_decide_ext (page_floor a ∈ l) (page_floor a ∈ p :: l)); [done|]. rewrite elem_of_cons. naive_solver.
Qed.

Lemma permissions_all_ok own vm data segs :
  user_ok U own vm -> Forall (segment_fits data) segs -> NoDup (image_pages segs) ->
  Forall (fun s => is_ok (final_segment_page_flags s) = true) segs ->
  (forall p, p ∈ image_pages segs -> view vm p <> None) ->
  exists vm', for_each apply_segment_permissions segs vm = (Ok (), vm') /\ user_ok U own vm' /\ same_cpu vm vm' /\
    FRAME_ALLOCATOR vm' = FRAME_ALLOCATOR vm /\
    (forall a, page_floor a ∉ image_pages segs -> view vm' a = view vm a) /\
    forall s a flags, s ∈ segs -> page_floor a ∈ segment_pages s -> final_segment_page_flags s = Ok flags ->
      view vm' a = '(b, _) ← view vm a; Some (b, flags).
Proof.
  intros Hok Hfit. revert vm Hok. induction Hfit as [|s segs Hs Hfit IH]; intros vm Hok Hnd Hwx Hv.
  { exists vm. split_and!; try done. by intros s a fl Hs%elem_of_nil. }
  change (image_pages (s :: segs)) with (segment_pages s ++ image_pages segs) in *.
  apply NoDup_app in Hnd as (_ & Hdis & Hnd2). inversion_clear Hwx as [|? ? Hwx1 Hwx2].
  destruct (final_segment_page_flags s) as [fl|] eqn:Efl; [|done].
  destruct (protect_pages_ok own vm fl (segment_pages s) Hok) as (vm1 & H1 & Hok1 & Hc1 & Hf1 & Hv1).
  { intros p Hp. destruct (segment_page_user data s p Hs Hp). split_and!; [done|done|]. apply Hv, elem_of_app. by left. }
  destruct (IH vm1 Hok1 Hnd2 Hwx2) as (vm2 & H2 & Hok2 & Hc2 & Hf2 & He2 & Hv2).
  { intros p Hp. rewrite Hv1. specialize (Hv p ltac:(apply elem_of_app; by right)).
    case_bool_decide; [|done]. by destruct (view vm p) as [[]|]. }
  exists vm2. split_and!; [|done|by transitivity vm1|by rewrite Hf2| |].
  - unfold for_each. cbn [foldM]. erewrite bind_Ok; [exact H2|]. unfold apply_segment_permissions.
    erewrite bind_Ok; [|unfold lift, lift_result; by rewrite Efl].
    unfold segment_pages in H1. by destruct (segment_page_range s).
  - intros a Ha. rewrite He2, Hv1; [|intros Hin; apply Ha, elem_of_app; by right].
    rewrite bool_decide_false; [done|]. intros Hin. apply Ha, elem_of_app. by left.
  - intros s' a flags [->|Hs']%elem_of_cons Hp Hflags.
    + assert (fl = flags) as <- by congruence. rewrite He2; [|by apply Hdis]. by rewrite Hv1, bool_decide_true by done.
    + erewrite Hv2; [|exact Hs'|done|done]. rewrite Hv1. rewrite bool_decide_false; [done|].
      intros Hin. apply (Hdis _ Hin). by eapply image_pages_elem.
Qed.

(** *** The stack of a new program *)

Definition args_size (args : list bytes) : Z := sumZ (map (fun arg => blen arg + 1) args).

Lemma args_size_nonneg args : 0 <= args_size args.
Proof.
  apply sumZ_nonneg. apply Forall_forall. intros z (arg & -> & _)%list_elem_of_fmap. pose proof (blen_nonneg arg). lia.
Qed.

Lemma store_stack own vm lo top p data :
  user_ok U own vm -> 0 <= lo -> top <= USER_SPACE -> writable_range vm lo (top - lo) ->
  lo <= p -> p + blen data <= top ->
  exists vm', store (E:=ExecError) p data vm = (Ok (), vm') /\ user_ok U own vm' /\ writable_range vm' lo (top - lo) /\
    only_bytes vm vm' p (blen data) /\ holds vm' p data.
Proof.
  intros Hok Hlo Htop Hw Hp He. pose proof (blen_nonneg data).
  destruct (store_holds (E:=ExecError) U own vm p data Hok) as (vm' & H1 & Hok1 & _ & Ho & Hh); [lia|lia| |].
  { intros a Ha. apply Hw. lia. }
  exists vm'. split_and!; try done. eapply writable_range_mono; [exact Ho|lia|lia|done].
Qed.

Lemma push_args_ok own vm lo top args sp ptrs :
  user_ok U own vm -> 0 <= lo -> top <= USER_SPACE -> writable_range vm lo (top - lo) ->
  lo + args_size args <= sp <= top ->
  exists vm' new, foldM push_arg args (sp, ptrs) vm = (Ok (sp - args_size args, new ++ ptrs), vm') /\
    user_ok U own vm' /\ writable_range vm' lo (top - lo) /\
    only_bytes vm vm' (sp - args_size args) (args_size args) /\
    Forall2 (fun p arg => sp - args_size args <= p /\ p + blen arg + 1 <= sp /\ holds vm' p (arg ++ [x00])) new (reverse args).
Proof.
  intros Hok Hlo Htop. revert vm sp ptrs Hok. induction args as [|arg args IH]; intros vm sp ptrs Hok Hw Hsp.
  { exists vm, []. unfold args_size. cbn [map sumZ foldM]. rewrite Z.sub_0_r.
    split_and!; [done|done|done|apply only_bytes_refl|constructor]. }
  change (args_size (arg :: args)) with (blen arg + 1 + args_size args) in *.
  pose proof (args_size_nonneg args). pose proof (blen_nonneg arg).
  destruct (exist _ (sp - (blen arg + 1)) eq_refl : {p | p = sp - (blen arg + 1)}) as [p Hp].
  destruct (store_stack own vm lo top p arg Hok Hlo Htop Hw) as (vm1 & H1 & Hok1 & Hw1 & Ho1 & Hh1); [lia|lia|].
  destruct (store_stack own vm1 lo top (p + blen arg) [x00] Hok1 Hlo Htop Hw1)
    as (vm2 & H2 & Hok2 & Hw2 & Ho2 & Hh2); [lia|change (blen [x00]) with 1; lia|]. change (blen [x00]) with 1 in *.
  destruct (IH vm2 p (p :: ptrs) Hok2 Hw2) as (vm3 & new & H3 & Hok3 & Hw3 & Ho3 & Hn3); [lia|].
  exists vm3, (new ++ [p]). split_and!; [|done|done| |].
  - cbn [foldM]. erewrite bind_Ok.
    + rewrite H3. rewrite <- app_assoc. do 3 f_equal. lia.
    + unfold push_arg, sat_sub. rewrite Z.max_l by lia. rewrite <- Hp. erewrite bind_Ok; [|exact H1].
      rewrite wrap_small by (unfold USER_SPACE in *; lia). by erewrite bind_Ok; [|exact H2].
  - assert (only_bytes vm vm2 p (blen arg + 1)) as Ho12 by (eapply only_bytes_trans; [exact Ho1|exact Ho2|lia..]).
    eapply only_bytes_trans; [exact Ho12|exact Ho3|lia..].
  - rewrite reverse_cons. apply Forall2_app; [|constructor; [|constructor]].
    + eapply Forall2_impl; [exact Hn3|]. cbn. intros q a' (? & ? & ?). split_and!; [lia|lia|done].
    + split_and!; [lia|lia|]. eapply holds_mono; [exact Ho3|lia| | |].
      * rewrite blen_app. change (blen [x00]) with 1. lia.
      * right. lia.
      * apply holds_app. split; [|done]. eapply holds_mono; [exact Ho2|lia|lia|lia|done].
Qed.

Definition words (l : list Z) : bytes := concat (map (le_bytes 8) l).

Lemma blen_words l : blen (words l) = 8 * blen l.
Proof.
  induction l as [|x l IH]; [done|]. change (words (x :: l)) with (le_bytes 8 x ++ words l).
  rewrite blen_app, blen_cons, IH. unfold blen at 1. rewrite length_le_bytes. lia.
Qed.

Lemma write_words_ok own vm lo top base k l :
  user_ok U own vm -> 0 <= lo -> top <= USER_SPACE -> writable_range vm lo (top - lo) ->
  lo <= base -> base + Z.of_nat k * 8 + 8 * blen l <= top ->
  exists vm', for_each (fun '(index, pointer) => write_word (wrap 64 (base + Z.of_nat index * 8)) pointer)
                (imap (fun i p => (k + i, p)%nat) l) vm = (Ok (), vm') /\
    user_ok U own vm' /\ writable_range vm' lo (top - lo) /\ only_bytes vm vm' (base + Z.of_nat k * 8) (8 * blen l) /\
    holds vm' (base + Z.of_nat k * 8) (words l).
Proof.
  intros Hok Hlo Htop. revert vm k Hok. induction l as [|x l IH]; intros vm k Hok Hw Hb He.
  { exists vm. split_and!; [done|done|done|apply only_bytes_refl|]. by intros i b Hi. }
  rewrite blen_cons in *. pose proof (blen_nonneg l).
  assert (blen (le_bytes 8 x) = 8) as Hlen by (unfold blen; by rewrite length_le_bytes).
  destruct (store_stack own vm lo top (base + Z.of_nat k * 8) (le_bytes 8 x) Hok Hlo Htop Hw)
    as (vm1 & H1 & Hok1 & Hw1 & Ho1 & Hh1); [lia|lia|]. rewrite Hlen in Ho1.
  destruct (IH vm1 (S k) Hok1 Hw1) as (vm2 & H2 & Hok2 & Hw2 & Ho2 & Hh2); [lia|lia|].
  exists vm2. split_and!; [|done|done| |].
  - cbn [imap]. rewrite Nat.add_0_r. unfold for_each. cbn [foldM]. erewrite bind_Ok.
    + etrans; [|exact H2]. unfold for_each. f_equal. apply imap_ext. intros i y _. cbn. by rewrite Nat.add_succ_r.
    + unfold write_word. rewrite wrap_small by (unfold USER_SPACE in *; lia). exact H1.
  - eapply only_bytes_trans; [exact Ho1|exact Ho2|lia..].
  - change (words (x :: l)) with (le_bytes 8 x ++ words l). apply holds_app. rewrite Hlen. split.
    + eapply holds_mono; [exact Ho2|lia|lia|lia|exact Hh1].
    + replace (base + Z.of_nat k * 8 + 8) with (base + Z.of_nat (S k) * 8) by lia. done.
Qed.

(** The stack holds the count, the addresses of the arguments and the arguments. *)
Definition stack_holds vm (sp : Z) (args : list bytes) : Prop :=
  exists ptrs, holds vm sp (words (blen args :: ptrs ++ [0])) /\
    Forall2 (fun p arg => 0 < p /\ holds vm p (arg ++ [x00])) ptrs args.

Lemma setup_user_stack_ok own vm lo top args :
  user_ok U own vm -> 0 < lo -> top <= USER_SPACE -> writable_range vm lo (top - lo) ->
  args_size args + (blen args + 2) * 8 + 16 <= top - lo ->
  exists vm' sp, setup_user_stack top args vm = (Ok sp, vm') /\ user_ok U own vm' /\ only_bytes vm vm' lo (top - lo) /\
    sp mod 16 = 0 /\ lo <= sp <= top /\ stack_holds vm' sp args.
Proof.
  intros Hok Hlo Htop Hw Hsize. pose proof (args_size_nonneg args). pose proof (blen_nonneg args).
  assert (args_size (reverse args) = args_size args) as Hrev.
  { unfold args_size. apply sumZ_perm. change (map ?f (reverse args)) with (f <$> reverse args). by rewrite reverse_Permutation. }
  destruct (push_args_ok own vm lo top (reverse args) top [] Hok) as (vm1 & ptrs & R1 & Hok1 & Hw1 & Ho1 & Hp1);
    [lia|lia|done|lia|]. rewrite Hrev, app_nil_r, reverse_involutive in *.
  assert (blen ptrs = blen args) as Hn by (apply Forall2_length in Hp1; unfold blen; lia).
  destruct (exist _ (top - args_size args - (blen args + 2) * 8) eq_refl : {z | z = top - args_size args - (blen args + 2) * 8}) as [z Hz].
  destruct (exist _ (z - z mod 16) eq_refl : {p | p = z - z mod 16}) as [sp Hsp]. pose proof (Z.mod_pos_bound z 16).
  assert (forall x, blen (le_bytes 8 x) = 8) as Hlen by (intros x; unfold blen; by rewrite length_le_bytes).
  destruct (store_stack own vm1 lo top sp (le_bytes 8 (blen args)) Hok1) as (vm2 & R2 & Hok2 & Hw2 & Ho2 & Hh2);
    [lia|lia|done|lia|rewrite Hlen; lia|].
  destruct (write_words_ok own vm2 lo top (sp + 8) 0 ptrs Hok2) as (vm3 & R3 & Hok3 & Hw3 & Ho3 & Hh3); [lia|lia|done|lia|lia|].
  change (Z.of_nat 0 * 8) with 0 in *. rewrite Z.add_0_r in *.
  destruct (store_stack own vm3 lo top (sp + 8 + 8 * blen args) (le_bytes 8 0) Hok3) as (vm4 & R4 & Hok4 & Hw4 & Ho4 & Hh4);
    [lia|lia|done|lia|rewrite Hlen; lia|]. rewrite Hlen in *.
  assert (only_bytes vm1 vm4 sp ((blen args + 2) * 8)) as Ho14.
  { assert (only_bytes vm1 vm3 sp (8 + 8 * blen args)) as Ho13 by (eapply only_bytes_trans; [exact Ho2|exact Ho3|lia..]).
    eapply only_bytes_trans; [exact Ho13|exact Ho4|lia..]. }
  exists vm4, sp. split_and!; [|done| | |lia|lia|].
  - unfold setup_user_stack. erewrite bind_Ok; [|exact R1]. cbv beta iota. unfold sat_sub. rewrite Hn, <- Hz.
    rewrite Z.max_l by lia. rewrite <- Hsp. erewrite bind_Ok; [|exact R2]. rewrite (wrap_small 64 (sp + 8)) by (unfold USER_SPACE in *; lia).
    erewrite bind_Ok; [|exact R3]. rewrite (wrap_small 64 (sp + 8 + _)) by (unfold USER_SPACE in *; lia). rewrite (Z.mul_comm (blen args) 8).
    by erewrite bind_Ok; [|exact R4].
  - eapply only_bytes_trans; [exact Ho1|exact Ho14|lia..].
  - rewrite Hsp, Zminus_mod_idemp_r, Z.sub_diag. done.
  - exists ptrs. split.
    + change (blen args :: ptrs ++ [0]) with ([blen args] ++ ptrs ++ [0]). unfold words. rewrite !map_app, !concat_app.
      change (concat (map (le_bytes 8) [?x])) with (le_bytes 8 x ++ []). rewrite !app_nil_r. fold (words ptrs).
      apply holds_app. rewrite Hlen. split; [|apply holds_app; rewrite blen_words, Hn; split; [|done]].
      * eapply holds_mono; [exact Ho4|lia|rewrite Hlen; lia|rewrite Hlen; lia|].
        eapply holds_mono; [exact Ho3|lia|rewrite Hlen; lia|rewrite Hlen; lia|done].
      * eapply holds_mono; [exact Ho4|lia|rewrite blen_words; lia|rewrite blen_words; lia|done].
    + eapply Forall2_impl; [exact Hp1|]. cbn. intros p arg (? & ? & ?). split; [lia|]. pose proof (blen_nonneg arg).
      eapply holds_mono; [exact Ho14|lia| | |done]; rewrite blen_app; change (blen [x00]) with 1; lia.
Qed.

(** *** The whole image *)

Definition stack_top_for (enabled : bool) (random : Z) : Z := USER_STACK_TOP - randomize_stack_offset enabled random.

(** An image and arguments the loader can lay out. *)
Record layout_ok (elf : ElfInfo) (data : bytes) (args : list bytes) (top : Z) : Prop := mkLayoutOk {
  ld_data : blen data < 2 ^ 63;
  ld_segments : Forall (segment_fits data) (segments elf);
  ld_disjoint : NoDup (image_pages (segments elf));
  ld_stack : forall p, p ∈ image_pages (segments elf) -> p < top - USER_STACK_SIZE \/ top <= p;
  ld_wx : Forall (fun s => is_ok (final_segment_page_flags s) = true) (segments elf);
  ld_args : args_size args + (blen args + 2) * 8 + 16 <= USER_STACK_SIZE;
}.

Lemma stack_top_bounds enabled random :
  let top := stack_top_for enabled random in
  aligned top /\ aligned (top - USER_STACK_SIZE) /\ 0x7FC00000 <= top - USER_STACK_SIZE /\ top <= USER_STACK_TOP.
Proof.
  unfold stack_top_for, randomize_stack_offset, USER_STACK_TOP, USER_STACK_SIZE, aligned.
  assert (0 <= Z.land random 255 < 256).
  { change 255 with (Z.ones 8). rewrite Z.land_ones by lia. apply Z.mod_pos_bound. lia. }
  destruct enabled; cbn [negb]; [|by split_and!].
  assert (forall k, (k - Z.land random 0xFF * 0x1000) mod 4096 = k mod 4096) as Hm.
  { intros k. replace (k - Z.land random 0xFF * 0x1000) with (k + (- Z.land random 255) * 4096) by lia. by apply Z.mod_add. }
  split_and!; [by rewrite Hm|..]; [|lia|lia].
  replace (0x7FFFF000 - Z.land random 0xFF * 0x1000 - 0x200000) with (0x7FDFF000 - Z.land random 0xFF * 0x1000) by lia.
  by rewrite Hm.
Qed.

Lemma map_stack_ok own vm random space :
  let top := stack_top_for (ASLR_ENABLED vm) random in
  let bottom := top - USER_STACK_SIZE in
  user_ok U own vm -> (forall a, bottom <= a < top -> view vm a = None) -> 4 * 512 <= free_of vm ->
  exists vm' own', map_stack random space vm = (Ok (set_stack top bottom space), vm') /\ user_ok U own' vm' /\
    same_cpu vm vm' /\
    forall a, user_address a ->
      view vm' a = if bool_decide (bottom <= a < top) then Some (x00, stack_page_flags) else view vm a.
Proof.
  intros top bottom Hok Hnew Hf. destruct (stack_top_bounds (ASLR_ENABLED vm) random) as (Ht & Hb & Hlo & Hhi).
  fold top in Ht, Hb, Hlo, Hhi. fold bottom in Hb, Hlo. unfold USER_STACK_TOP in Hhi.
  assert (blen (pages bottom top) = 512) as Hlen.
  { rewrite length_pages by (done || (unfold bottom, USER_STACK_SIZE; lia)).
    replace (top - bottom) with USER_STACK_SIZE by (unfold bottom; lia). done. }
  destruct (map_pages_ok own vm (fun _ => PageTableError) stack_page_flags (pages bottom top) Hok)
    as (vm1 & own1 & R1 & Hok1 & Hc1 & _ & Hv1); [apply NoDup_pages| |lia|done|].
  { intros p Hp. apply elem_pages in Hp as [Hpa Hp]; [|done].
    split_and!; [unfold user_address, USER_SPACE; lia|done|by apply Hnew]. }
  exists vm1, own1. split_and!; [|done|done|].
  - unfold map_stack. erewrite bind_Ok; [|done]. fold (stack_top_for (ASLR_ENABLED vm) random). fold top. fold bottom.
    by erewrite bind_Ok; [|exact R1].
  - intros a Ha. rewrite Hv1 by done. erewrite bool_decide_ext; [reflexivity|].
    rewrite elem_pages by done. pose proof (page_floor_near a). pose proof (page_floor_aligned a). split.
    + intros [_ [H1 H2]]. apply aligned_le in H2; [lia|done|done].
    + intros [H1 H2]. split; [done|]. split; [|lia]. apply Z.le_ngt. intros Hlt. apply aligned_le in Hlt; [lia|done|done].
Qed.

Lemma load_segments_ok own vm data segs acc :
  user_ok U own vm -> (forall a, user_address a -> view vm a = None) -> blen data < 2 ^ 63 ->
  Forall (segment_fits data) segs -> NoDup (image_pages segs) ->
  Forall (fun s => is_ok (final_segment_page_flags s) = true) segs -> 4 * blen (image_pages segs) <= free_of vm ->
  exists vm1 vm2 vm3 own3,
    foldM map_segment segs acc vm = (Ok (register_all segs acc), vm1) /\
    for_each (populate_segment data) segs vm1 = (Ok (), vm2) /\
    for_each apply_segment_permissions segs vm2 = (Ok (), vm3) /\
    user_ok U own3 vm3 /\ same_cpu vm vm3 /\ free_of vm - 4 * blen (image_pages segs) <= free_of vm3 /\
    (forall a, user_address a -> page_floor a ∉ image_pages segs -> view vm3 a = None) /\
    (forall s flags, s ∈ segs -> final_segment_page_flags s = Ok flags ->
       holds vm3 (sg_vaddr s) (segment_image data s) /\
       forall a, user_address a -> page_floor a ∈ segment_pages s -> snd <$> view vm3 a = Some flags).
Proof.
  intros Hok Hempty Hdata Hfit Hnd Hwx Hf.
  destruct (map_segments_ok own vm data segs acc Hok Hfit Hnd) as (vm1 & own1 & R1 & Hok1 & Hc1 & Hf1 & Hv1); [|done|].
  { intros p Hp. apply Hempty. apply list_elem_of_In, in_concat in Hp as (l & Hl & Hpl). apply in_map_iff in Hl as (s' & <- & Hs').
    rewrite Forall_forall in Hfit. apply (segment_page_user data s'); [by apply Hfit, list_elem_of_In|by apply list_elem_of_In]. }
  assert (forall s a, s ∈ segs -> user_address a -> page_floor a ∈ segment_pages s ->
            view vm1 a = Some (x00, temporary_segment_page_flags)) as Hin1.
  { intros s a Hs Ha Hp. rewrite Hv1 by done. by rewrite bool_decide_true by (by eapply image_pages_elem). }
  rewrite Forall_forall in Hfit.
  destruct (populate_all_ok own1 vm1 data segs Hok1) as (vm2 & R2 & Hok2 & Ho2 & He2 & Hh2); [by apply Forall_forall|done|done| |].
  { intros s Hs a Ha. pose proof (Hfit s Hs) as [? ? ? ?].
    eexists _, _. split; [apply (Hin1 s a); [done|unfold user_address; lia|by eapply in_segment_page; [apply Hfit|]]|done]. }
  destruct (permissions_all_ok own1 vm2 data segs Hok2) as (vm3 & R3 & Hok3 & Hc3 & Ha3 & He3 & Hp3); [by apply Forall_forall|done|done| |].
  { intros p Hp. apply list_elem_of_In, in_concat in Hp as (l & Hl & Hpl). apply in_map_iff in Hl as (s & <- & Hs).
    apply list_elem_of_In in Hs, Hpl. destruct (segment_page_user data s p (Hfit s Hs) Hpl) as [Hu Ha].
    rewrite (only_bytes_mapped U vm1 vm2 0 USER_SPACE p Ho2 Hu). rewrite (Hin1 s p Hs Hu); [done|by rewrite page_floor_id]. }
  exists vm1, vm2, vm3, own1. split_and!; try done.
  - transitivity vm1; [done|]. transitivity vm2; [apply Ho2|done].
  - unfold free_of in *. rewrite Ha3, (ob_alloc _ _ _ _ Ho2). lia.
  - intros a Ha Hno. rewrite He3 by done. apply (only_bytes_mapped U vm1 vm2 0 USER_SPACE a Ho2 Ha).
    rewrite Hv1 by done. rewrite bool_decide_false by done. by apply Hempty.
  - intros s flags Hs Hflags. pose proof (Hfit s Hs) as Hsf. split.
    + intros j b Hj. pose proof (lookup_lt_Some _ _ _ Hj). pose proof (segment_image_length data s Hsf) as Hlen.
      unfold blen in Hlen. assert (in_segment s (sg_vaddr s + Z.of_nat j)) as Hin by (unfold in_segment; lia).
      rewrite (Hp3 s _ flags Hs (in_segment_page data s _ Hsf Hin) Hflags). rewrite <- (Hh2 s Hs j b Hj).
      by destruct (view vm2 _) as [[]|].
    + intros a Ha Hp. rewrite (Hp3 s a flags Hs Hp Hflags). destruct (view vm2 a) as [[]|] eqn:Ev; [done|].
      apply (only_bytes_mapped U vm1 vm2 0 USER_SPACE a Ho2 Ha) in Ev. by rewrite (Hin1 s a) in Ev.
Qed.

Lemma register_all_segments segs acc :
  as_segments (register_all segs acc).1 =
  as_segments acc.1 ++ map (fun s => mkMemSegment (sg_vaddr s) (sg_memsz s) (sg_flags s)) segs.
Proof.
  revert acc. induction segs as [|s segs IH]; intros [space n]; [by rewrite app_nil_r|].
  change (register_all (s :: segs) (space, n)) with
    (register_all segs (register_segment (sg_vaddr s) (sg_memsz s) (sg_flags s) space,
                        sat_add 64 n (aligned_page_count (sg_memsz s)))).
  rewrite IH. cbn [fst as_segments register_segment map]. by rewrite <- app_assoc.
Qed.

Lemma final_flags_wx s flags :
  final_segment_page_flags s = Ok flags ->
  seg_contains (sg_flags s) SEG_WRITE && seg_contains (sg_flags s) SEG_EXECUTE = false /\
  flag_set flags USER_ACCESSIBLE = true /\ flag_set flags WRITABLE && negb (flag_set flags NO_EXECUTE) = false.
Proof.
  unfold final_segment_page_flags.
  destruct (seg_contains (sg_flags s) SEG_WRITE), (seg_contains (sg_flags s) SEG_EXECUTE); simpl; intros [= <-]; done.
Qed.

Lemma registered_wx segs acc :
  Forall (fun s => is_ok (final_segment_page_flags s) = true) segs -> as_segments acc.1 = [] ->
  verify_wx (as_segments (register_all segs acc).1) = true.
Proof.
  intros Hwx Hacc. rewrite register_all_segments, Hacc. apply forallb_forall.
  intros m (s & <- & Hs)%in_map_iff. rewrite Forall_forall in Hwx. apply list_elem_of_In, Hwx in Hs.
  destruct (final_segment_page_flags s) as [fl|] eqn:E; [|done]. apply final_flags_wx in E as [E _].
  unfold writable_and_executable. cbn. by rewrite E.
Qed.

(** What a program finds when it starts. *)
Record image_ready vm (elf : ElfInfo) (data : bytes) (args : list bytes) (space : AddressSpace) (ctx : CpuContext) : Prop :=
  mkImageReady {
  ir_segments : forall s flags, s ∈ segments elf -> final_segment_page_flags s = Ok flags ->
    holds vm (sg_vaddr s) (segment_image data s) /\
    forall a, in_segment s a -> snd <$> view vm a = Some flags;
  ir_wx : forall a b flags, user_address a -> view vm a = Some (b, flags) ->
    flag_set flags USER_ACCESSIBLE = true /\ flag_set flags WRITABLE && negb (flag_set flags NO_EXECUTE) = false;
  ir_entry : rip ctx = entry_point elf;
  ir_stack : stack_holds vm (rsp ctx) args /\ rsp ctx mod 16 = 0;
  ir_ranges : forall a, contains_user_range a 1 space = true -> view vm a <> None;
}.

(** The states of a load: [vm3] has the segments, [vm4] the stack as well,
    [vm5] the arguments. *)
Section stages.
Context (elf : ElfInfo) (data : bytes) (args : list bytes) (top : Z) (vm3 vm4 vm5 : Vm PT).
Context (Hld : layout_ok elf data args top).
Context (Hlo : 0x7FC00000 <= top - USER_STACK_SIZE) (Hhi : top <= USER_STACK_TOP).
Context (Hbottom : aligned (top - USER_STACK_SIZE)).
Context (He3 : forall a, user_address a -> page_floor a ∉ image_pages (segments elf) -> view vm3 a = None).
Context (Hs3 : forall s flags, s ∈ segments elf -> final_segment_page_flags s = Ok flags ->
  holds vm3 (sg_vaddr s) (segment_image data s) /\
  forall a, user_address a -> page_floor a ∈ segment_pages s -> snd <$> view vm3 a = Some flags).
Context (Hv4 : forall a, user_address a ->
  view vm4 a = if bool_decide (top - USER_STACK_SIZE <= a < top) then Some (x00, stack_page_flags) else view vm3 a).
Context (Ho5 : only_bytes vm4 vm5 (top - USER_STACK_SIZE) (top - (top - USER_STACK_SIZE))).

Lemma stack_window a :
  top - USER_STACK_SIZE <= a < top -> user_address a /\ page_floor a ∉ image_pages (segments elf).
Proof using Hld Hlo Hhi Hbottom.
  intros Ha. unfold USER_STACK_TOP in Hhi. split; [unfold user_address, USER_SPACE; lia|].
  intros Hin%(ld_stack _ _ _ _ Hld). pose proof (page_floor_near a). pose proof (page_floor_aligned a).
  destruct Hin as [Hin|Hin]; [|lia]. apply aligned_le in Hin; [lia|done|done].
Qed.

Lemma segment_window s a :
  s ∈ segments elf -> in_segment s a ->
  user_address a /\ page_floor a ∈ segment_pages s /\ ~ (top - USER_STACK_SIZE <= a < top).
Proof using Hld Hlo Hhi Hbottom.
  intros Hs Ha. pose proof (ld_segments _ _ _ _ Hld) as Hfit. rewrite Forall_forall in Hfit.
  pose proof (Hfit s Hs) as Hsf. pose proof Hsf as [? ? ? ?]. pose proof (in_segment_page data s a Hsf Ha) as Hp.
  split; [unfold in_segment, user_address in *; lia|]. split; [done|]. intros Hw.
  destruct (stack_window a Hw) as [_ Hno]. apply Hno. by eapply image_pages_elem.
Qed.

Lemma stages_segments s flags :
  s ∈ segments elf -> final_segment_page_flags s = Ok flags ->
  holds vm5 (sg_vaddr s) (segment_image data s) /\ forall a, in_segment s a -> snd <$> view vm5 a = Some flags.
Proof using All.
  intros Hs Hflags. destruct (Hs3 s flags Hs Hflags) as [Hh Hfl]. pose proof (ld_segments _ _ _ _ Hld) as Hfit.
  rewrite Forall_forall in Hfit. assert (forall a, in_segment s a -> view vm5 a = view vm3 a) as Heq.
  { intros a Ha. destruct (segment_window s a Hs Ha) as (Hu & _ & Hno).
    rewrite (ob_else _ _ _ _ Ho5), Hv4 by (done || lia). by rewrite bool_decide_false. }
  split.
  - intros j b Hj. pose proof (lookup_lt_Some _ _ _ Hj). pose proof (segment_image_length data s (Hfit s Hs)) as Hlen.
    unfold blen in Hlen. rewrite Heq; [by apply Hh|unfold in_segment; lia].
  - intros a Ha. rewrite Heq by done. destruct (segment_window s a Hs Ha) as (Hu & Hp & _). by apply Hfl.
Qed.

Lemma stages_wx a b flags :
  user_address a -> view vm5 a = Some (b, flags) ->
  flag_set flags USER_ACCESSIBLE = true /\ flag_set flags WRITABLE && negb (flag_set flags NO_EXECUTE) = false.
Proof using All.
  intros Ha Hv. pose proof (ob_flags _ _ _ _ Ho5 a Ha) as Hfl. rewrite Hv, Hv4 in Hfl by done.
  case_bool_decide; [by injection Hfl as ->|].
  destruct (decide (page_floor a ∈ image_pages (segments elf))) as [Hin|Hno]; [|by rewrite He3 in Hfl].
  apply list_elem_of_In, in_concat in Hin as (l & Hl & Hpl). apply in_map_iff in Hl as (s & <- & Hs).
  apply list_elem_of_In in Hs, Hpl. pose proof (ld_wx _ _ _ _ Hld) as Hwx. rewrite Forall_forall in Hwx. specialize (Hwx s Hs).
  destruct (final_segment_page_flags s) as [fl|] eqn:E; [|done]. destruct (Hs3 s fl Hs E) as [_ Hfl3].
  rewrite (Hfl3 a Ha Hpl) in Hfl. injection Hfl as ->. by apply final_flags_wx in E as (_ & ? & ?).
Qed.

Lemma stages_ranges root n a :
  contains_user_range a 1
    (finalize_heap_layout (set_stack top (top - USER_STACK_SIZE)
       (register_all (segments elf) (address_space_new root, n)).1)) = true -> view vm5 a <> None.
Proof using All.
  unfold contains_user_range. change (1 =? 0) with false. cbv iota.
  unfold checked_add at 1. destruct (a + 1 <? 2 ^ 64); [|done]. destruct (_ || _); [done|].
  rewrite !orb_true_iff. unfold range_within_region at 1 2. rewrite !andb_true_iff.
  cbn [stack_top stack_bottom set_stack finalize_heap_layout initial_brk brk as_segments]. intros [[Hr|Hr]|Hr]; [|lia|].
  - destruct (stack_window a ltac:(lia)) as [Hu _]. rewrite (only_bytes_mapped U vm4 vm5 _ _ a Ho5 Hu), Hv4 by done.
    by rewrite bool_decide_true by lia.
  - apply existsb_exists in Hr as (m & Hm & Hr). rewrite register_all_segments in Hm. apply in_map_iff in Hm as (s & <- & Hs).
    apply list_elem_of_In in Hs. pose proof (ld_wx _ _ _ _ Hld) as Hwx. rewrite Forall_forall in Hwx. specialize (Hwx s Hs).
    destruct (final_segment_page_flags s) as [flags|] eqn:E; [|done].
    unfold checked_add in Hr. cbn [ms_vaddr ms_size] in Hr. destruct (_ <? 2 ^ 64) in Hr; [|done].
    unfold range_within_region in Hr. rewrite !andb_true_iff in Hr.
    pose proof (proj2 (stages_segments s flags Hs E) a ltac:(unfold in_segment; lia)) as Hseg. by destruct (view vm5 a).
Qed.
End stages.

Lemma map_process_image_ok user_code user_data own vm random root elf data args :
  user_ok U own vm -> (forall a, user_address a -> view vm a = None) -> physical_memory_offset vm <> None ->
  layout_ok elf data args (stack_top_for (ASLR_ENABLED vm) random) ->
  4 * (blen (image_pages (segments elf)) + 512) <= free_of vm ->
  exists space ctx n vm' own',
    map_process_image user_code user_data random root elf data args vm = (Ok (space, ctx, n), vm') /\
    user_ok U own' vm' /\ same_cpu vm vm' /\ image_ready vm' elf data args space ctx.
Proof.
  intros Hok Hempty Hoff Hld Hf. pose proof Hld as [Hdata Hfit Hnd Hst Hwx Hargs].
  destruct (load_segments_ok own vm data (segments elf) (address_space_new root, 0) Hok Hempty Hdata Hfit Hnd Hwx)
    as (vm1 & vm2 & vm3 & own3 & R1 & R2 & R3 & Hok3 & Hc3 & Hf3 & He3 & Hs3); [lia|].
  destruct (stack_top_bounds (ASLR_ENABLED vm) random) as (_ & Hb & Hlo & Hhi).
  set (top := stack_top_for (ASLR_ENABLED vm) random) in *. pose proof Hc3 as [_ _ _ Hca _].
  pose proof (stack_window elf data args top Hld Hlo Hhi Hb) as Hwin. unfold USER_STACK_TOP in Hhi.
  destruct (map_stack_ok own3 vm3 random (register_all (segments elf) (address_space_new root, 0)).1 Hok3)
    as (vm4 & own4 & R4 & Hok4 & Hc4 & Hv4); [|lia|].
  { rewrite Hca. intros a Ha. destruct (Hwin a Ha). by apply He3. }
  rewrite Hca in R4, Hv4. fold top in R4, Hv4.
  destruct (setup_user_stack_ok own4 vm4 (top - USER_STACK_SIZE) top args Hok4)
    as (vm5 & sp & R5 & Hok5 & Ho5 & Hal & _ & Hstack); [lia|unfold USER_SPACE; lia| |lia|].
  { intros a Ha. destruct (Hwin a ltac:(lia)) as [Hu _]. eexists _, _. rewrite Hv4 by done.
    rewrite bool_decide_true by lia. by split. }
  pose proof (registered_wx (segments elf) (address_space_new root, 0) Hwx eq_refl) as Hver.
  pose proof (stages_ranges elf data args top vm3 vm4 vm5 Hld Hlo Hhi Hb He3 Hs3 Hv4 Ho5 root 0) as Hrange.
  destruct (register_all (segments elf) (address_space_new root, 0)) as [space n]. cbn [fst] in *.
  eexists _, _, _, vm5, own4. split; [|split; [done|split; [|split]]].
  - unfold map_process_image. erewrite bind_Ok; [|unfold active_mapper, gets, mbind, stm_bind; by destruct (physical_memory_offset vm)].
    erewrite bind_Ok; [|unfold lock_allocator, gets, mbind, stm_bind; by destruct (uo_alloc _ _ _ Hok) as (a & -> & _)].
    erewrite bind_Ok; [|exact R1]. cbv beta iota. erewrite bind_Ok; [|exact R2].
    erewrite bind_Ok; [|exact R3]. rewrite Hver. cbn [negb]. erewrite bind_Ok; [|exact R4].
    cbv zeta. erewrite bind_Ok; [|exact R5]. reflexivity.
  - transitivity vm3; [done|]. transitivity vm4; [done|apply Ho5].
  - by apply (stages_segments elf data args top vm3 vm4 vm5).
  - by apply (stages_wx elf data args top vm3 vm4 vm5).
  - done.
  - by split.
  - exact Hrange.
Qed.

(** *** A new address space *)

Lemma slot_user a : user_address a -> slot a = USER_PML4_SLOT.
Proof.
  intros Ha. unfold slot, user_address, USER_SPACE in *. by rewrite Z.div_small by lia.
Qed.

Lemma create_user_page_table_ok own vm a :
  FRAME_ALLOCATOR vm = Some a -> alloc_ok U own a -> physical_memory_offset vm <> None -> 0 < free_frames a ->
  exists i vm', create_user_page_table vm = (Ok (i * FRAME_SIZE), vm') /\
    (forall x, user_address x -> view (set_cr3 (i * FRAME_SIZE) vm') x = None) /\
    user_ok U ({[i]} ∪ own) (set_cr3 (i * FRAME_SIZE) vm') /\
    same_cpu vm vm' /\ free_of vm' = free_frames a - 1 /\
    pml4 (i * FRAME_SIZE) (page_tables vm') = imap copied_entry (pml4 (CR3 vm) (page_tables vm)).
Proof.
  intros Ha Hal Hoff Hf. destruct (allocate_frame_ok U own a Hal Hf) as (i & a' & Hfr & _ & _ & Hal' & Hf').
  eexists i, _. split.
  { unfold create_user_page_table. erewrite bind_Ok; [|unfold active_mapper, gets, mbind, stm_bind; by destruct (physical_memory_offset vm)].
    erewrite bind_Ok; [|unfold lock_allocator, gets, mbind, stm_bind; by rewrite Ha].
    erewrite bind_Ok; [|unfold allocate; rewrite Ha, Hfr; reflexivity]. reflexivity. }
  cbn [page_tables set_allocator set_tables CR3 set_cr3].
  assert (forall x, user_address x ->
    entry_present (imap copied_entry (pml4 (CR3 vm) (page_tables vm))) (slot x) = false) as Hslot.
  { intros x Hx. rewrite slot_user by done. unfold entry_present.
    destruct (pml4 (CR3 vm) (page_tables vm)) as [|e l]; [done|]. done. }
  split_and!.
  - intros x Hx. unfold view, lookup_page. cbn [page_tables set_allocator set_tables CR3 set_cr3].
    destruct (slot_missing (i * FRAME_SIZE) _ (page_tables vm) (page_floor x) (Hslot _ (page_floor_user _ Hx))) as [-> _]. done.
  - split; cbn [page_tables set_allocator set_tables CR3 set_cr3 FRAME_ALLOCATOR].
    + by exists a'.
    + intros p f fl Hp _. by destruct (slot_missing (i * FRAME_SIZE) _ (page_tables vm) p (Hslot _ Hp)) as [-> _].
    + intros p q f fl fl' Hp _ _ _. by destruct (slot_missing (i * FRAME_SIZE) _ (page_tables vm) p (Hslot _ Hp)) as [-> _].
    + intros p Hp. by destruct (slot_missing (i * FRAME_SIZE) _ (page_tables vm) p (Hslot _ Hp)) as [_ ->].
  - by split.
  - unfold free_of. cbn. done.
  - apply pml4_written.
Qed.

End loading.

(** ** Starting a program *)

Section spawning.
Context {PT S : Type} {HP : Paging PT} {HL : PagingLaws PT} (U : Z -> Prop).
Context (user_code user_data : Z).

Lemma on_vm_Ok {E A} (m : stm (Vm PT) E A) (y : System PT S) r v :
  m (vm y) = (Ok r, v) -> on_vm m y = (Ok r, set_vm v y).
Proof. intros Hm. unfold on_vm. by rewrite Hm. Qed.

Lemma set_cr3_back root k (v : Vm PT) : CR3 v = root -> set_cr3 root (set_cr3 k v) = v.
Proof. destruct v. by intros <-. Qed.

Lemma page_floor_frame i : page_floor (i * FRAME_SIZE) = i * FRAME_SIZE.
Proof. apply page_floor_id. unfold aligned, FRAME_SIZE. by apply Z.mod_mul. Qed.

Lemma enqueue_room id pr s queue :
  run_queues s !! priority_index pr = Some queue -> blen queue < RUN_QUEUE_CAPACITY ->
  exists queue', run_queues (enqueue id pr s) !! priority_index pr = Some queue' /\ id ∈ queue'.
Proof.
  intros Hq Hroom. unfold enqueue. rewrite Hq. destruct (existsb (Z.eqb id) queue) eqn:E.
  - exists queue. split; [done|]. apply existsb_exists in E as (x & Hx & Heq). apply Z.eqb_eq in Heq as ->. by apply list_elem_of_In.
  - rewrite (proj2 (Z.ltb_lt _ _) Hroom). exists (queue ++ [id]). split; [|apply elem_of_app; right; by left].
    cbn. apply list_lookup_insert_eq. by eapply lookup_lt_Some.
Qed.

(** The image, built under the new table while the kernel's comes back. *)
Lemma build_process_ok own (y : System PT S) i random now kernel_stack path args environment id parent pr data elf :
  user_ok U own (set_cr3 (i * FRAME_SIZE) (vm y)) ->
  (forall x, user_address x -> view (set_cr3 (i * FRAME_SIZE) (vm y)) x = None) -> physical_memory_offset (vm y) <> None ->
  layout_ok elf data args (stack_top_for (ASLR_ENABLED (vm y)) random) ->
  4 * (blen (image_pages (segments elf)) + 512) <= free_of (vm y) ->
  exists p v own',
    with_cr3 (i * FRAME_SIZE) (KERNEL_CR3 (vm y))
      (build_process user_code user_data random now kernel_stack path args environment id parent pr elf data (i * FRAME_SIZE)) y =
      (Ok p, set_vm v y) /\
    CR3 v = page_floor (KERNEL_CR3 (vm y)) /\ page_table_phys p = i * FRAME_SIZE /\
    user_ok U own' (set_cr3 (i * FRAME_SIZE) v) /\
    image_ready (set_cr3 (i * FRAME_SIZE) v) elf data args (address_space p) (context p) /\
    state p = Ready /\ pr_uid p = id /\ parent_pid p = parent /\
    effective_capabilities p = spawn_capabilities parent id (machine y).
Proof.
  intros Hok Hempty Hoff Hld Hf.
  destruct (map_process_image_ok U user_code user_data own (set_cr3 (i * FRAME_SIZE) (vm y)) random (i * FRAME_SIZE) elf data args
              Hok Hempty Hoff Hld Hf) as (space & ctx & n & v & own' & Hrun & Hok' & Hcpu & Hready).
  destruct Hcpu as [Hcr _ _ _ _]. cbn [CR3 set_cr3] in Hcr.
  eexists _, (set_cr3 (page_floor (KERNEL_CR3 (vm y))) v), own'. split.
  { unfold with_cr3, build_process. rewrite page_floor_frame. erewrite bind_Ok; [|apply on_vm_Ok; exact Hrun]. reflexivity. }
  cbn [page_table_phys address_space context state pr_uid parent_pid effective_capabilities].
  split_and!; try done; by rewrite set_cr3_back.
Qed.

(** C3: starting a program works and isolates it.  When the file can be read
    and is an image the loader can lay out, and there is room in the process
    table, the run queue and memory, [spawn_process] returns the number of a new
    process.  The process is queued, belongs to the given user, has at most the
    capabilities of its parent, and its own page table shows the segments of the
    file under their final permissions and the arguments on the stack, no page
    both writable and executable, on frames that no other page of it uses; the
    kernel's table is active again. *)
Theorem spawn_process_correct own (y : System PT S) a queue random now now_log kernel_stack path args environment id parent pr
    parent_process data elf :
  FRAME_ALLOCATOR (vm y) = Some a -> alloc_ok U own a -> physical_memory_offset (vm y) <> None ->
  table_ok (PROCESS_TABLE (exec (machine y))) -> next_pid (PROCESS_TABLE (exec (machine y))) < 2 ^ 32 - 1 ->
  blen (processes (PROCESS_TABLE (exec (machine y)))) < 256 ->
  run_queues (SCHEDULER (exec (machine y))) !! priority_index pr = Some queue -> blen queue < RUN_QUEUE_CAPACITY ->
  pt_get parent (PROCESS_TABLE (exec (machine y))) = Some parent_process ->
  (read_image path id y).1 = Ok data -> parse_elf data = Ok elf ->
  layout_ok elf data args (stack_top_for (ASLR_ENABLED (vm y)) random) ->
  4 * (blen (image_pages (segments elf)) + 512) < free_frames a ->
  exists new_pid y' p own' queue',
    spawn_process user_code user_data random now now_log kernel_stack path args environment id parent pr y = (Ok new_pid, y') /\
    pt_get new_pid (PROCESS_TABLE (exec (machine y'))) = Some p /\
    run_queues (SCHEDULER (exec (machine y'))) !! priority_index pr = Some queue' /\ new_pid ∈ queue' /\
    state p = Ready /\ pr_uid p = id /\ parent_pid p = parent /\
    cap_subset (effective_capabilities p) (effective_capabilities parent_process) /\
    CR3 (vm y') = page_floor (KERNEL_CR3 (vm y)) /\
    user_ok U own' (set_cr3 (page_table_phys p) (vm y')) /\
    image_ready (set_cr3 (page_table_phys p) (vm y')) elf data args (address_space p) (context p).
Proof.
  intros Ha Hal Hoff Htab Hnext Hroom Hq Hqroom Hpar Hread Helf Hld Hf. pose proof (blen_nonneg (image_pages (segments elf))).
  destruct (create_user_page_table_ok U own (vm y) a Ha Hal Hoff) as (i & v1 & R1 & Hempty & Hok1 & [Hcr Hk Hof Has Hwp] & Hf1 & _); [lia|].
  destruct (build_process_ok _ (set_vm v1 y) i random now kernel_stack path args environment id parent pr data elf Hok1 Hempty)
    as (p & v2 & own' & R2 & Hcr2 & Hroot & Hok2 & Hready & Hst & Hu & Hpp & Hcap).
  { cbn. by rewrite Hof. }
  { cbn. by rewrite Has. }
  { cbn. lia. }
  destruct (create_process p (PROCESS_TABLE (exec (machine y)))) as [[new|e] t] eqn:Ec.
  2:{ unfold create_process in Ec. by rewrite (proj2 (Z.leb_gt _ _)) in Ec. }
  destruct (create_process_ok _ _ _ _ Htab Hnext Ec) as (-> & _ & Hps & _ & _).
  destruct (enqueue_room (next_pid (PROCESS_TABLE (exec (machine y)))) pr _ queue Hq Hqroom) as (queue' & Hq' & Hin).
  eexists _, _, (set_pid (next_pid (PROCESS_TABLE (exec (machine y)))) p), own', queue'. split.
  { unfold spawn_process. erewrite bind_Ok.
    2:{ unfold read_image in *. cbn [fst] in Hread. rewrite Hread. reflexivity. }
    erewrite bind_Ok; [|rewrite Helf; reflexivity]. erewrite bind_Ok; [|apply on_vm_Ok; exact R1].
    erewrite bind_Ok; [|reflexivity]. erewrite bind_Ok; [|exact R2]. erewrite bind_Ok; [|reflexivity].
    cbn [machine set_vm]. rewrite Ec. reflexivity. }
  cbn [page_table_phys address_space context state pr_uid parent_pid effective_capabilities set_pid].
  cbn [vm set_machine set_vm machine]. rewrite Hroot. cbn [vm set_vm] in Hcr2. rewrite Hk in Hcr2. split_and!; try done.
  - cbn. unfold pt_get. rewrite Hps, find_first_app. pose proof (tb_pids _ Htab) as Hlt. rewrite Forall_forall in Hlt.
    destruct (find_first _ (processes _)) as [q|] eqn:Eq.
    + apply find_first_Some in Eq as [Hqin Hqid%pid_is_spec]. apply Hlt in Hqin. lia.
    + simpl. unfold pid_is. cbn. by rewrite Z.eqb_refl.
  - rewrite Hcap. unfold spawn_capabilities, process_capabilities. cbn [machine set_vm]. rewrite Hpar. simpl. auto with caps.
Qed.
End spawning.

(** ** Ending a program *)

Section teardown.
Context {PT : Type} {HP : Paging PT} {HL : PagingLaws PT} (U : Z -> Prop).
Implicit Type vm : Vm PT.

(** The pages [teardown_process_image] visits. *)
Definition range_pages (start end_ : Z) : list Z := pages (page_floor start) (align_up end_).
Definition space_pages (space : AddressSpace) : list Z :=
  concat (map (fun s => range_pages (ms_vaddr s) (sat_add 64 (ms_vaddr s) (ms_size s))) (as_segments space))
  ++ range_pages (stack_bottom space) (stack_top space).

Lemma for_each_split {A} (f : A -> stm (Vm PT) (fault ExecError) ()) l1 l2 vm vm' :
  for_each f (l1 ++ l2) vm = (Ok (), vm') -> exists v, for_each f l1 vm = (Ok (), v) /\ for_each f l2 v = (Ok (), vm').
Proof.
  unfold for_each. revert vm. induction l1 as [|x l1 IH]; intros vm; cbn [foldM app]; [by eexists|].
  unfold mbind, stm_bind. destruct (f x vm) as [[[]|e] v]; [apply IH|done].
Qed.

Lemma for_each_concat {A B} (f : A -> stm (Vm PT) (fault ExecError) ()) (g : B -> list A) l vm vm' :
  for_each f (concat (map g l)) vm = (Ok (), vm') -> for_each (fun x => for_each f (g x)) l vm = (Ok (), vm').
Proof.
  revert vm. induction l as [|x l IH]; intros vm; [done|]. cbn [map concat]. intros (v & R1 & R2)%for_each_split.
  unfold for_each at 1. cbn [foldM]. erewrite bind_Ok; [|exact R1]. by apply IH.
Qed.

(** Ending a program gives its memory back.  Tearing down a process whose
    pages are mapped unmaps every page of its segments and of its stack, returns
    their frames and the frame of its level-4 table to the allocator, and makes
    the kernel's table active.  Pages outside those ranges, such as the heap,
    stay mapped and their frames stay taken. *)
Theorem teardown_returns_memory own vm i space :
  KERNEL_CR3 vm <> 0 -> aligned (KERNEL_CR3 vm) -> physical_memory_offset vm <> None ->
  i ∈ own -> i * FRAME_SIZE <> KERNEL_CR3 vm ->
  user_ok U own (set_cr3 (i * FRAME_SIZE) vm) -> keeps {[i]} (set_cr3 (i * FRAME_SIZE) vm) ->
  NoDup (space_pages space) ->
  (forall p, p ∈ space_pages space -> user_address p /\ aligned p /\ view (set_cr3 (i * FRAME_SIZE) vm) p <> None) ->
  exists vm', teardown_process_image (i * FRAME_SIZE) space vm = (Ok (), vm') /\ CR3 vm' = KERNEL_CR3 vm /\
    free_of vm' = free_of vm + blen (space_pages space) + 1 /\
    forall a, view (set_cr3 (i * FRAME_SIZE) vm') a =
              if bool_decide (page_floor a ∈ space_pages space) then None else view (set_cr3 (i * FRAME_SIZE) vm) a.
Proof.
  intros Hk0 Hka Hoff Hi Hroot Hok Hkeep Hnd Hl.
  assert (0 < i) as Hpos.
  { destruct (uo_alloc _ _ _ Hok) as (a & _ & Hal). apply (fi_own _ _ _ _ (al_inv _ _ _ Hal)) in Hi. lia. }
  destruct (unmap_list_ok (E:=ExecError) U {[i]} own _ (space_pages space) Hok) as (vm1 & own1 & R1 & Hok1 & Hc1 & HK1 & _ & Hf1 & Hv1);
    [set_solver|done|done|done|].
  destruct (uo_alloc _ _ _ Hok1) as (a & Ha & Hal). destruct (free_frame_ok U own1 a i Hal) as [_ Hf2]; [set_solver|].
  destruct Hc1 as [Hcr Hck Hco _ _]. cbn [CR3 KERNEL_CR3 set_cr3] in Hcr, Hck.
  apply for_each_split in R1 as (v & R0 & R1). apply for_each_concat in R0.
  eexists. split; [|split; [|split]].
  - unfold teardown_process_image. erewrite bind_Ok; [|reflexivity].
    rewrite (proj2 (Z.eqb_neq (i * FRAME_SIZE) 0)) by (unfold FRAME_SIZE; lia).
    rewrite (proj2 (Z.eqb_neq (i * FRAME_SIZE) _)) by done. rewrite (proj2 (Z.eqb_neq (KERNEL_CR3 vm) 0)) by done. cbn [negb andb].
    rewrite page_floor_frame. erewrite bind_Ok; [|reflexivity].
    erewrite bind_Ok; [|unfold active_mapper, gets, mbind, stm_bind; cbn; by destruct (physical_memory_offset vm)].
    erewrite bind_Ok; [|unfold lock_allocator, gets, mbind, stm_bind; by destruct (uo_alloc _ _ _ Hok) as (a0 & -> & _)].
    erewrite bind_Ok; [|exact R0]. erewrite bind_Ok; [|exact R1]. erewrite bind_Ok; [|reflexivity].
    unfold release_frame. cbn [FRAME_ALLOCATOR set_cr3]. rewrite Ha. reflexivity.
  - cbn. by apply page_floor_id.
  - unfold free_of in *. cbn [FRAME_ALLOCATOR set_allocator set_cr3] in *. rewrite Ha in Hf1. lia.
  - intros x. etrans; [|apply Hv1]. unfold view, lookup_page. cbn. by rewrite Hcr.
Qed.
End teardown.

(** ** An example: the program of [Elf.hello_programs] *)

Definition hello_data : bytes := image hello_header hello_programs [].
Definition hello_segment : ElfSegment := mkSegment 0x400000 4096 176 0 5 4096.
Definition hello_elf : ElfInfo := mkElfInfo 0x400080 [hello_segment] false.
Definition hello_path : bytes := str "/bin/hello".
Definition hello_args : list bytes := [str "hello"; str "world"].

Definition hello_kernel : Kernel () :=
  mkKernel (start 0 ana) two_users
    (mkWorld (mkFS [mkEntry hello_path hello_data 0 0 false 0 (perm_shared 0)] MAX_FILES) ()) logger_new.
Definition hello_vm : Vm FlatTables :=
  mkVm 0x1000 0x1000 (mkFlat (fun _ _ => None) (fun _ => replicate 512 0)) (fun _ => x00)
    (Some (frames_init sixteen_mib)) (Some 0) true true.
Definition hello_system : System FlatTables () :=
  mkSystem (mkMachine hello_kernel (exec ana_shell) tasks_new) hello_vm 0 0 0 [].

Lemma hello_layout top :
  0x7FC00000 <= top - USER_STACK_SIZE -> layout_ok hello_elf hello_data hello_args top.
Proof.
  assert (image_pages (segments hello_elf) = [0x400000]) as Hp by (vm_compute; reflexivity).
  intros Htop. split.
  - vm_compute. reflexivity.
  - constructor; [|constructor]. split; vm_compute; intuition discriminate.
  - rewrite Hp. apply NoDup_singleton.
  - rewrite Hp. intros p ->%list_elem_of_singleton. lia.
  - constructor; [vm_compute; reflexivity|constructor].
  - vm_compute. discriminate.
Qed.

Lemma ana_shell_table_ok : table_ok (PROCESS_TABLE (exec ana_shell)).
Proof.
  split; vm_compute; [|repeat constructor|discriminate]. constructor; [apply not_elem_of_nil|constructor].
Qed.

Lemma spawn_process_correct_witness :
  exists new_pid y' p own' queue',
    spawn_process 0x33 0x2B 7 5 5 0x100000 hello_path hello_args [] 1000 1 Normal hello_system = (Ok new_pid, y') /\
    pt_get new_pid (PROCESS_TABLE (exec (machine y'))) = Some p /\
    run_queues (SCHEDULER (exec (machine y'))) !! priority_index Normal = Some queue' /\ new_pid ∈ queue' /\
    state p = Ready /\ pr_uid p = 1000 /\ parent_pid p = 1 /\
    cap_subset (effective_capabilities p) USER_DEFAULT /\
    CR3 (vm y') = page_floor 0x1000 /\
    user_ok (usable_frame sixteen_mib) own' (set_cr3 (page_table_phys p) (vm y')) /\
    image_ready (set_cr3 (page_table_phys p) (vm y')) hello_elf hello_data hello_args (address_space p) (context p).
Proof.
  assert (exists q, pt_get 1 (PROCESS_TABLE (exec ana_shell)) = Some q /\ effective_capabilities q = USER_DEFAULT) as (q & Hq & Hcap)
    by (eexists; split; vm_compute; reflexivity).
  rewrite <- Hcap.
  apply (spawn_process_correct (usable_frame sixteen_mib) 0x33 0x2B ∅ hello_system (frames_init sixteen_mib) []
           7 5 5 0x100000 hello_path hello_args [] 1000 1 Normal q hello_data hello_elf).
  - reflexivity.
  - exact sixteen_mib_ok.
  - discriminate.
  - exact ana_shell_table_ok.
  - reflexivity.
  - reflexivity.
  - reflexivity.
  - reflexivity.
  - exact Hq.
  - change (read_as (fs (FILESYSTEM hello_kernel)) hello_path 1000 (role_for_uid two_users 1000) = Ok hello_data).
    vm_compute. reflexivity.
  - vm_compute. reflexivity.
  - apply hello_layout. apply stack_top_bounds.
  - eapply Z.lt_le_trans; [|exact sixteen_mib_free]. vm_compute. reflexivity.
Defined.

(** A program of one page, on the second frame; its table is the first. *)
Definition small_frames : BitmapAllocator := allocations 2 (frames_init sample_map).
Definition small_vm : Vm FlatTables :=
  mkVm 0x8000 0x8000
    (flat_set 0x1000 0x400000 (Some (0x2000, 5)) (mkFlat (fun _ _ => None) (fun _ => replicate 512 0)))
    (fun _ => x00) (Some small_frames) (Some 0) true true.
Definition small_space : AddressSpace :=
  mkAddressSpace [mkMemSegment 0x400000 0x100 5] 0x10000000 0x10000000 0x60000000 0x7FFFF000 0x7FFFF000 0x60000000 0x1000.

Lemma small_frames_ok : alloc_ok (usable_frame sample_map) {[2; 1]} small_frames.
Proof.
  assert (alloc_ok (usable_frame sample_map) ∅ (frames_init sample_map)) as H0
    by (split; [by apply frames_init_inv|vm_compute; reflexivity]).
  destruct (allocate_frame_ok _ _ _ H0) as (i & a1 & E1 & _ & _ & H1 & _); [vm_compute; reflexivity|].
  assert ((allocate_frame (frames_init sample_map)).1 = Some 0x1000) as F1 by (vm_compute; reflexivity).
  assert (i = 1) as -> by (rewrite E1 in F1; injection F1; unfold FRAME_SIZE; lia).
  assert (a1 = (allocate_frame (frames_init sample_map)).2) as -> by (by rewrite E1).
  destruct (allocate_frame_ok _ _ _ H1) as (j & a2 & E2 & _ & _ & H2 & _); [vm_compute; reflexivity|].
  assert ((allocate_frame (allocate_frame (frames_init sample_map)).2).1 = Some 0x2000) as F2 by (vm_compute; reflexivity).
  assert (j = 2) as -> by (rewrite E2 in F2; injection F2; unfold FRAME_SIZE; lia).
  assert (a2 = small_frames) as -> by (change small_frames with (allocate_frame (allocate_frame (frames_init sample_map)).2).2; by rewrite E2).
  replace ({[2; 1]} : gset Z) with ({[2]} ∪ ({[1]} ∪ ∅) : gset Z) by set_solver. exact H2.
Qed.

Lemma small_translate p :
  translate 0x1000 (page_tables small_vm) p = if p =? 0x400000 then Some (0x2000, 5) else None.
Proof. reflexivity. Qed.

Lemma small_vm_ok : user_ok (usable_frame sample_map) {[2; 1]} (set_cr3 0x1000 small_vm).
Proof.
  split.
  - exists small_frames. split; [done|exact small_frames_ok].
  - intros p f fl _ _. change (translate (CR3 (set_cr3 0x1000 small_vm)) ?t p) with (translate 0x1000 (page_tables small_vm) p).
    rewrite small_translate. destruct (p =? 0x400000); [|done]. intros [= <- <-]. split; [done|]. set_solver.
  - intros p q f fl fl' _ _ _ _. change (translate (CR3 (set_cr3 0x1000 small_vm)) ?t ?x) with (translate 0x1000 (page_tables small_vm) x).
    rewrite !small_translate. destruct (Z.eqb_spec p 0x400000), (Z.eqb_spec q 0x400000); congruence.
  - done.
Qed.

Lemma teardown_returns_memory_witness :
  exists vm', teardown_process_image 0x1000 small_space small_vm = (Ok (), vm') /\ CR3 vm' = 0x8000 /\
    free_of vm' = free_of small_vm + 1 + 1 /\ view (set_cr3 0x1000 vm') 0x400010 = None.
Proof.
  assert (space_pages small_space = [0x400000]) as Hp by (vm_compute; reflexivity).
  destruct (teardown_returns_memory (usable_frame sample_map) {[2; 1]} small_vm 1 small_space) as (vm' & R & H1 & H2 & H3).
  - discriminate.
  - reflexivity.
  - discriminate.
  - set_solver.
  - discriminate.
  - exact small_vm_ok.
  - intros p f fl _ _. change (translate (CR3 ?v) ?t p) with (translate 0x1000 (page_tables small_vm) p).
    rewrite small_translate. destruct (p =? 0x400000); [|done]. intros [= <- <-]. vm_compute (0x2000 / 4096). set_solver.
  - rewrite Hp. apply NoDup_singleton.
  - rewrite Hp. intros p ->%list_elem_of_singleton. split_and!; [by vm_compute|reflexivity|]. vm_compute. discriminate.
  - exists vm'. rewrite Hp in *. split_and!; [exact R|exact H1|exact H2|].
    change 0x1000 with (1 * FRAME_SIZE). rewrite H3. reflexivity.
Defined.
