(* ===== verification/Syscalls.v ===== *)
(** * System calls (kernel/src/exec/syscall.rs, kernel/src/exec/syscalls)

    Every call runs on [Loader.System].  [Raised v] is an early return of the
    value [v]; [Panicked] is a page fault or a panic of the kernel.  Readings of
    the clock, random bytes and SHA-3 are inputs; the calls on quantum registers
    are a parameter.  Addresses come from the program: the checked helpers
    compare them with the address space of the caller before they touch memory,
    the unchecked ones do not. *)
From S2P Require Import Prelude RustStr Paths Auth Session AuditLog WarFS FsCurrent Frames Elf Process Caps Exec Vm Loader.

(** ** Constants and structures ([syscalls/mod.rs]) *)

Definition EPERM : Z := -1.
Definition ENOENT : Z := -2.
Definition ENOEXEC : Z := -8.
Definition EBADF : Z := -9.
Definition ECHILD : Z := -10.
Definition ENOMEM : Z := -12.
Definition EFAULT : Z := -14.
Definition EEXIST : Z := -17.
Definition EINVAL : Z := -22.
Definition ENOSPC : Z := -28.
Definition ENAMETOOLONG : Z := -36.
Definition ENOSYS : Z := -38.
Definition MAX_USER_STRING_LEN : Z := 256.

Definition WAREXEC_FILE_TYPE_REGULAR : Z := 1.
Definition WAREXEC_FILE_TYPE_DIRECTORY : Z := 2.
Definition WAREXEC_DIRENT_NAME_CAPACITY : Z := 32.
Definition WAREXEC_OPEN_CREATE_WRITE : Z := Z.lor 1 2.
Definition WAREXEC_OPEN_DIRECTORY : Z := 0x10000.

Record WarExecStat : Type := mkStat { st_size : Z; st_file_type : Z; st_readonly : Z }.
(** [repr(C)], with six reserved bytes at the end. *)
Definition stat_bytes (s : WarExecStat) : bytes :=
  le_bytes 8 (st_size s) ++ [bofZ (st_file_type s); bofZ (st_readonly s)] ++ zeros 6.
Record WarExecDirEntry : Type := mkDirent { de_file_type : Z; de_name : bytes }.
Definition dirent_bytes (d : WarExecDirEntry) : bytes :=
  [bofZ (de_file_type d); bofZ (blen (de_name d))] ++ zeros 6 ++ de_name d
  ++ zeros (Z.to_nat (WAREXEC_DIRENT_NAME_CAPACITY - blen (de_name d))).
Definition timespec_bytes (sec nsec : Z) : bytes := le_bytes 8 sec ++ le_bytes 8 nsec.

Definition to_i64 (z : Z) : Z := let w := wrap 64 z in if w <? 2 ^ 63 then w else w - 2 ^ 64.

Section calls.
Context {PT S : Type} {HP : Paging PT} `{Backend S}.
Abbreviation sys A := (stm (System PT S) (fault Z) A).

Definition return_early {A} (v : Z) : sys A := throw (Raised v).

(** ** Access to user memory ([syscalls/mod.rs]) *)

Definition current_of (y : System PT S) : option Process :=
  current_pid (SCHEDULER (exec (machine y))) ≫= (fun id => pt_get id (PROCESS_TABLE (exec (machine y)))).
Definition current_process (missing : Z) : sys Process :=
  found ← gets current_of;
  match found with Some p => mret p | None => return_early missing end.
(** Assignment to the current process, found once more. *)
Definition update_current (f : Process -> Process) : sys () :=
  p ← current_process EPERM;
  on_machine (with_table (pt_update (pid p) f)).

Definition validate_user_range (address len : Z) : sys () :=
  if len =? 0 then mret tt
  else
    p ← current_process EPERM;
    if contains_user_range address len (address_space p) then mret tt else return_early EFAULT.

Definition copy_from_user_ptr_checked (source len : Z) : sys bytes :=
  if len =? 0 then mret []
  else validate_user_range source len;; on_vm (load source len).
Definition copy_to_user_ptr_checked (destination : Z) (data : bytes) : sys Z :=
  if blen data =? 0 then mret 0
  else validate_user_range destination (blen data);; on_vm (store destination data);; mret (blen data).
Definition write_struct_to_user_checked (destination : Z) (value : bytes) : sys () :=
  validate_user_range destination (blen value);; on_vm (store destination value).

(** The loop of [read_user_string_checked]; [n] bytes may still be read. *)
Fixpoint read_string_from (space : AddressSpace) (address : Z) (n : nat) (acc : bytes) : sys bytes :=
  match n with
  | O => return_early EFAULT
  | Datatypes.S n =>
      if 2 ^ 64 <=? address then return_early EFAULT
      else if negb (contains_user_range address 1 space) then return_early EFAULT
      else
        data ← on_vm (load address 1);
        match data with
        | [b] =>
            if bval b =? 0 then (if utf8_valid acc then mret acc else return_early EINVAL)
            else read_string_from space (address + 1) n (acc ++ [b])
        | _ => return_early EFAULT
        end
  end.
Definition read_user_string_checked (pointer max_len : Z) : sys bytes :=
  if (pointer =? 0) || (max_len =? 0) then return_early EFAULT
  else
    p ← current_process EPERM;
    read_string_from (address_space p) pointer (Z.to_nat max_len) [].

Definition read_warexec_path_checked (pointer : Z) (directory : bool) : sys bytes :=
  path ← read_user_string_checked pointer MAX_USER_STRING_LEN;
  match canonicalize_warexec_path path directory with
  | Ok path => mret path
  | Err _ => return_early EINVAL
  end.

Fixpoint read_pointers_from (pointer : Z) (n : nat) : sys (list Z) :=
  match n with
  | O => mret []
  | Datatypes.S n =>
      validate_user_range pointer 8;;
      data ← on_vm (load pointer 8);
      let value := le_val data in
      if value =? 0 then mret []
      else rest ← read_pointers_from (wrap 64 (pointer + 8)) n; mret (value :: rest)
  end.
Definition read_user_pointer_array_checked (pointer max_entries : Z) : sys (list Z) :=
  if pointer =? 0 then mret [] else read_pointers_from pointer (Z.to_nat max_entries).

(** The unchecked helpers. *)
Definition copy_to_user_ptr (destination : Z) (data : bytes) : sys Z :=
  if destination =? 0 then mret 0 else on_vm (store destination data);; mret (blen data).
Definition write_struct_to_user (destination : Z) (value : bytes) : sys bool :=
  if destination =? 0 then mret false else on_vm (store destination value);; mret true.

(** ** Files ([syscalls/file.rs]) *)

(** The readings of the tick counter during the call. *)
Context (now now_log : Z).

Definition map_fs_error (e : FsError) : Z :=
  match e with
  | FileNotFound => ENOENT
  | AlreadyExists => EEXIST
  | PermissionDenied | ReadOnly => EPERM
  | InvalidFilename => EINVAL
  | FilenameTooLong => ENAMETOOLONG
  | FileTooLarge | FilesystemFull => ENOSPC
  end.
Definition with_kernel (k : Kernel S) (m : Machine S) : Machine S := mkMachine k (exec m) (tasks m).
(** A call of the file system, whose error becomes the value returned. *)
Definition on_fs {A} (error : FsError -> Z) (m : stm (Kernel S) FsError A) : sys A := fun y =>
  let '(r, k) := m (kernel (machine y)) in
  (map_err (fun e => Raised (error e)) r, set_machine (with_kernel k (machine y)) y).

Definition descriptor (fd : Z) : sys DescriptorTarget :=
  p ← current_process EPERM;
  match fd_get fd (fd_table p) with
  | Some d => mret (fd_target d)
  | None => return_early EBADF
  end.
Definition set_descriptor (fd : Z) (target : DescriptorTarget) : sys () :=
  update_current (fun p => set_fd_table (fd_set_target fd target (fd_table p)) p).

Definition warexec_stat_from_entry (entry : FileEntry) : WarExecStat :=
  mkStat (blen (fe_data entry)) WAREXEC_FILE_TYPE_REGULAR (Z.b2z (fe_readonly entry)).

Definition directory_handle_from_path (path : bytes) : sys DirectoryHandle :=
  '(resolved, entries) ← on_fs map_fs_error (list_entries_current (Some path));
  mret (mkDirectoryHandle resolved (map (fun e => mkDirEntryHandle (dv_name e) (dv_is_dir e)) entries) 0).

Definition read_only_file (target : DescriptorTarget) : sys FileHandle :=
  match target with
  | TargetFile handle =>
      if bool_decide (fh_access handle = ReadOnlyAccess) then mret handle else return_early ENOSYS
  | _ => return_early ENOSYS
  end.
Definition with_offset (offset : Z) (handle : FileHandle) : FileHandle :=
  mkFileHandle (fh_path handle) offset (fh_access handle) (fh_staged_data handle).

Definition sys_read (fd buffer len : Z) : sys Z :=
  target ← descriptor fd;
  handle ← read_only_file target;
  if len =? 0 then mret 0
  else
    '(_, data) ← on_fs (fun _ => ENOENT) (read_current (fh_path handle));
    let start := Z.min (fh_offset handle) (blen data) in
    let end_ := Z.min (sat_add 64 start len) (blen data) in
    if end_ <=? start then mret 0
    else
      copied ← copy_to_user_ptr_checked buffer (field (Z.to_nat start) (Z.to_nat (end_ - start)) data);
      target ← descriptor fd;
      handle ← read_only_file target;
      set_descriptor fd (TargetFile (with_offset (sat_add 64 start copied) handle));;
      mret copied.

(** [char::from(byte)] printed in UTF-8. *)
Definition latin1 (b : byte) : bytes :=
  if bval b <? 128 then [b] else [bofZ (0xC0 + bval b / 64); bofZ (0x80 + bval b mod 64)].
Definition printed (data : bytes) : bytes := if utf8_valid data then data else concat (map latin1 data).
Definition print (data : bytes) : sys () := modify (fun y =>
  mkSystem (machine y) (vm y) (WAROS_USER_EXIT_CODE y) (WAROS_USER_RETURN_KIND y) (WAROS_USER_RETURN_PENDING y)
    (console y ++ printed data)).

(** [resize] to the end and overwrite. *)
Definition staged_write (staged : bytes) (offset : Z) (data : bytes) : bytes :=
  let padded := staged ++ zeros (Z.to_nat (offset + blen data - blen staged)) in
  take (Z.to_nat offset) padded ++ data ++ drop (Z.to_nat (offset + blen data)) padded.

Definition create_write_file (target : DescriptorTarget) : sys FileHandle :=
  match target with
  | TargetFile handle =>
      if bool_decide (fh_access handle = CreateWrite) then mret handle else return_early ENOSYS
  | _ => return_early ENOSYS
  end.

Definition sys_write (fd buffer len : Z) : sys Z :=
  if len =? 0 then mret 0
  else
    data ← copy_from_user_ptr_checked buffer len;
    target ← descriptor fd;
    match target with
    | Stdout | Stderr => print data;; mret (to_i64 len)
    | _ =>
        handle ← create_write_file target;
        match checked_add 64 (fh_offset handle) (blen data) with
        | None => return_early EINVAL
        | Some end_offset =>
            if MAX_FILE_SIZE <? end_offset then return_early EINVAL
            else
              set_descriptor fd (TargetFile (mkFileHandle (fh_path handle) end_offset (fh_access handle)
                                               (staged_write (fh_staged_data handle) (fh_offset handle) data)));;
              mret (blen data)
        end
    end.

Definition sys_open (path flags mode : Z) : sys Z :=
  if negb (mode =? 0) then return_early ENOSYS
  else
    let open_directory := flags =? WAREXEC_OPEN_DIRECTORY in
    let open_create_write := flags =? WAREXEC_OPEN_CREATE_WRITE in
    if negb (flags =? 0) && negb open_directory && negb open_create_write then return_early ENOSYS
    else
      resolved ← read_warexec_path_checked path open_directory;
      target ←
        (if open_directory then handle ← directory_handle_from_path resolved; mret (TargetDirectory handle)
         else if open_create_write then
           _ ← on_fs map_fs_error (validate_create_new_current resolved);
           mret (TargetFile (mkFileHandle resolved 0 CreateWrite []))
         else
           _ ← on_fs map_fs_error (read_current resolved);
           mret (TargetFile (mkFileHandle resolved 0 ReadOnlyAccess [])));
      p ← current_process EPERM;
      update_current (fun p => set_fd_table (fd_insert target (fd_table p)).2 p);;
      mret (fd_insert target (fd_table p)).1.

Definition sys_close (fd : Z) : sys Z :=
  target ← descriptor fd;
  (match target with
   | TargetFile handle =>
       if bool_decide (fh_access handle = CreateWrite) then
         _ ← on_fs map_fs_error (create_new_current now now_log (fh_path handle) (fh_staged_data handle)); mret tt
       else mret tt
   | _ => mret tt
   end);;
  p ← current_process EPERM;
  let '(closed, table) := fd_close fd (fd_table p) in
  update_current (fun p => set_fd_table (fd_close fd (fd_table p)).2 p);;
  mret (if (closed : bool) then 0 else EBADF).

Definition sys_stat (path stat_out : Z) : sys Z :=
  resolved ← read_warexec_path_checked path false;
  entry ← on_fs map_fs_error (stat_current resolved);
  write_struct_to_user_checked stat_out (stat_bytes (warexec_stat_from_entry entry));;
  mret 0.

Definition sys_fstat (fd stat_out : Z) : sys Z :=
  target ← descriptor fd;
  stat ←
    (match target with
     | TargetFile handle =>
         if bool_decide (fh_access handle = CreateWrite)
         then mret (mkStat (blen (fh_staged_data handle)) WAREXEC_FILE_TYPE_REGULAR 0)
         else entry ← on_fs map_fs_error (stat_current (fh_path handle)); mret (warexec_stat_from_entry entry)
     | _ => return_early ENOSYS
     end);
  write_struct_to_user_checked stat_out (stat_bytes stat);;
  mret 0.

Definition sys_readdir (fd entry_out : Z) : sys Z :=
  target ← descriptor fd;
  match target with
  | TargetDirectory handle =>
      match dh_entries handle !! Z.to_nat (dh_cursor handle) with
      | None => mret 0
      | Some entry =>
          set_descriptor fd (TargetDirectory (mkDirectoryHandle (dh_path handle) (dh_entries handle)
                                                (sat_add 64 (dh_cursor handle) 1)));;
          if WAREXEC_DIRENT_NAME_CAPACITY <? blen (dh_name entry) then return_early EINVAL
          else
            write_struct_to_user_checked entry_out
              (dirent_bytes (mkDirent (if dh_is_dir entry then WAREXEC_FILE_TYPE_DIRECTORY else WAREXEC_FILE_TYPE_REGULAR)
                               (dh_name entry)));;
            mret 1
      end
  | _ => return_early ENOSYS
  end.

Definition sys_seek (fd offset whence : Z) : sys Z := mret ENOSYS.

Definition sys_getcwd (buffer len : Z) : sys Z :=
  if len =? 0 then return_early EINVAL
  else
    m ← gets machine;
    let cwd := resolve_path (CURRENT_SESSION (kernel m)) [dot] in
    let to_copy := Z.min (blen cwd) (sat_sub len 1) in
    copied ← copy_to_user_ptr_checked buffer (take (Z.to_nat to_copy) cwd);
    _ ← copy_to_user_ptr_checked (wrap 64 (buffer + copied)) [x00];
    mret copied.

Definition sys_chdir (path : Z) : sys Z :=
  path ← read_user_string_checked path MAX_USER_STRING_LEN;
  m ← gets machine;
  let resolved := resolve_path (CURRENT_SESSION (kernel m)) path in
  update_current (Process.set_pr_cwd resolved);;
  mret 0.

(** ** Memory ([syscalls/memory.rs]) *)

Definition PROT_WRITE : Z := 2.
Definition MAP_ANONYMOUS : Z := 0x20.

Definition set_brk (v : Z) (a : AddressSpace) : AddressSpace :=
  mkAddressSpace (as_segments a) v (initial_brk a) (heap_limit a) (stack_top a) (stack_bottom a) (mmap_top a)
    (as_page_table_phys a).
Definition set_mmap_top (v : Z) (a : AddressSpace) : AddressSpace :=
  mkAddressSpace (as_segments a) (brk a) (initial_brk a) v (stack_top a) (stack_bottom a) v (as_page_table_phys a).
Definition update_space (f : AddressSpace -> AddressSpace) : sys () :=
  update_current (fun p => set_address_space (f (address_space p)) p).

(** The active mapper and the allocator, or [EPERM]. *)
Definition paging_available : sys () :=
  v ← gets vm;
  match physical_memory_offset v, FRAME_ALLOCATOR v with
  | Some _, Some _ => mret tt
  | _, _ => return_early EPERM
  end.

Definition mmap_page (flags page_base : Z) : stm (Vm PT) (fault Z) () :=
  page ← virt_addr page_base;
  frame ← allocate;
  match frame with
  | None => throw (Raised ENOMEM)
  | Some frame =>
      r ← map_page page frame flags;
      match r with
      | Ok _ => store page_base (zeros 4096)
      | Err _ => release_frame frame;; throw (Raised EPERM)
      end
  end.

Definition sys_mmap (len prot flags : Z) : sys Z :=
  if Z.land flags MAP_ANONYMOUS =? 0 then return_early ENOSYS
  else if len =? 0 then return_early EINVAL
  else
    let aligned_len := wrap 64 ((len + 4095) / 4096 * 4096) in
    p ← current_process EPERM;
    let space := address_space p in
    if mmap_top space <? aligned_len then return_early ENOMEM
    else
      let base := mmap_top space - aligned_len in
      if base <? brk space then return_early ENOMEM
      else
        update_space (set_mmap_top base);;
        paging_available;;
        let flags_pt := Z.lor (Z.lor PRESENT USER_ACCESSIBLE) NO_EXECUTE in
        let flags_pt := if negb (Z.land prot PROT_WRITE =? 0) then Z.lor flags_pt WRITABLE else flags_pt in
        on_vm (for_each (mmap_page flags_pt) (pages base (base + aligned_len)));;
        mret (to_i64 base).

Definition sys_munmap (addr len : Z) : sys Z :=
  if (addr =? 0) || (len =? 0) then return_early EINVAL
  else
    let aligned_len := wrap 64 ((len + 4095) / 4096 * 4096) in
    paging_available;;
    on_vm (for_each unmap_address (pages addr (wrap 64 (addr + aligned_len))));;
    mret 0.

Definition heap_page_flags : Z := Z.lor (Z.lor (Z.lor PRESENT WRITABLE) USER_ACCESSIBLE) NO_EXECUTE.
(** The growth loop: the first page that cannot be added ends it, and the pages
    added so far are given back. *)
Fixpoint grow_heap (start : Z) (l : list Z) : stm (Vm PT) (fault Z) bool :=
  match l with
  | [] => mret true
  | page_base :: rest =>
      page ← virt_addr page_base;
      frame ← allocate;
      match frame with
      | None => for_each unmap_address (pages start page_base);; mret false
      | Some frame =>
          r ← map_page page frame heap_page_flags;
          match r with
          | Ok _ => store page_base (zeros 4096);; grow_heap start rest
          | Err _ => release_frame frame;; for_each unmap_address (pages start page_base);; mret false
          end
      end
  end.
Definition brk_align_up (value : Z) : Z := wrap 64 ((value + 4095) / 4096 * 4096).

Definition sys_brk (address : Z) : sys Z :=
  p ← current_process EPERM;
  let space := address_space p in
  let old_brk := brk space in
  let limit := Z.min (heap_limit space) (stack_bottom space) in
  if address =? 0 then mret (to_i64 old_brk)
  else if (address <? old_brk) || (address <? initial_brk space) || (limit <? address) then mret (to_i64 old_brk)
  else if address =? old_brk then mret (to_i64 old_brk)
  else
    paging_available;;
    let start_page := brk_align_up old_brk in
    grown ← on_vm (grow_heap start_page (pages start_page (brk_align_up address)));
    if negb (grown : bool) then mret (to_i64 old_brk)
    else update_space (set_brk address);; mret (to_i64 address).

(** ** Leaving user mode ([syscall.rs]) *)

Definition RETURN_EXIT : Z := 1.
Definition RETURN_EXEC : Z := 2.
Definition request_kernel_return (code : Z) : sys () := modify (fun y =>
  mkSystem (machine y) (vm y) code RETURN_EXIT 1 (console y)).
Definition request_exec_transition : sys () := modify (fun y =>
  mkSystem (machine y) (vm y) 0 RETURN_EXEC 1 (console y)).

(** ** Processes ([syscalls/process.rs]) *)

Definition of_current (f : Process -> Z) (y : System PT S) : Z :=
  match current_of y with Some p => f p | None => -1 end.
Definition sys_getpid : sys Z := gets (fun y => default (-1) (current_pid (SCHEDULER (exec (machine y))))).
Definition sys_getppid : sys Z := gets (of_current parent_pid).
Definition sys_getuid : sys Z := gets (of_current pr_uid).
Definition sys_fork : sys Z := mret ENOSYS.

Definition sys_exit (code : Z) : sys Z :=
  m ← gets machine;
  match current_pid (SCHEDULER (exec m)) with
  | None => mret (-1)
  | Some id => on_machine (mark_exit now_log id code);; request_kernel_return code;; mret 0
  end.

Definition WAIT_STATUS_EXIT_SHIFT : Z := 8.
Definition encode_wait_exit_status (code : Z) : Z := Z.shiftl (Z.land code 0xFF) WAIT_STATUS_EXIT_SHIFT.

Definition sys_wait4 (target status_ptr options : Z) : sys Z :=
  if negb (options =? 0) then return_early ENOSYS
  else if (target =? 0) || (target <? -1) then return_early ENOSYS
  else
    m ← gets machine;
    match current_pid (SCHEDULER (exec m)) with
    | None => return_early EPERM
    | Some parent =>
        match find_zombie_child parent target (PROCESS_TABLE (exec m)) with
        | None => return_early ECHILD
        | Some (child, code) =>
            (if negb (status_ptr =? 0)
             then write_struct_to_user_checked status_ptr (le_bytes 4 (wrap 32 (encode_wait_exit_status code)))
             else mret tt);;
            on_machine (with_table (pt_remove child));;
            mret child
        end
    end.

(** The selectors of user code and data, and the random word of the loader. *)
Context (user_code user_data random : Z).

Definition read_args (pointers : list Z) : sys (list bytes) :=
  foldM (fun p acc => arg ← read_user_string_checked p MAX_USER_STRING_LEN; mret (acc ++ [arg])) pointers [].

(** A failure of the loader becomes the value [v]. *)
Definition or_return {A} (v : Z) (m : stm (System PT S) (fault ExecError) A) : sys A := fun y =>
  let '(r, y) := m y in
  (match r with Ok a => Ok a | Err (Raised _) => Err (Raised v) | Err Panicked => Err Panicked end, y).

Definition replace_image (space : AddressSpace) (ctx : CpuContext) (pages root : Z) (path : bytes) (caps : Z)
    (p : Process) : Process :=
  set_state Running (set_exit_code None (set_env [] (set_effective_capabilities caps (set_image_kind ElfImage
    (set_image_path path (set_pr_name (file_name path) (set_memory_pages pages (set_address_space space
      (set_page_table_phys root (set_context ctx p)))))))))).

Definition sys_execve (path argv : Z) : sys Z :=
  path ← read_warexec_path_checked path false;
  pointers ← read_user_pointer_array_checked argv 64;
  args ← read_args pointers;
  p ← current_process EPERM;
  let id := pr_uid p in
  elf_data ← (fun y => let '(r, y) := read_image path id y in (map_err (fun _ => Raised ENOENT) r, y));
  elf ← lift_result (map_err (fun _ => Raised ENOEXEC) (parse_elf elf_data));
  new_cr3 ← or_return ENOMEM (on_vm create_user_page_table);
  saved_cr3 ← gets (fun y => CR3 (vm y));
  '(space, ctx, memory_pages) ←
    or_return ENOEXEC
      (with_cr3 new_cr3 saved_cr3
         (on_vm (map_process_image user_code user_data random new_cr3 elf elf_data args)));
  m ← gets machine;
  let caps := exec_capabilities (effective_capabilities p) id m in
  update_current (replace_image space ctx memory_pages new_cr3 path caps);;
  on_machine (audit now_log (ProcessExec (pid p) path id (summarize_capabilities (effective_capabilities p))
                               (summarize_capabilities caps)));;
  (fun y => match on_vm (teardown_process_image (page_table_phys p) (address_space p)) y with
            | (Err Panicked, y) => (Err Panicked, y)
            | (_, y) => (Ok (), y)
            end);;
  request_exec_transition;;
  mret 0.

(** ** Time ([syscalls/time.rs], [pit.rs]) *)

Definition PIT_BASE_FREQUENCY_HZ : Z := 1193182.
Definition elapsed_millis (divisor current_count ticks : Z) : Z :=
  if divisor =? 0 then 0
  else
    let ticks_ms := sat_mul 64 ticks 1000 / PIT_FREQUENCY_HZ in
    let elapsed_counts := sat_sub divisor (Z.min current_count divisor) in
    sat_add 64 ticks_ms (sat_mul 64 elapsed_counts 1000 / PIT_BASE_FREQUENCY_HZ).

Definition known_clock (id : Z) : bool := (id =? 1) || (id =? 4) || (id =? 6) || (id =? 7).
Definition sys_clock_gettime (millis clock_id out : Z) : sys Z :=
  if negb (known_clock clock_id) then return_early EINVAL
  else
    written ← write_struct_to_user out (timespec_bytes (millis / 1000) (millis mod 1000 * 1000000));
    mret (if (written : bool) then 0 else -1).

(** The ticks to sleep for a request of [sec] seconds and [nsec] nanoseconds. *)
Definition sleep_ticks (sec nsec : Z) : Z :=
  let total_ms := sat_add 64 (sat_mul 64 (Z.max sec 0) 1000) (Z.max nsec 0 / 1000000) in
  Z.max (sat_mul 64 total_ms 100 / 1000) 1.
(** What one turn of the loop subtracts: the ticks seen, or one. *)
Definition sleep_step (observed : option Z) (remaining : Z) : Z :=
  match observed with
  | Some elapsed => sat_sub remaining (Z.max elapsed 1)
  | None => sat_sub remaining 1
  end.
(** [observed k] is what the [k]th wait saw: [Some] ticks, or a wrapped counter. *)
Fixpoint sleep_loop (fuel : nat) (observed : nat -> option Z) (k : nat) (remaining : Z) : option nat :=
  if remaining <=? 0 then Some k
  else match fuel with
       | O => None
       | Datatypes.S fuel => sleep_loop fuel observed (Datatypes.S k) (sleep_step (observed k) remaining)
       end.

Definition signed_word (data : bytes) : Z := to_i64 (le_val data).
(** The loop gets as many turns as it has ticks to wait, which is enough
    ([nanosleep_terminates]). *)
Definition sys_nanosleep (observed : nat -> option Z) (request : Z) : sys Z :=
  if request =? 0 then mret (-1)
  else
    data ← on_vm (load request 16);
    let remaining := sleep_ticks (signed_word (field 0 8 data)) (signed_word (field 8 8 data)) in
    match sleep_loop (Z.to_nat remaining) observed 0 remaining with
    | Some _ => mret 0
    | None => throw Panicked
    end.

(** ** Cryptography ([syscalls/crypto.rs]) *)

Context (Sha3_256 : bytes -> bytes).

Definition sys_sha3_256 (buffer len output : Z) : sys Z :=
  if (buffer =? 0) || (output =? 0) then mret (-1)
  else data ← on_vm (load buffer len); copy_to_user_ptr output (Sha3_256 data).

Definition xorshift (state : Z) : Z :=
  let state := Z.lxor state (wrap 64 (Z.shiftl state 13)) in
  let state := Z.lxor state (Z.shiftr state 7) in
  Z.lxor state (wrap 64 (Z.shiftl state 17)).
Fixpoint random_stream (n : nat) (state : Z) : bytes :=
  match n with
  | O => []
  | Datatypes.S n => let state := xorshift state in bofZ state :: random_stream n state
  end.
Definition random_seed (ticks : Z) : Z := wrap 64 (wrap 64 (ticks * 0x9E3779B97F4A7C15) + 0x5741524F53).
Definition sys_random_bytes (ticks output len : Z) : sys Z :=
  if output =? 0 then mret (-1)
  else copy_to_user_ptr output (random_stream (Z.to_nat len) (random_seed ticks)).

(** ** Dispatch ([syscall.rs]) *)

(** The calls 300 to 304 act on quantum registers. *)
Context (quantum : Z -> list Z -> sys Z).
(** The clock in milliseconds, the tick counter, what the waits see. *)
Context (millis ticks : Z) (observed : nat -> option Z).

Definition count_syscall : sys () := modify (fun y =>
  match current_pid (SCHEDULER (exec (machine y))) with
  | None => y
  | Some id =>
      set_machine (with_table (pt_update id (fun p => set_syscall_count (sat_add 64 (syscall_count p) 1) p)) (machine y)) y
  end).

Definition u32 (z : Z) : Z := wrap 32 z.

Definition dispatch (num arg1 arg2 arg3 arg4 arg5 arg6 : Z) : sys Z :=
  match num with
  | 0 => sys_read (u32 arg1) arg2 arg3
  | 1 => sys_write (u32 arg1) arg2 arg3
  | 2 => sys_open arg1 (u32 arg2) (u32 arg3)
  | 3 => sys_close (u32 arg1)
  | 4 => sys_stat arg1 arg2
  | 5 => sys_fstat (u32 arg1) arg2
  | 78 => sys_readdir (u32 arg1) arg2
  | 12 => sys_brk arg1
  | 60 => sys_exit (to_i32 arg1)
  | 8 => sys_seek (u32 arg1) (to_i64 arg2) (u32 arg3)
  | 9 => sys_mmap arg2 (u32 arg3) (u32 arg4)
  | 11 => sys_munmap arg1 arg2
  | 20 => sys_getpid
  | 39 => sys_getppid
  | 59 => sys_execve arg1 arg2
  | 61 => sys_wait4 (to_i32 arg1) arg2 (u32 arg3)
  | 79 => sys_getcwd arg1 arg2
  | 80 => sys_chdir arg1
  | 102 => sys_getuid
  | 228 => sys_clock_gettime millis (u32 arg1) arg2
  | 230 => sys_nanosleep observed arg1
  | 300 | 301 | 302 | 303 | 304 => quantum num [arg1; arg2; arg3; arg4; arg5]
  | 420 => sys_sha3_256 arg1 arg2 arg3
  | 421 => sys_random_bytes ticks arg1 arg2
  | 57 => sys_fork
  | _ => mret ENOSYS
  end.

Definition syscall_dispatch (num arg1 arg2 arg3 arg4 arg5 arg6 : Z) : sys Z :=
  count_syscall;; dispatch num arg1 arg2 arg3 arg4 arg5 arg6.

(** What the program gets in [rax]: the value, or nothing when the kernel
    panicked. *)
Definition rax_of (r : result (fault Z) Z) : option Z :=
  match r with Ok v | Err (Raised v) => Some v | Err Panicked => None end.
End calls.

(** ** Where calls write *)

Section confined.
Context {PT S : Type} {HP : Paging PT} `{Backend S}.
Implicit Type y : System PT S.

Definition current_space y : option AddressSpace := address_space <$> current_of y.

(** The byte at physical address [q] is user memory the caller may name. *)
Definition callers_byte y (q : Z) : Prop :=
  exists space a, current_space y = Some space /\ contains_user_range a 1 space = true /\ phys_of (vm y) a = Some q.

Record confined_step y y' : Prop := mkConfined {
  cf_vm : exists m, vm y' = set_ram m (vm y);
  cf_space : forall space, current_space y' = Some space -> current_space y = Some space;
  cf_ram : forall q, ram (vm y') q <> ram (vm y) q -> callers_byte y q;
}.

#[global] Instance confined_step_preorder : PreOrder confined_step.
Proof.
  split.
  - intros y. split; [exists (ram (vm y)); by destruct (vm y)|done|done].
  - intros y1 y2 y3 [[m1 H1] H2 H3] [[m2 H4] H5 H6]. split.
    + exists m2. by rewrite H4, H1.
    + auto.
    + intros q Hq. destruct (decide (ram (vm y2) q = ram (vm y1) q)) as [Heq|Hne]; [|by apply H3].
      destruct (H6 q) as (space & a & Hs & Hc & Hp); [congruence|]. exists space, a. split_and!; [by apply H2|done|].
      rewrite H1 in Hp. exact Hp.
Qed.

(** A call whose every run is such a step. *)
Definition confined {A} (m : stm (System PT S) (fault Z) A) : Prop := forall y, confined_step y (m y).2.

Lemma confined_ret {A} (a : A) : confined (mret a).
Proof. intros y. reflexivity. Qed.
Lemma confined_throw {A} e : confined (throw e : stm (System PT S) (fault Z) A).
Proof. intros y. reflexivity. Qed.
Lemma confined_gets {A} (f : System PT S -> A) : confined (gets f).
Proof. intros y. reflexivity. Qed.
Lemma confined_lift {A} (r : result (fault Z) A) : confined (lift_result r).
Proof. intros y. reflexivity. Qed.
Lemma confined_bind {A B} (m : stm (System PT S) (fault Z) A) (f : A -> stm (System PT S) (fault Z) B) :
  confined m -> (forall a, confined (f a)) -> confined (m ≫= f).
Proof.
  intros Hm Hf y. unfold mbind, stm_bind. specialize (Hm y). destruct (m y) as [[a|e] y']; [|done].
  etransitivity; [exact Hm|apply Hf].
Qed.

(** Steps that leave memory alone. *)
Lemma confined_machine y m :
  (forall space, current_space (set_machine m y) = Some space -> current_space y = Some space) ->
  confined_step y (set_machine m y).
Proof. intros Hs. split; [exists (ram (vm y)); by destruct y as [? []]|done|done]. Qed.

Lemma pt_get_update id j f t :
  (forall p, pid (f p) = pid p) ->
  pt_get id (pt_update j f t) = (fun p => if pid_is j p then f p else p) <$> pt_get id t.
Proof.
  intros Hf. unfold pt_get, pt_update, find_first. cbn [processes set_processes].
  induction (processes t) as [|p l IH]; [done|]. cbn [update_first].
  destruct (pid_is j p) eqn:Ej; cbn [List.find].
  - assert (pid_is id (f p) = pid_is id p) as -> by (unfold pid_is; by rewrite Hf).
    destruct (pid_is id p) eqn:Eid; [cbn; by rewrite Ej|].
    destruct (List.find (pid_is id) l) as [q|] eqn:Eq; [|done]. cbn.
    apply List.find_some in Eq as [_ Hq%pid_is_spec]. unfold pid_is in *. apply Z.eqb_eq in Ej. apply Z.eqb_neq in Eid.
    by rewrite (proj2 (Z.eqb_neq (pid q) j)) by lia.
  - destruct (pid_is id p); [cbn; by rewrite Ej|]. exact IH.
Qed.

Lemma confined_update y f j :
  (forall p, pid (f p) = pid p) -> (forall p, address_space (f p) = address_space p) ->
  confined_step y (set_machine (with_table (pt_update j f) (machine y)) y).
Proof.
  intros Hp Ha. apply confined_machine. intros space. unfold current_space, current_of.
  cbn [machine set_machine with_table with_exec exec SCHEDULER set_table PROCESS_TABLE].
  destruct (current_pid (SCHEDULER (exec (machine y)))) as [id|]; [|done]. simpl. rewrite pt_get_update by done.
  destruct (pt_get id _) as [p|]; [|done]. simpl. destruct (pid_is j p); [by rewrite Ha|done].
Qed.
End confined.

Create HintDb calls.
#[export] Hint Resolve confined_ret confined_throw confined_gets confined_lift confined_bind : calls.

Lemma contains_sub start len x space :
  contains_user_range start len space = true -> 0 <= start <= x -> x < start + len ->
  contains_user_range x 1 space = true /\ start + len < 2 ^ 64.
Proof.
  unfold contains_user_range. intros Hc Hx Hlt. destruct (Z.eqb_spec len 0); [lia|]. change (1 =? 0) with false. cbv iota.
  unfold checked_add at 1 in Hc. destruct (Z.ltb_spec (start + len) (2 ^ 64)) as [Hend|]; [|done]. split; [|done].
  unfold checked_add at 1. rewrite (proj2 (Z.ltb_lt (x + 1) (2 ^ 64))) by lia.
  destruct (Z.eqb_spec start 0); [done|]. rewrite (proj2 (Z.eqb_neq x 0)) by lia.
  destruct (Z.leb_spec (start + len) start); [done|]. rewrite (proj2 (Z.leb_gt (x + 1) x)) by lia. cbn [orb] in *.
  assert (forall lo hi, range_within_region start (start + len) lo hi = true -> range_within_region x (x + 1) lo hi = true) as Hr.
  { intros lo hi. unfold range_within_region. rewrite !andb_true_iff. lia. }
  rewrite !orb_true_iff in *. destruct Hc as [[Hc|Hc]|Hc]; [left; left; auto|left; right; auto|right].
  apply existsb_exists in Hc as (s & Hs & Hc). apply existsb_exists. exists s. split; [done|].
  destruct (checked_add 64 (ms_vaddr s) (ms_size s)); [auto|done].
Qed.

Section confined_calls.
Context {PT S : Type} {HP : Paging PT} `{HB : Backend S}.
Implicit Type y : System PT S.
Context (now now_log : Z).

Lemma store_changes {E} a data (v : Vm PT) :
  exists m, (store (E:=E) a data v).2 = set_ram m v /\
    forall q, m q <> ram v q -> exists x, x ∈ addresses a (blen data) /\ phys_of v x = Some q.
Proof.
  unfold store. destruct (forallb _ _); [|exists (ram v); split; [by destruct v|done]].
  eexists. split; [done|].
  assert (forall cells m, (forall c, c ∈ cells -> c.1 ∈ addresses a (blen data)) -> forall q,
            fold_left (poke v) cells m q <> m q -> exists x, x ∈ addresses a (blen data) /\ phys_of v x = Some q) as Hg.
  { induction cells as [|c cells IH]; intros m Hin q; [done|]. cbn [fold_left]. intros Hq.
    destruct (decide (poke v m c q = m q)) as [Heq|Hne].
    - apply (IH (poke v m c)); [intros c' Hc'; apply Hin; by right|]. by rewrite Heq.
    - unfold poke in Hne. destruct (phys_of v c.1) as [p|] eqn:Ep; [|done]. destruct (Z.eqb_spec q p) as [->|]; [|done].
      exists c.1. split; [apply Hin; by left|done]. }
  apply Hg. intros [x b] Hc. by apply elem_of_zip_l in Hc.
Qed.

Lemma confined_on_vm_load a n : confined (on_vm (load a n) : stm (System PT S) (fault Z) bytes).
Proof.
  intros y. unfold on_vm, load. destruct (mapM _ _); cbn [snd];
    (split; [exists (ram (vm y)); by destruct (vm y)|done|done]).
Qed.

Lemma current_process_run e y :
  current_process e y = (match current_of y with Some p => Ok p | None => Err (Raised e) end, y).
Proof. unfold current_process, gets, mbind, stm_bind. by destruct (current_of y). Qed.

Lemma confined_current_process e : confined (current_process (PT:=PT) (S:=S) e).
Proof. intros y. rewrite current_process_run. reflexivity. Qed.

Lemma on_vm_store_run {E} a data y :
  exists m, (on_vm (store (E:=E) a data) y).2 = set_vm (set_ram m (vm y)) y /\
    forall q, m q <> ram (vm y) q -> exists x, x ∈ addresses a (blen data) /\ phys_of (vm y) x = Some q.
Proof.
  destruct (store_changes (E:=E) a data (vm y)) as (m & Hm & Hq). exists m. split; [|done].
  unfold on_vm. destruct (store a data (vm y)). cbn in *. by subst.
Qed.

(** The checked store: the range is the caller's. *)
Lemma confined_checked_store a data :
  0 <= a -> confined (validate_user_range a (blen data);; on_vm (store a data) : stm (System PT S) (fault Z) ()).
Proof.
  intros Ha y. destruct (on_vm_store_run (E:=Z) a data y) as (m & Hm & Hq).
  assert ((forall q, m q <> ram (vm y) q -> callers_byte y q) ->
          confined_step y (on_vm (store (E:=Z) a data) y).2) as Hdone.
  { intros Hc. rewrite Hm. split; [by exists m|done|exact Hc]. }
  unfold validate_user_range. destruct (Z.eqb_spec (blen data) 0) as [Hz|Hz].
  { erewrite bind_Ok; [|reflexivity]. apply Hdone. intros q Hne. apply Hq in Hne as (x & Hx & _).
    unfold addresses in Hx. rewrite Hz in Hx. by apply elem_of_nil in Hx. }
  unfold mbind, stm_bind. rewrite current_process_run. destruct (current_of y) as [p|] eqn:Ep; [|reflexivity].
  destruct (contains_user_range a (blen data) (address_space p)) eqn:Ec; [|reflexivity].
  apply Hdone. intros q Hne. apply Hq in Hne as (x & Hx & Hp). exists (address_space p), x.
  unfold current_space. rewrite Ep. pose proof (blen_nonneg data).
  destruct (contains_sub a (blen data) a (address_space p) Ec) as [_ Hend]; [lia|lia|].
  apply elem_addresses in Hx; [|lia|lia]. destruct (contains_sub a (blen data) x (address_space p) Ec) as [Hx1 _]; [lia|lia|].
  by split_and!.
Qed.

Lemma confined_validate a n : confined (validate_user_range (PT:=PT) (S:=S) a n).
Proof.
  intros y. unfold validate_user_range. destruct (n =? 0); [reflexivity|]. unfold mbind, stm_bind.
  rewrite current_process_run. destruct (current_of y) as [p|]; [|reflexivity].
  destruct (contains_user_range a n (address_space p)); reflexivity.
Qed.

Lemma confined_update_current f :
  (forall p, pid (f p) = pid p) -> (forall p, address_space (f p) = address_space p) ->
  confined (update_current (PT:=PT) (S:=S) f).
Proof.
  intros Hp Ha. apply confined_bind; [apply confined_current_process|]. intros p y. exact (confined_update y f (pid p) Hp Ha).
Qed.

Lemma confined_set_descriptor fd target : confined (set_descriptor (PT:=PT) (S:=S) fd target).
Proof. by apply confined_update_current. Qed.

Lemma confined_on_fs {A} error (m : stm (Kernel S) FsError A) : confined (on_fs (PT:=PT) error m).
Proof.
  intros y. unfold on_fs. destruct (m (kernel (machine y))) as [r k]. cbn [snd]. apply confined_machine. intros space Hs. exact Hs.
Qed.

Lemma confined_print data : confined (print (PT:=PT) (S:=S) data).
Proof. intros y. split; [exists (ram (vm y)); by destruct y as [? [] ? ? ? ?]|done|done]. Qed.

Lemma confined_count : confined (count_syscall (PT:=PT) (S:=S)).
Proof.
  intros y. unfold count_syscall, modify. cbn [snd]. destruct (current_pid _) as [id|]; [|reflexivity]. by apply confined_update.
Qed.
End confined_calls.

#[export] Hint Resolve confined_on_vm_load confined_current_process confined_validate confined_set_descriptor
  confined_on_fs confined_print confined_count confined_checked_store : calls.

(** Follow the structure of a call down to its primitive steps. *)
Ltac confine :=
  repeat first
    [ solve [eauto with calls]
    | progress intros
    | lazymatch goal with
      | |- confined (match ?x with _ => _ end) => destruct x eqn:?
      | |- confined (if ?x then _ else _) => destruct x eqn:?
      | |- confined (let '(_, _) := ?x in _) => destruct x eqn:?
      | |- confined (_ ≫= _) => apply confined_bind
      end ].

Section confined_dispatch.
Context {PT S : Type} {HP : Paging PT} `{HB : Backend S}.
Context (now now_log user_code user_data random : Z) (Sha3_256 : bytes -> bytes)
        (quantum : Z -> list Z -> stm (System PT S) (fault Z) Z) (millis ticks : Z) (observed : nat -> option Z).
Implicit Type y : System PT S.

Lemma confined_copy_from a n : confined (copy_from_user_ptr_checked (PT:=PT) (S:=S) a n).
Proof. unfold copy_from_user_ptr_checked. confine. Qed.

Lemma confined_copy_to a data : 0 <= a -> confined (copy_to_user_ptr_checked (PT:=PT) (S:=S) a data).
Proof.
  intros Ha. unfold copy_to_user_ptr_checked. destruct (_ =? 0); [confine|].
  intros y. pose proof (confined_checked_store (S:=S) a data Ha y) as Hc. unfold mbind, stm_bind in *.
  destruct (validate_user_range a (blen data) y) as [[[]|e] y1]; [|done].
  by destruct (on_vm (store a data) y1) as [[[]|e] y2].
Qed.

Lemma confined_write_struct a value : 0 <= a -> confined (write_struct_to_user_checked (PT:=PT) (S:=S) a value).
Proof. intros Ha. unfold write_struct_to_user_checked. by apply confined_checked_store. Qed.

Lemma confined_read_string space n a acc : confined (read_string_from (PT:=PT) (S:=S) space a n acc).
Proof. revert a acc. induction n as [|n IH]; intros a acc; cbn [read_string_from]; confine. Qed.

Lemma confined_user_string a n : confined (read_user_string_checked (PT:=PT) (S:=S) a n).
Proof. unfold read_user_string_checked. confine. apply confined_read_string. Qed.

Lemma confined_path a dir : confined (read_warexec_path_checked (PT:=PT) (S:=S) a dir).
Proof. unfold read_warexec_path_checked. confine. apply confined_user_string. Qed.

Lemma confined_descriptor fd : confined (descriptor (PT:=PT) (S:=S) fd).
Proof. unfold descriptor. confine. Qed.
End confined_dispatch.

#[export] Hint Resolve confined_copy_from confined_copy_to confined_write_struct confined_user_string confined_path
  confined_descriptor : calls.

Section checked_calls.
Context {PT S : Type} {HP : Paging PT} `{HB : Backend S}.
Context (now now_log user_code user_data random : Z) (Sha3_256 : bytes -> bytes)
        (quantum : Z -> list Z -> stm (System PT S) (fault Z) Z) (millis ticks : Z) (observed : nat -> option Z).
Implicit Type y : System PT S.

Lemma confined_read_only target : confined (read_only_file (PT:=PT) (S:=S) target).
Proof. unfold read_only_file. confine. Qed.
Lemma confined_create_write target : confined (create_write_file (PT:=PT) (S:=S) target).
Proof. unfold create_write_file. confine. Qed.
Hint Resolve confined_read_only confined_create_write : calls.

Lemma confined_sys_read fd buffer len : 0 <= buffer -> confined (sys_read (PT:=PT) (S:=S) fd buffer len).
Proof. intros Hb. unfold sys_read. confine. Qed.
Lemma confined_sys_write fd buffer len : confined (sys_write (PT:=PT) (S:=S) fd buffer len).
Proof. unfold sys_write. confine. Qed.
Lemma confined_sys_open path flags mode : confined (sys_open (PT:=PT) (S:=S) path flags mode).
Proof.
  unfold sys_open, directory_handle_from_path. confine; by apply confined_update_current.
Qed.
Lemma confined_sys_close fd : confined (sys_close (PT:=PT) (S:=S) now now_log fd).
Proof. unfold sys_close. confine; by apply confined_update_current. Qed.
Lemma confined_sys_stat path out : 0 <= out -> confined (sys_stat (PT:=PT) (S:=S) path out).
Proof. intros Ho. unfold sys_stat. confine. Qed.
Lemma confined_sys_fstat fd out : 0 <= out -> confined (sys_fstat (PT:=PT) (S:=S) fd out).
Proof. intros Ho. unfold sys_fstat. confine. Qed.
Lemma confined_sys_readdir fd out : 0 <= out -> confined (sys_readdir (PT:=PT) (S:=S) fd out).
Proof. intros Ho. unfold sys_readdir. confine. Qed.
Lemma confined_sys_getcwd buffer len : 0 <= buffer -> confined (sys_getcwd (PT:=PT) (S:=S) buffer len).
Proof.
  intros Hb. unfold sys_getcwd. assert (forall z, 0 <= wrap 64 z) by (intros z; apply Z.mod_pos_bound; lia). confine.
Qed.
Lemma confined_sys_chdir path : confined (sys_chdir (PT:=PT) (S:=S) path).
Proof. unfold sys_chdir. confine; by apply confined_update_current. Qed.

Lemma current_space_exec m y :
  (forall id p, current_pid (SCHEDULER (exec m)) = Some id -> pt_get id (PROCESS_TABLE (exec m)) = Some p ->
     exists q, current_of y = Some q /\ address_space q = address_space p) ->
  confined_step y (set_machine m y).
Proof.
  intros Hm. apply confined_machine. intros space. unfold current_space, current_of at 1. cbn [machine set_machine].
  destruct (current_pid (SCHEDULER (exec m))) as [id|] eqn:Ei; [|done]. simpl.
  destruct (pt_get id (PROCESS_TABLE (exec m))) as [p|] eqn:Ep; [|done]. simpl. intros [= <-].
  destruct (Hm id p eq_refl Ep) as (q & -> & <-). done.
Qed.

Lemma confined_sys_exit code : confined (sys_exit (PT:=PT) (S:=S) now_log code).
Proof.
  unfold sys_exit. confine; [|intros y; split; [exists (ram (vm y)); by destruct y as [? [] ? ? ? ?]|done|done]].
  intros y. apply current_space_exec. intros i p. cbn [exec mark_exit audit with_sched with_table with_exec SCHEDULER
    set_scheduler set_table PROCESS_TABLE dequeue current_pid]. case_bool_decide; [done|]. intros Hi. unfold current_of. rewrite Hi.
  cbn [mbind option_bind]. rewrite pt_get_update by done. destruct (pt_get i _) as [q|]; [|done]. intros [= <-].
  exists q. split; [done|]. by destruct (pid_is z q).
Qed.

Lemma pt_get_remove id j t p : pt_get id (pt_remove j t) = Some p -> pt_get id t = Some p.
Proof.
  unfold pt_get, pt_remove, find_first. cbn [processes set_processes]. induction (processes t) as [|q l IH]; [done|].
  cbn [List.filter]. destruct (pid_is j q) eqn:Ej; cbn [negb List.find].
  - intros Hp. pose proof (IH Hp) as Hp'. destruct (pid_is id q) eqn:Ei; [|done]. exfalso.
    apply pid_is_spec in Ei. apply pid_is_spec in Ej. apply List.find_some in Hp as [[_ Hn]%filter_In Hpid%pid_is_spec].
    unfold pid_is in Hn. apply negb_true_iff, Z.eqb_neq in Hn. lia.
  - destruct (pid_is id q); [done|]. exact IH.
Qed.

Lemma confined_sys_wait4 target status options : 0 <= status -> confined (sys_wait4 (PT:=PT) (S:=S) target status options).
Proof.
  intros Hs. unfold sys_wait4. confine.
  all: intros y; apply current_space_exec; intros i q; cbn [exec with_table with_exec SCHEDULER set_table PROCESS_TABLE].
  all: intros Hi Hq%pt_get_remove; exists q; unfold current_of; by rewrite Hi.
Qed.

Lemma confined_sys_nanosleep request : confined (sys_nanosleep (PT:=PT) (S:=S) observed request).
Proof. unfold sys_nanosleep. confine. Qed.

(** The calls that check every address they write to, or write to none. *)
Definition checked_call (num : Z) : bool :=
  negb (existsb (Z.eqb num) [9; 11; 12; 59; 228; 300; 301; 302; 303; 304; 420; 421]).

Lemma confined_dispatch_call num a1 a2 a3 a4 a5 a6 :
  checked_call num = true -> 0 <= a1 -> 0 <= a2 ->
  confined (dispatch now now_log user_code user_data random Sha3_256 quantum millis ticks observed num a1 a2 a3 a4 a5 a6).
Proof.
  intros Hc H1 H2. unfold dispatch.
  repeat match goal with |- confined (match ?x with _ => _ end) => destruct x end; try discriminate Hc;
    solve [ eauto using confined_sys_read, confined_sys_write, confined_sys_open, confined_sys_close, confined_sys_stat,
      confined_sys_fstat, confined_sys_readdir, confined_sys_getcwd, confined_sys_chdir, confined_sys_exit,
      confined_sys_wait4, confined_sys_nanosleep with calls
    | unfold sys_seek, sys_getpid, sys_getppid, sys_getuid, sys_fork; eauto with calls ].
Qed.

(** C4: A system call that checks its addresses writes user memory of the
    caller and nothing else.  Whatever the arguments and whatever it returns (a
    panic included), the page tables, the frames and the active table stay the
    same, and a byte of physical memory that changed backs an address inside
    the segments, the heap or the stack of the calling process. *)
Theorem checked_calls_confined num a1 a2 a3 a4 a5 a6 y :
  checked_call num = true -> 0 <= a1 -> 0 <= a2 ->
  let y' := (syscall_dispatch now now_log user_code user_data random Sha3_256 quantum millis ticks observed
               num a1 a2 a3 a4 a5 a6 y).2 in
  page_tables (vm y') = page_tables (vm y) /\ CR3 (vm y') = CR3 (vm y) /\
  FRAME_ALLOCATOR (vm y') = FRAME_ALLOCATOR (vm y) /\
  forall q, ram (vm y') q <> ram (vm y) q -> callers_byte y q.
Proof.
  intros Hc H1 H2 y'.
  assert (confined_step y y') as [[m Hm] _ Hr].
  { apply confined_bind; [apply confined_count|]. intros _. by apply confined_dispatch_call. }
  rewrite Hm in *. split_and!; [done|done|done|exact Hr].
Qed.
End checked_calls.
