(* ===== verification/SyscallSpecs.v ===== *)
(** * What the system calls do

    Theorems about [Syscalls] beyond the confinement of writes: growing the
    heap, reading and writing files, waiting for children, replacing the image,
    and the calls that trust their arguments. *)
From S2P Require Import Prelude RustStr Paths Auth Session AuditLog WarFS FsCurrent Frames Elf Process Caps Exec Vm Loader Syscalls.

(** ** Growing the heap *)

Section heap.
Context {PT : Type} {HP : Paging PT} {HL : PagingLaws PT} (U : Z -> Prop).
Implicit Type v : Vm PT.

(** One page: added and cleared, or the view stays as it was. *)
Lemma heap_page own v page :
  user_ok U own v -> user_address page -> aligned page -> view v page = None ->
  (exists v1 own', allocate (E:=fault Z) v = (Ok None, v1) /\ user_ok U own' v1 /\ same_cpu v v1 /\
     (forall a, view v1 a = view v a) /\ free_of v <= 0) \/
  (exists frame v1 e v2 v3 own', allocate (E:=fault Z) v = (Ok (Some frame), v1) /\
     map_page (E:=fault Z) page frame heap_page_flags v1 = (Ok (Err e), v2) /\
     release_frame (E:=fault Z) frame v2 = (Ok (), v3) /\ user_ok U own' v3 /\ same_cpu v v3 /\
     (forall a, view v3 a = view v a) /\ free_of v < 4) \/
  (exists frame v1 v2 v3 own', allocate (E:=fault Z) v = (Ok (Some frame), v1) /\
     map_page (E:=fault Z) page frame heap_page_flags v1 = (Ok (Ok ()), v2) /\
     store (E:=Z) page (zeros 4096) v2 = (Ok (), v3) /\ user_ok U own' v3 /\ same_cpu v v3 /\
     (4 <= free_of v -> free_of v - 4 <= free_of v3) /\
     forall a, user_address a -> view v3 a = mapped page heap_page_flags (view v) a).
Proof.
  intros Hok Hu Hp Hv. destruct (decide (0 < free_of v)) as [Hf|Hf].
  2:{ left. destruct (uo_alloc _ _ _ Hok) as (a & Ha & Hal). unfold allocate, free_of in *. rewrite Ha in *.
      pose proof (allocate_frame_spec U own a (al_inv _ _ _ Hal)) as Hs.
      destruct (allocate_frame a) as [[f|] a'] eqn:E.
      - exfalso. destruct Hs as (i & _ & _ & Hfree & _). pose proof (fi_count _ _ _ _ (al_inv _ _ _ Hal)) as Hc.
        pose proof (free_count_nonneg a MAX_TRACKED_FRAMES). unfold allocate_frame in E.
        destruct (Z.eqb_spec (free_frames a) 0); [done|lia].
      - destruct Hs as [-> _]. exists (set_allocator a v), own. split_and!; [done| |by split|done|lia].
        eapply user_ok_more; done. }
  destruct (allocate_ok (E:=fault Z) U own v Hok Hf) as (i & a & R1 & Hi & Hok1 & Hf1).
  destruct (map_page_cases (E:=fault Z) U ({[i]} ∪ own) (set_allocator a v) page i heap_page_flags Hok1 Hu Hp Hv)
    as (r & v2 & own2 & R2 & Hsub & Hok2 & Hc2 & Hram & Hfree & Ht); [set_solver| |].
  { intros p f fl Hup Hap Htr <-. apply Hi. by apply (uo_owned _ _ _ Hok p f fl Hup Hap Htr). }
  destruct r as [[]|e].
  - right. right.
    destruct (clear_page (E:=Z) U own2 v v2 page (i * FRAME_SIZE) heap_page_flags Hok2 Hu Hp eq_refl Hram Ht) as (m & R3 & Hok3 & Hv3).
    exists (i * FRAME_SIZE), (set_allocator a v), v2, (set_ram m v2), own2.
    split; [exact R1|]. split; [exact R2|]. split; [exact R3|]. split; [exact Hok3|]. split; [by destruct Hc2; split|].
    split; [|exact Hv3]. intros Hf4. destruct Hfree as [_ Hfree]; [lia|]. change (free_of (set_ram m v2)) with (free_of v2). lia.
  - right. left. destruct (uo_alloc _ _ _ Hok2) as (a2 & Ha2 & Hal2).
    destruct (free_frame_ok U own2 a2 i Hal2) as [Hal3 _]; [set_solver|].
    exists (i * FRAME_SIZE), (set_allocator a v), e, v2, (set_allocator (free_frame (i * FRAME_SIZE) a2) v2), (own2 ∖ {[i]}).
    split; [exact R1|]. split; [exact R2|]. split; [unfold release_frame; by rewrite Ha2|]. split_and!.
    + split; cbn [CR3 page_tables FRAME_ALLOCATOR set_allocator]; [by eexists| |apply (uo_inj _ _ _ Hok2)|apply (uo_huge _ _ _ Hok2)].
      intros p f fl Hup Hap Htr. destruct (uo_owned _ _ _ Hok2 p f fl Hup Hap Htr) as [Hfa Hin]. split; [done|].
      apply elem_of_difference. split; [done|]. intros Heq%elem_of_singleton. rewrite Ht in Htr. cbn in Htr.
      apply Hi. rewrite <- Heq. by apply (uo_owned _ _ _ Hok p f fl Hup Hap Htr).
    + by destruct Hc2; split.
    + intros x. unfold view, lookup_page. cbn [CR3 page_tables set_allocator ram]. by rewrite Ht, Hram.
    + apply Z.nle_gt. intros Hf4. destruct Hfree as [Hbad _]; [lia|done].
Qed.

Lemma pages_nil a : pages a a = [].
Proof. unfold pages. by rewrite Z.sub_diag. Qed.

Lemma pages_succ cur n :
  pages cur (cur + 4096 * Z.of_nat (Datatypes.S n)) = cur :: pages (cur + 4096) (cur + 4096 + 4096 * Z.of_nat n).
Proof.
  unfold pages. replace (cur + 4096 * Z.of_nat (Datatypes.S n) - cur + 4095) with ((Z.of_nat n + 1) * 4096 + 4095) by lia.
  replace (cur + 4096 + 4096 * Z.of_nat n - (cur + 4096) + 4095) with (Z.of_nat n * 4096 + 4095) by lia.
  rewrite !Z.div_add_l by lia. change (4095 / 4096) with 0. rewrite !Z.add_0_r. rewrite seqZ_cons by lia. cbn [map].
  rewrite Z.mul_0_r, Z.add_0_r. f_equal. replace (Z.pred (Z.of_nat n + 1)) with (Z.of_nat n) by lia.
  change (Z.succ 0) with (1 + 0). rewrite <- fmap_add_seqZ. rewrite <- list_fmap_compose.
  apply list_fmap_ext. intros _ x _. cbn. lia.
Qed.

Lemma aligned_add a k : aligned a -> aligned (a + 4096 * k).
Proof. unfold aligned. intros Ha. replace (a + 4096 * k) with (a + k * 4096) by lia. by rewrite Z.mod_add. Qed.

Lemma virt_addr_user {E} p v : user_address p -> virt_addr (E:=E) p v = (Ok p, v).
Proof.
  intros Hu. unfold virt_addr, canonical_address. unfold user_address, USER_SPACE in Hu.
  by rewrite (proj2 (Z.ltb_lt p (2 ^ 47))) by lia.
Qed.

Lemma in_pages start end_ a :
  aligned start -> aligned end_ -> page_floor a ∈ pages start end_ <-> start <= a < end_.
Proof.
  intros Hs He. rewrite elem_pages by done. pose proof (page_floor_near a). pose proof (page_floor_aligned a). split.
  - intros [_ [? Hb]]. apply aligned_le in Hb; [lia|done|done].
  - intros Hb. split; [done|]. split; [|lia]. apply Z.le_ngt. intros Hlt. apply aligned_le in Hlt; [lia|done|done].
Qed.

(** [rollback_heap_growth]: the pages added so far are gone again. *)
Lemma rollback_ok own v start cur :
  user_ok U own v -> aligned start -> aligned cur -> 0 <= start -> cur <= USER_SPACE ->
  (forall a, start <= a < cur -> view v a <> None) ->
  exists v' own', for_each (unmap_address (E:=Z)) (pages start cur) v = (Ok (), v') /\ user_ok U own' v' /\ same_cpu v v' /\
    forall a, view v' a = if bool_decide (start <= a < cur) then None else view v a.
Proof.
  intros Hok Hs Hc H0 Hend Hold.
  destruct (unmap_list_ok (E:=Z) U ∅ own v (pages start cur) Hok) as (v' & own' & R & Hok' & Hc' & _ & _ & _ & Hv');
    [set_solver|intros p f fl _ _ _; set_solver|apply NoDup_pages| |].
  { intros p [Hpa Hp]%elem_pages; [|done]. split_and!; [unfold user_address; lia|done|]. apply Hold. lia. }
  exists v', own'. split_and!; [done|done|done|]. intros a. rewrite Hv'.
  erewrite bool_decide_ext; [reflexivity|]. by apply in_pages.
Qed.

(** The whole loop: every page is added and cleared, or those added are gone
    again. *)
Lemma grow_heap_ok own v start cur n :
  user_ok U own v -> aligned start -> aligned cur -> 0 <= start <= cur -> cur + 4096 * Z.of_nat n <= USER_SPACE ->
  (forall a, start <= a < cur -> view v a <> None) -> (forall a, cur <= a < cur + 4096 * Z.of_nat n -> view v a = None) ->
  exists grown v' own', grow_heap start (pages cur (cur + 4096 * Z.of_nat n)) v = (Ok grown, v') /\ user_ok U own' v' /\
    same_cpu v v' /\ (4 * Z.of_nat n <= free_of v -> grown = true) /\
    forall a, user_address a ->
      view v' a = if grown : bool then (if bool_decide (cur <= a < cur + 4096 * Z.of_nat n) then Some (x00, heap_page_flags) else view v a)
                  else (if bool_decide (start <= a < cur) then None else view v a).
Proof.
  intros Hok Hs. revert own v cur Hok. induction n as [|n IH]; intros own v cur Hok Hc Hle Hend Hold Hnew.
  { rewrite Z.mul_0_r, Z.add_0_r, pages_nil. exists true, v, own. split_and!; try done.
    intros a Ha. by rewrite bool_decide_false by lia. }
  rewrite pages_succ. cbn [grow_heap]. assert (user_address cur) as Hu by (unfold user_address; lia).
  erewrite bind_Ok; [|by apply virt_addr_user].
  destruct (heap_page own v cur Hok Hu Hc) as
    [(v1 & own1 & R1 & Hok1 & Hc1 & Hv1 & Hf1)
    |[(frame & v1 & e & v2 & v3 & own1 & R1 & R2 & R3 & Hok1 & Hc1 & Hv1 & Hf1)
     |(frame & v1 & v2 & v3 & own1 & R1 & R2 & R3 & Hok1 & Hc1 & Hf1 & Hv1)]]; [apply Hnew; lia|..].
  - destruct (rollback_ok own1 v1 start cur Hok1) as (v' & own' & R & Hok' & Hc' & Hv');
      [done|done|lia|lia|intros a Ha; rewrite Hv1; by apply Hold|].
    exists false, v', own'. erewrite bind_Ok; [|exact R1]. cbv beta iota. erewrite bind_Ok; [|exact R].
    split_and!; [done|done|by transitivity v1|lia|]. intros a _. by rewrite Hv', Hv1.
  - destruct (rollback_ok own1 v3 start cur Hok1) as (v' & own' & R & Hok' & Hc' & Hv');
      [done|done|lia|lia|intros a Ha; rewrite Hv1; by apply Hold|].
    exists false, v', own'. erewrite bind_Ok; [|exact R1]. cbv beta iota. erewrite bind_Ok; [|exact R2]. cbv beta iota. erewrite bind_Ok; [|exact R3].
    erewrite bind_Ok; [|exact R]. split_and!; [done|done|by transitivity v3|lia|]. intros a _. by rewrite Hv', Hv1.
  - assert (forall a, user_address a -> view v3 a = if bool_decide (cur <= a < cur + 4096) then Some (x00, heap_page_flags) else view v a) as Hv3.
    { intros a Ha. rewrite Hv1 by done. unfold mapped. destruct (Z.eqb_spec (page_floor a) cur) as [Heq|Hne].
      - rewrite bool_decide_true; [done|]. rewrite <- Heq. apply page_floor_near.
      - rewrite bool_decide_false; [done|]. intros Hin. apply Hne. by apply page_floor_in. }
    destruct (IH own1 v3 (cur + 4096) Hok1) as (grown & v' & own' & R & Hok' & Hc' & Hg & Hv').
    { change 4096 with (4096 * 1). by apply aligned_add. }
    { lia. }
    { lia. }
    { intros a Ha. rewrite Hv3 by (unfold user_address; lia). case_bool_decide; [done|]. apply Hold. lia. }
    { intros a Ha. rewrite Hv3 by (unfold user_address; lia). rewrite bool_decide_false by lia. apply Hnew. lia. }
    exists grown, v', own'. erewrite bind_Ok; [|exact R1]. cbv beta iota. erewrite bind_Ok; [|exact R2]. cbv beta iota. erewrite bind_Ok; [|exact R3].
    split_and!; [done|done|by transitivity v3|intros Hf; apply Hg; destruct (decide (4 <= free_of v)); lia|].
    intros a Ha. rewrite Hv', !Hv3 by done. destruct grown; repeat case_bool_decide; try done; try lia.
    symmetry. apply Hnew. lia.
Qed.
End heap.

Section brk.
Context {PT S : Type} {HP : Paging PT} {HL : PagingLaws PT} `{HB : Backend S} (U : Z -> Prop).
Implicit Type y : System PT S.

(** The heap is mapped up to its end, and free above up to its limit. *)
Record heap_ok (v : Vm PT) (space : AddressSpace) : Prop := mkHeapOk {
  hp_bounds : 0 < initial_brk space <= brk space;
  hp_limit : brk space <= Z.min (heap_limit space) (stack_bottom space) <= USER_SPACE;
  hp_aligned : aligned (Z.min (heap_limit space) (stack_bottom space));
  hp_mapped : forall a, initial_brk space <= a < brk_align_up (brk space) -> view v a <> None;
  hp_free : forall a, brk_align_up (brk space) <= a < Z.min (heap_limit space) (stack_bottom space) -> view v a = None;
}.

Lemma brk_align_up_spec z :
  0 <= z <= USER_SPACE -> aligned (brk_align_up z) /\ z <= brk_align_up z < z + 4096 /\
  (forall l, aligned l -> z <= l -> brk_align_up z <= l).
Proof.
  intros Hz. unfold brk_align_up, USER_SPACE in *. pose proof (Z.div_mod (z + 4095) 4096) as Hd.
  pose proof (Z.mod_pos_bound (z + 4095) 4096). rewrite wrap_small by lia.
  assert (aligned ((z + 4095) / 4096 * 4096)) as Ha by (unfold aligned; by rewrite Z.mod_mul).
  split_and!; [done|lia|lia|]. intros l Hl Hle. apply Z.le_ngt. intros Hlt. apply aligned_le in Hlt; [lia|done|done].
Qed.

Lemma to_i64_small z : 0 <= z < 2 ^ 63 -> to_i64 z = z.
Proof. intros Hz. unfold to_i64. rewrite wrap_small by lia. by rewrite (proj2 (Z.ltb_lt _ _)) by lia. Qed.

Lemma current_of_update y f p :
  current_of y = Some p -> (forall q, pid (f q) = pid q) ->
  update_current f y = (Ok (), set_machine (with_table (pt_update (pid p) f) (machine y)) y) /\
  current_of (set_machine (with_table (pt_update (pid p) f) (machine y)) y) = Some (f p).
Proof.
  intros Hp Hf. split.
  - unfold update_current. erewrite bind_Ok; [|rewrite current_process_run, Hp; reflexivity]. reflexivity.
  - unfold current_of in *. cbn [machine set_machine with_table with_exec exec SCHEDULER set_table PROCESS_TABLE].
    destruct (current_pid _) as [id|]; [|done]. simpl in *. rewrite pt_get_update by done. rewrite Hp. simpl.
    unfold pid_is. by rewrite Z.eqb_refl.
Qed.

Definition grown_view (old new : Z) (v : Z -> option (byte * Z)) (a : Z) : option (byte * Z) :=
  if bool_decide (brk_align_up old <= a < brk_align_up new) then Some (x00, heap_page_flags) else v a.

(** The loop from the end of the heap to [address]. *)
Lemma heap_grows own (v : Vm PT) space address :
  user_ok U own v -> heap_ok v space ->
  brk space < address <= Z.min (heap_limit space) (stack_bottom space) ->
  exists grown v' own',
    grow_heap (brk_align_up (brk space)) (pages (brk_align_up (brk space)) (brk_align_up address)) v = (Ok grown, v') /\
    user_ok U own' v' /\ (address - brk space <= 1024 * (free_of v - 4) -> grown = true) /\
    if grown : bool
    then heap_ok v' (set_brk address space) /\ forall a, user_address a -> view v' a = grown_view (brk space) address (view v) a
    else heap_ok v' space /\ forall a, user_address a -> view v' a = view v a.
Proof.
  intros Hok [Hb Hl Hal Hm Hfr] Hin.
  destruct (brk_align_up_spec (brk space)) as (Hs1 & Hs2 & Hs3); [lia|].
  destruct (brk_align_up_spec address) as (He1 & He2 & He3); [lia|].
  assert (brk_align_up (brk space) <= brk_align_up address) as Hle by (apply Hs3; [done|lia]).
  assert (brk_align_up address <= Z.min (heap_limit space) (stack_bottom space)) as Hlim by (apply He3; [done|lia]).
  set (start := brk_align_up (brk space)) in *. set (stop := brk_align_up address) in *.
  destruct (exist _ (Z.to_nat ((stop - start) / 4096)) eq_refl : {n | n = Z.to_nat ((stop - start) / 4096)}) as [n Hn].
  assert (stop = start + 4096 * Z.of_nat n) as Hstop.
  { pose proof (Z.div_mod (stop - start) 4096). assert ((stop - start) mod 4096 = 0) by (rewrite Zminus_mod, Hs1, He1; done).
    assert (0 <= (stop - start) / 4096) by (apply Z.div_pos; lia). lia. }
  destruct (grow_heap_ok U own v start start n Hok Hs1 Hs1) as (grown & v' & own' & R & Hok' & _ & Hg & Hv');
    [lia|lia|lia|intros a Hx; apply Hfr; lia|]. rewrite <- Hstop in *.
  exists grown, v', own'. split_and!; [done|done|intros Hfree; apply Hg; lia|]. destruct grown.
  - split; [|intros a Hx; by rewrite Hv'].
    split; cbn [set_brk initial_brk brk heap_limit stack_bottom]; [lia|lia|done| |]; fold stop; intros a Hx;
      rewrite Hv' by (unfold user_address; lia).
    + case_bool_decide; [done|]. apply Hm. lia.
    + rewrite bool_decide_false by lia. apply Hfr. lia.
  - assert (forall a, user_address a -> view v' a = view v a) as Hsame.
    { intros a Hx. rewrite Hv' by done. by rewrite bool_decide_false by lia. }
    split; [|done]. split; [done|done|done| |]; fold start; intros a Hx; rewrite Hsame by (unfold user_address; lia); auto.
Qed.

(** C36: [brk] grows the heap or changes nothing.  The call never fails: it
    returns the end of the heap.  Either that is the requested address, the new
    pages are mapped and cleared and nothing else the program sees has changed;
    or the heap, the process and everything the program sees are as before, even
    when memory ran out half way.  It grows whenever the address is within the
    limits and enough frames are free. *)
Theorem brk_all_or_nothing own y p address :
  current_of y = Some p -> user_ok U own (vm y) -> physical_memory_offset (vm y) <> None ->
  heap_ok (vm y) (address_space p) -> 0 <= address ->
  exists r y' p' own', sys_brk address y = (Ok r, y') /\ current_of y' = Some p' /\ r = brk (address_space p') /\
    user_ok U own' (vm y') /\ heap_ok (vm y') (address_space p') /\
    ((p' = p /\ machine y' = machine y /\ forall a, user_address a -> view (vm y') a = view (vm y) a) \/
     (r = address /\ brk (address_space p) < address /\ p' = set_address_space (set_brk address (address_space p)) p /\
      forall a, user_address a -> view (vm y') a = grown_view (brk (address_space p)) address (view (vm y)) a)) /\
    (brk (address_space p) < address <= Z.min (heap_limit (address_space p)) (stack_bottom (address_space p)) ->
     address - brk (address_space p) <= 1024 * (free_of (vm y) - 4) -> r = address).
Proof.
  intros Hp Hok Hoff Hheap Ha. pose proof Hheap as [Hb Hl Hal _ _]. set (space := address_space p) in *.
  assert (to_i64 (brk space) = brk space) as Hi64 by (apply to_i64_small; unfold USER_SPACE in *; lia).
  unfold sys_brk. erewrite bind_Ok; [|rewrite current_process_run, Hp; reflexivity]. fold space. cbv zeta. rewrite Hi64.
  destruct (Z.eqb_spec address 0) as [->|Hz].
  { exists (brk space), y, p, own. split_and!; try done; [by left|lia]. }
  destruct (_ || _) eqn:Eout.
  { exists (brk space), y, p, own. split_and!; try done; [by left|]. rewrite !orb_true_iff in Eout. lia. }
  rewrite !orb_false_iff in Eout. destruct (Z.eqb_spec address (brk space)) as [->|Hne].
  { exists (brk space), y, p, own. split_and!; try done; by left. }
  destruct (heap_grows own (vm y) space address Hok Hheap) as (grown & v' & own' & R & Hok' & Hg & Hres); [lia|].
  erewrite bind_Ok.
  2:{ unfold paging_available, gets, mbind, stm_bind. destruct (uo_alloc _ _ _ Hok) as (al & -> & _).
      by destruct (physical_memory_offset (vm y)). }
  erewrite bind_Ok; [|apply on_vm_Ok; exact R].
  assert (current_of (set_vm v' y) = Some p) as Hp' by exact Hp.
  destruct grown; cbn [negb]; destruct Hres as [Hheap' Hv'].
  - destruct (current_of_update (set_vm v' y) (fun q => set_address_space (set_brk address (address_space q)) q) p Hp') as [R2 Hcur]; [done|].
    unfold update_space. erewrite bind_Ok; [|exact R2].
    eexists address, _, (set_address_space (set_brk address space) p), own'.
    split_and!; [unfold mret, stm_ret; by rewrite to_i64_small by (unfold USER_SPACE in *; lia)|exact Hcur|done|done|exact Hheap'| |done].
    right. split_and!; [done|lia|done|exact Hv'].
  - exists (brk space), (set_vm v' y), p, own'. split_and!; [done|done|done|done|exact Hheap'|by left|].
    intros Hin Hfree. by specialize (Hg Hfree).
Qed.
End brk.

(** ** Reading files *)

Section reading.
Context {PT S : Type} {HP : Paging PT} {HL : PagingLaws PT} `{HB : Backend S} (U : Z -> Prop).
Implicit Type y : System PT S.

Lemma contains_prefix start len n space :
  contains_user_range start len space = true -> 0 <= start -> 0 <= n <= len -> contains_user_range start n space = true.
Proof.
  unfold contains_user_range. intros Hc Hs Hn. destruct (Z.eqb_spec n 0); [done|]. destruct (Z.eqb_spec len 0); [lia|].
  unfold checked_add at 1 in Hc. destruct (Z.ltb_spec (start + len) (2 ^ 64)); [|done].
  unfold checked_add at 1. rewrite (proj2 (Z.ltb_lt (start + n) (2 ^ 64))) by lia.
  destruct (start =? 0); [done|]. destruct (Z.leb_spec (start + len) start); [done|].
  rewrite (proj2 (Z.leb_gt (start + n) start)) by lia. cbn [orb] in *.
  assert (forall lo hi, range_within_region start (start + len) lo hi = true -> range_within_region start (start + n) lo hi = true) as Hr.
  { intros lo hi. unfold range_within_region. rewrite !andb_true_iff. lia. }
  rewrite !orb_true_iff in *. destruct Hc as [[Hc|Hc]|Hc]; [left; left; auto|left; right; auto|right].
  apply existsb_exists in Hc as (s & Hin & Hc). apply existsb_exists. exists s. split; [done|].
  destruct (checked_add 64 (ms_vaddr s) (ms_size s)); [auto|done].
Qed.

(** A buffer of the caller that may be written. *)
Record buffer_ok own y (p : Process) (buffer len : Z) : Prop := mkBuffer {
  bf_current : current_of y = Some p;
  bf_user : user_ok U own (vm y);
  bf_range : contains_user_range buffer len (address_space p) = true;
  bf_bounds : 0 <= buffer /\ 0 <= len /\ buffer + len <= USER_SPACE;
  bf_writable : writable_range (vm y) buffer len;
}.

Lemma validate_ok own y p buffer len n :
  buffer_ok own y p buffer len -> 0 <= n <= len -> validate_user_range buffer n y = (Ok (), y).
Proof.
  intros [Hp _ Hr Hb _] Hn. unfold validate_user_range. destruct (n =? 0); [done|].
  erewrite bind_Ok; [|rewrite current_process_run, Hp; reflexivity]. by rewrite (contains_prefix buffer len n) by (done || lia).
Qed.

Lemma copy_to_user_ok own y p buffer len data :
  buffer_ok own y p buffer len -> 0 < blen data <= len ->
  exists v, copy_to_user_ptr_checked buffer data y = (Ok (blen data), set_vm v y) /\
    buffer_ok own (set_vm v y) p buffer len /\ holds v buffer data /\ only_bytes (vm y) v buffer (blen data).
Proof.
  intros Hbuf Hn. pose proof Hbuf as [Hp Hok Hr Hb Hw].
  destruct (store_holds (E:=Z) U own (vm y) buffer data Hok) as (v & R & Hok' & _ & Ho & Hh); [lia|lia| |].
  { intros a Ha. apply Hw. lia. }
  exists v. split_and!; [| |done|done].
  - unfold copy_to_user_ptr_checked. rewrite (proj2 (Z.eqb_neq _ _)) by lia.
    erewrite bind_Ok; [|eapply validate_ok; [exact Hbuf|lia]]. erewrite bind_Ok; [|apply on_vm_Ok; exact R]. reflexivity.
  - split; [done|done|done|done|]. eapply writable_range_mono; [exact Ho|lia|lia|done].
Qed.

Lemma descriptor_run fd y p d :
  current_of y = Some p -> fd_get fd (fd_table p) = Some d -> descriptor fd y = (Ok (fd_target d), y).
Proof.
  intros Hp Hd. unfold descriptor. erewrite bind_Ok; [|rewrite current_process_run, Hp; reflexivity]. by rewrite Hd.
Qed.

Lemma set_descriptor_run fd target y p d :
  current_of y = Some p -> 0 <= fd -> fd_get fd (fd_table p) = Some d ->
  exists y' p', set_descriptor fd target y = (Ok (), y') /\ current_of y' = Some p' /\ vm y' = vm y /\
    kernel (machine y') = kernel (machine y) /\ address_space p' = address_space p /\
    fd_get fd (fd_table p') = Some (mkFd (fd_number d) target).
Proof.
  intros Hp Hfd Hd.
  destruct (current_of_update y (fun q => set_fd_table (fd_set_target fd target (fd_table q)) q) p Hp) as [R Hcur]; [done|].
  eexists _, _. split; [exact R|]. split; [exact Hcur|]. split_and!; [done|done|done|]. cbn [fd_table set_fd_table].
  unfold fd_set_target. rewrite Hd. apply fd_get_spec in Hd as Hd'. apply lookup_lt_Some in Hd'. rewrite fd_get_insert.
  - by rewrite Z.eqb_refl.
  - unfold blen. lia.
  - lia.
Qed.

(** The descriptor [fd] reads [data] and stands at [offset]. *)
Record reading own y (p : Process) (fd buffer len : Z) (data : bytes) (offset : Z) : Prop := mkReading {
  rd_buffer : buffer_ok own y p buffer len;
  rd_fd : 0 <= fd;
  rd_file : exists n path staged, fd_get fd (fd_table p) = Some (mkFd n (TargetFile (mkFileHandle path offset ReadOnlyAccess staged))) /\
    exists resolved, read_current path (kernel (machine y)) = (Ok (resolved, data), kernel (machine y));
  rd_offset : 0 <= offset <= blen data;
  rd_size : blen data < 2 ^ 63;
}.

Lemma sys_read_step own y p fd buffer len data offset :
  reading own y p fd buffer len data offset -> 0 < len ->
  let n := Z.min len (blen data - offset) in
  exists y' p', sys_read fd buffer len y = (Ok n, y') /\ reading own y' p' fd buffer len data (offset + n) /\
    holds (vm y') buffer (field (Z.to_nat offset) (Z.to_nat n) data).
Proof.
  intros [Hbuf Hfd (k & path & staged & Hget & resolved & Hread) Hoff Hsize] Hlen n. pose proof Hbuf as [Hp _ _ Hb _].
  assert (0 <= n <= len) as Hn by (unfold n; lia). unfold sys_read.
  erewrite bind_Ok; [|eapply descriptor_run; [exact Hp|exact Hget]]. cbn [fd_target].
  erewrite bind_Ok; [|reflexivity]. rewrite (proj2 (Z.eqb_neq len 0)) by lia. cbn [fh_path].
  assert (on_fs (fun _ => ENOENT) (read_current path) y = (Ok (resolved, data), y)) as Hfs.
  { unfold on_fs. rewrite Hread. by destruct y as [[] ? ? ? ? ?]. }
  erewrite bind_Ok; [|exact Hfs]. cbv beta iota zeta. cbn [fh_offset].
  rewrite (Z.min_l offset) by lia. rewrite sat_add_spec by (unfold USER_SPACE in *; lia).
  replace (Z.min (offset + len) (blen data)) with (offset + n) by (unfold n; lia).
  replace (offset + n - offset) with n by lia. set (slice := field (Z.to_nat offset) (Z.to_nat n) data).
  assert (blen slice = n) as Hslice by (unfold slice, blen in *; rewrite field_length by (unfold n, blen in *; lia); lia).
  destruct (Z.leb_spec (offset + n) offset) as [Hz|Hpos].
  { assert (n = 0) as Hn0 by lia. exists y, p. unfold mret, stm_ret. rewrite Hn0, Z.add_0_r. split_and!; [done| |].
    - split; [done|done|by eauto 10|lia|done].
    - replace slice with ([] : bytes); [by intros j b Hj|]. symmetry. apply nil_length_inv. unfold blen in Hslice. lia. }
  destruct (copy_to_user_ok own y p buffer len slice Hbuf) as (v & R & Hbuf1 & Hh & Ho); [lia|]. rewrite Hslice in *.
  erewrite bind_Ok; [|exact R]. erewrite bind_Ok; [|eapply descriptor_run; [apply Hbuf1|exact Hget]]. cbn [fd_target].
  erewrite bind_Ok; [|reflexivity].
  destruct (set_descriptor_run fd (TargetFile (with_offset (sat_add 64 offset n) (mkFileHandle path offset ReadOnlyAccess staged))) (set_vm v y) p _
              (bf_current _ _ _ _ _ Hbuf1) Hfd Hget) as (y' & p' & R2 & Hp' & Hvm & Hk & Hspace & Hget').
  erewrite bind_Ok; [|exact R2]. exists y', p'. split_and!; [done| |by rewrite Hvm].
  destruct Hbuf1 as [? ? ? ? ?]. split; [split; [done|by rewrite Hvm|by rewrite Hspace|done|by rewrite Hvm]|done| |lia|done].
  rewrite sat_add_spec in Hget' by lia. eexists _, path, staged. split; [exact Hget'|]. exists resolved. rewrite Hk. exact Hread.
Qed.

(** A program that reads until nothing comes, collecting what it got. *)
Fixpoint read_all (turns : nat) (fd buffer len : Z) (y : System PT S) : option bytes :=
  match turns with
  | O => None
  | Datatypes.S turns =>
      match sys_read fd buffer len y with
      | (Ok n, y') =>
          if n =? 0 then Some []
          else match on_vm (load (E:=Z) buffer n) y' with
               | (Ok chunk, y'') => app chunk <$> read_all turns fd buffer len y''
               | _ => None
               end
      | _ => None
      end
  end.

(** A file is read in order and completely.  Whatever the size of its
    buffer, a program that reads from an open descriptor until it gets nothing
    receives exactly the bytes of the file from the offset of the descriptor on,
    and gets the final zero after at most one call per buffer and one more. *)
Theorem reads_return_the_file own y p fd buffer len data offset turns :
  reading own y p fd buffer len data offset -> 0 < len -> blen data - offset + len <= len * Z.of_nat turns ->
  read_all turns fd buffer len y = Some (drop (Z.to_nat offset) data).
Proof.
  intros Hrd Hlen. revert y p offset Hrd. induction turns as [|turns IH]; intros y p offset Hrd Hturns.
  { pose proof (rd_offset _ _ _ _ _ _ _ _ Hrd). lia. }
  cbn [read_all]. pose proof (rd_offset _ _ _ _ _ _ _ _ Hrd) as Hoff.
  destruct (sys_read_step own y p fd buffer len data offset Hrd Hlen) as (y' & p' & -> & Hrd' & Hh).
  set (n := Z.min len (blen data - offset)) in *. destruct (Z.eqb_spec n 0) as [Hz|Hnz].
  { rewrite drop_ge; [done|]. unfold n, blen in *. lia. }
  pose proof (bf_bounds _ _ _ _ _ (rd_buffer _ _ _ _ _ _ _ _ Hrd')) as Hb.
  set (slice := field (Z.to_nat offset) (Z.to_nat n) data) in *.
  assert (blen slice = n) as Hslice by (unfold slice, blen in *; rewrite field_length by (unfold n, blen in *; lia); lia).
  assert (on_vm (load (E:=Z) buffer n) y' = (Ok slice, y')) as ->.
  { unfold on_vm. rewrite <- Hslice, load_holds; [by destruct y'|lia|lia|done]. }
  rewrite Nat2Z.inj_succ, Z.mul_succ_r in Hturns.
  assert (blen data - (offset + n) + len <= len * Z.of_nat turns) as Hturns'.
  { destruct (Z.le_gt_cases len (blen data - offset)); [unfold n in *; lia|].
    assert (1 <= Z.of_nat turns) by (destruct turns; lia). unfold n in *. nia. }
  rewrite (IH y' p' (offset + n) Hrd' Hturns'). cbn. f_equal. unfold slice, field.
  rewrite Z2Nat.inj_add by lia. rewrite <- drop_drop. by rewrite take_drop.
Qed.
End reading.

(** ** Writing files *)

Section writing.
Context {PT S : Type} {HP : Paging PT} {HL : PagingLaws PT} `{HB : Backend S} (U : Z -> Prop).
Context (now now_log : Z).
Implicit Type y : System PT S.

(** A file that was created can be read by the session that created it. *)
Lemma create_then_read c data (k : Kernel S) r k' :
  canonical c -> fs_ok (fs (FILESYSTEM k)) -> create_new_current now now_log c data k = (Ok r, k') ->
  read_current c k' = (Ok (c, data), k').
Proof.
  intros Hc Hok. assert (canonical_path c = Ok c) as Hcp by (by apply canonical_iff).
  unfold create_new_current, validate_create_new_current, resolve_checked, session_of, directory_exists, reading_fs,
    with_fs, log_event, lift_result, gets, throw, mbind, stm_bind, mret, stm_ret.
  rewrite resolve_canonical by done. destruct (can_access_path _ _ c true) eqn:Eacc; cbn [negb]; [|done].
  rewrite Hcp. destruct (bool_decide (c = [slash])); [done|]. destruct (bool_decide (is_Some _)); [done|].
  destruct (negb _); [done|].
  destruct (create_new_as now c data _ _ false (FILESYSTEM k)) as [[[]|e] w] eqn:Ew; [|done]. intros [= <- <-].
  set (id := current_uid (CURRENT_SESSION k)) in *. set (perm := default_permissions_for c id) in *.
  assert (exists e, abs (fs w) !! c = Some e /\ fe_data e = data /\ fe_permissions e = perm) as (e & He & Hd & Hperm).
  { destruct (create_refines now c data id perm false (FILESYSTEM k) Hok) as (Hr & Habs & _).
    change (run_fs_op (FsCreate now c data id perm false) (FILESYSTEM k)) with (create_new_as now c data id perm false (FILESYSTEM k)) in *.
    rewrite Ew in *. cbn [fst snd] in *. unfold spec_op in *. rewrite Hcp in *.
    repeat (case_match; try done). rewrite Habs. cbn [snd]. rewrite lookup_insert_eq. by eexists. }
  rewrite abs_lookup in He. unfold read_current, resolve_checked, session_of, reading_fs, gets, mbind, stm_bind, mret, stm_ret, read_as.
  cbn [CURRENT_SESSION USER_DB FILESYSTEM]. rewrite resolve_canonical by done.
  assert (can_access_path (CURRENT_SESSION k) (USER_DB k) c false = true) as -> by exact Eacc. cbn [negb].
  rewrite Hcp. cbn [mbind result_bind CURRENT_SESSION USER_DB FILESYSTEM]. rewrite He. cbn [ok_or mbind result_bind]. rewrite Hperm, Hd. fold id.
  assert (can_read perm id (current_role (CURRENT_SESSION k)) = true) as ->; [|done].
  unfold can_read, perm, default_permissions_for. case_bool_decide; [done|]. by destruct (_ || _); cbn; rewrite Z.eqb_refl.
Qed.

Lemma staged_write_end staged data : staged_write staged (blen staged) data = staged ++ data.
Proof.
  unfold staged_write, blen. replace (Z.to_nat (Z.of_nat (length staged) + Z.of_nat (length data) - Z.of_nat (length staged)))
    with (length data) by lia.
  rewrite Nat2Z.id. replace (Z.to_nat (Z.of_nat (length staged) + Z.of_nat (length data))) with (length staged + length data)%nat by lia.
  rewrite take_app_length, drop_ge; [by rewrite app_nil_r|]. rewrite length_app, length_zeros. lia.
Qed.

(** The descriptor [fd] collects a new file; [staged] has been written so far. *)
Record writing own y (p : Process) (fd : Z) (path staged : bytes) : Prop := mkWriting {
  wr_current : current_of y = Some p;
  wr_user : user_ok U own (vm y);
  wr_fd : 0 <= fd;
  wr_file : exists n, fd_get fd (fd_table p) = Some (mkFd n (TargetFile (mkFileHandle path (blen staged) CreateWrite staged)));
}.

(** A chunk of data in memory the caller may name. *)
Record chunk_ok (v : Vm PT) (space : AddressSpace) (chunk : Z * bytes) : Prop := mkChunk {
  ck_bounds : 0 <= chunk.1 /\ chunk.1 + blen chunk.2 <= USER_SPACE;
  ck_range : contains_user_range chunk.1 (blen chunk.2) space = true;
  ck_data : holds v chunk.1 chunk.2;
}.

Lemma sys_write_step own y p fd path staged chunk :
  writing own y p fd path staged -> chunk_ok (vm y) (address_space p) chunk ->
  blen staged + blen chunk.2 <= MAX_FILE_SIZE ->
  exists y' p', sys_write fd chunk.1 (blen chunk.2) y = (Ok (blen chunk.2), y') /\ writing own y' p' fd path (staged ++ chunk.2) /\
    vm y' = vm y /\ kernel (machine y') = kernel (machine y) /\ address_space p' = address_space p.
Proof.
  destruct chunk as [buffer data]. cbn [fst snd]. intros [Hp Hok Hfd [n Hget]] [Hb Hr Hh] Hmax. cbn [fst snd] in *.
  unfold sys_write. destruct (Z.eqb_spec (blen data) 0) as [Hz|Hz].
  { exists y, p. unfold mret, stm_ret. rewrite Hz. assert (data = []) as -> by (apply nil_length_inv; unfold blen in Hz; lia).
    rewrite app_nil_r. split_and!; try done. split; eauto. }
  assert (copy_from_user_ptr_checked buffer (blen data) y = (Ok data, y)) as Hcopy.
  { unfold copy_from_user_ptr_checked, validate_user_range. rewrite (proj2 (Z.eqb_neq _ _) Hz).
    erewrite bind_Ok.
    2:{ erewrite bind_Ok; [|rewrite current_process_run, Hp; reflexivity]. rewrite Hr. reflexivity. }
    unfold on_vm. rewrite load_holds; [by destruct y|lia|lia|done]. }
  erewrite bind_Ok; [|exact Hcopy]. erewrite bind_Ok; [|eapply descriptor_run; [exact Hp|exact Hget]].
  cbn [fd_target]. erewrite bind_Ok; [|reflexivity]. cbn [fh_offset fh_path fh_access fh_staged_data].
  assert (MAX_FILE_SIZE < 2 ^ 32) as HM by reflexivity.
  unfold checked_add. rewrite (proj2 (Z.ltb_lt _ _)) by lia. rewrite (proj2 (Z.ltb_ge MAX_FILE_SIZE _)) by lia.
  rewrite staged_write_end.
  destruct (set_descriptor_run fd (TargetFile (mkFileHandle path (blen staged + blen data) CreateWrite (staged ++ data))) y p _ Hp Hfd Hget)
    as (y' & p' & R & Hp' & Hvm & Hk & Hspace & Hget').
  erewrite bind_Ok; [|exact R]. exists y', p'. split_and!; try done. split; [done|by rewrite Hvm|done|].
  rewrite blen_app. by eexists.
Qed.

Fixpoint write_all (fd : Z) (chunks : list (Z * bytes)) (y : System PT S) : System PT S :=
  match chunks with
  | [] => y
  | (buffer, data) :: chunks => write_all fd chunks (sys_write fd buffer (blen data) y).2
  end.

Lemma write_all_ok own y p fd path staged chunks :
  writing own y p fd path staged -> Forall (chunk_ok (vm y) (address_space p)) chunks ->
  blen staged + blen (concat (map snd chunks)) <= MAX_FILE_SIZE ->
  exists p', writing own (write_all fd chunks y) p' fd path (staged ++ concat (map snd chunks)) /\
    kernel (machine (write_all fd chunks y)) = kernel (machine y) /\ vm (write_all fd chunks y) = vm y.
Proof.
  intros Hw Hc. revert y p staged Hw Hc. induction chunks as [|chunk chunks IH]; intros y p staged Hw Hc Hmax.
  { exists p. cbn. by rewrite app_nil_r. }
  apply Forall_cons in Hc as [Hc1 Hc2]. cbn [map concat] in *. rewrite blen_app in Hmax.
  pose proof (blen_nonneg (concat (map snd chunks))).
  destruct (sys_write_step own y p fd path staged chunk Hw Hc1) as (y' & p' & R & Hw' & Hvm & Hk & Hspace); [lia|].
  destruct (IH y' p' (staged ++ chunk.2) Hw') as (p2 & Hw2 & Hk2 & Hvm2).
  { by rewrite Hvm, Hspace. }
  { rewrite blen_app. lia. }
  exists p2. destruct chunk as [buffer data]. cbn [write_all fst snd] in *. rewrite R. cbn [snd].
  rewrite <- app_assoc in Hw2. split_and!; [done|congruence|congruence].
Qed.

(** C13: what is written becomes the file when it is closed.  A program that
    writes any chunks to a descriptor opened for creation and closes it creates
    a file whose content is the concatenation of the chunks, readable by the
    same session; until the close the file system is unchanged.  If the file
    cannot be created the close reports why, and the descriptor stays open with
    everything written to it. *)
Theorem written_file_appears own y p fd path chunks :
  canonical path -> fs_ok (fs (FILESYSTEM (kernel (machine y)))) ->
  writing own y p fd path [] -> Forall (chunk_ok (vm y) (address_space p)) chunks ->
  let data := concat (map snd chunks) in
  blen data <= MAX_FILE_SIZE ->
  let y1 := write_all fd chunks y in
  kernel (machine y1) = kernel (machine y) /\
  match create_new_current now now_log path data (kernel (machine y)) with
  | (Ok _, k') =>
      exists y2 p2, sys_close now now_log fd y1 = (Ok 0, y2) /\ kernel (machine y2) = k' /\
        current_of y2 = Some p2 /\ fd_get fd (fd_table p2) = None /\ read_current path k' = (Ok (path, data), k')
  | (Err e, k') =>
      exists y2 p2, sys_close now now_log fd y1 = (Err (Raised (map_fs_error e)), y2) /\ kernel (machine y2) = k' /\
        writing own y2 p2 fd path data
  end.
Proof.
  intros Hcan Hfs Hw Hc data Hmax y1.
  destruct (write_all_ok own y p fd path [] chunks Hw Hc Hmax) as (p1 & [Hp1 Hok1 Hfd [n Hget]] & Hk1 & Hvm1).
  fold y1 data in Hp1, Hk1, Hok1. cbn [app] in Hget. split; [done|].
  assert (sys_close now now_log fd y1 =
    match create_new_current now now_log path data (kernel (machine y)) with
    | (Ok _, k') => (Ok 0, set_machine (with_table (pt_update (pid p1) (fun q => set_fd_table (fd_close fd (fd_table q)).2 q))
                                          (with_kernel k' (machine y1))) y1)
    | (Err e, k') => (Err (Raised (map_fs_error e)), set_machine (with_kernel k' (machine y1)) y1)
    end) as Hclose.
  { unfold sys_close. erewrite bind_Ok; [|eapply descriptor_run; [exact Hp1|exact Hget]]. cbn [fd_target].
    cbn [fh_access fh_path fh_staged_data]. rewrite bool_decide_true by done. fold data.
    unfold mbind at 1, stm_bind at 1, mbind at 1, stm_bind at 1, on_fs. rewrite Hk1.
    destruct (create_new_current now now_log path data (kernel (machine y))) as [[r|e] k']; [|done]. cbn [map_err].
    unfold mret at 1, stm_ret at 1. set (y2 := set_machine (with_kernel k' (machine y1)) y1).
    assert (current_of y2 = Some p1) as Hp2 by exact Hp1.
    erewrite bind_Ok; [|rewrite current_process_run, Hp2; reflexivity].
    destruct (current_of_update y2 (fun q => set_fd_table (fd_close fd (fd_table q)).2 q) p1 Hp2) as [R _]; [done|].
    unfold fd_close at 1. apply fd_get_spec in Hget as Hl. rewrite Hl. erewrite bind_Ok; [|exact R]. done. }
  destruct (create_new_current now now_log path data (kernel (machine y))) as [[r|e] k'] eqn:Ecreate.
  - assert (current_of (set_machine (with_kernel k' (machine y1)) y1) = Some p1) as Hp2 by exact Hp1.
    destruct (current_of_update _ (fun q => set_fd_table (fd_close fd (fd_table q)).2 q) p1 Hp2) as [_ Hp3]; [done|].
    eexists _, _. split; [exact Hclose|]. split; [done|]. split; [exact Hp3|]. split; [|by eapply create_then_read].
    cbn [fd_table set_fd_table]. apply fd_get_spec in Hget as Hl. unfold fd_close. rewrite Hl. cbn [snd]. unfold fd_get.
    by rewrite list_lookup_insert_eq by (by eapply lookup_lt_Some).
  - eexists _, p1. split; [exact Hclose|]. split; [done|]. split; [exact Hp1|exact Hok1|done|by exists n].
Qed.
End writing.

(** ** Sleeping *)

Section sleeping.
Context {PT S : Type} {HP : Paging PT}.
Implicit Type y : System PT S.

(** The ticks the first [n] waits from the [k]th on count for. *)
Fixpoint credited (observed : nat -> option Z) (k n : nat) : Z :=
  match n with
  | O => 0
  | Datatypes.S n => match observed k with Some elapsed => Z.max elapsed 1 | None => 1 end + credited observed (Datatypes.S k) n
  end.

Lemma credited_nonneg observed k n : 0 <= credited observed k n.
Proof. revert k. induction n as [|n IH]; intros k; simpl; [lia|]. specialize (IH (Datatypes.S k)). case_match; lia. Qed.

Lemma sleep_loop_ends fuel observed k remaining :
  remaining <= Z.of_nat fuel ->
  exists n, sleep_loop fuel observed k remaining = Some (k + n)%nat /\ (n <= fuel)%nat /\
    remaining <= credited observed k n /\ forall n', (n' < n)%nat -> credited observed k n' < remaining.
Proof.
  revert k remaining. induction fuel as [|fuel IH]; intros k remaining Hf; cbn [sleep_loop].
  { rewrite (proj2 (Z.leb_le _ _)) by lia. exists O. rewrite Nat.add_0_r. simpl. split_and!; lia || done. }
  destruct (Z.leb_spec remaining 0) as [Hz|Hz].
  { exists O. rewrite Nat.add_0_r. simpl. split_and!; lia || done. }
  set (c := match observed k with Some elapsed => Z.max elapsed 1 | None => 1 end).
  assert (sleep_step (observed k) remaining = Z.max (remaining - c) 0) as ->.
  { unfold sleep_step, c, sat_sub. destruct (observed k); lia. }
  assert (1 <= c) as Hc by (unfold c; case_match; lia).
  destruct (IH (Datatypes.S k) (Z.max (remaining - c) 0)) as (n & -> & Hn & Hr & Hmin); [lia|].
  exists (Datatypes.S n). rewrite Nat.add_succ_r, Nat.add_succ_l. cbn [credited]. fold c. split_and!; [done|lia|lia|].
  intros [|n'] Hn'; cbn [credited]; [lia|]. fold c. pose proof (Hmin n' ltac:(lia)). pose proof (credited_nonneg observed (Datatypes.S k) n').
  lia.
Qed.

Lemma sleep_ticks_pos sec nsec : 1 <= sleep_ticks sec nsec.
Proof. unfold sleep_ticks. lia. Qed.

(** A sleep ends, after the time asked for.  Whatever the waits for the
    timer observe, wrapped or failed ones included, [nanosleep] returns zero and
    changes nothing; its loop takes at most as many turns as the request has
    ticks, and stops at the first turn at which the ticks it counted reach the
    request. *)
Theorem nanosleep_terminates observed request data y :
  0 < request -> request + 16 <= USER_SPACE -> blen data = 16 -> holds (vm y) request data ->
  let ticks := sleep_ticks (signed_word (field 0 8 data)) (signed_word (field 8 8 data)) in
  sys_nanosleep observed request y = (Ok 0, y) /\
  exists turns, sleep_loop (Z.to_nat ticks) observed 0 ticks = Some turns /\ 0 < Z.of_nat turns <= ticks /\
    ticks <= credited observed 0 turns /\ forall n, (n < turns)%nat -> credited observed 0 n < ticks.
Proof.
  intros Hr He Hd Hh ticks. pose proof (sleep_ticks_pos (signed_word (field 0 8 data)) (signed_word (field 8 8 data))) as Hpos.
  fold ticks in Hpos. destruct (sleep_loop_ends (Z.to_nat ticks) observed 0 ticks) as (n & Hn & Hle & Hc & Hmin); [lia|].
  rewrite Nat.add_0_l in Hn. split.
  - unfold sys_nanosleep. rewrite (proj2 (Z.eqb_neq _ _)) by lia.
    assert (on_vm (load (E:=Z) request 16) y = (Ok data, y)) as R.
    { unfold on_vm. rewrite <- Hd, load_holds; [by destruct y|lia|lia|done]. }
    erewrite bind_Ok; [|exact R]. cbv zeta. fold ticks. by rewrite Hn.
  - exists n. split_and!; [done| |lia|done|done]. destruct n; [simpl in Hc; lia|lia].
Qed.
End sleeping.

(** ** Exit and wait *)

Section waiting.
Context {PT S : Type} {HP : Paging PT} {HL : PagingLaws PT} (U : Z -> Prop) (now_log : Z).
Implicit Type y : System PT S.
Abbreviation table y := (PROCESS_TABLE (exec (machine y))).

Lemma find_first_unique {A} (f : A -> bool) l x :
  x ∈ l -> f x = true -> (forall z, z ∈ l -> f z = true -> z = x) -> find_first f l = Some x.
Proof.
  intros Hin Hx Hu. destruct (find_first f l) as [z|] eqn:E.
  - apply find_first_Some in E as [Hz Hf]. by rewrite (Hu z).
  - by rewrite (find_first_None f l E x Hin) in Hx.
Qed.

Lemma pt_remove_get id id' t : pt_get id (pt_remove id' t) = if id =? id' then None else pt_get id t.
Proof.
  unfold pt_get, pt_remove. cbn [processes set_processes]. induction (processes t) as [|p ps IH]; simpl; [by case_match|].
  destruct (pid_is id' p) eqn:E; simpl; rewrite IH; unfold pid_is in *.
  - apply Z.eqb_eq in E. destruct (Z.eqb_spec id id'); [done|]. by rewrite (proj2 (Z.eqb_neq (pid p) id)) by congruence.
  - apply Z.eqb_neq in E. destruct (Z.eqb_spec (pid p) id), (Z.eqb_spec id id'); congruence.
Qed.

Lemma to_i32_small z : 0 <= z < 2 ^ 31 -> to_i32 z = z.
Proof. intros Hz. unfold to_i32. rewrite wrap_small by lia. by rewrite (proj2 (Z.ltb_lt _ _)) by lia. Qed.

(** The zombie a parent waits for is found by its number. *)
Lemma zombie_found parent t p code :
  NoDup (map pid (processes t)) -> Forall (fun q => 0 <= pid q < 2 ^ 31) (processes t) ->
  pt_get (pid p) t = Some (ended code p) -> parent_pid p = parent ->
  find_zombie_child parent (pid p) t = Some (pid p, code).
Proof.
  intros Hnd Hsm Hget Hpar. pose proof Hget as Hget'. apply find_first_Some in Hget as [Hin _]. rewrite Forall_forall in Hsm.
  pose proof (Hsm _ Hin) as Hp. change (pid (ended code p)) with (pid p) in Hp.
  unfold find_zombie_child. rewrite (find_first_unique _ _ (ended code p)); [done|done| |].
  - unfold zombie_child. change (parent_pid (ended code p)) with (parent_pid p).
    change (pid (ended code p)) with (pid p). rewrite Hpar, Z.eqb_refl, to_i32_small, Z.eqb_refl by done.
    rewrite bool_decide_true by done. by rewrite orb_true_r.
  - intros q Hq. unfold zombie_child. rewrite !andb_true_iff, orb_true_iff, !Z.eqb_eq, to_i32_small by (by apply Hsm).
    intros [_ [?|Hqp]]; [lia|]. assert (pt_get (pid p) t = Some q) as Hq'; [|congruence].
    by apply (find_key_Some pid (pid_is (pid p)) (pid p) (pid_is_spec (pid p))).
Qed.

Lemma encode_status code : encode_wait_exit_status code = 256 * (code mod 256).
Proof.
  unfold encode_wait_exit_status, WAIT_STATUS_EXIT_SHIFT. rewrite Z.shiftl_mul_pow2 by lia.
  change 0xFF with (Z.ones 8). rewrite Z.land_ones by lia. change (2 ^ 8) with 256. lia.
Qed.

(** Waiting for one child with a place for its status. *)
Lemma sys_wait4_run target status_ptr y :
  0 < target -> 0 < status_ptr ->
  sys_wait4 target status_ptr 0 y =
  match current_pid (SCHEDULER (exec (machine y))) with
  | None => (Err (Raised EPERM), y)
  | Some parent =>
      match find_zombie_child parent target (table y) with
      | None => (Err (Raised ECHILD), y)
      | Some (child, code) =>
          (write_struct_to_user_checked status_ptr (le_bytes 4 (wrap 32 (encode_wait_exit_status code)));;
           on_machine (with_table (pt_remove child));; mret child) y
      end
  end.
Proof.
  intros Ht Hs. unfold sys_wait4. rewrite (proj2 (Z.eqb_neq target 0)), (proj2 (Z.ltb_ge _ _)), (proj2 (Z.eqb_neq status_ptr 0)) by lia.
  cbn [negb orb Z.eqb]. unfold gets, mbind at 1, stm_bind at 1. by repeat case_match.
Qed.

(** An exit status reaches the parent, once.  After a process has called
    [exit], the [wait4] its parent makes for it, as soon as the parent runs
    again, returns the number of the child, stores the low byte of its code in
    the second byte of the status word and removes the child, and only the
    child, from the process table; a second [wait4] finds no child. *)
Theorem exit_status_reaches_parent own y child parent code y2 status_ptr :
  current_of y = Some child -> NoDup (map pid (processes (table y))) ->
  Forall (fun q => 0 <= pid q < 2 ^ 31) (processes (table y)) -> 0 < pid child ->
  table y2 = table (sys_exit now_log code y).2 ->
  buffer_ok U own y2 parent status_ptr 4 -> pid parent = parent_pid child -> 0 < status_ptr ->
  exists y3, sys_wait4 (pid child) status_ptr 0 y2 = (Ok (pid child), y3) /\
    holds (vm y3) status_ptr (le_bytes 4 (256 * (code mod 256))) /\
    only_bytes (vm y2) (vm y3) status_ptr 4 /\
    (forall id, pt_get id (table y3) = if id =? pid child then None else pt_get id (table y2)) /\
    sys_wait4 (pid child) status_ptr 0 y3 = (Err (Raised ECHILD), y3).
Proof.
  intros Hc Hnd Hsm Hpos Ht Hbuf Hpar Hptr. pose proof Hbuf as [Hp Hok Hr Hb Hw].
  unfold current_of in Hc. destruct (current_pid (SCHEDULER (exec (machine y)))) as [id|] eqn:Eid; [|done]. simpl in Hc.
  pose proof (pt_get_pid _ _ _ Hc) as <-.
  assert (table y2 = pt_update (pid child) (ended code) (table y)) as Ht2.
  { rewrite Ht. unfold sys_exit, gets, mbind, stm_bind. cbn. by rewrite Eid. }
  assert (map pid (processes (table y2)) = map pid (processes (table y))) as Hpids by (rewrite Ht2; by apply map_pid_update).
  assert (find_zombie_child (pid parent) (pid child) (table y2) = Some (pid child, code)) as Hz.
  { apply zombie_found; [by rewrite Hpids| | |done].
    - rewrite (Forall_pid_map (fun z => 0 <= z < 2 ^ 31)) in *. by rewrite Hpids.
    - rewrite Ht2. by apply pt_get_update_eq. }
  assert (current_pid (SCHEDULER (exec (machine y2))) = Some (pid parent)) as Hcur.
  { unfold current_of in Hp. destruct (current_pid (SCHEDULER (exec (machine y2)))) as [i|]; [|done]. simpl in Hp. by rewrite (pt_get_pid _ _ _ Hp). }
  set (word := le_bytes 4 (wrap 32 (encode_wait_exit_status code))).
  assert (word = le_bytes 4 (256 * (code mod 256))) as Hword.
  { unfold word. rewrite encode_status. pose proof (Z.mod_pos_bound code 256). by rewrite wrap_small by lia. }
  destruct (store_holds (E:=Z) U own (vm y2) status_ptr word Hok) as (v & R & _ & _ & Ho & Hh); [lia| |exact Hw|].
  { unfold word, blen. rewrite length_le_bytes. lia. }
  assert (write_struct_to_user_checked status_ptr word y2 = (Ok (), set_vm v y2)) as Rw.
  { unfold write_struct_to_user_checked. erewrite bind_Ok; [|eapply validate_ok; [exact Hbuf|done]]. apply on_vm_Ok, R. }
  eexists. rewrite sys_wait4_run, Hcur, Hz by lia. fold word. split; [erewrite bind_Ok; [|exact Rw]; reflexivity|].
  split; [rewrite <- Hword; exact Hh|]. split; [exact Ho|]. split; [intros id; apply pt_remove_get|].
  rewrite sys_wait4_run by lia. cbn [machine set_machine set_vm with_table with_exec exec SCHEDULER set_table PROCESS_TABLE]. rewrite Hcur.
  unfold find_zombie_child. rewrite (proj2 (find_first_None_iff _ _)); [done|].
  intros q [Hq Hne]%list_elem_of_In%filter_In. apply negb_true_iff, Z.eqb_neq in Hne. unfold zombie_child.
  rewrite (Forall_pid_map (fun z => 0 <= z < 2 ^ 31)), <- Hpids, Forall_fmap, Forall_forall in Hsm.
  rewrite to_i32_small by (by apply (Hsm q), list_elem_of_In).
  rewrite (proj2 (Z.eqb_neq (pid child) (-1))), (proj2 (Z.eqb_neq (pid q) _)) by (done || lia). by rewrite andb_false_r.
Qed.
End waiting.

(** ** What the calls do not check *)

Section unchecked.
Context {PT S : Type} {HP : Paging PT} {HL : PagingLaws PT} (U : Z -> Prop).
Implicit Type y : System PT S.

Lemma pages_cons start n : 0 < n -> pages start (start + 4096 * n) = start :: pages (start + 4096) (start + 4096 * n).
Proof.
  intros Hn. unfold pages.
  replace ((start + 4096 * n - start + 4095) / 4096) with (Z.succ (n - 1)) by (Z.to_euclidean_division_equations; lia).
  replace ((start + 4096 * n - (start + 4096) + 4095) / 4096) with (n - 1) by (Z.to_euclidean_division_equations; lia).
  rewrite seqZ_cons by lia. cbn [map]. f_equal; [lia|]. replace (Z.pred (Z.succ (n - 1))) with (n - 1) by lia.
  apply list_eq. intros i. rewrite !list_lookup_fmap.
  destruct (decide (Z.of_nat i < n - 1)).
  - rewrite !lookup_seqZ_lt by lia. simpl. f_equal. lia.
  - by rewrite !lookup_seqZ_ge by lia.
Qed.

(** Clearing a page that was mapped without the right to write to it. *)
Lemma store_readonly (v : Vm PT) page frame flags :
  CR0_WP v = true -> 0 <= page < 2 ^ 64 -> aligned page ->
  translate (CR3 v) (page_tables v) page = Some (frame, flags) -> flag_set flags WRITABLE = false ->
  store (E:=Z) page (zeros 4096) v = (Err Panicked, v).
Proof.
  intros Hwp Hp Ha Ht Hf. unfold store. replace (blen (zeros 4096)) with (1 + 4095) by (unfold blen; rewrite length_zeros; lia).
  rewrite addresses_cons by lia. cbn [forallb]. unfold may_write at 1, lookup_page. rewrite page_floor_id by done.
  by rewrite Ht, Hf, Hwp.
Qed.

(** Mapping memory without the right to write stops the kernel.  [mmap]
    clears each new page through the mapping it just made, so that a request
    without [PROT_WRITE], made by any process with room below its last mapping,
    ends in a page fault of the kernel itself when the processor enforces
    write protection. *)
Theorem mmap_readonly_panics own y p len prot flags :
  current_of y = Some p -> user_ok U own (vm y) -> physical_memory_offset (vm y) <> None -> CR0_WP (vm y) = true ->
  4 <= free_of (vm y) ->
  Z.land flags MAP_ANONYMOUS <> 0 -> Z.land prot PROT_WRITE = 0 -> 0 < len <= USER_SPACE ->
  let base := mmap_top (address_space p) - brk_align_up len in
  aligned base -> 0 < base -> brk (address_space p) <= base -> mmap_top (address_space p) <= USER_SPACE ->
  view (vm y) base = None ->
  exists y', sys_mmap len prot flags y = (Err Panicked, y').
Proof.
  intros Hp Hok Hoff Hwp Hfree Hanon Hprot Hlen base Hal Hb Hbrk Htop Hv.
  unfold sys_mmap. rewrite (proj2 (Z.eqb_neq _ _) Hanon), (proj2 (Z.eqb_neq len 0)) by lia.
  erewrite bind_Ok; [|rewrite current_process_run, Hp; reflexivity]. cbv zeta. fold (brk_align_up len).
  destruct (brk_align_up_spec len) as (Hsize & Hge & _); [lia|].
  destruct (Z.ltb_spec (mmap_top (address_space p)) (brk_align_up len)) as [?|_]; [lia|]. fold base.
  destruct (Z.ltb_spec base (brk (address_space p))) as [?|_]; [lia|].
  destruct (current_of_update y (fun q => set_address_space (set_mmap_top base (address_space q)) q) p Hp) as [R _]; [done|].
  unfold update_space. erewrite bind_Ok; [|exact R]. clear R. set (y1 := set_machine _ y). erewrite bind_Ok.
  2:{ unfold paging_available, gets, mbind, stm_bind. change (vm y1) with (vm y). destruct (uo_alloc _ _ _ Hok) as (al & -> & _).
      by destruct (physical_memory_offset (vm y)). }
  rewrite Hprot. cbn [Z.eqb negb]. set (fl := Z.lor (Z.lor PRESENT USER_ACCESSIBLE) NO_EXECUTE).
  assert (user_address base) as Hu by (unfold user_address; lia).
  destruct (allocate_ok (E:=fault Z) U own (vm y) Hok) as (i & al & R1 & Hi & Hok1 & Hf1); [lia|].
  destruct (map_fresh (E:=fault Z) U ({[i]} ∪ own) (set_allocator al (vm y)) base i fl Hok1 Hu Hal Hv)
    as (v2 & own2 & R2 & _ & _ & Hc2 & _ & _ & Ht); [lia|set_solver| |].
  { intros q f fl' Hup Hap Htr <-. apply Hi. by apply (uo_owned _ _ _ Hok q f fl' Hup Hap Htr). }
  assert (mmap_page fl base (vm y) = (Err Panicked, v2)) as Rpage.
  { unfold mmap_page. erewrite bind_Ok; [|unfold virt_addr, canonical_address; rewrite (proj2 (Z.ltb_lt base _)) by (unfold USER_SPACE in *; lia); reflexivity].
    erewrite bind_Ok; [|exact R1]. cbv beta iota. erewrite bind_Ok; [|exact R2]. cbv beta iota.
    eapply store_readonly; [by rewrite (sc_wp _ _ Hc2)|unfold USER_SPACE in *; lia|done|rewrite Ht, Z.eqb_refl; done|done]. }
  exists (set_vm v2 y1). unfold mbind, stm_bind, on_vm at 1. change (vm y1) with (vm y).
  destruct (exist _ (brk_align_up len / 4096) eq_refl : {n | n = brk_align_up len / 4096}) as [n Hn].
  assert (brk_align_up len = 4096 * n) as Hlen4 by (unfold aligned in Hsize; rewrite Hn; Z.to_euclidean_division_equations; lia).
  rewrite Hlen4, pages_cons by lia. unfold for_each. cbn [foldM]. unfold mbind, stm_bind. by rewrite Rpage.
Qed.

End unchecked.

Section anywhere.
Context {PT S : Type} {HP : Paging PT}.
Implicit Type y : System PT S.

(** A store within one page, the kernel's pages included. *)
Lemma pokes_in_page (v : Vm PT) start base data m :
  0 <= start -> start + blen data <= 2 ^ 64 ->
  (forall x, start <= x < start + blen data -> phys_of v x = Some (base + (x - start))) ->
  forall i b, data !! i = Some b ->
  fold_left (poke v) (zip (addresses start (blen data)) data) m (base + Z.of_nat i) = b.
Proof.
  intros Hs He Hp. revert start base m Hs He Hp. induction data as [|c data IH]; intros start base m Hs He Hp i b Hi; [done|].
  pose proof (blen_nonneg data). rewrite blen_cons in *. rewrite addresses_cons by lia. cbn [zip zip_with fold_left].
  destruct i as [|i]; cbn [lookup list_lookup] in Hi.
  - injection Hi as ->. rewrite Z.add_0_r. unfold poke at 2. cbn [fst snd].
    rewrite (Hp start) by lia. replace (base + (start - start)) with base by lia.
    assert (forall l m', (forall x, x ∈ l -> exists j, 0 < j /\ phys_of v x.1 = Some (base + j)) -> m' base = b ->
              fold_left (poke v) l m' base = b) as Hkeep.
    { induction l as [|x l IHl]; intros m' Hl Hm; [done|]. cbn [fold_left]. apply IHl; [intros z Hz; apply Hl; set_solver|].
      destruct (Hl x) as (j & Hj & Hx); [set_solver|]. unfold poke. rewrite Hx. by rewrite (proj2 (Z.eqb_neq _ _)) by lia. }
    apply Hkeep; [|by rewrite Z.eqb_refl]. intros [a d] Ha. cbn [fst]. apply elem_of_zip_l in Ha.
    apply elem_addresses in Ha; [|lia|lia]. exists (a - start). rewrite Hp by lia. split; [lia|done].
  - replace (base + Z.of_nat (Datatypes.S i)) with (base + 1 + Z.of_nat i) by lia.
    apply IH; [lia|lia| |done]. intros x Hx. rewrite Hp by lia. f_equal. lia.
Qed.

(** [clock_gettime] writes where it is told to.  The pointer of the caller
    is not compared with the memory of the calling process: for every address
    whose page is mapped and writable in the active page table, the kernel's own
    pages included, the call succeeds and the time is stored there. *)
Theorem clock_gettime_writes_anywhere millis clock_id out frame flags y :
  known_clock clock_id = true -> 0 < out < 2 ^ 64 -> out mod 4096 <= 4080 ->
  lookup_page (vm y) out = Some (frame, flags) -> flag_set flags WRITABLE = true ->
  exists m, sys_clock_gettime millis clock_id out y = (Ok 0, set_vm (set_ram m (vm y)) y) /\
    forall i b, timespec_bytes (millis / 1000) (millis mod 1000 * 1000000) !! i = Some b ->
      m (frame + out mod 4096 + Z.of_nat i) = b.
Proof.
  intros Hk Ho Hpage Hl Hw. set (data := timespec_bytes _ _).
  assert (blen data = 16) as Hd by (unfold blen, data, timespec_bytes; rewrite length_app, !length_le_bytes; lia).
  pose proof (Z.div_mod out 4096).
  assert (forall x, out <= x < out + 16 -> page_floor x = page_floor out /\ x mod 4096 = out mod 4096 + (x - out)) as Hin.
  { intros x Hx. unfold page_floor. Z.to_euclidean_division_equations. lia. }
  assert (out + 16 <= 2 ^ 64) as Hend by (Z.to_euclidean_division_equations; lia).
  exists (fold_left (poke (vm y)) (zip (addresses out (blen data)) data) (ram (vm y))). split.
  - assert (store (E:=Z) out data (vm y) =
      (Ok (), set_ram (fold_left (poke (vm y)) (zip (addresses out (blen data)) data) (ram (vm y))) (vm y))) as R.
    2:{ unfold sys_clock_gettime, write_struct_to_user. rewrite Hk, (proj2 (Z.eqb_neq out 0)) by lia. cbn [negb]. fold data.
        erewrite bind_Ok; [|erewrite bind_Ok; [reflexivity|apply on_vm_Ok; exact R]]. reflexivity. }
    unfold store. rewrite (proj2 (forallb_forall _ _)); [done|].
    intros x Hx%list_elem_of_In. rewrite Hd in Hx. apply elem_addresses in Hx; [|lia|lia].
    unfold may_write, lookup_page in *. by rewrite (proj1 (Hin x Hx)), Hl, Hw.
  - apply pokes_in_page; [lia|lia|]. intros x Hx. rewrite Hd in Hx. destruct (Hin x Hx) as [Hfl Hmod].
    unfold phys_of, lookup_page in *. rewrite Hfl, Hl. simpl. f_equal. lia.
Qed.
End anywhere.

(** ** A failed [execve] *)

Section execve.
Context {PT S : Type} {HP : Paging PT} `{HB : Backend S}.
Implicit Type y : System PT S.

(** The machine is unchanged and the same page table is active. *)
Definition untouched y y' : Prop := machine y' = machine y /\ (aligned (CR3 (vm y)) -> CR3 (vm y') = CR3 (vm y)).
#[global] Instance untouched_preorder : PreOrder untouched.
Proof.
  split; [done|]. intros y1 y2 y3 [H1 H2] [H3 H4]. split; [congruence|].
  intros Ha. rewrite H4; [by apply H2|by rewrite H2].
Qed.

Definition keeping {A} (m : stm (System PT S) (fault Z) A) : Prop := forall y, untouched y (m y).2.

Lemma keeping_ret {A} (a : A) : keeping (mret a).
Proof. by intros y. Qed.
Lemma keeping_throw {A} e : keeping (throw e : stm (System PT S) (fault Z) A).
Proof. by intros y. Qed.
Lemma keeping_early {A} v : keeping (return_early v : stm (System PT S) (fault Z) A).
Proof. by intros y. Qed.
Lemma keeping_gets {A} (f : System PT S -> A) : keeping (gets f).
Proof. by intros y. Qed.
Lemma keeping_lift {A} (r : result (fault Z) A) : keeping (lift_result r).
Proof. by intros y. Qed.
Lemma keeping_bind {A B} (m : stm (System PT S) (fault Z) A) (f : A -> stm (System PT S) (fault Z) B) :
  keeping m -> (forall a, keeping (f a)) -> keeping (m ≫= f).
Proof.
  intros Hm Hf y. unfold mbind, stm_bind. specialize (Hm y). destruct (m y) as [[a|e] y']; [|done].
  etransitivity; [exact Hm|apply Hf].
Qed.
Lemma keeping_load a n : keeping (on_vm (load (E:=Z) a n)).
Proof. intros y. unfold on_vm, load. by destruct (mapM (peek (vm y)) (addresses a n)). Qed.
End execve.

Create HintDb keeping.
#[export] Hint Resolve keeping_ret keeping_throw keeping_early keeping_gets keeping_lift keeping_bind keeping_load : keeping.

Section failed_execve.
Context {PT S : Type} {HP : Paging PT} `{HB : Backend S}.
Implicit Type y : System PT S.

Lemma keeping_current missing : keeping (PT:=PT) (S:=S) (current_process missing).
Proof. apply keeping_bind; [apply keeping_gets|]. intros [p|]; eauto with keeping. Qed.

Lemma keeping_string p max_len : keeping (PT:=PT) (S:=S) (read_user_string_checked p max_len).
Proof.
  unfold read_user_string_checked. destruct (_ || _); [apply keeping_throw|]. apply keeping_bind; [apply keeping_current|]. intros q.
  generalize ([] : bytes). revert p. induction (Z.to_nat max_len) as [|n IH]; intros p acc; cbn [read_string_from]; [apply keeping_throw|].
  destruct (_ <=? _); [apply keeping_throw|]. destruct (negb _); [apply keeping_throw|]. apply keeping_bind; [apply keeping_load|].
  intros [|b [|]]; try apply keeping_throw. destruct (_ =? _); [|apply IH]. destruct (utf8_valid acc); eauto with keeping.
Qed.

Lemma keeping_path p directory : keeping (PT:=PT) (S:=S) (read_warexec_path_checked p directory).
Proof.
  apply keeping_bind; [apply keeping_string|]. intros path. destruct (canonicalize_warexec_path path directory); eauto with keeping.
Qed.

Lemma keeping_pointers p max_entries : keeping (PT:=PT) (S:=S) (read_user_pointer_array_checked p max_entries).
Proof.
  unfold read_user_pointer_array_checked. destruct (p =? 0); [apply keeping_ret|]. revert p.
  induction (Z.to_nat max_entries) as [|n IH]; intros p; cbn [read_pointers_from]; [apply keeping_ret|].
  apply keeping_bind; [|intros _; apply keeping_bind; [apply keeping_load|]].
  - unfold validate_user_range. destruct (8 =? 0); [apply keeping_ret|]. apply keeping_bind; [apply keeping_current|].
    intros q. destruct (contains_user_range p 8 (address_space q)); eauto with keeping.
  - intros data. cbv zeta. destruct (_ =? 0); [apply keeping_ret|]. apply keeping_bind; [apply IH|]. eauto with keeping.
Qed.

Lemma keeping_foldM {A B} (f : A -> B -> stm (System PT S) (fault Z) B) l :
  (forall x acc, keeping (f x acc)) -> forall acc, keeping (foldM f l acc).
Proof. intros Hf. induction l as [|x l IH]; intros acc; cbn [foldM]; eauto with keeping. Qed.

Lemma keeping_args pointers : keeping (PT:=PT) (S:=S) (read_args pointers).
Proof.
  apply keeping_foldM. intros p acc. apply keeping_bind; [apply keeping_string|]. eauto with keeping.
Qed.

Lemma keeping_root : keeping (PT:=PT) (S:=S) (or_return ENOMEM (on_vm create_user_page_table)).
Proof.
  intros y. unfold or_return, on_vm, create_user_page_table, active_mapper, lock_allocator, allocate, gets, modify, raise, throw,
    mret, stm_ret, mbind, stm_bind.
  destruct (physical_memory_offset (vm y)); [|done]. destruct (FRAME_ALLOCATOR (vm y)) as [a|] eqn:Ea; [|done].
  rewrite Ea. by destruct (allocate_frame a) as [[f|] a'].
Qed.

(** [m] may change things only when it does not return an error. *)
Definition atomic {A} (m : stm (System PT S) (fault Z) A) y : Prop :=
  forall e y', m y = (Err (Raised e), y') -> untouched y y'.

Lemma atomic_bind {A B} (m : stm (System PT S) (fault Z) A) (f : A -> stm (System PT S) (fault Z) B) y :
  keeping m -> (forall a y', m y = (Ok a, y') -> untouched y y' -> atomic (f a) y') -> atomic (m ≫= f) y.
Proof.
  intros Hm Hf e y'. unfold mbind, stm_bind. specialize (Hm y). destruct (m y) as [[a|e'] y1]; cbn [snd] in Hm.
  - intros Hr. etransitivity; [exact Hm|]. eapply Hf; [done|done|exact Hr].
  - intros [= -> ->]. done.
Qed.

(** A failed [execve] changes nothing.  Whatever makes it fail (a bad path
    or argument, a missing file, a file that is not an executable, memory that
    runs out while the new image is built), when [execve] returns an error the
    calling process, with its files and capabilities, and the whole process
    table and file system are as they were, and its page table is active. *)
Theorem failed_execve_changes_nothing now_log user_code user_data random path argv y e y' :
  sys_execve now_log user_code user_data random path argv y = (Err (Raised e), y') -> untouched y y'.
Proof.
  revert e y'. change (atomic (sys_execve now_log user_code user_data random path argv) y). unfold sys_execve.
  apply atomic_bind; [apply keeping_path|]. intros file y1 _ _.
  apply atomic_bind; [apply keeping_pointers|]. intros pointers y2 _ _.
  apply atomic_bind; [apply keeping_args|]. intros args y3 _ _.
  apply atomic_bind; [apply keeping_current|]. intros p y4 Hp Hk4. cbv zeta.
  assert (current_of y4 = Some p) as Hcur.
  { rewrite current_process_run in Hp. destruct (current_of y3) as [q|] eqn:E; [|done]. by injection Hp as -> <-. }
  clear Hp Hk4. apply atomic_bind; [by intros z|]. intros data y5 _ [H5 _].
  apply atomic_bind; [apply keeping_lift|]. intros elf y6 _ [H6 _].
  apply atomic_bind; [apply keeping_root|]. intros root y7 _ [H7 _].
  intros e y'. erewrite bind_Ok; [|reflexivity]. unfold mbind at 1, stm_bind at 1, or_return, with_cr3, on_vm at 1.
  destruct (map_process_image user_code user_data random root elf data args _) as [[[[space ctx] n]|[e1|]] v]; [|intros [= _ <-]|done].
  2:{ split; [done|]. intros Ha. exact (page_floor_id _ Ha). }
  set (y8 := set_vm _ _). assert (current_of y8 = Some p) as Hcur8.
  { assert (machine y8 = machine y4) as Hm by (change (machine y8) with (machine y7); congruence). unfold current_of in *. by rewrite Hm. }
  erewrite bind_Ok; [|reflexivity]. cbv zeta. erewrite bind_Ok; [|by apply current_of_update].
  unfold on_machine, modify, request_exec_transition, mret, stm_ret, mbind, stm_bind.
  match goal with |- context [on_vm ?m ?z] => by destruct (on_vm m z) as [[?|[?|]] ?] end.
Qed.
End failed_execve.
