(* ===== verification/SyscallExamples.v ===== *)
(** System calls on a concrete machine: a process of the user ana with one page
    of data and an open file, the page tables of [Vm.FlatTables], and nine free
    frames.  The theorems of [Syscalls] and [SyscallSpecs] are applied to it. *)
From S2P Require Import Prelude RustStr Paths Auth Disk WarFS AuditLog Session FsCurrent Frames Elf Caps Process Exec Vm Loader Syscalls SyscallSpecs.
Open Scope Z_scope.

(** The data page holds a path and, further on, zeros; a page of the kernel is
    mapped in the upper half. *)
Definition play_text : bytes := str "/bin/none" ++ [x00] ++ str "some text".
Definition kernel_page : Z := 2 ^ 64 - 2 ^ 40.
Definition play_vm : Vm FlatTables :=
  mkVm 0x1000 0x1000
    (flat_set 0x1000 0x400000 (Some (0x2000, 7))
       (flat_set 0x1000 kernel_page (Some (0x20000, 3)) (mkFlat (fun _ _ => None) (fun _ => replicate 512 0))))
    (fun q => if q <? 0x2000 then x00 else default x00 (play_text !! Z.to_nat (q - 0x2000)))
    (Some small_frames) (Some 0) true true.

Definition play_space : AddressSpace :=
  mkAddressSpace [mkMemSegment 0x400000 0x1000 6] 0x10000000 0x10000000 0x60000000 0x7FFFF000 0x7FFFF000 0x60000000 0x1000.
Definition play_fds : FileDescriptorTable :=
  new_with_stdio ++ [Some (mkFd 3 (TargetFile (mkFileHandle hello_path 0 ReadOnlyAccess [])));
                     Some (mkFd 4 (TargetFile (mkFileHandle (str "/bin/new") 0 CreateWrite [])))].
Definition playing (p : Process) : Process := set_fd_table play_fds (set_address_space play_space p).

(** Process 1 runs; process 2 is its child. *)
Definition play_table (t : ProcessTable) : ProcessTable :=
  (create_process (kernel_process 0 1 (str "child") Ready Normal KernelShell [] 0 ana_shell) (pt_update 1 playing t)).2.
Definition play_machine : Machine () :=
  with_table play_table (mkMachine hello_kernel (exec ana_shell) tasks_new).
Definition play : System FlatTables () := mkSystem play_machine play_vm 0 0 0 [].

Definition play_process : Process := default (kernel_process 0 0 [] Ready Normal KernelShell [] 0 ana_shell) (current_of play).

Lemma play_current : current_of play = Some play_process.
Proof. vm_compute. reflexivity. Qed.

Lemma play_translate p :
  user_address p -> translate (CR3 play_vm) (page_tables play_vm) p = if p =? 0x400000 then Some (0x2000, 7) else None.
Proof.
  intros Hp. cbn. destruct (p =? 0x400000); [done|]. destruct (Z.eqb_spec p kernel_page); [|done].
  unfold user_address, USER_SPACE, kernel_page in *. lia.
Qed.

Lemma play_vm_ok : user_ok (usable_frame sample_map) {[2; 1]} play_vm.
Proof.
  split.
  - exists small_frames. split; [done|exact small_frames_ok].
  - intros p f fl Hp _. rewrite play_translate by done. destruct (p =? 0x400000); [|done]. intros [= <- <-]. split; [done|]. set_solver.
  - intros p q f fl fl' Hp _ Hq _. rewrite !play_translate by done.
    destruct (Z.eqb_spec p 0x400000), (Z.eqb_spec q 0x400000); congruence.
  - done.
Qed.

Lemma play_view a :
  user_address a ->
  view play_vm a = if page_floor a =? 0x400000 then Some (ram play_vm (0x2000 + a mod 4096), 7) else None.
Proof.
  intros Ha. unfold view, lookup_page. rewrite play_translate by (by apply page_floor_user). by destruct (_ =? _).
Qed.

Lemma play_page a : 0x400000 <= a < 0x401000 -> view play_vm a = Some (ram play_vm (a - 0x3FE000), 7).
Proof.
  intros Ha. rewrite play_view by (unfold user_address, USER_SPACE; lia).
  rewrite (page_floor_in 0x400000), Z.eqb_refl by (done || lia).
  assert (0x2000 + a mod 4096 = a - 0x3FE000) as ->; [|done].
  rewrite <- (Z.mod_unique_pos a 4096 1024 (a - 0x400000)) by lia. lia.
Qed.

Lemma play_buffer buffer len :
  0x400000 <= buffer -> 0 < len -> buffer + len <= 0x401000 ->
  buffer_ok (usable_frame sample_map) {[2; 1]} play play_process buffer len.
Proof.
  intros H1 H2 H3. split.
  - exact play_current.
  - exact play_vm_ok.
  - change (address_space play_process) with play_space. unfold contains_user_range. rewrite (proj2 (Z.eqb_neq _ _)) by lia.
    unfold checked_add at 1. rewrite (proj2 (Z.ltb_lt _ _)) by lia. rewrite (proj2 (Z.eqb_neq buffer 0)), (proj2 (Z.leb_gt _ _)) by lia.
    cbn [orb as_segments play_space existsb]. rewrite !orb_true_iff. right. left.
    change (range_within_region buffer (buffer + len) 0x400000 0x401000 = true).
    unfold range_within_region. rewrite !andb_true_iff, !Z.leb_le. lia.
  - unfold USER_SPACE. lia.
  - intros a Ha. eexists _, 7. split; [apply play_page; lia|done].
Qed.

(** ** Applications *)

Lemma checked_calls_confined_witness :
  let y' := (syscall_dispatch 1 1 0x33 0x2B 7 (fun _ => []) (fun _ _ => mret 0) 0 0 (fun _ => None) 0 3 0x400010 32 0 0 0 play).2 in
  page_tables (vm y') = page_tables play_vm /\ forall q, ram (vm y') q <> ram play_vm q -> callers_byte play q.
Proof.
  destruct (checked_calls_confined 1 1 0x33 0x2B 7 (fun _ => []) (fun _ _ => mret 0) 0 0 (fun _ => None) 0 3 0x400010 32 0 0 0 play)
    as (H1 & _ & _ & H2); [reflexivity|lia|lia|].
  split; [exact H1|exact H2].
Defined.

Lemma play_heap : heap_ok play_vm play_space.
Proof.
  assert (brk_align_up (brk play_space) = 0x10000000) as Hb by (vm_compute; reflexivity).
  split; rewrite ?Hb; cbn [initial_brk brk heap_limit stack_bottom play_space].
  - lia.
  - unfold USER_SPACE. lia.
  - reflexivity.
  - lia.
  - intros a Ha. rewrite play_view by (unfold user_address, USER_SPACE; lia).
    destruct (Z.eqb_spec (page_floor a) 0x400000) as [Hp|]; [|done]. pose proof (page_floor_near a). lia.
Qed.

Lemma play_free : free_of play_vm = 9.
Proof. vm_compute. reflexivity. Qed.

Lemma brk_all_or_nothing_witness : exists y', sys_brk 0x10001000 play = (Ok 0x10001000, y').
Proof.
  destruct (brk_all_or_nothing (usable_frame sample_map) {[2; 1]} play play_process 0x10001000)
    as (r & y' & p' & own' & R & _ & _ & _ & _ & _ & Hg).
  - exact play_current.
  - exact play_vm_ok.
  - discriminate.
  - exact play_heap.
  - lia.
  - exists y'. rewrite R. f_equal. f_equal. apply Hg.
    + change (address_space play_process) with play_space. cbn. lia.
    + change (address_space play_process) with play_space. change (vm play) with play_vm. rewrite play_free. cbn. lia.
Defined.

Lemma reads_return_the_file_witness : read_all 4 3 0x400010 64 play = Some hello_data.
Proof.
  refine (reads_return_the_file (usable_frame sample_map) {[2; 1]} play play_process 3 0x400010 64 hello_data 0 4 _ _ _).
  - split; [by apply play_buffer|lia| |vm_compute; split; discriminate|vm_compute; reflexivity].
    exists 3, hello_path, []. split; [vm_compute; reflexivity|]. exists hello_path. vm_compute. reflexivity.
  - lia.
  - vm_compute. discriminate.
Defined.

Lemma play_chunk : chunk_ok play_vm play_space (0x40000A, str "some text").
Proof.
  split; cbn [fst snd].
  - split; [lia|vm_compute; discriminate].
  - vm_compute. reflexivity.
  - intros i b Hi. apply lookup_lt_Some in Hi as Hlt. change (length (str "some text")) with 9%nat in Hlt.
    rewrite play_page by lia. cbn [fmap option_fmap option_map fst ram play_vm]. rewrite (proj2 (Z.ltb_ge _ _)) by lia.
    replace (Z.to_nat _) with (10 + i)%nat by lia. f_equal. change play_text with (take 10 play_text ++ str "some text").
    rewrite lookup_app_r by (vm_compute; lia). replace (10 + i - length (take 10 play_text))%nat with i by (vm_compute length; lia).
    by rewrite Hi.
Qed.

Lemma play_fs : fs_ok (fs (FILESYSTEM (kernel (machine play)))).
Proof.
  change (kernel (machine play)) with hello_kernel. split.
  - repeat constructor.
  - constructor; [|constructor]. split; [apply canonical_iff; vm_compute; reflexivity|discriminate].
  - constructor; [|constructor]. vm_compute. discriminate.
  - vm_compute. discriminate.
  - vm_compute. discriminate.
  - reflexivity.
Qed.

Definition play_chunks : list (Z * bytes) := [(0x40000A, str "some text"); (0x40000A, str "some text")].
Lemma play_create : exists r k',
  create_new_current 1 1 (str "/bin/new") (concat (map snd play_chunks)) (kernel (machine play)) = (Ok r, k').
Proof.
  assert (exists r, (create_new_current 1 1 (str "/bin/new") (concat (map snd play_chunks)) (kernel (machine play))).1 = Ok r) as [r Hr]
    by (eexists; vm_compute; reflexivity).
  exists r. destruct (create_new_current _ _ _ _ _) as [r' k']. exists k'. cbn [fst] in Hr. by rewrite Hr.
Qed.

Lemma play_canonical : canonical (str "/bin/new").
Proof. apply canonical_iff. vm_compute. reflexivity. Qed.
Lemma play_chunks_ok : Forall (chunk_ok (vm play) (address_space play_process)) play_chunks.
Proof. constructor; [|constructor; [|constructor]]; exact play_chunk. Qed.
Lemma play_chunks_fit : blen (concat (map snd play_chunks)) <= MAX_FILE_SIZE.
Proof. vm_compute. discriminate. Qed.
Lemma play_writing : writing (usable_frame sample_map) {[2; 1]} play play_process 4 (str "/bin/new") [].
Proof. split; [exact play_current|exact play_vm_ok|lia|]. exists 4. vm_compute. reflexivity. Qed.

Lemma written_file_appears_witness :
  exists y2 p2, sys_close 1 1 4 (write_all 4 play_chunks play) = (Ok 0, y2) /\
    current_of y2 = Some p2 /\ fd_get 4 (fd_table p2) = None /\
    (read_current (str "/bin/new") (kernel (machine y2))).1 = Ok (str "/bin/new", str "some textsome text").
Proof.
  pose proof (written_file_appears (usable_frame sample_map) 1 1 {[2; 1]} play play_process 4 (str "/bin/new") play_chunks
                play_canonical play_fs play_writing play_chunks_ok play_chunks_fit) as [_ H].
  destruct play_create as (r & k' & E). rewrite E in H. destruct H as (y2 & p2 & R & Hk & Hc & Hf & Hr).
  exists y2, p2. split; [exact R|]. split; [exact Hc|]. split; [exact Hf|]. rewrite Hk.
  exact (f_equal fst Hr).
Defined.

Lemma play_zeros : holds play_vm 0x400800 (replicate 16 x00).
Proof.
  assert (length play_text = 19%nat) as Hlen by (vm_compute; reflexivity).
  intros i b Hi. apply lookup_replicate in Hi as [-> Hi]. rewrite play_page by lia.
  cbn [fmap option_fmap option_map fst ram play_vm]. rewrite (proj2 (Z.ltb_ge _ _)) by lia.
  rewrite (lookup_ge_None_2 play_text) by lia. reflexivity.
Qed.

Lemma nanosleep_terminates_witness :
  sys_nanosleep (fun _ => None) 0x400800 play = (Ok 0, play) /\ (exists turns, sleep_loop 1 (fun _ => None) 0 1 = Some turns).
Proof.
  assert (sleep_ticks (signed_word (field 0 8 (replicate 16 x00))) (signed_word (field 8 8 (replicate 16 x00))) = 1) as Hticks
    by (vm_compute; reflexivity).
  destruct (nanosleep_terminates (fun _ => None) 0x400800 (replicate 16 x00) play) as [H1 (turns & H2 & _)].
  - lia.
  - unfold USER_SPACE. lia.
  - reflexivity.
  - exact play_zeros.
  - rewrite Hticks in H2. split; [exact H1|exists turns; exact H2].
Defined.

(** The child runs and calls [exit]; then its parent runs again. *)
Definition child_runs : System FlatTables () := set_machine (make_current (Some 2) play_machine) play.
Definition parent_again (code : Z) : System FlatTables () :=
  set_machine (make_current (Some 1) (machine (sys_exit 1 code child_runs).2)) play.

Lemma child_pids : map pid (processes (PROCESS_TABLE (exec (machine child_runs)))) = [1; 2].
Proof. vm_compute. reflexivity. Qed.

Lemma exit_status_reaches_parent_witness :
  exists y3, sys_wait4 2 0x400100 0 (parent_again 7) = (Ok 2, y3) /\ holds (vm y3) 0x400100 (le_bytes 4 0x700) /\
    sys_wait4 2 0x400100 0 y3 = (Err (Raised ECHILD), y3).
Proof.
  destruct (current_of child_runs) as [child|] eqn:Ec; [|vm_compute in Ec; discriminate].
  assert (pid child = 2 /\ parent_pid child = 1) as [Hpid Hpar].
  { assert (pid <$> current_of child_runs = Some 2) as E1 by (vm_compute; reflexivity).
    assert (parent_pid <$> current_of child_runs = Some 1) as E2 by (vm_compute; reflexivity).
    rewrite Ec in E1, E2. injection E1. injection E2. done. }
  destruct (exit_status_reaches_parent (usable_frame sample_map) 1 {[2; 1]} child_runs child play_process 7 (parent_again 7) 0x400100)
    as (y3 & R & Hh & _ & _ & Hagain); [exact Ec| | | | | | | |].
  - rewrite child_pids. repeat constructor; rewrite ?elem_of_cons, ?elem_of_nil; lia.
  - rewrite (Forall_pid_map (fun z => 0 <= z < 2 ^ 31)), child_pids. repeat constructor; lia.
  - lia.
  - reflexivity.
  - destruct (play_buffer 0x400100 4) as [_ H2 H3 H4 H5]; [lia|lia|lia|].
    split; [vm_compute; reflexivity|exact H2|exact H3|exact H4|exact H5].
  - rewrite Hpar. vm_compute. reflexivity.
  - lia.
  - rewrite Hpid in R, Hagain. exists y3. split; [exact R|]. split; [exact Hh|exact Hagain].
Defined.

Lemma mmap_readonly_panics_witness : exists y', sys_mmap 100 1 MAP_ANONYMOUS play = (Err Panicked, y').
Proof.
  apply (mmap_readonly_panics (usable_frame sample_map) {[2; 1]} play play_process 100 1 MAP_ANONYMOUS).
  - exact play_current.
  - exact play_vm_ok.
  - discriminate.
  - reflexivity.
  - change (vm play) with play_vm. rewrite play_free. lia.
  - vm_compute. discriminate.
  - reflexivity.
  - unfold USER_SPACE. lia.
  - vm_compute. reflexivity.
  - vm_compute. reflexivity.
  - vm_compute. discriminate.
  - vm_compute. discriminate.
  - vm_compute. reflexivity.
Defined.

Lemma clock_gettime_writes_anywhere_witness :
  contains_user_range kernel_page 16 play_space = false /\
  exists m, sys_clock_gettime 5000 1 kernel_page play = (Ok 0, set_vm (set_ram m play_vm) play) /\ m 0x20000 = x05.
Proof.
  split; [vm_compute; reflexivity|].
  destruct (clock_gettime_writes_anywhere 5000 1 kernel_page 0x20000 3 play) as (m & R & H).
  - reflexivity.
  - unfold kernel_page. lia.
  - vm_compute. discriminate.
  - vm_compute. reflexivity.
  - reflexivity.
  - exists m. split; [exact R|]. exact (H O x05 ltac:(vm_compute; reflexivity)).
Defined.

Lemma failed_execve_changes_nothing_witness :
  exists y', sys_execve 1 0x33 0x2B 7 0x400000 0 play = (Err (Raised ENOENT), y') /\ untouched play y'.
Proof.
  destruct (sys_execve 1 0x33 0x2B 7 0x400000 0 play) as [r y'] eqn:E.
  assert (r = Err (Raised ENOENT)) as -> by (apply (f_equal fst) in E; vm_compute in E; by rewrite <- E).
  exists y'. split; [reflexivity|]. exact (failed_execve_changes_nothing 1 0x33 0x2B 7 0x400000 0 play ENOENT y' E).
Defined.
