(* ===== verification/PkgBundle.v ===== *)
(** * Signed package bundles (crates/waros-pkg/src/lib.rs)

    The format of a package: a manifest, the digests of its payloads and a
    signature over both, and the payloads themselves.  The hash functions, the
    signature scheme (ML-DSA) and the JSON encoder are third-party code: they
    are the classes [Json] and [MlDsa] and the arguments [sha256] and
    [sha3_256]. *)
From S2P Require Import Prelude RustStr.

(** ** Third-party code *)

(** [serde_json] on a type with a derived implementation. *)
Class Json (A : Type) : Type := {
  to_vec : A -> result () bytes;
  from_slice : bytes -> result () A;
}.
(** Derived encoders do not fail on strings, numbers, lists and options, and
    the derived decoder reads back what they wrote. *)
Class JsonOk (A : Type) `{Json A} : Prop :=
  json_roundtrip : forall x : A, exists bs, to_vec x = Ok bs /\ from_slice bs = Ok x.

(** The crate [ml_dsa], parameter set ML-DSA-65. *)
Class MlDsa : Type := {
  VerifyingKey : Type;
  Signature : Type;
  Seed : Type;
  decode_verifying_key : bytes -> option VerifyingKey;
  encode_verifying_key : VerifyingKey -> bytes;
  decode_signature : bytes -> option Signature;
  encode_signature : Signature -> bytes;
  decode_seed : bytes -> option Seed;
  verifying_key : Seed -> VerifyingKey;
  ml_dsa_sign : Seed -> bytes -> Signature;
  ml_dsa_verify : VerifyingKey -> bytes -> Signature -> bool;
}.
(** What a signature scheme promises: encodings are read back and are not
    empty, and the holder of the key signs what its public key verifies. *)
Class MlDsaOk `{MlDsa} : Prop := {
  decode_encode_key : forall k, decode_verifying_key (encode_verifying_key k) = Some k;
  decode_encode_signature : forall s, decode_signature (encode_signature s) = Some s;
  encode_signature_not_nil : forall s, encode_signature s <> [];
  sign_verifies : forall seed m, ml_dsa_verify (verifying_key seed) m (ml_dsa_sign seed m) = true;
}.

(** ** Data *)

Record ManifestFile : Type := mkManifestFile {
  mf_path : bytes;
  mf_source : bytes;
  mf_executable : bool;
  mf_size : Z;
}.
Record Manifest : Type := mkManifest {
  ma_name : bytes;
  ma_version : bytes;
  ma_description : bytes;
  ma_author : bytes;
  ma_license : bytes;
  ma_files : list ManifestFile;
  ma_dependencies : list bytes;
  ma_min_waros_version : bytes;
  ma_category : bytes;
}.
Record WarPackPayload : Type := mkPayload { pa_source : bytes; pa_contents : bytes }.
Record PayloadDigest : Type := mkDigest { dg_source : bytes; dg_size : Z; dg_sha3_256 : bytes }.
Record SignatureEnvelope : Type := mkEnvelope { sg_scheme : bytes; sg_key_id : bytes; sg_signature : bytes }.
Record SignedManifest : Type := mkSigned {
  sm_manifest : Manifest;
  sm_payloads : list PayloadDigest;
  sm_signature : SignatureEnvelope;
}.
Record WarPackBundle : Type := mkBundle {
  wb_signed_manifest : SignedManifest;
  wb_payloads : list WarPackPayload;
}.
Record TrustRoot : Type := mkRoot { tr_key_id : bytes; tr_scheme : bytes; tr_public_key_hex : bytes }.
(** The signed part of a bundle, in the order it is encoded. *)
Record CanonicalSignedManifest : Type := mkCanonical { cm_manifest : Manifest; cm_payloads : list PayloadDigest }.

Inductive VerifyError : Type :=
| SignatureMissing
| UnsupportedSignatureScheme
| UnknownTrustRoot
| InvalidPublicKey
| InvalidSignatureEncoding
| SignatureMismatch
| CanonicalEncodingFailed
| DuplicatePayload (source : bytes)
| PayloadMissing (source : bytes)
| UnexpectedPayload (source : bytes)
| PayloadDigestMismatch (source : bytes)
| PayloadSizeMismatch (source : bytes)
| FilePayloadMissing (source : bytes)
| FileSizeMismatch (path : bytes).

Inductive SignError : Type :=
| SignUnsupportedScheme
| InvalidSecretKey
| SignEncodingFailed.

Definition WARPKG_SIGNATURE_SCHEME : bytes := str "ml-dsa-dilithium3-v1".
Definition WARPKG_BOOTSTRAP_KEY_ID : bytes := str "waros-bootstrap-root-v1".
Definition SIGNING_DOMAIN : bytes := str "WarPkgSignedManifest-v1" ++ [x00].

(** ** Hexadecimal text *)

Definition hex_digit (value : Z) : byte :=
  let v := Z.land value 15 in
  if v <=? 9 then bofZ (48 + v) else bofZ (97 + (v - 10)).
Definition decode_digit (value : byte) : option Z :=
  let v := bval value in
  if (48 <=? v) && (v <=? 57) then Some (v - 48)
  else if (97 <=? v) && (v <=? 102) then Some (v - 97 + 10)
  else if (65 <=? v) && (v <=? 70) then Some (v - 65 + 10)
  else None.

Definition hex_encode (bs : bytes) : bytes :=
  concat (map (fun b => [hex_digit (Z.shiftr (bval b) 4); hex_digit (Z.land (bval b) 15)]) bs).

(** The loop of [parse_hex], two digits at a time. *)
Fixpoint parse_pairs (bs : bytes) : option bytes :=
  match bs with
  | [] => Some []
  | [_] => None
  | a :: b :: rest =>
      high ← decode_digit a; low ← decode_digit b; out ← parse_pairs rest;
      Some (bofZ (Z.lor (Z.shiftl high 4) low) :: out)
  end.
Definition parse_hex (text : bytes) : option bytes :=
  let bs := trim text in
  if negb (blen bs mod 2 =? 0) then None else parse_pairs bs.

(** ** Digests and signatures *)

Section bundle.
Context (sha256 sha3_256 : bytes -> bytes).
Context `{Json CanonicalSignedManifest, MlDsa}.

Definition sha256_hex (payload : bytes) : bytes := hex_encode (sha256 payload).
Definition sha3_256_hex (payload : bytes) : bytes := hex_encode (sha3_256 payload).

Definition canonical_signed_message (manifest : Manifest) (payloads : list PayloadDigest) : result VerifyError bytes :=
  json ← map_err (fun _ => CanonicalEncodingFailed) (to_vec (mkCanonical manifest payloads));
  Ok (SIGNING_DOMAIN ++ json).

Definition sign_manifest (manifest : Manifest) (payloads : list PayloadDigest) (key_id scheme secret_key_hex : bytes) :
    result SignError SignatureEnvelope :=
  if bool_decide (scheme <> WARPKG_SIGNATURE_SCHEME) then Err SignUnsupportedScheme
  else
    message ← map_err (fun _ => SignEncodingFailed) (canonical_signed_message manifest payloads);
    secret_key_bytes ← ok_or (parse_hex secret_key_hex) InvalidSecretKey;
    secret_seed ← ok_or (decode_seed secret_key_bytes) InvalidSecretKey;
    Ok (mkEnvelope scheme key_id (hex_encode (encode_signature (ml_dsa_sign secret_seed message)))).

Definition payload_digests (payloads : list WarPackPayload) : list PayloadDigest :=
  map (fun p => mkDigest (pa_source p) (blen (pa_contents p)) (sha3_256_hex (pa_contents p))) payloads.

Definition source_is (source : bytes) (p : WarPackPayload) : bool := bool_decide (pa_source p = source).
Definition digest_source_is (source : bytes) (d : PayloadDigest) : bool := bool_decide (dg_source d = source).

(** The bodies of the three loops of [validate_payloads]. *)
Definition check_digest (bundle : WarPackBundle) (digest : PayloadDigest) (seen : list bytes) :
    result VerifyError (list bytes) :=
  if bool_decide (dg_source digest ∈ seen) then Err (DuplicatePayload (dg_source digest))
  else
    payload ← ok_or (find_first (source_is (dg_source digest)) (wb_payloads bundle))
                    (PayloadMissing (dg_source digest));
    if negb (blen (pa_contents payload) =? dg_size digest) then Err (PayloadSizeMismatch (dg_source digest))
    else if bool_decide (sha3_256_hex (pa_contents payload) <> dg_sha3_256 digest)
    then Err (PayloadDigestMismatch (dg_source digest))
    else Ok (seen ++ [dg_source digest]).
Definition check_payload (bundle : WarPackBundle) (payload : WarPackPayload) (seen : list bytes) :
    result VerifyError (list bytes) :=
  if bool_decide (pa_source payload ∈ seen) then Err (DuplicatePayload (pa_source payload))
  else if negb (existsb (digest_source_is (pa_source payload)) (sm_payloads (wb_signed_manifest bundle)))
  then Err (UnexpectedPayload (pa_source payload))
  else Ok (seen ++ [pa_source payload]).
Definition check_file (bundle : WarPackBundle) (file : ManifestFile) (_ : ()) : result VerifyError () :=
  digest ← ok_or (find_first (digest_source_is (mf_source file)) (sm_payloads (wb_signed_manifest bundle)))
                 (FilePayloadMissing (mf_source file));
  if negb (dg_size digest =? mf_size file) then Err (FileSizeMismatch (mf_path file)) else Ok ().

Definition validate_payloads (bundle : WarPackBundle) : result VerifyError () :=
  _ ← foldR (check_digest bundle) (sm_payloads (wb_signed_manifest bundle)) [];
  _ ← foldR (check_payload bundle) (wb_payloads bundle) [];
  foldR (check_file bundle) (ma_files (sm_manifest (wb_signed_manifest bundle))) ().

Definition verify_bundle (bundle : WarPackBundle) (root : TrustRoot) : result VerifyError () :=
  let signed := wb_signed_manifest bundle in
  let signature := sm_signature signed in
  if bool_decide (sg_signature signature = []) then Err SignatureMissing
  else if bool_decide (sg_scheme signature <> tr_scheme root) then Err UnsupportedSignatureScheme
  else if bool_decide (sg_key_id signature <> tr_key_id root) then Err UnknownTrustRoot
  else
    _ ← validate_payloads bundle;
    public_key_bytes ← ok_or (parse_hex (tr_public_key_hex root)) InvalidPublicKey;
    signature_bytes ← ok_or (parse_hex (sg_signature signature)) InvalidSignatureEncoding;
    public_key ← ok_or (decode_verifying_key public_key_bytes) InvalidPublicKey;
    message ← canonical_signed_message (sm_manifest signed) (sm_payloads signed);
    signature ← ok_or (decode_signature signature_bytes) InvalidSignatureEncoding;
    if ml_dsa_verify public_key message signature then Ok () else Err SignatureMismatch.

(** [bootstrap_pk_hex] is the text of [bootstrap_root_v1.pk.hex]. *)
Context (bootstrap_pk_hex : bytes).
Definition embedded_bootstrap_root : TrustRoot :=
  mkRoot WARPKG_BOOTSTRAP_KEY_ID WARPKG_SIGNATURE_SCHEME bootstrap_pk_hex.
Definition verify_bundle_with_embedded_root (bundle : WarPackBundle) : result VerifyError () :=
  verify_bundle bundle embedded_bootstrap_root.
End bundle.

(** ** Hexadecimal text is read back *)

(** A decidable property of the sixteen digits, by evaluation. *)
Lemma nibble_check (P : Z -> bool) v : forallb P (seqZ 0 16) = true -> 0 <= v < 16 -> P v = true.
Proof.
  intros Hall Hv. rewrite forallb_forall in Hall. apply Hall.
  apply list_elem_of_In, elem_of_seqZ. lia.
Qed.

Lemma decode_hex_digit v : 0 <= v < 16 -> decode_digit (hex_digit v) = Some v.
Proof.
  set (P := fun v => match decode_digit (hex_digit v) with Some x => x =? v | None => false end).
  intros Hv. assert (P v = true) as Hd by (apply nibble_check; [vm_compute; reflexivity|done]).
  unfold P in Hd. destruct (decode_digit _); [|done]. apply Z.eqb_eq in Hd. by subst.
Qed.

Lemma hex_digit_text v : 0 <= v < 16 ->
  heads_none whitespace_encodings (hex_digit v) = true /\
  heads_none (map reverse whitespace_encodings) (hex_digit v) = true.
Proof.
  intros Hv. apply andb_true_iff.
  apply (nibble_check (fun v => heads_none whitespace_encodings (hex_digit v) &&
    heads_none (map reverse whitespace_encodings) (hex_digit v))); [vm_compute; reflexivity|done].
Qed.

Lemma high_nibble b : 0 <= Z.shiftr (bval b) 4 < 16.
Proof.
  rewrite Z.shiftr_div_pow2 by lia. pose proof (bval_range b). change (2 ^ 4) with 16.
  split; [apply Z.div_pos; lia|apply Z.div_lt_upper_bound; lia].
Qed.
Lemma low_nibble b : 0 <= Z.land (bval b) 15 < 16.
Proof.
  change 15 with (Z.ones 4). rewrite Z.land_ones by lia. apply Z.mod_pos_bound. lia.
Qed.
Lemma nibbles_byte b : bofZ (Z.lor (Z.shiftl (Z.shiftr (bval b) 4) 4) (Z.land (bval b) 15)) = b.
Proof. destruct b; reflexivity. Qed.

Lemma parse_pairs_encode bs : parse_pairs (hex_encode bs) = Some bs.
Proof.
  induction bs as [|b bs IH]; [done|]. unfold hex_encode in *. cbn [map concat app parse_pairs].
  rewrite !decode_hex_digit by auto using high_nibble, low_nibble. simpl.
  rewrite IH. simpl. by rewrite nibbles_byte.
Qed.

Lemma length_hex_encode bs : length (hex_encode bs) = (2 * length bs)%nat.
Proof. induction bs as [|b bs IH]; [done|]. unfold hex_encode in *. cbn. rewrite IH. lia. Qed.

Lemma trim_hex bs : trim (hex_encode bs) = hex_encode bs.
Proof.
  destruct bs as [|b bs]; [done|].
  destruct (last (hex_encode (b :: bs))) as [c|] eqn:El.
  - change (hex_encode (b :: bs)) with
      (hex_digit (Z.shiftr (bval b) 4) :: hex_digit (Z.land (bval b) 15) :: hex_encode bs) at 1.
    apply (trim_id _ _ c); [apply hex_digit_text, high_nibble| |exact El].
    clear -El. destruct (exists_last (l := b :: bs)) as (l & x & Hl); [done|].
    rewrite Hl in El. unfold hex_encode in El. rewrite map_app, concat_app in El. cbn in El.
    replace (concat _ ++ _) with ((concat (map (fun b => [hex_digit (Z.shiftr (bval b) 4);
      hex_digit (Z.land (bval b) 15)]) l) ++ [hex_digit (Z.shiftr (bval x) 4)]) ++ [hex_digit (Z.land (bval x) 15)])
      in El by (by rewrite <- app_assoc).
    rewrite last_snoc in El. simplify_eq. apply hex_digit_text, low_nibble.
  - apply last_None in El. done.
Qed.

(** Hexadecimal text is read back as the bytes it was made from. *)
Lemma hex_roundtrip bs : parse_hex (hex_encode bs) = Some bs.
Proof.
  unfold parse_hex. rewrite trim_hex. unfold blen. rewrite length_hex_encode.
  replace (Z.of_nat (2 * length bs) mod 2 =? 0) with true; [apply parse_pairs_encode|].
  symmetry. apply Z.eqb_eq. rewrite Nat2Z.inj_mul, Z.mul_comm. apply Z.mod_mul. lia.
Qed.

Lemma hex_encode_inj a b : hex_encode a = hex_encode b -> a = b.
Proof. intros E. apply (f_equal parse_hex) in E. rewrite !hex_roundtrip in E. by simplify_eq. Qed.

(** ** What an accepted bundle is *)

Section accepted.
Context (sha3_256 : bytes -> bytes).
Context `{Json CanonicalSignedManifest, MlDsa}.

(** The payloads are the signed ones: each signed digest is the digest of the
    payload of that name, no name occurs twice, no payload is unsigned, and each
    file of the manifest is one of the payloads, with its size. *)
Record payloads_ok (bundle : WarPackBundle) : Prop := mkPayloadsOk {
  po_signed : NoDup (map dg_source (sm_payloads (wb_signed_manifest bundle)));
  po_payloads : NoDup (map pa_source (wb_payloads bundle));
  po_digests : forall d, d ∈ sm_payloads (wb_signed_manifest bundle) ->
    exists p, p ∈ wb_payloads bundle /\ pa_source p = dg_source d /\ blen (pa_contents p) = dg_size d /\
      hex_encode (sha3_256 (pa_contents p)) = dg_sha3_256 d;
  po_expected : forall p, p ∈ wb_payloads bundle ->
    pa_source p ∈ map dg_source (sm_payloads (wb_signed_manifest bundle));
  po_files : forall f, f ∈ ma_files (sm_manifest (wb_signed_manifest bundle)) ->
    exists d, d ∈ sm_payloads (wb_signed_manifest bundle) /\ dg_source d = mf_source f /\ dg_size d = mf_size f;
}.

Lemma source_is_spec s p : source_is s p = true <-> pa_source p = s.
Proof. apply bool_decide_eq_true. Qed.
Lemma digest_source_is_spec s d : digest_source_is s d = true <-> dg_source d = s.
Proof. apply bool_decide_eq_true. Qed.

Lemma existsb_key {A} (key : A -> bytes) s l :
  existsb (fun x => bool_decide (key x = s)) l = true <-> s ∈ map key l.
Proof.
  rewrite existsb_exists, list_elem_of_fmap. setoid_rewrite bool_decide_eq_true.
  setoid_rewrite <- list_elem_of_In. naive_solver.
Qed.

Lemma check_digest_Ok b d seen r :
  check_digest sha3_256 b d seen = Ok r <->
  r = seen ++ [dg_source d] /\ dg_source d ∉ seen /\
  exists p, find_first (source_is (dg_source d)) (wb_payloads b) = Some p /\ blen (pa_contents p) = dg_size d /\
    hex_encode (sha3_256 (pa_contents p)) = dg_sha3_256 d.
Proof.
  unfold check_digest, sha3_256_hex. case_bool_decide; [naive_solver|].
  destruct (find_first _ _) as [p|]; simpl; [|naive_solver].
  destruct (Z.eqb_spec (blen (pa_contents p)) (dg_size d)); simpl; [|naive_solver].
  case_bool_decide; naive_solver.
Qed.

Lemma check_payload_Ok b p seen r :
  check_payload b p seen = Ok r <->
  r = seen ++ [pa_source p] /\ pa_source p ∉ seen /\ pa_source p ∈ map dg_source (sm_payloads (wb_signed_manifest b)).
Proof.
  unfold check_payload. case_bool_decide; [naive_solver|]. rewrite <- existsb_key.
  unfold digest_source_is. destruct (existsb _ _); simpl; naive_solver.
Qed.

Lemma check_file_Ok b f :
  check_file b f () = Ok () <->
  exists d, find_first (digest_source_is (mf_source f)) (sm_payloads (wb_signed_manifest b)) = Some d /\
    dg_size d = mf_size f.
Proof.
  unfold check_file. destruct (find_first _ _) as [d|]; simpl; [|naive_solver].
  destruct (Z.eqb_spec (dg_size d) (mf_size f)); naive_solver.
Qed.

Lemma find_source_iff b s p : NoDup (map pa_source (wb_payloads b)) ->
  find_first (source_is s) (wb_payloads b) = Some p <-> p ∈ wb_payloads b /\ pa_source p = s.
Proof. apply find_key_Some. intros y. apply source_is_spec. Qed.

Lemma source_unique b p q : NoDup (map pa_source (wb_payloads b)) ->
  p ∈ wb_payloads b -> q ∈ wb_payloads b -> pa_source p = pa_source q -> p = q.
Proof.
  intros Hnd Hp Hq E. pose proof (proj2 (find_source_iff b _ p Hnd) (conj Hp eq_refl)) as E1.
  pose proof (proj2 (find_source_iff b _ q Hnd) (conj Hq eq_refl)) as E2. congruence.
Qed.

Lemma validate_payloads_iff b : validate_payloads sha3_256 b = Ok () <-> payloads_ok b.
Proof.
  unfold validate_payloads. rewrite result_bind_Ok.
  transitivity ((exists r, foldR (check_digest sha3_256 b) (sm_payloads (wb_signed_manifest b)) [] = Ok r) /\
    (exists r, foldR (check_payload b) (wb_payloads b) [] = Ok r) /\
    foldR (check_file b) (ma_files (sm_manifest (wb_signed_manifest b))) () = Ok ()).
  { setoid_rewrite result_bind_Ok. naive_solver. }
  rewrite (foldR_seen dg_source _ _ _ _ (check_digest_Ok b)), (foldR_seen pa_source _ _ _ _ (check_payload_Ok b)).
  rewrite foldR_all. setoid_rewrite check_file_Ok. split.
  - intros ((Hd & Hds) & (Hp & Hps) & Hf). split; [done|done| | |].
    + intros d Hin. destruct (Hds d Hin) as (_ & p & Hfi & ?). apply find_source_iff in Hfi; [|done].
      exists p. naive_solver.
    + intros p Hin. by apply Hps.
    + intros f Hin. destruct (Hf f Hin) as (d & Hfi & ?).
      apply (find_key_Some dg_source _ _ (digest_source_is_spec _)) in Hfi; [|done]. naive_solver.
  - intros [Hd Hp Hds Hps Hf]. split_and!; [done| |done| |].
    + intros d Hin. split; [apply not_elem_of_nil|]. destruct (Hds d Hin) as (p & Hpin & Hsrc & ?).
      exists p. split; [|done]. by apply find_source_iff.
    + intros p Hin. split; [apply not_elem_of_nil|by apply Hps].
    + intros f Hin. destruct (Hf f Hin) as (d & Hdin & Hsrc & ?). exists d. split; [|done].
      by apply (find_key_Some dg_source _ _ (digest_source_is_spec _)).
Qed.

(** The bundle carries a signature of [root] over its manifest and digests. *)
Definition signed_by_root (bundle : WarPackBundle) (root : TrustRoot) : Prop :=
  let signed := wb_signed_manifest bundle in
  sg_signature (sm_signature signed) <> [] /\ sg_scheme (sm_signature signed) = tr_scheme root /\
  sg_key_id (sm_signature signed) = tr_key_id root /\
  exists pk key sb sig json,
    parse_hex (tr_public_key_hex root) = Some pk /\ decode_verifying_key pk = Some key /\
    parse_hex (sg_signature (sm_signature signed)) = Some sb /\ decode_signature sb = Some sig /\
    to_vec (mkCanonical (sm_manifest signed) (sm_payloads signed)) = Ok json /\
    ml_dsa_verify key (SIGNING_DOMAIN ++ json) sig = true.

(** A bundle is accepted exactly when the root signed its manifest and digests
    and its payloads are the ones with these digests. *)
Lemma verify_bundle_iff b root :
  verify_bundle sha3_256 b root = Ok () <-> signed_by_root b root /\ payloads_ok b.
Proof.
  unfold verify_bundle, signed_by_root, canonical_signed_message. rewrite <- validate_payloads_iff.
  do 3 (case_bool_decide; [naive_solver|]).
  destruct (validate_payloads sha3_256 b) as [[]|] eqn:Ev; simpl; [|naive_solver].
  destruct (parse_hex (tr_public_key_hex root)) as [pk|]; simpl; [|naive_solver].
  destruct (parse_hex (sg_signature _)) as [sb|]; simpl; [|naive_solver].
  destruct (decode_verifying_key pk) as [key|] eqn:Ek; simpl; [|naive_solver].
  destruct (to_vec _) as [json|] eqn:Ej; simpl; [|naive_solver].
  destruct (decode_signature sb) as [sig|] eqn:Es; simpl; [|naive_solver].
  destruct (ml_dsa_verify _ _ _) eqn:Em; [|split; [done|]; intros [(_ & _ & _ & pk' & ? & ? & ? & ? & ?) _]; destruct_and!; congruence].
  split; [|done]. intros _. split; [|done]. split_and!; [done|apply dec_stable; tauto|apply dec_stable; tauto|].
  exists pk, key, sb, sig, json. done.
Qed.
End accepted.

(** ** Signing and verifying *)

Section signing.
Context (sha3_256 : bytes -> bytes).
Context `{JsonOk CanonicalSignedManifest, MlDsaOk}.

(** A bundle as a packager builds it: digests computed from the payloads. *)
Definition built_bundle (manifest : Manifest) (payloads : list WarPackPayload) (envelope : SignatureEnvelope) :
    WarPackBundle :=
  mkBundle (mkSigned manifest (payload_digests sha3_256 payloads) envelope) payloads.

(** A manifest lists payloads of the bundle, with their sizes. *)
Definition files_of_payloads (manifest : Manifest) (payloads : list WarPackPayload) : Prop :=
  forall f, f ∈ ma_files manifest ->
    exists p, p ∈ payloads /\ pa_source p = mf_source f /\ blen (pa_contents p) = mf_size f.

Lemma digests_sources ps : map dg_source (payload_digests sha3_256 ps) = map pa_source ps.
Proof. unfold payload_digests. by rewrite map_map. Qed.

Lemma built_payloads_ok manifest ps envelope :
  NoDup (map pa_source ps) -> files_of_payloads manifest ps ->
  payloads_ok sha3_256 (built_bundle manifest ps envelope).
Proof.
  intros Hnd Hf. split; cbn.
  - by rewrite digests_sources.
  - done.
  - intros d (p & -> & Hp)%list_elem_of_fmap. by exists p.
  - intros p Hp. rewrite digests_sources. by apply list_elem_of_fmap_2.
  - intros f (p & Hp & <- & <-)%Hf. exists (mkDigest (pa_source p) (blen (pa_contents p)) (sha3_256_hex sha3_256 (pa_contents p))).
    split; [|done]. unfold payload_digests. apply list_elem_of_fmap. by exists p.
Qed.

(** A packager that signs with the seed behind the trust root gets a bundle
    the kernel accepts: [sign_manifest] succeeds, and [verify_bundle] returns
    [Ok] on the result. *)
Theorem signed_bundle_accepted manifest ps key_id seed_hex seed_bytes seed :
  parse_hex seed_hex = Some seed_bytes -> decode_seed seed_bytes = Some seed ->
  NoDup (map pa_source ps) -> files_of_payloads manifest ps ->
  exists envelope,
    sign_manifest manifest (payload_digests sha3_256 ps) key_id WARPKG_SIGNATURE_SCHEME seed_hex = Ok envelope /\
    verify_bundle sha3_256 (built_bundle manifest ps envelope)
      (mkRoot key_id WARPKG_SIGNATURE_SCHEME (hex_encode (encode_verifying_key (verifying_key seed)))) = Ok ().
Proof.
  intros Hhex Hseed Hnd Hf.
  destruct (json_roundtrip (mkCanonical manifest (payload_digests sha3_256 ps))) as (json & Hj & _).
  unfold sign_manifest, canonical_signed_message. rewrite bool_decide_false by tauto.
  rewrite Hj, Hhex. cbn. rewrite Hseed. cbn. eexists. split; [reflexivity|].
  apply verify_bundle_iff. split; [|by apply built_payloads_ok].
  unfold signed_by_root. cbn. split_and!; [|done|done|].
  - intros Hnil. apply (f_equal length) in Hnil. rewrite length_hex_encode in Hnil.
    match type of Hnil with (2 * length (encode_signature ?s))%nat = _ => apply (encode_signature_not_nil s) end.
    apply length_zero_iff_nil. change (length []) with O in Hnil. lia.
  - do 5 eexists. rewrite !hex_roundtrip, decode_encode_key, decode_encode_signature, Hj.
    split_and!; try reflexivity. apply sign_verifies.
Qed.

(** Whatever else two accepted bundles contain, the files of the same name in
    their payloads have the same size and hash when the signed part is the same. *)
Theorem signature_fixes_payloads b b' root p p' :
  verify_bundle sha3_256 b root = Ok () -> verify_bundle sha3_256 b' root = Ok () ->
  sm_payloads (wb_signed_manifest b) = sm_payloads (wb_signed_manifest b') ->
  p ∈ wb_payloads b -> p' ∈ wb_payloads b' -> pa_source p = pa_source p' ->
  blen (pa_contents p) = blen (pa_contents p') /\ sha3_256 (pa_contents p) = sha3_256 (pa_contents p').
Proof.
  intros [_ Hb]%verify_bundle_iff [_ Hb']%verify_bundle_iff Hs Hp Hp' Hsrc.
  pose proof (po_expected _ _ Hb p Hp) as (d & Hd & Hin)%list_elem_of_fmap.
  destruct (po_digests _ _ Hb d Hin) as (q & Hq & Hqs & Hql & Hqh).
  destruct (po_digests _ _ Hb' d) as (q' & Hq' & Hqs' & Hql' & Hqh'); [by rewrite <- Hs|].
  assert (q = p) as -> by (eapply source_unique; [apply Hb|..]; naive_solver congruence).
  assert (q' = p') as -> by (eapply source_unique; [apply Hb'|..]; naive_solver congruence).
  split; [congruence|]. apply hex_encode_inj. congruence.
Qed.
End signing.
