(* ===== verification/PkgIndex.v ===== *)
(** * The package index and dependency resolution (kernel/src/pkg/resolver.rs and
    the data of kernel/src/pkg/mod.rs)

    [visit] is a depth-first search that emits a package after its
    dependencies.  It recurses on the index, so it takes fuel; one more than
    the number of packages is always enough ([resolve_dependencies_correct]
    excludes [OutOfFuel]). *)
From stdpp Require Import relations.
From S2P Require Import Prelude RustStr.

Record PackageInfo : Type := mkInfo {
  pi_name : bytes;
  pi_version : bytes;
  pi_description : bytes;
  pi_size_bytes : Z;
  pi_sha256 : bytes;
  pi_signed_by : bytes;
  pi_signature_scheme : bytes;
  pi_dependencies : list bytes;
  pi_download_url : bytes;
}.
Record PackageIndex : Type := mkIndex { ix_packages : list PackageInfo; ix_last_updated : Z }.

Inductive PkgError : Type :=
| PackageNotFound
| PackageNotInstalled
| ChecksumMismatch
| UnsignedPackage
| SignatureInvalid
| MetadataMismatch
| PkgPermissionDenied
| DependencyCycle
| DependencyNotFound (name : bytes)
| DownloadFailed
| ExtractFailed
| InstallFailed
| NetworkError
| BundleUnavailable
| UpdateBusy
| NoStagedBundle
| NoPendingUpdate
| BootConfirmationRequired
| RollbackUnavailable
| RecoveryBlocked
| StateCorrupted.
#[global] Instance PkgError_eq_dec : EqDecision PkgError.
Proof. solve_decision. Defined.

Inductive fueled (E : Type) : Type := OutOfFuel | Failed (e : E).
Arguments OutOfFuel {E}.
Arguments Failed {E} _.

(** ** Resolution *)

Definition package_is (name : bytes) (p : PackageInfo) : bool := bool_decide (pi_name p = name).
Definition find_package (index : PackageIndex) (name : bytes) : option PackageInfo :=
  find_first (package_is name) (ix_packages index).

(** The state is the pair of the vectors [visiting] and [ordered]. *)
Abbreviation visit_st A := (stm (list bytes * list bytes) (fueled PkgError) A).

Fixpoint visit (fuel : nat) (index : PackageIndex) (package_name : bytes) : visit_st () :=
  match fuel with
  | O => throw OutOfFuel
  | S fuel =>
      fun '(visiting, ordered) =>
        if bool_decide (package_name ∈ ordered) then (Ok (), (visiting, ordered))
        else if bool_decide (package_name ∈ visiting) then (Err (Failed DependencyCycle), (visiting, ordered))
        else match find_package index package_name with
        | None => (Err (Failed (DependencyNotFound package_name)), (visiting, ordered))
        | Some package =>
            (_ ← modify (fun '(visiting, ordered) => (visiting ++ [package_name], ordered));
             _ ← foldM (fun dependency _ => visit fuel index dependency) (pi_dependencies package) ();
             modify (fun '(visiting, ordered) =>
                       (List.filter (fun name => negb (bool_decide (name = package_name))) visiting,
                        ordered ++ [package_name]))) (visiting, ordered)
        end
  end.

Definition resolve_dependencies (index : PackageIndex) (root : bytes) : result (fueled PkgError) (list bytes) :=
  match visit (S (length (ix_packages index))) index root ([], []) with
  | (Ok _, (_, ordered)) => Ok ordered
  | (Err e, _) => Err e
  end.

(** ** The dependency graph *)

Section graph.
Context (index : PackageIndex).

(** [a] lists [b] as a dependency. *)
Definition depends (a b : bytes) : Prop :=
  exists p, find_package index a = Some p /\ b ∈ pi_dependencies p.

(** Every package of the list is in the index and comes after its dependencies. *)
Definition install_order (l : list bytes) : Prop :=
  forall l1 n l2, l = l1 ++ n :: l2 ->
    is_Some (find_package index n) /\ forall d, depends n d -> d ∈ l1.

Abbreviation names := (map pi_name (ix_packages index)).

Lemma find_package_name n p : find_package index n = Some p -> p ∈ ix_packages index /\ pi_name p = n.
Proof. intros [Hp E]%find_first_Some. by apply bool_decide_eq_true in E. Qed.
Lemma find_package_names n p : find_package index n = Some p -> n ∈ names.
Proof. intros [Hp <-]%find_package_name. by apply list_elem_of_fmap_2. Qed.

Lemma install_order_snoc l n p :
  install_order l -> find_package index n = Some p -> (forall d, d ∈ pi_dependencies p -> d ∈ l) ->
  install_order (l ++ [n]).
Proof.
  intros Hl Hp Hd l1 x l2 E. destruct l2 as [|y l2] using rev_ind.
  - apply app_inj_tail in E as [-> ->]. split; [by eexists|].
    intros d (q & Hq & Hin). apply Hd. congruence.
  - rewrite app_comm_cons, app_assoc in E. apply app_inj_tail in E as [-> _]. by eapply Hl.
Qed.

(** *** One visit *)

(** What a call for [n] on [(V, O)] relies on: the packages being visited are
    distinct, in the index, not yet emitted, and lead to [n]; the emitted ones
    are in install order. *)
Record visit_pre (V O : list bytes) (n : bytes) : Prop := mkVisitPre {
  vp_distinct : NoDup V;
  vp_names : V ⊆ names;
  vp_path : forall v, v ∈ V -> tc depends v n;
  vp_emitted : NoDup O;
  vp_order : install_order O;
  vp_disjoint : forall v, v ∈ V -> v ∉ O;
}.

(** What it guarantees about its result. *)
Definition visit_post (V O : list bytes) (n : bytes) (out : result (fueled PkgError) () * (list bytes * list bytes)) :
    Prop :=
  match out with
  | (Ok _, (V', O')) =>
      V' = V /\ n ∈ O' /\ (n ∉ O -> last O' = Some n) /\ NoDup O' /\ install_order O' /\
      (forall v, v ∈ V -> v ∉ O') /\ exists X, O' = O ++ X /\ forall x, x ∈ X -> rtc depends n x
  | (Err (Failed DependencyCycle), _) => exists c, rtc depends n c /\ tc depends c c
  | (Err (Failed (DependencyNotFound m)), _) => rtc depends n m /\ find_package index m = None
  | _ => False
  end.

(** The dependencies of [n], visited one after the other while [n] is in [V]. *)
Definition deps_post (V O : list bytes) (n : bytes) (ds : list bytes)
    (out : result (fueled PkgError) () * (list bytes * list bytes)) : Prop :=
  match out with
  | (Ok _, (V', O')) =>
      V' = V /\ (forall d, d ∈ ds -> d ∈ O') /\ NoDup O' /\ install_order O' /\
      (forall v, v ∈ V -> v ∉ O') /\ exists X, O' = O ++ X /\ forall x, x ∈ X -> rtc depends n x
  | (Err (Failed DependencyCycle), _) => exists c, rtc depends n c /\ tc depends c c
  | (Err (Failed (DependencyNotFound m)), _) => rtc depends n m /\ find_package index m = None
  | _ => False
  end.

Lemma visit_deps fuel V n ds :
  (forall O d, visit_pre V O d -> visit_post V O d (visit fuel index d (V, O))) ->
  NoDup V -> V ⊆ names -> n ∈ V -> (forall v, v ∈ V -> rtc depends v n) ->
  (forall d, d ∈ ds -> depends n d) ->
  forall O, NoDup O -> install_order O -> (forall v, v ∈ V -> v ∉ O) ->
  deps_post V O n ds (foldM (fun d _ => visit fuel index d) ds () (V, O)).
Proof.
  intros IH HV Hnames Hn Hpath. induction ds as [|d ds IHds]; intros Hds O HO Hord Hdis; cbn [foldM].
  - cbn. split_and!; try done; [intros d Hd; by apply not_elem_of_nil in Hd|].
    exists []. rewrite app_nil_r. split; [done|]. intros x Hx. by apply not_elem_of_nil in Hx.
  - assert (depends n d) as Hnd by (apply Hds; by left).
    assert (visit_pre V O d) as Hpre.
    { split; try done. intros v Hv. eapply tc_rtc_l; [by apply Hpath|by apply tc_once]. }
    specialize (IH O d Hpre). unfold mbind, stm_bind.
    destruct (visit fuel index d (V, O)) as [[[]|[|[]]] [V1 O1]]; simpl in IH |- *; try done.
    + destruct IH as (-> & Hd & _ & HO1 & Hord1 & Hdis1 & X & -> & HX).
      specialize (IHds (fun d Hd => Hds d (list_elem_of_further _ _ _ Hd)) _ HO1 Hord1 Hdis1).
      destruct (foldM _ ds () (V, O ++ X)) as [[[]|[|[]]] [V2 O2]]; simpl in IHds |- *; try done.
      destruct IHds as (-> & Hds2 & ? & ? & ? & Y & -> & HY). split_and!; try done.
      * intros e [->|He]%elem_of_cons; [by apply elem_of_app; left|by apply Hds2].
      * exists (X ++ Y). rewrite app_assoc. split; [done|]. intros x [Hx|Hx]%elem_of_app; [|by apply HY].
        eapply rtc_l; [done|by apply HX].
    + destruct IH as (c & Hc & Hcc). exists c. split; [|done]. by eapply rtc_l.
    + destruct IH as [Hm ?]. split; [|done]. by eapply rtc_l.
Qed.

Lemma filter_visited (V : list bytes) n : n ∉ V ->
  List.filter (fun name => negb (bool_decide (name = n))) (V ++ [n]) = V.
Proof.
  intros Hn. rewrite List.filter_app. cbn. rewrite bool_decide_true by done. cbn. rewrite app_nil_r.
  induction V as [|v V IH]; [done|]. cbn. apply not_elem_of_cons in Hn as [Hne Hn].
  rewrite bool_decide_false by congruence. cbn. by rewrite IH.
Qed.

Lemma visit_correct fuel V O n :
  (length (ix_packages index) < fuel + length V)%nat -> visit_pre V O n ->
  visit_post V O n (visit fuel index n (V, O)).
Proof.
  revert V O n. induction fuel as [|fuel IH]; intros V O n Hfuel [HV Hnames Hpath HO Hord Hdis].
  { exfalso. pose proof (submseteq_length _ _ (NoDup_submseteq _ _ HV Hnames)) as Hle.
    rewrite length_map in Hle. lia. }
  cbn [visit]. case_bool_decide as HnO.
  { split_and!; try done. exists []. rewrite app_nil_r. split; [done|]. intros x Hx. by apply not_elem_of_nil in Hx. }
  case_bool_decide as HnV; [exists n; split; [done|by apply Hpath]|].
  destruct (find_package index n) as [p|] eqn:Hp; [|done].
  unfold mbind at 1, stm_bind at 1, modify at 1. cbn [fst snd].
  pose proof (visit_deps fuel (V ++ [n]) n (pi_dependencies p)) as Hdeps.
  assert (forall v, v ∈ V ++ [n] -> rtc depends v n) as Hpath1.
  { intros v [Hv| ->%list_elem_of_singleton]%elem_of_app; [by apply tc_rtc, Hpath|done]. }
  specialize (Hdeps (fun O d => IH (V ++ [n]) O d ltac:(rewrite length_app; cbn; lia))).
  unfold mbind, stm_bind. specialize (Hdeps ltac:(apply NoDup_snoc; done)).
  specialize (Hdeps ltac:(apply find_package_names in Hp; set_solver) ltac:(set_solver) Hpath1).
  specialize (Hdeps (fun d Hd => ex_intro _ p (conj Hp Hd)) O HO Hord ltac:(set_solver)).
  destruct (foldM _ (pi_dependencies p) () (V ++ [n], O)) as [[[]|[|[]]] [V1 O1]]; simpl in Hdeps |- *; try done.
  destruct Hdeps as (-> & Hds & HO1 & Hord1 & Hdis1 & X & -> & HX).
  assert (n ∉ O ++ X) as Hn by (apply Hdis1; set_solver).
  rewrite (filter_visited _ _ HnV). split_and!; [done|set_solver|by rewrite last_snoc|by apply NoDup_snoc| | |].
  - by apply (install_order_snoc _ _ p).
  - intros v Hv. rewrite elem_of_app, list_elem_of_singleton. intros [Hin| ->]; [|done].
    apply (Hdis1 v); set_solver.
  - exists (X ++ [n]). rewrite app_assoc. split; [done|].
    intros x [Hx| ->%list_elem_of_singleton]%elem_of_app; [by apply HX|done].
Qed.

(** A package of an install order only reaches packages of the order. *)
Lemma install_order_closed l n m : install_order l -> n ∈ l -> rtc depends n m -> m ∈ l.
Proof.
  intros Hl Hn Hr. induction Hr as [|n d m Hnd _ IH]; [done|]. apply IH.
  apply list_elem_of_split in Hn as (l1 & l2 & ->). destruct (Hl l1 n l2 eq_refl) as [_ Hd].
  apply elem_of_app. left. by apply Hd.
Qed.

(** Along an install order dependencies only point backwards. *)
Lemma install_order_acyclic l n : install_order l -> n ∈ l -> ~ tc depends n n.
Proof.
  intros Hl. induction l as [|x l IH] using rev_ind; [by intros ?%not_elem_of_nil|].
  assert (install_order l) as Hl'.
  { intros l1 m l2 ->. apply (Hl l1 m (l2 ++ [x])). by rewrite <- app_assoc. }
  intros Hn Hc. destruct (decide (n ∈ l)) as [Hin|Hin]; [by apply (IH Hl')|].
  assert (n = x) as -> by set_solver.
  assert (exists d, depends x d /\ rtc depends d x) as (d & Hd & Hr).
  { inversion Hc as [? ? Hxx|? d ? Hxd Hdx]; subst; [by exists x|]. exists d. split; [done|by apply tc_rtc]. }
  apply Hin. apply (install_order_closed l d); [done| |done].
  by apply (Hl l x [] eq_refl).
Qed.

(** C11: [resolve_dependencies] returns, on every index and root.  A list it
    returns has no duplicates, names exactly the packages the root needs, each
    after its dependencies and the root last; it returns an error exactly when
    there is no such list: a cycle it reports is reachable from the root, a
    package it reports missing is needed and not in the index. *)
Theorem resolve_dependencies_correct root :
  match resolve_dependencies index root with
  | Ok order =>
      NoDup order /\ install_order order /\ last order = Some root /\
      (forall n, n ∈ order <-> rtc depends root n) /\
      (forall n, rtc depends root n -> is_Some (find_package index n) /\ ~ tc depends n n)
  | Err (Failed DependencyCycle) => exists n, rtc depends root n /\ tc depends n n
  | Err (Failed (DependencyNotFound n)) => rtc depends root n /\ find_package index n = None
  | Err _ => False
  end.
Proof.
  unfold resolve_dependencies.
  assert (visit_pre [] [] root) as Hpre.
  { split; try apply NoDup_nil_2; try set_solver. by intros [|] ? ? ?. }
  pose proof (visit_correct (S (length (ix_packages index))) [] [] root ltac:(cbn; lia) Hpre) as Hpost.
  destruct (visit _ index root ([], [])) as [[[]|[|[]]] [V order]]; simpl in Hpost |- *; try done.
  destruct Hpost as (_ & Hroot & Hlast & Hnd & Hord & _ & X & -> & HX). cbn [app] in *.
  assert (forall n, rtc depends root n -> n ∈ X) as Hcl by (intros n; by apply install_order_closed).
  split_and!; [done|done|apply Hlast; set_solver| |].
  - intros n. split; [apply HX|apply Hcl].
  - intros n Hn%Hcl. split; [|by apply (install_order_acyclic X)].
    apply list_elem_of_split in Hn as (l1 & l2 & ->). by apply (Hord l1 n l2).
Qed.
End graph.
