(* ===== verification/Pkg.v ===== *)
(** * The package manager (kernel/src/pkg: mod.rs, installer.rs, registry.rs,
    bootstrap.rs)

    Installing, removing and verifying packages.  The state is the record
    [PkgWorld]: the kernel ([Exec.Machine]) and the lock [PACKAGE_MANAGER].
    Every reading of the tick counter is a new one: the [n]-th is [ticks n],
    and [clock] counts them.  What the network answers ([net::http_get]) is the
    argument [http_get]. *)
From S2P Require Import Prelude RustStr Paths Auth Session AuditLog WarFS FsCurrent Caps Process Exec PkgBundle PkgIndex.

Definition DEFAULT_REPO_URL : bytes := str "https://warenterprise.com/packages".
Definition LOCAL_INDEX_PATH : bytes := str "/var/pkg/index.json".
Definition LOCAL_INSTALLED_PATH : bytes := str "/var/pkg/installed.json".

Record InstalledPackage : Type := mkInstalled {
  ip_name : bytes;
  ip_version : bytes;
  ip_description : bytes;
  ip_files : list bytes;
  ip_installed_at : Z;
  ip_size_bytes : Z;
  ip_signed_by : bytes;
  ip_signature_scheme : bytes;
}.
Record VerifiedPackage : Type := mkVerified {
  vp_bundle : WarPackBundle;
  vp_signed_by : bytes;
  vp_signature_scheme : bytes;
}.
Record PackageManager : Type := mkManager {
  pm_installed : list InstalledPackage;
  pm_index : option PackageIndex;
  pm_repo_url : bytes;
}.

Record PkgWorld (S : Type) : Type := mkPkgWorld {
  machine : Machine S;
  PACKAGE_MANAGER : PackageManager;
  clock : nat;
}.
Arguments mkPkgWorld {S} _ _ _.
Arguments machine {S} _.
Arguments PACKAGE_MANAGER {S} _.
Arguments clock {S} _.

Definition set_installed (l : list InstalledPackage) (pm : PackageManager) : PackageManager :=
  mkManager l (pm_index pm) (pm_repo_url pm).
Definition set_index (i : option PackageIndex) (pm : PackageManager) : PackageManager :=
  mkManager (pm_installed pm) i (pm_repo_url pm).

(** ** Errors of a verification *)

Definition map_verify_error (error : VerifyError) : PkgError :=
  match error with SignatureMissing => UnsignedPackage | _ => SignatureInvalid end.
Definition verify_error_reason (error : VerifyError) : bytes :=
  match error with
  | SignatureMissing => str "signature-missing"
  | UnsupportedSignatureScheme => str "unsupported-signature-scheme"
  | UnknownTrustRoot => str "unknown-trust-root"
  | InvalidPublicKey => str "invalid-public-key"
  | InvalidSignatureEncoding => str "invalid-signature-encoding"
  | SignatureMismatch => str "signature-mismatch"
  | CanonicalEncodingFailed => str "canonical-encoding-failed"
  | DuplicatePayload _ => str "duplicate-payload"
  | PayloadMissing _ => str "payload-missing"
  | UnexpectedPayload _ => str "unexpected-payload"
  | PayloadDigestMismatch _ => str "payload-digest-mismatch"
  | PayloadSizeMismatch _ => str "payload-size-mismatch"
  | FilePayloadMissing _ => str "file-payload-missing"
  | FileSizeMismatch _ => str "file-size-mismatch"
  end.

Definition installed_is (name : bytes) (p : InstalledPackage) : bool := bool_decide (ip_name p = name).
Definition find_installed (pm : PackageManager) (name : bytes) : option InstalledPackage :=
  find_first (installed_is name) (pm_installed pm).
Definition is_installed (pm : PackageManager) (name : bytes) : bool :=
  existsb (installed_is name) (pm_installed pm).
(** [installed.retain(|package| package.name != name)] *)
Definition without_package (name : bytes) (l : list InstalledPackage) : list InstalledPackage :=
  List.filter (fun p => negb (installed_is name p)) l.
Definition package_info (pm : PackageManager) (name : bytes) : option PackageInfo :=
  index ← pm_index pm; find_package index name.
Definition bundle_path (name : bytes) : bytes := str "/var/pkg/repo/" ++ name ++ str ".warpack".

Definition lowercase (s : bytes) : bytes := map to_ascii_lowercase s.
Definition search (pm : PackageManager) (query : bytes) : list PackageInfo :=
  let query := lowercase query in
  match pm_index pm with
  | Some index => List.filter (fun p => contains (lowercase (pi_name p)) query
                                        || contains (lowercase (pi_description p)) query) (ix_packages index)
  | None => []
  end.

Section manager.
Context {S : Type} `{Backend S}.
Context (ticks : nat -> Z) (debug : Z -> bytes).
Context (sha256 sha3_256 : bytes -> bytes) (bootstrap_pk_hex : bytes).
Context `{Json CanonicalSignedManifest, MlDsa, Json (list InstalledPackage), Json PackageIndex, Json WarPackBundle}.
Context (http_get : bytes -> Machine S -> result () bytes * Machine S).

Abbreviation pst A := (stm (PkgWorld S) PkgError A).

(** ** The kernel services used *)

Definition tick_count : pst Z :=
  fun w => (Ok (ticks (clock w)), mkPkgWorld (machine w) (PACKAGE_MANAGER w) (Datatypes.S (clock w))).
Definition set_machine (m : Machine S) (w : PkgWorld S) : PkgWorld S :=
  mkPkgWorld m (PACKAGE_MANAGER w) (clock w).
Definition set_manager (pm : PackageManager) (w : PkgWorld S) : PkgWorld S :=
  mkPkgWorld (machine w) pm (clock w).
Definition filesystem (w : PkgWorld S) : FsWorld S := FILESYSTEM (kernel (machine w)).
Definition set_filesystem (x : FsWorld S) (w : PkgWorld S) : PkgWorld S :=
  let m := machine w in let k := kernel m in
  set_machine (mkMachine (mkKernel (CURRENT_SESSION k) (USER_DB k) x (LOGGER k)) (exec m) (tasks m)) w.

(** Run an operation on the locked file system, and convert its error. *)
Definition locked_fs {A} (err : FsError -> PkgError) (m : stm (FsWorld S) FsError A) : pst A :=
  fun w => let '(r, x) := m (filesystem w) in (map_err err r, set_filesystem x w).
Definition read_file (err : PkgError) (path : bytes) : pst bytes :=
  fun w => (map_err (fun _ => err) (read (fs (filesystem w)) path), w).
Definition write_system_file (path data : bytes) : pst () :=
  now ← tick_count; locked_fs (fun _ => InstallFailed) (write_system now path data false).
Definition pkg_log (event : AuditEvent) : pst () :=
  now ← tick_count; modify (fun w => set_machine (audit now event (machine w)) w).
Definition manager : pst PackageManager := gets PACKAGE_MANAGER.
Definition update_manager (f : PackageManager -> PackageManager) : pst () :=
  modify (fun w => set_manager (f (PACKAGE_MANAGER w)) w).

Definition require_pkg_install : pst () :=
  now ← tick_count;
  (fun w => let '(ok, m) := session_require debug now PKG_INSTALL (machine w) in
            (if ok : bool then Ok () else Err PkgPermissionDenied, set_machine m w)) : pst ().

(** ** The registry *)

Definition load_installed (f : WarFS) : option (list InstalledPackage) :=
  match read f LOCAL_INSTALLED_PATH with
  | Ok data => match from_slice data with Ok l => Some l | Err _ => None end
  | Err _ => None
  end.
Definition load_local_index (f : WarFS) : result PkgError PackageIndex :=
  data ← map_err (fun _ => PackageNotFound) (read f LOCAL_INDEX_PATH);
  map_err (fun _ => ExtractFailed) (from_slice data).
Definition fetch_index (repo_url : bytes) : pst PackageIndex :=
  fun w =>
    let '(r, m) := http_get (repo_url ++ str "/index.json") (machine w) in
    (body ← map_err (fun _ => NetworkError) r; map_err (fun _ => ExtractFailed) (from_slice body), set_machine m w).

Definition manager_new (repo_url : bytes) (f : WarFS) : PackageManager :=
  mkManager (default [] (load_installed f))
            (match load_local_index f with Ok i => Some i | Err _ => None end) repo_url.

Definition fetch_package (location : bytes) : pst bytes :=
  if starts_with location [slash] then read_file DownloadFailed location
  else fun w => let '(r, m) := http_get location (machine w) in (map_err (fun _ => DownloadFailed) r, set_machine m w).

Definition save_installed_list : pst () :=
  pm ← manager;
  data ← lift_result (map_err (fun _ => ExtractFailed) (to_vec (pm_installed pm)));
  write_system_file LOCAL_INSTALLED_PATH data.

(** ** Verification *)

(** [verify_bootstrap_bundle] runs the check on a stack of its own. *)
Definition verify_bootstrap_bundle (bundle : WarPackBundle) : result VerifyError () :=
  verify_bundle_with_embedded_root sha3_256 bootstrap_pk_hex bundle.

Definition verified_package (bundle : WarPackBundle) : VerifiedPackage :=
  let signature := sm_signature (wb_signed_manifest bundle) in
  mkVerified bundle (sg_key_id signature) (sg_scheme signature).

Definition log_package_verification (package : PackageInfo) (outcome reason : bytes) : pst () :=
  pkg_log (PackageVerification (pi_name package) (pi_version package) outcome reason).

Definition metadata_matches (manifest : Manifest) (package : PackageInfo) : bool :=
  bool_decide (ma_name manifest = pi_name package) && bool_decide (ma_version manifest = pi_version package)
  && bool_decide (ma_description manifest = pi_description package)
  && bool_decide (ma_dependencies manifest = pi_dependencies package).

Definition verify_package_bytes (package : PackageInfo) (data : bytes) : pst VerifiedPackage :=
  if bool_decide (sha256_hex sha256 data <> pi_sha256 package) then
    _ ← log_package_verification package (str "deny") (str "checksum-mismatch"); throw ChecksumMismatch
  else match from_slice data with
  | Err _ => _ ← log_package_verification package (str "deny") (str "extract-failed"); throw ExtractFailed
  | Ok bundle =>
    match verify_bootstrap_bundle bundle with
    | Err error =>
        _ ← log_package_verification package (str "deny") (verify_error_reason error);
        throw (map_verify_error error)
    | Ok _ =>
      if negb (metadata_matches (sm_manifest (wb_signed_manifest bundle)) package) then
        _ ← log_package_verification package (str "deny") (str "metadata-mismatch"); throw MetadataMismatch
      else
        _ ← log_package_verification package (str "allow") (str "verified");
        mret (verified_package bundle)
    end
  end.

Definition verify_local_bundle_bytes (data : bytes) : pst VerifiedPackage :=
  match from_slice data with
  | Err _ =>
      _ ← pkg_log (PackageVerification (str "<local>") (str "unknown") (str "deny") (str "extract-failed"));
      throw ExtractFailed
  | Ok bundle =>
    let manifest := sm_manifest (wb_signed_manifest bundle) in
    match verify_bootstrap_bundle bundle with
    | Err error =>
        _ ← pkg_log (PackageVerification (ma_name manifest) (ma_version manifest) (str "deny")
                       (verify_error_reason error));
        throw (map_verify_error error)
    | Ok _ =>
        _ ← pkg_log (PackageVerification (ma_name manifest) (ma_version manifest) (str "allow") (str "verified"));
        mret (verified_package bundle)
    end
  end.

(** ** Installing and removing *)

(** [delete_as(file, 0, Admin)]; a file that is not there is fine. *)
Definition remove_stale (file : bytes) : pst () :=
  fun w =>
    match delete_as file 0 Admin (filesystem w) with
    | (Ok _, x) | (Err FileNotFound, x) => (Ok (), set_filesystem x w)
    | (Err _, x) => (Err InstallFailed, set_filesystem x w)
    end.

(** The files of the installed version that the new manifest does not have. *)
Definition stale_files (manifest : Manifest) (previous : option InstalledPackage) : list bytes :=
  match previous with
  | Some p => List.filter (fun file => forallb (fun next => negb (bool_decide (mf_path next = file)))
                                               (ma_files manifest)) (ip_files p)
  | None => []
  end.

Definition install_file (bundle : WarPackBundle) (file : ManifestFile) (installed_files : list bytes) :
    pst (list bytes) :=
  payload ← lift_result (ok_or (find_first (source_is (mf_source file)) (wb_payloads bundle)) ExtractFailed);
  now ← tick_count;
  _ ← locked_fs (fun _ => InstallFailed) (write_as now (mf_path file) (pa_contents payload) 0 Admin perm_system);
  _ ← (if mf_executable file
       then locked_fs (fun _ => InstallFailed) (chmod_as (mf_path file) 0 Admin (str "rwr-"))
       else mret ());
  mret (installed_files ++ [mf_path file]).

Definition apply_verified_bundle (verified : VerifiedPackage) (bundle_size uid : Z) : pst InstalledPackage :=
  let manifest := sm_manifest (wb_signed_manifest (vp_bundle verified)) in
  pm ← manager;
  let previous := find_installed pm (ma_name manifest) in
  _ ← foldM (fun file _ => remove_stale file) (stale_files manifest previous) ();
  installed_files ← foldM (install_file (vp_bundle verified)) (ma_files manifest) [];
  now ← tick_count;
  let installed := mkInstalled (ma_name manifest) (ma_version manifest) (ma_description manifest) installed_files
                     now bundle_size (vp_signed_by verified) (vp_signature_scheme verified) in
  _ ← update_manager (fun pm => set_installed (without_package (ma_name manifest) (pm_installed pm) ++ [installed]) pm);
  _ ← save_installed_list;
  _ ← pkg_log (PackageInstalled (ma_name manifest) (ma_version manifest) uid);
  mret installed.

Definition install_package (package : PackageInfo) : pst () :=
  pm ← manager;
  if is_installed pm (pi_name package) then mret ()
  else
    bundle_bytes ← fetch_package (pi_download_url package);
    verified ← verify_package_bytes package bundle_bytes;
    uid ← gets (fun w => exec_current_uid (machine w));
    _ ← apply_verified_bundle verified (blen bundle_bytes) uid;
    mret ().

Definition remove_package (name : bytes) : pst () :=
  pm ← manager;
  package ← lift_result (ok_or (find_installed pm name) PackageNotInstalled);
  _ ← foldM (fun file _ => locked_fs (fun _ => InstallFailed) (delete_as file 0 Admin)) (ip_files package) ();
  _ ← update_manager (fun pm => set_installed (without_package name (pm_installed pm)) pm);
  save_installed_list.

(** ** The operations of the manager *)

Definition pkg_update : pst () :=
  _ ← require_pkg_install;
  pm ← manager;
  index ← ((fun w => match fetch_index (pm_repo_url pm) w with
                     | (Ok i, w') => (Ok i, w')
                     | (Err _, w') => (load_local_index (fs (filesystem w')), w')
                     end) : pst PackageIndex);
  data ← lift_result (map_err (fun _ => ExtractFailed) (to_vec index));
  _ ← write_system_file LOCAL_INDEX_PATH data;
  update_manager (set_index (Some index)).

(** [OutOfFuel] never happens ([PkgIndex.resolve_dependencies_correct]). *)
Definition resolved (index : PackageIndex) (name : bytes) : result PkgError (list bytes) :=
  map_err (fun e => match e with Failed e => e | OutOfFuel => DependencyCycle end) (resolve_dependencies index name).

Definition pkg_install (name : bytes) : pst () :=
  _ ← require_pkg_install;
  pm ← manager;
  index ← lift_result (ok_or (pm_index pm) PackageNotFound);
  ordered ← lift_result (resolved index name);
  foldM (fun package_name _ =>
           package ← lift_result (ok_or (find_package index package_name) PackageNotFound);
           install_package package) ordered ().

Definition pkg_remove (name : bytes) : pst () := _ ← require_pkg_install; remove_package name.

Definition pkg_verify (name : bytes) : pst () :=
  pm ← manager;
  info ← lift_result (ok_or (package_info pm name) PackageNotFound);
  data ← fetch_package (pi_download_url info);
  _ ← verify_package_bytes info data;
  mret ().
End manager.
