(* ===== verification/PkgUpdate.v ===== *)
(** * Offline updates and recovery (kernel/src/pkg/update.rs)

    A bundle is staged, applied, boots, is confirmed or rejected, and can be
    rolled back.  The state of the update in progress and the record of what a
    rollback restores are JSON files of WarFS: a reboot between two operations
    loses nothing of them.  The operations are state transformers on
    [Pkg.PkgWorld]; their effect on the stored state is the table of
    transitions [update_step]. *)
From S2P Require Import Prelude RustStr Paths Auth Session AuditLog WarFS FsCurrent Caps Process Exec PkgBundle PkgIndex Pkg.

Definition UPDATE_STATE_PATH : bytes := str "/var/pkg/update-state.json".
Definition STAGED_DIR_PATH : bytes := str "/var/pkg/staged".
Definition ROLLBACK_DIR_PATH : bytes := str "/var/pkg/rollback".

Inductive UpdatePhase : Type := Staged | PendingConfirmation | Confirmed | UpdateFailed | RolledBack.
#[global] Instance UpdatePhase_eq_dec : EqDecision UpdatePhase.
Proof. solve_decision. Defined.

Definition phase_str (phase : UpdatePhase) : bytes :=
  match phase with
  | Staged => str "staged"
  | PendingConfirmation => str "pending-confirmation"
  | Confirmed => str "confirmed"
  | UpdateFailed => str "failed"
  | RolledBack => str "rolled-back"
  end.

Record UpdateTransaction : Type := mkTransaction {
  ut_package_name : bytes;
  ut_from_version : option bytes;
  ut_to_version : bytes;
  ut_source_path : bytes;
  ut_staged_path : option bytes;
  ut_rollback_path : bytes;
  ut_phase : UpdatePhase;
  ut_applied_at : option Z;
  ut_confirmed_at : option Z;
  ut_boot_started : bool;
  ut_boot_observed : bool;
  ut_failure_reason : option bytes;
  ut_last_boot_note : option bytes;
}.
Record UpdateState : Type := mkUpdateState {
  us_schema_version : Z;
  us_recovery_requested : bool;
  us_recovery_reason : option bytes;
  us_current : option UpdateTransaction;
}.
Record RollbackFileRecord : Type := mkRollbackFile {
  rf_path : bytes;
  rf_existed : bool;
  rf_data : bytes;
  rf_owner_uid : Z;
  rf_permissions_mode : bytes;
  rf_readonly : bool;
  rf_created_at : Z;
  rf_modified_at : Z;
}.
Record RollbackRecord : Type := mkRollback {
  rr_package_name : bytes;
  rr_to_version : bytes;
  rr_previous_installed : option InstalledPackage;
  rr_files : list RollbackFileRecord;
  rr_captured_at : Z;
}.
Record BootHealthReport : Type := mkReport { bh_recovery_requested : bool; bh_summary : bytes }.

Definition update_state_default : UpdateState := mkUpdateState 1 false None None.

Definition staged_bundle_path (name version : bytes) : bytes :=
  STAGED_DIR_PATH ++ str "/" ++ name ++ str "-" ++ version ++ str ".warpack".
Definition rollback_record_path (name : bytes) : bytes := ROLLBACK_DIR_PATH ++ str "/" ++ name ++ str ".json".
Definition push_unique_path (paths : list bytes) (path : bytes) : list bytes :=
  if forallb (fun existing => negb (bool_decide (existing = path))) paths then paths ++ [path] else paths.

(** ** The transitions of the stored state *)

Definition set_current (t : option UpdateTransaction) (st : UpdateState) : UpdateState :=
  mkUpdateState (us_schema_version st) (us_recovery_requested st) (us_recovery_reason st) t.
Definition set_recovery (requested : bool) (reason : option bytes) (st : UpdateState) : UpdateState :=
  mkUpdateState (us_schema_version st) requested reason (us_current st).

(** Is the update applied or failed, and not yet settled? *)
Definition unsettled (st : UpdateState) : bool :=
  match us_current st with
  | Some t => match ut_phase t with PendingConfirmation | UpdateFailed => true | _ => false end
  | None => false
  end.
Definition ensure_state_replaceable (st : UpdateState) : result PkgError () :=
  if unsettled st then Err UpdateBusy else Ok ().

Definition staged_transaction (manifest : Manifest) (from : option bytes) (source staged_path : bytes) :
    UpdateTransaction :=
  mkTransaction (ma_name manifest) from (ma_version manifest) source (Some staged_path)
    (rollback_record_path (ma_name manifest)) Staged None None false false None
    (Some (str "offline bundle staged for explicit apply")).

Definition applied_transaction (manifest : Manifest) (from : option bytes) (source : bytes)
    (staged_override : option bytes) (now : Z) : UpdateTransaction :=
  mkTransaction (ma_name manifest) from (ma_version manifest) source
    (match staged_override with
     | Some p => Some p
     | None => if starts_with source STAGED_DIR_PATH then Some source else None
     end)
    (rollback_record_path (ma_name manifest)) PendingConfirmation (Some now) None false false None
    (Some (str "offline apply completed; awaiting boot confirmation")).

Definition confirm_transaction (now : Z) (t : UpdateTransaction) : UpdateTransaction :=
  mkTransaction (ut_package_name t) (ut_from_version t) (ut_to_version t) (ut_source_path t) (ut_staged_path t)
    (ut_rollback_path t) Confirmed (ut_applied_at t) (Some now) false false None
    (Some (str "update confirmed after shell-ready boot")).
Definition reject_transaction (reason : bytes) (t : UpdateTransaction) : UpdateTransaction :=
  mkTransaction (ut_package_name t) (ut_from_version t) (ut_to_version t) (ut_source_path t) (ut_staged_path t)
    (ut_rollback_path t) UpdateFailed (ut_applied_at t) (ut_confirmed_at t) (ut_boot_started t)
    (ut_boot_observed t) (Some reason) (Some (str "update explicitly rejected")).
Definition rolled_back_transaction (now : Z) (t : UpdateTransaction) : UpdateTransaction :=
  mkTransaction (ut_package_name t) (ut_from_version t) (ut_to_version t) (ut_source_path t) (ut_staged_path t)
    (ut_rollback_path t) RolledBack (ut_applied_at t) (Some now) false false None
    (Some (str "rollback restored pre-apply filesystem state")).
Definition fail_transaction (reason : bytes) (t : UpdateTransaction) : UpdateTransaction :=
  mkTransaction (ut_package_name t) (ut_from_version t) (ut_to_version t) (ut_source_path t) (ut_staged_path t)
    (ut_rollback_path t) UpdateFailed (ut_applied_at t) (ut_confirmed_at t) (ut_boot_started t)
    (ut_boot_observed t) (Some reason) (ut_last_boot_note t).
Definition start_boot_transaction (t : UpdateTransaction) : UpdateTransaction :=
  mkTransaction (ut_package_name t) (ut_from_version t) (ut_to_version t) (ut_source_path t) (ut_staged_path t)
    (ut_rollback_path t) (ut_phase t) (ut_applied_at t) (ut_confirmed_at t) true (ut_boot_observed t)
    (ut_failure_reason t) (Some (str "boot started; awaiting confirmation")).
Definition observe_boot_transaction (t : UpdateTransaction) : UpdateTransaction :=
  mkTransaction (ut_package_name t) (ut_from_version t) (ut_to_version t) (ut_source_path t) (ut_staged_path t)
    (ut_rollback_path t) (ut_phase t) (ut_applied_at t) (ut_confirmed_at t) (ut_boot_started t) true
    (ut_failure_reason t) (Some (str "shell-ready reached; confirmation required")).

(** What a boot does to the state: the new state, the summary, and the detail of
    the failure it logs. *)
Definition boot_state (st : UpdateState) : UpdateState * bytes * option (UpdateTransaction * bytes) :=
  match us_current st with
  | None => (st, str "idle", None)
  | Some t =>
      let label := ut_package_name t ++ str " " ++ ut_to_version t in
      match ut_phase t with
      | PendingConfirmation =>
          if ut_boot_started t && negb (ut_boot_observed t) then
            let reason := str "post-update boot did not reach shell-ready" in
            (set_recovery true (Some (str "post-update boot failed before shell-ready"))
               (set_current (Some (fail_transaction reason t)) st),
             label ++ str " failed health check before shell-ready; recovery requested", Some (t, reason))
          else if ut_boot_observed t then
            let reason := str "post-update boot was not confirmed before the next boot" in
            (set_recovery true (Some (str "post-update boot was not confirmed"))
               (set_current (Some (fail_transaction reason t)) st),
             label ++ str " was not confirmed before reboot; recovery requested", Some (t, reason))
          else (set_current (Some (start_boot_transaction t)) st, label ++ str " pending confirmation", None)
      | Staged => (st, label ++ str " staged for explicit apply", None)
      | Confirmed => (st, label ++ str " confirmed", None)
      | UpdateFailed =>
          (set_recovery true (match us_recovery_reason st with
                              | None => Some (str "failed update requires recovery")
                              | r => r
                              end) st,
           label ++ str " failed and requires recovery", None)
      | RolledBack => (st, label ++ str " rolled back", None)
      end
  end.

Section update.
Context {S : Type} `{Backend S}.
Context (ticks : nat -> Z) (debug : Z -> bytes).
Context (sha3_256 : bytes -> bytes) (bootstrap_pk_hex : bytes).
Context `{Json CanonicalSignedManifest, MlDsa, Json (list InstalledPackage), Json WarPackBundle}.
Context `{Json UpdateState, Json RollbackRecord}.

Abbreviation pst A := (stm (PkgWorld S) PkgError A).
Abbreviation tick_count := (tick_count ticks).
Abbreviation write_system_file := (write_system_file ticks).
Abbreviation require_pkg_install := (require_pkg_install ticks debug).
Abbreviation verify_local := (verify_local_bundle_bytes ticks sha3_256 bootstrap_pk_hex).

(** ** Stored state *)

Definition save_state (st : UpdateState) : pst () :=
  data ← lift_result (map_err (fun _ => InstallFailed) (to_vec st));
  write_system_file UPDATE_STATE_PATH data.
Definition stored_state (f : WarFS) : result PkgError UpdateState :=
  match read f UPDATE_STATE_PATH with
  | Ok data => map_err (fun _ => StateCorrupted) (from_slice data)
  | Err FileNotFound => Ok update_state_default
  | Err _ => Err InstallFailed
  end.
Definition load_state : pst UpdateState := fun w => (stored_state (fs (filesystem w)), w).
Definition ensure_state_file : pst () :=
  exists_ ← gets (fun w => is_ok (read (fs (filesystem w)) UPDATE_STATE_PATH));
  if exists_ : bool then mret () else save_state update_state_default.

Definition store_rollback_record (path : bytes) (rollback : RollbackRecord) : pst () :=
  data ← lift_result (map_err (fun _ => InstallFailed) (to_vec rollback));
  write_system_file path data.
Definition load_rollback_record (path : bytes) : pst RollbackRecord :=
  data ← read_file RollbackUnavailable path;
  lift_result (map_err (fun _ => RollbackUnavailable) (from_slice data)).

Definition log_policy (change : bytes) : pst () :=
  id ← gets (fun w => exec_current_uid (machine w));
  pkg_log ticks (SecurityPolicyChanged change id).
Definition log_update_state (name version state detail : bytes) : pst () :=
  log_policy (str "update_state name=" ++ name ++ str " ver=" ++ version ++ str " state=" ++ state
              ++ str " detail=" ++ detail).
Definition log_recovery_action (action detail : bytes) : pst () :=
  log_policy (str "recovery action=" ++ action ++ str " detail=" ++ detail).

Definition read_local_bundle (path : bytes) : pst (bytes * bytes) :=
  fun w =>
    let m := machine w in
    let '(r, k) := read_current path (kernel m) in
    (map_err (fun _ => BundleUnavailable) r, set_machine (mkMachine k (exec m) (tasks m)) w).

(** ** Rollback records *)

Definition capture_file (f : WarFS) (path : bytes) : RollbackFileRecord :=
  match stat f path with
  | Ok e => mkRollbackFile path true (fe_data e) (fe_owner_uid e) (mode_string (fe_permissions e)) (fe_readonly e)
              (fe_created_at e) (fe_modified_at e)
  | Err _ => mkRollbackFile path false [] 0 (str "rw--") false 0 0
  end.
Definition rollback_paths (manifest : Manifest) (previous : option InstalledPackage) : list bytes :=
  let paths := fold_left push_unique_path (map mf_path (ma_files manifest)) [] in
  match previous with
  | Some p => fold_left push_unique_path (ip_files p) paths
  | None => paths
  end.
Definition capture_rollback_record (manifest : Manifest) (previous : option InstalledPackage) : pst RollbackRecord :=
  files ← gets (fun w => map (capture_file (fs (filesystem w))) (rollback_paths manifest previous));
  now ← tick_count;
  mret (mkRollback (ma_name manifest) (ma_version manifest) previous files now).

(** [load_file_from_disk] on the locked file system, which does not sync. *)
Definition load_locked (name data : bytes) (owner : Z) (p : FilePermissions) (ro : bool) (created modified : Z) :
    stm (FsWorld S) FsError () :=
  fun x => let '(r, f) := load_file_from_disk name data owner p ro created modified (fs x) in
           (r, mkWorld f (backend x)).

Definition restore_file (file : RollbackFileRecord) : pst () :=
  if rf_existed file then
    let '(permissions, valid) := apply_mode_string (perm_default_for (rf_owner_uid file)) (rf_permissions_mode file) in
    if negb valid then throw RollbackUnavailable
    else
      _ ← locked_fs (fun _ => InstallFailed)
            (load_locked (rf_path file) (rf_data file) (rf_owner_uid file) permissions (rf_readonly file)
                         (rf_created_at file) (rf_modified_at file));
      modify (fun w => set_filesystem (sync_found (rf_path file) (filesystem w)) w)
  else remove_stale (rf_path file).
Definition restore_rollback_files (rollback : RollbackRecord) : pst () :=
  foldM (fun file _ => restore_file file) (rr_files rollback) ().

(** ** The operations *)

Definition apply_verified_bundle_bytes (source_path data : bytes) (staged_override : option bytes) :
    pst UpdateTransaction :=
  st ← load_state;
  _ ← lift_result (ensure_state_replaceable st);
  verified ← verify_local data;
  let manifest := sm_manifest (wb_signed_manifest (vp_bundle verified)) in
  pm ← manager;
  let previous := find_installed pm (ma_name manifest) in
  rollback ← capture_rollback_record manifest previous;
  _ ← store_rollback_record (rollback_record_path (ma_name manifest)) rollback;
  uid ← gets (fun w => exec_current_uid (machine w));
  _ ← apply_verified_bundle ticks verified (blen data) uid;
  now ← tick_count;
  let t := applied_transaction manifest (ip_version <$> previous) source_path staged_override now in
  _ ← save_state (set_recovery false None (set_current (Some t) st));
  _ ← log_update_state (ut_package_name t) (ut_to_version t) (str "pending-confirmation") source_path;
  mret t.

Definition stage_bundle_from_path (path : bytes) : pst UpdateTransaction :=
  _ ← require_pkg_install;
  '(resolved, data) ← read_local_bundle path;
  verified ← verify_local data;
  let manifest := sm_manifest (wb_signed_manifest (vp_bundle verified)) in
  st ← load_state;
  _ ← lift_result (ensure_state_replaceable st);
  let staged_path := staged_bundle_path (ma_name manifest) (ma_version manifest) in
  _ ← write_system_file staged_path data;
  pm ← manager;
  let t := staged_transaction manifest (ip_version <$> find_installed pm (ma_name manifest)) resolved staged_path in
  _ ← save_state (set_current (Some t) st);
  _ ← log_update_state (ma_name manifest) (ma_version manifest) (str "staged") staged_path;
  mret t.

Definition apply_bundle_from_path (path : bytes) : pst UpdateTransaction :=
  _ ← require_pkg_install;
  '(resolved, data) ← read_local_bundle path;
  apply_verified_bundle_bytes resolved data None.

Definition apply_staged_bundle : pst UpdateTransaction :=
  _ ← require_pkg_install;
  st ← load_state;
  staged_path ← lift_result (ok_or (t ← us_current st; ut_staged_path t) NoStagedBundle);
  data ← read_file NoStagedBundle staged_path;
  apply_verified_bundle_bytes staged_path data (Some staged_path).

(** The transaction an operation needs to be pending. *)
Definition pending_transaction (st : UpdateState) : result PkgError UpdateTransaction :=
  t ← ok_or (us_current st) NoPendingUpdate;
  if bool_decide (ut_phase t = PendingConfirmation) then Ok t else Err NoPendingUpdate.

Definition confirm_pending_update : pst UpdateTransaction :=
  _ ← require_pkg_install;
  st ← load_state;
  t ← lift_result (pending_transaction st);
  if negb (ut_boot_observed t) then throw BootConfirmationRequired
  else
    now ← tick_count;
    let t := confirm_transaction now t in
    _ ← save_state (set_recovery false None (set_current (Some t) st));
    _ ← log_update_state (ut_package_name t) (ut_to_version t) (str "confirmed") (str "boot health acknowledged");
    mret t.

Definition reject_pending_update (reason : bytes) : pst UpdateTransaction :=
  _ ← require_pkg_install;
  st ← load_state;
  t ← lift_result (pending_transaction st);
  let t := reject_transaction reason t in
  _ ← save_state (set_recovery true (Some (str "pending update rejected")) (set_current (Some t) st));
  _ ← log_update_state (ut_package_name t) (ut_to_version t) (str "failed") reason;
  mret t.

Definition rollback_current_update : pst UpdateTransaction :=
  _ ← require_pkg_install;
  st ← load_state;
  t ← lift_result (ok_or (us_current st) RollbackUnavailable);
  rollback ← load_rollback_record (ut_rollback_path t);
  _ ← restore_rollback_files rollback;
  _ ← update_manager (fun pm =>
        set_installed (without_package (rr_package_name rollback) (pm_installed pm)
                       ++ match rr_previous_installed rollback with Some p => [p] | None => [] end) pm);
  _ ← save_installed_list ticks;
  now ← tick_count;
  let t' := rolled_back_transaction now t in
  _ ← save_state (set_recovery false None (set_current (Some t') st));
  _ ← log_update_state (ut_package_name t') (ut_to_version t') (str "rolled-back") (ut_rollback_path t);
  mret t'.

Definition clear_completed_state : pst () :=
  _ ← require_pkg_install;
  st ← load_state;
  if unsettled st then throw UpdateBusy
  else save_state (mkUpdateState (us_schema_version st) (us_recovery_requested st)
                     (if us_recovery_requested st then us_recovery_reason st else None) None).

Definition proof_available : pst bool :=
  st ← load_state; mret (bool_decide (us_current st = None) && negb (us_recovery_requested st)).

Definition request_recovery (reason : bytes) : pst () :=
  st ← load_state;
  _ ← save_state (set_recovery true (Some reason) st);
  log_recovery_action (str "enter") reason.

Definition clear_recovery_request : pst () :=
  st ← load_state;
  if unsettled st then throw RecoveryBlocked
  else
    _ ← save_state (set_recovery false None st);
    log_recovery_action (str "resume") (str "recovery request cleared").

Definition should_enter_recovery (w : PkgWorld S) : bool :=
  match stored_state (fs (filesystem w)) with
  | Ok st => us_recovery_requested st
  | Err StateCorrupted => true
  | Err _ => false
  end.

Definition prepare_boot : pst BootHealthReport :=
  fun w =>
    match stored_state (fs (filesystem w)) with
    | Err StateCorrupted =>
        (Ok (mkReport true (str "update state metadata is corrupted; recovery mode requested")), w)
    | r =>
        let '(st, summary, failure) := boot_state (match r with Ok st => st | Err _ => update_state_default end) in
        let w1 := match failure with
                  | Some (t, detail) => (log_update_state (ut_package_name t) (ut_to_version t) (str "failed") detail w).2
                  | None => w
                  end in
        let w2 := (save_state st w1).2 in
        (Ok (mkReport (us_recovery_requested st) summary), w2)
    end.

Definition note_shell_ready : pst (option bytes) :=
  st ← load_state;
  match us_current st with
  | None => mret None
  | Some t =>
      if bool_decide (ut_phase t <> PendingConfirmation) || negb (ut_boot_started t) then mret None
      else if ut_boot_observed t then mret None
      else
        _ ← save_state (set_current (Some (observe_boot_transaction t)) st);
        mret (Some (ut_package_name t ++ str " " ++ ut_to_version t
                    ++ str " reached shell-ready; confirmation required"))
  end.

(** ** Reports *)

Definition bool_str (b : bool) : bytes := if b then str "true" else str "false".
Definition optional_line (label : bytes) (o : option bytes) : list bytes :=
  match o with Some v => [label ++ v] | None => [] end.
Definition join_lines (l : list bytes) : bytes :=
  match l with [] => [] | x :: l => x ++ concat (map (fun y => x0a :: y) l) end.

Definition render_state (st : UpdateState) : bytes :=
  join_lines (
    [str "WarPkg Offline Update / Recovery:"; []]
    ++ match us_current st with
       | Some t =>
           [str "  Package:           " ++ ut_package_name t ++ str " " ++ ut_to_version t]
           ++ optional_line (str "  Previous version:  ") (ut_from_version t)
           ++ [str "  State:             " ++ phase_str (ut_phase t);
               str "  Source:            " ++ ut_source_path t]
           ++ optional_line (str "  Staged bundle:     ") (ut_staged_path t)
           ++ [str "  Rollback record:   " ++ ut_rollback_path t;
               str "  Boot health:       started=" ++ bool_str (ut_boot_started t)
               ++ str " shell-ready=" ++ bool_str (ut_boot_observed t)]
           ++ optional_line (str "  Failure reason:    ") (ut_failure_reason t)
           ++ optional_line (str "  Last note:         ") (ut_last_boot_note t)
       | None => [str "  State:             idle"]
       end
    ++ [str "  Recovery request:  " ++ (if us_recovery_requested st then str "yes" else str "no")]
    ++ optional_line (str "  Recovery reason:   ") (us_recovery_reason st)).

Definition short_status (w : PkgWorld S) : bytes :=
  match stored_state (fs (filesystem w)) with
  | Ok st =>
      match us_current st with
      | Some t =>
          ut_package_name t ++ str " " ++ ut_to_version t ++ str " (" ++ phase_str (ut_phase t) ++ str ")"
          ++ (if us_recovery_requested st then str ", recovery requested" else [])
      | None =>
          if us_recovery_requested st
          then str "manual recovery requested (" ++ default (str "unspecified") (us_recovery_reason st) ++ str ")"
          else str "idle"
      end
  | Err StateCorrupted => str "metadata-corrupted (recovery requested)"
  | Err _ => str "idle"
  end.
End update.
