(* ===== verification/PkgSpecs.v ===== *)
(** * Theorems of the package manager and of updates

    [fm w] is the file system of a world as a finite map ([WarFS.abs]).  Most
    facts about an operation are frame facts: which files it can touch
    ([keeps]); the transitions of the stored update state follow from them,
    because the state is one of these files. *)
From stdpp Require Import relations.
From S2P Require Import Prelude RustStr Paths Auth Session AuditLog WarFS FsCurrent Caps Process Exec PkgBundle PkgIndex Pkg PkgUpdate.

Section frame.
Context {S : Type} `{Backend S}.
Context (ticks : nat -> Z) (debug : Z -> bytes).

Abbreviation pst A := (stm (PkgWorld S) PkgError A).

Definition fm (w : PkgWorld S) : gmap bytes FileEntry := abs (fs (filesystem w)).
Definition fok (w : PkgWorld S) : Prop := fs_ok (fs (filesystem w)).

(** The part of the kernel that decides what the caller may do. *)
Definition authority (w : PkgWorld S) : option Session * UserDB * ExecState :=
  (CURRENT_SESSION (kernel (machine w)), USER_DB (kernel (machine w)), exec (machine w)).

#[global] Arguments authority : simpl never.

(** ** Frames *)

(** Whatever it returns, [m] keeps the file system well formed, leaves the
    files in [P] alone, and changes neither session, users nor processes. *)
Definition keeps {A} (P : bytes -> Prop) (m : pst A) : Prop :=
  forall w, fok w ->
    fok (m w).2 /\ (forall c, P c -> fm (m w).2 !! c = fm w !! c) /\ authority (m w).2 = authority w.

Lemma keeps_mono {A} (P Q : bytes -> Prop) (m : pst A) : (forall c, Q c -> P c) -> keeps P m -> keeps Q m.
Proof. intros HPQ Hm w Hw. destruct (Hm w Hw) as (? & HP & ?). split_and!; auto. Qed.

Lemma keeps_pure {A} P (m : pst A) : (forall w, (m w).2 = w) -> keeps P m.
Proof. intros Hm w Hw. by rewrite Hm. Qed.

Lemma keeps_bind {A B} P (m : pst A) (f : A -> pst B) :
  keeps P m -> (forall a, keeps P (f a)) -> keeps P (m ≫= f).
Proof.
  intros Hm Hf w Hw. unfold mbind, stm_bind. destruct (Hm w Hw) as (Hw1 & HP & Ha).
  destruct (m w) as [[a|e] w1]; cbn in *; [|done].
  destruct (Hf a w1 Hw1) as (? & HP' & Ha'). split_and!; [done| |congruence].
  intros c Hc. rewrite HP' by done. by apply HP.
Qed.

Lemma keeps_foldM {A B} P (f : A -> B -> pst B) l acc :
  (forall x b, x ∈ l -> keeps P (f x b)) -> keeps P (foldM f l acc).
Proof.
  revert acc. induction l as [|x l IH]; intros acc Hf; cbn [foldM]; [by apply keeps_pure|].
  apply keeps_bind; [apply Hf; by left|]. intros b. apply IH. intros y b' Hy. apply Hf. by right.
Qed.

Lemma keeps_tick P : keeps P (tick_count ticks).
Proof. intros w Hw. done. Qed.
Lemma keeps_log P event : keeps P (pkg_log ticks event).
Proof. apply keeps_bind; [apply keeps_tick|]. intros now w Hw. done. Qed.
Lemma keeps_manager P f : keeps P (update_manager f).
Proof. intros w Hw. done. Qed.
Lemma keeps_require P : keeps P (require_pkg_install ticks debug).
Proof.
  apply keeps_bind; [apply keeps_tick|]. intros now w Hw. unfold session_require.
  by destruct (cap_contains _ _).
Qed.

(** *** File operations *)

(** The names an operation is given. *)
Definition op_name (op : fs_op) : bytes :=
  match op with
  | FsWrite _ name _ _ _ _ _ | FsSeed _ name _ _ | FsDelete name _ _ | FsChmod name _ _ _
  | FsCreate _ name _ _ _ _ | FsLoad name _ _ _ _ _ _ => name
  end.

Lemma spec_op_frame op m c : canonical_path (op_name op) <> Ok c -> (spec_op op m).2 !! c = m !! c.
Proof.
  destruct op; cbn [spec_op op_name]; intros Hc; unfold spec_store; repeat (case_match; simplify_eq/=; try done);
    by rewrite ?lookup_insert_ne, ?lookup_delete_ne by congruence.
Qed.

Lemma spec_store_Err name data ex new m e m' : spec_store name data ex new m = (Err e, m') -> m' = m.
Proof. unfold spec_store. intros Es. by repeat (case_match; simplify_eq/=). Qed.

Lemma set_filesystem_fs x (w : PkgWorld S) : filesystem (set_filesystem x w) = x.
Proof. done. Qed.

(** A file operation on the locked file system is the operation of the map. *)
Lemma locked_op (err : FsError -> PkgError) op (w : PkgWorld S) :
  fok w ->
  (locked_fs err (run_fs_op op) w).1 = map_err err (spec_op op (fm w)).1 /\
  fm (locked_fs err (run_fs_op op) w).2 = (spec_op op (fm w)).2 /\
  fok (locked_fs err (run_fs_op op) w).2 /\
  PACKAGE_MANAGER (locked_fs err (run_fs_op op) w).2 = PACKAGE_MANAGER w /\
  authority (locked_fs err (run_fs_op op) w).2 = authority w.
Proof.
  intros Hw. destruct (op_refines op (filesystem w) Hw) as (Hr & Ha & Ho). unfold locked_fs.
  destruct (run_fs_op op (filesystem w)) as [r x]. cbn in *. rewrite Hr. done.
Qed.

Lemma keeps_op (P : bytes -> Prop) err op :
  (forall c, canonical_path (op_name op) = Ok c -> ~ P c) -> keeps P (locked_fs err (run_fs_op op)).
Proof.
  intros Hc w Hw. destruct (locked_op err op w Hw) as (_ & Hm & Ho & _ & Ha). split_and!; [done| |done].
  intros c HPc. rewrite Hm. apply spec_op_frame. intros E. by apply (Hc c).
Qed.

Lemma keeps_write_system P path data :
  (forall c, canonical_path path = Ok c -> ~ P c) -> keeps P (write_system_file ticks path data).
Proof.
  intros Hc. apply keeps_bind; [apply keeps_tick|]. intros now.
  apply (keeps_op P _ (FsWrite now path data 0 Admin perm_system false)). done.
Qed.

Lemma keeps_remove_stale P path : (forall c, canonical_path path = Ok c -> ~ P c) -> keeps P (remove_stale path).
Proof.
  intros Hc w Hw.
  destruct (keeps_op P (fun _ => InstallFailed) (FsDelete path 0 Admin) Hc w Hw) as (H1 & H2 & H3).
  unfold locked_fs, remove_stale in *. cbn [run_fs_op] in *.
  destruct (delete_as path 0 Admin (filesystem w)) as [[|[]] x]; done.
Qed.
End frame.

(** ** Who may change packages *)

Section permission.
Context {S : Type} `{Backend S}.
Context (ticks : nat -> Z) (debug : Z -> bytes).
Context (sha256 sha3_256 : bytes -> bytes) (bootstrap_pk_hex : bytes).
Context `{Json CanonicalSignedManifest, MlDsa, Json (list InstalledPackage), Json PackageIndex, Json WarPackBundle}.
Context `{Json UpdateState, Json RollbackRecord}.
Context (http_get : bytes -> Machine S -> result () bytes * Machine S).

(** The commands that change packages or settle an update. *)
Inductive pkg_op : Type :=
| OpUpdate
| OpInstall (name : bytes)
| OpRemove (name : bytes)
| OpStage (path : bytes)
| OpApply (path : bytes)
| OpApplyStaged
| OpConfirm
| OpReject (reason : bytes)
| OpRollback
| OpClear.

Definition discard {A} (m : stm (PkgWorld S) PkgError A) : stm (PkgWorld S) PkgError () := _ ← m; mret ().

Definition run_pkg_op (op : pkg_op) : stm (PkgWorld S) PkgError () :=
  match op with
  | OpUpdate => pkg_update ticks debug http_get
  | OpInstall name => pkg_install ticks debug sha256 sha3_256 bootstrap_pk_hex http_get name
  | OpRemove name => pkg_remove ticks debug name
  | OpStage path => discard (stage_bundle_from_path ticks debug sha3_256 bootstrap_pk_hex path)
  | OpApply path => discard (apply_bundle_from_path ticks debug sha3_256 bootstrap_pk_hex path)
  | OpApplyStaged => discard (apply_staged_bundle ticks debug sha3_256 bootstrap_pk_hex)
  | OpConfirm => discard (confirm_pending_update ticks debug)
  | OpReject reason => discard (reject_pending_update ticks debug reason)
  | OpRollback => discard (rollback_current_update ticks debug)
  | OpClear => clear_completed_state ticks debug
  end.

Fixpoint run_pkg_ops (ops : list pkg_op) (w : PkgWorld S) : list (result PkgError ()) * PkgWorld S :=
  match ops with
  | [] => ([], w)
  | op :: ops => let '(r, w1) := run_pkg_op op w in let '(rs, w2) := run_pkg_ops ops w1 in (r :: rs, w2)
  end.

Definition may_manage (w : PkgWorld S) : bool := cap_contains (current_or_session_capabilities (machine w)) PKG_INSTALL.

Lemma require_denied (w : PkgWorld S) : may_manage w = false ->
  exists w', require_pkg_install ticks debug w = (Err PkgPermissionDenied, w') /\
    filesystem w' = filesystem w /\ PACKAGE_MANAGER w' = PACKAGE_MANAGER w /\ may_manage w' = false.
Proof.
  intros Hm. unfold require_pkg_install. eexists. erewrite bind_Ok by reflexivity. cbn [machine].
  unfold session_require. unfold may_manage in Hm. rewrite Hm. by split_and!.
Qed.

Lemma guarded_denied {A} (f : () -> stm (PkgWorld S) PkgError A) (w w' : PkgWorld S) :
  require_pkg_install ticks debug w = (Err PkgPermissionDenied, w') ->
  (require_pkg_install ticks debug ≫= f) w = (Err PkgPermissionDenied, w').
Proof. intros E. unfold mbind, stm_bind. by rewrite E. Qed.

Lemma discard_err {A} (m : stm (PkgWorld S) PkgError A) (w w' : PkgWorld S) e :
  m w = (Err e, w') -> discard m w = (Err e, w').
Proof. intros E. unfold discard, mbind, stm_bind. by rewrite E. Qed.

Lemma discard_ok {A} (m : stm (PkgWorld S) PkgError A) (w w' : PkgWorld S) a :
  m w = (Ok a, w') -> discard m w = (Ok (), w').
Proof. intros E. unfold discard, mbind, stm_bind. by rewrite E. Qed.

Lemma run_pkg_op_denied op (w : PkgWorld S) : may_manage w = false ->
  exists w', run_pkg_op op w = (Err PkgPermissionDenied, w') /\
    filesystem w' = filesystem w /\ PACKAGE_MANAGER w' = PACKAGE_MANAGER w /\ may_manage w' = false.
Proof.
  intros Hm. destruct (require_denied w Hm) as (w' & E & Hw'). exists w'. split; [|done].
  destruct op; cbn [run_pkg_op]; try apply discard_err; by apply guarded_denied.
Qed.

(** A caller without the capability PKG_INSTALL changes nothing.  Whatever
    sequence of package and update commands it issues, each one is refused with
    [PermissionDenied], and at the end the file system (so every package, every
    record and the update state) and the package manager are as before. *)
Theorem pkg_needs_capability ops (w : PkgWorld S) :
  may_manage w = false ->
  Forall (fun r => r = Err PkgPermissionDenied) (run_pkg_ops ops w).1 /\
  filesystem (run_pkg_ops ops w).2 = filesystem w /\
  PACKAGE_MANAGER (run_pkg_ops ops w).2 = PACKAGE_MANAGER w.
Proof.
  revert w. induction ops as [|op ops IH]; intros w Hm; cbn [run_pkg_ops]; [done|].
  destruct (run_pkg_op_denied op w Hm) as (w' & -> & Hfs & Hpm & Hm').
  destruct (IH w' Hm') as (H1' & H2' & H3'). destruct (run_pkg_ops ops w') as [rs w2]. cbn in *.
  split_and!; [by constructor|congruence|congruence].
Qed.
End permission.

(** ** Installing a verified bundle *)

Section install.
Context {S : Type} `{Backend S}.
Context (ticks : nat -> Z).

Abbreviation pst A := (stm (PkgWorld S) PkgError A).
Abbreviation dest f := (canonical_path (mf_path f)).

(** Two worlds that differ in the file system, the log and the clock only. *)
Definition same_state (w w' : PkgWorld S) : Prop :=
  PACKAGE_MANAGER w' = PACKAGE_MANAGER w /\ authority w' = authority w.

#[global] Instance same_state_preorder : PreOrder same_state.
Proof. split; [done|]. intros x y z [] []. split; congruence. Qed.

Lemma locked_Ok err op (w w' : PkgWorld S) :
  fok w -> locked_fs err (run_fs_op op) w = (Ok (), w') ->
  spec_op op (fm w) = (Ok (), fm w') /\ fok w' /\ same_state w w'.
Proof.
  intros Hw E. destruct (locked_op err op w Hw) as (Hr & Hm & Ho & Hp & Ha). rewrite E in *. cbn in *.
  destruct (spec_op op (fm w)) as [[[]|] m]; cbn in *; [subst m; by split_and!|done].
Qed.

Lemma write_Ok err now path data p ro (w w' : PkgWorld S) :
  fok w -> locked_fs err (write_internal now path data 0 Admin p ro) w = (Ok (), w') ->
  exists c e, canonical_path path = Ok c /\ fm w' = <[c := e]> (fm w) /\ fe_data e = data /\ fe_readonly e = ro /\
    fok w' /\ same_state w w'.
Proof.
  intros Hw E. apply (locked_Ok err (FsWrite now path data 0 Admin p ro)) in E as (E & Ho & Hs); [|done].
  cbn [spec_op] in E. apply spec_store_Ok in E as (c & e & Hc & Hm & He). exists c, e. split_and!; try done.
  - destruct He as [[_ ->]|(x & _ & Hx)]; [done|]. by repeat case_match; simplify_eq.
  - destruct He as [[_ ->]|(x & _ & Hx)]; [done|]. by repeat case_match; simplify_eq.
Qed.

(** An operation that the specification lets succeed does. *)
Lemma locked_succeeds err op m (w : PkgWorld S) :
  fok w -> spec_op op (fm w) = (Ok (), m) ->
  exists w', locked_fs err (run_fs_op op) w = (Ok (), w') /\ fm w' = m /\ fok w' /\ same_state w w'.
Proof.
  intros Hw E. destruct (locked_op err op w Hw) as (Hr & Hm & Ho & Hp & Ha). rewrite E in Hr, Hm. cbn [fst snd map_err] in *.
  destruct (locked_fs err (run_fs_op op) w) as [r w']. cbn [fst snd] in *. subst r. exists w'. by split_and!.
Qed.

(** The kernel overwrites a file that is not read-only when there is room. *)
Lemma write_existing err now path data p ro c e (w : PkgWorld S) :
  fok w -> canonical_path path = Ok c -> c <> [slash] -> fm w !! c = Some e -> fe_readonly e = false ->
  blen data <= MAX_FILE_SIZE -> map_used (delete c (fm w)) + blen data <= TOTAL_CAPACITY ->
  exists w', locked_fs err (write_internal now path data 0 Admin p ro) w = (Ok (), w') /\
    fm w' = <[c := mkEntry (fe_name e) data (fe_created_at e) now ro (fe_owner_uid e) (fe_permissions e)]> (fm w) /\
    fok w' /\ same_state w w'.
Proof.
  intros Hw Hc Hs He Hro Hmax Hcap. apply (locked_succeeds err (FsWrite now path data 0 Admin p ro)); [done|].
  cbn [spec_op]. unfold spec_store. rewrite Hc, He, Hro.
  replace (blen data >? MAX_FILE_SIZE) with false by lia. rewrite bool_decide_false by done.
  by replace (_ + blen data >? TOTAL_CAPACITY) with false by lia.
Qed.

(** The entry of the map after one file of a manifest has been installed. *)
Definition holds_payload (bundle : WarPackBundle) (f : ManifestFile) (o : option FileEntry) : Prop :=
  exists payload e, find_first (source_is (mf_source f)) (wb_payloads bundle) = Some payload /\
    o = Some e /\ fe_data e = pa_contents payload /\ fe_readonly e = false.

Lemma install_file_Ok bundle f acc acc' (w w' : PkgWorld S) :
  fok w -> install_file ticks bundle f acc w = (Ok acc', w') ->
  exists c, dest f = Ok c /\ acc' = acc ++ [mf_path f] /\ holds_payload bundle f (fm w' !! c) /\
    (forall c', c' <> c -> fm w' !! c' = fm w !! c') /\ fok w' /\ same_state w w'.
Proof.
  intros Hw E. unfold install_file in E.
  destruct (find_first _ _) as [payload|] eqn:Ef; [|done].
  erewrite bind_Ok in E by reflexivity. erewrite bind_Ok in E by reflexivity.
  unfold mbind, stm_bind in E.
  destruct (locked_fs _ (write_as _ _ _ _ _ _) _) as [[[]|] w1] eqn:Ew; [|done].
  apply write_Ok in Ew as (c & e & Hc & Hm & Hd & Hr & Ho & Hs); [|done].
  change (fm w1 = <[c := e]> (fm w)) in Hm. exists c.
  destruct (mf_executable f).
  - destruct (locked_fs _ (chmod_as _ _ _ _) w1) as [[[]|] w2] eqn:Ech; [|done]. unfold mret, stm_ret in E. simplify_eq.
    apply (locked_Ok _ (FsChmod (mf_path f) 0 Admin (str "rwr-"))) in Ech as (Ech & Ho' & Hs'); [|done].
    cbn [spec_op] in Ech. rewrite Hc, Hm, lookup_insert_eq in Ech.
    destruct (owner_access e 0 Admin); [|done]. cbn in Ech. apply pair_equal_spec in Ech as [_ Hm'].
    split_and!; try done.
    + exists payload. eexists. rewrite <- Hm', lookup_insert_eq. done.
    + intros c' Hne. rewrite <- Hm', !lookup_insert_ne by done. done.
    + by etransitivity.
  - unfold mret, stm_ret in E. simplify_eq. split_and!; try done.
    + exists payload, e. by rewrite Hm, lookup_insert_eq.
    + intros c' Hne. by rewrite Hm, lookup_insert_ne.
Qed.

Lemma install_files_Ok bundle files acc acc' (w w' : PkgWorld S) :
  fok w -> foldM (install_file ticks bundle) files acc w = (Ok acc', w') ->
  acc' = acc ++ map mf_path files /\ fok w' /\ same_state w w' /\
  (forall f, f ∈ files -> exists c, dest f = Ok c) /\
  (forall c, (forall f, f ∈ files -> dest f <> Ok c) -> fm w' !! c = fm w !! c) /\
  (forall l1 f l2 c, files = l1 ++ f :: l2 -> dest f = Ok c -> (forall g, g ∈ l2 -> dest g <> Ok c) ->
     holds_payload bundle f (fm w' !! c)).
Proof.
  revert acc w. induction files as [|f files IH]; intros acc w Hw E; cbn [foldM] in E.
  - unfold mret, stm_ret in E. simplify_eq. rewrite app_nil_r.
    split_and!; try done; [by intros f ?%not_elem_of_nil|by intros [|] ? ? ? ?].
  - unfold mbind, stm_bind in E. destruct (install_file ticks bundle f acc w) as [[a|] w1] eqn:E1; [|done].
    apply install_file_Ok in E1 as (c0 & Hc0 & -> & Hf & Hother & Ho & Hs); [|done].
    apply IH in E as (-> & Ho' & Hs' & Hpaths & Hframe & Hlast); [|done]. split_and!; try done.
    + by rewrite <- app_assoc.
    + by etransitivity.
    + intros g [->|Hg]%elem_of_cons; [by exists c0|by apply Hpaths].
    + intros c Hc. rewrite Hframe by (intros g Hg; apply Hc; by right). apply Hother.
      intros ->. apply (Hc f); [by left|done].
    + intros [|g l1] f' l2 c Hsplit Hd Hl2; cbn in Hsplit; simplify_eq.
      * rewrite Hframe by done. by rewrite Hc0 in Hd; simplify_eq.
      * by eapply Hlast.
Qed.

Lemma remove_stale_Ok path (w w' : PkgWorld S) :
  fok w -> remove_stale path w = (Ok (), w') ->
  exists c, canonical_path path = Ok c /\ fm w' = delete c (fm w) /\ fok w' /\ same_state w w'.
Proof.
  intros Hw E. unfold remove_stale in E.
  destruct (op_refines (FsDelete path 0 Admin) (filesystem w) Hw) as (Hr & Hm & Ho). cbn [run_fs_op spec_op] in *.
  destruct (delete_as path 0 Admin (filesystem w)) as [r x]. cbn [fst snd] in *. unfold fm.
  destruct (canonical_path path) as [c|e] eqn:Ec; cbn [fst snd] in *.
  - exists c. split; [done|]. destruct (abs (fs (filesystem w)) !! c) as [y|] eqn:Ey.
    + unfold owner_access in *. rewrite bool_decide_false in * by tauto.
      destruct (fe_readonly y); cbn in *; subst r; simplify_eq/=. done.
    + cbn in *. subst r. simplify_eq/=. rewrite delete_id by done. done.
  - subst r. destruct (canonical_path_Err _ _ Ec) as [->| ->]; done.
Qed.

Lemma remove_stales_Ok paths (w w' : PkgWorld S) :
  fok w -> foldM (fun path _ => remove_stale path) paths () w = (Ok (), w') ->
  fok w' /\ same_state w w' /\ (forall p, p ∈ paths -> exists c, canonical_path p = Ok c) /\
  (forall c, (forall p, p ∈ paths -> canonical_path p <> Ok c) -> fm w' !! c = fm w !! c) /\
  (forall c p, p ∈ paths -> canonical_path p = Ok c -> fm w' !! c = None).
Proof.
  revert w. induction paths as [|p paths IH]; intros w Hw E; cbn [foldM] in E.
  - unfold mret, stm_ret in E. simplify_eq.
    split_and!; try done; [by intros p ?%not_elem_of_nil|by intros c p ?%not_elem_of_nil].
  - unfold mbind, stm_bind in E. destruct (remove_stale p w) as [[[]|] w1] eqn:E1; [|done].
    apply remove_stale_Ok in E1 as (c0 & Hc0 & Hm & Ho & Hs); [|done].
    apply IH in E as (Ho' & Hs' & Hpaths & Hframe & Hgone); [|done]. split_and!; [done|by etransitivity| | |].
    + intros q [->|Hq]%elem_of_cons; [by exists c0|by apply Hpaths].
    + intros c Hc. rewrite Hframe by (intros q Hq; apply Hc; by right). rewrite Hm.
      apply lookup_delete_ne. intros ->. apply (Hc p); [by left|done].
    + intros c q [->|Hq]%elem_of_cons Hcq; [|by eapply Hgone]. rewrite Hc0 in Hcq. simplify_eq.
      destruct (decide (Exists (fun q => canonical_path q = Ok c) paths)) as [(q' & Hq' & Hcq')%Exists_exists|Hn].
      * by eapply Hgone.
      * rewrite Hframe; [by rewrite Hm, lookup_delete_eq|]. intros q' Hq' Hcq'. apply Hn, Exists_exists. by exists q'.
Qed.

Context `{JsonOk (list InstalledPackage)}.

Lemma write_system_Ok path data (w w' : PkgWorld S) :
  fok w -> write_system_file ticks path data w = (Ok (), w') ->
  exists c e, canonical_path path = Ok c /\ fm w' = <[c := e]> (fm w) /\ fe_data e = data /\
    fe_readonly e = false /\ fok w' /\ same_state w w'.
Proof.
  intros Hw E. unfold write_system_file in E. erewrite bind_Ok in E by reflexivity.
  apply write_Ok in E as (c & e & ? & ? & ? & ? & ? & ?); [|done]. by exists c, e.
Qed.

Lemma installed_path_canonical : canonical_path LOCAL_INSTALLED_PATH = Ok LOCAL_INSTALLED_PATH.
Proof. vm_compute. reflexivity. Qed.

Lemma read_fm (w : PkgWorld S) path c : canonical_path path = Ok c ->
  read (fs (filesystem w)) path = match fm w !! c with Some e => Ok (fe_data e) | None => Err FileNotFound end.
Proof.
  intros Hc. unfold read, read_as, fm. rewrite Hc. cbn. rewrite <- abs_lookup.
  destruct (abs _ !! c); cbn; [|done]. by unfold can_read.
Qed.

Lemma save_installed_Ok (w w' : PkgWorld S) :
  fok w -> save_installed_list ticks w = (Ok (), w') ->
  fok w' /\ same_state w w' /\ load_installed (fs (filesystem w')) = Some (pm_installed (PACKAGE_MANAGER w')) /\
  (exists e, fm w' !! LOCAL_INSTALLED_PATH = Some e /\ fe_readonly e = false) /\
  (forall c, c <> LOCAL_INSTALLED_PATH -> fm w' !! c = fm w !! c).
Proof.
  intros Hw E. unfold save_installed_list in E. erewrite bind_Ok in E by reflexivity.
  destruct (json_roundtrip (pm_installed (PACKAGE_MANAGER w))) as (data & Hto & Hfrom).
  erewrite bind_Ok in E; [|unfold lift_result; by rewrite Hto].
  apply write_system_Ok in E as (c & e & Hc & Hm & Hd & Hro & Ho & Hs); [|done].
  rewrite installed_path_canonical in Hc. simplify_eq. split_and!; [done|done| | |].
  - unfold load_installed. rewrite (read_fm _ _ _ installed_path_canonical), Hm, lookup_insert_eq.
    destruct Hs as [-> _]. by rewrite Hfrom.
  - exists e. by rewrite Hm, lookup_insert_eq.
  - intros c Hne. by rewrite Hm, lookup_insert_ne.
Qed.

(** What an installed bundle leaves behind. *)
Record bundle_installed (v : VerifiedPackage) (ip : InstalledPackage) (w w' : PkgWorld S) : Prop := mkInstalledOk {
  bi_record : ip_name ip = ma_name (sm_manifest (wb_signed_manifest (vp_bundle v))) /\
    ip_version ip = ma_version (sm_manifest (wb_signed_manifest (vp_bundle v))) /\
    ip_files ip = map mf_path (ma_files (sm_manifest (wb_signed_manifest (vp_bundle v))));
  bi_installed : pm_installed (PACKAGE_MANAGER w') = without_package (ip_name ip) (pm_installed (PACKAGE_MANAGER w)) ++ [ip];
  bi_persisted : load_installed (fs (filesystem w')) = Some (pm_installed (PACKAGE_MANAGER w'));
  bi_list_file : exists e, fm w' !! LOCAL_INSTALLED_PATH = Some e /\ fe_readonly e = false;
  (** every path involved was a valid one *)
  bi_paths : (forall f, f ∈ ma_files (sm_manifest (wb_signed_manifest (vp_bundle v))) -> exists c, dest f = Ok c) /\
    (forall old file, find_installed (PACKAGE_MANAGER w) (ip_name ip) = Some old -> file ∈ ip_files old ->
       exists c, canonical_path file = Ok c);
  (** the last file of the manifest for a path is there, with its payload *)
  bi_files : forall l1 f l2 c, ma_files (sm_manifest (wb_signed_manifest (vp_bundle v))) = l1 ++ f :: l2 ->
    dest f = Ok c -> (forall g, g ∈ l2 -> dest g <> Ok c) -> c <> LOCAL_INSTALLED_PATH ->
    holds_payload (vp_bundle v) f (fm w' !! c);
  (** the files of the previous version that the new one does not have are gone *)
  bi_stale : forall old file c, find_installed (PACKAGE_MANAGER w) (ip_name ip) = Some old -> file ∈ ip_files old ->
    canonical_path file = Ok c -> (forall f, f ∈ ma_files (sm_manifest (wb_signed_manifest (vp_bundle v))) -> dest f <> Ok c) ->
    c <> LOCAL_INSTALLED_PATH -> fm w' !! c = None;
  (** nothing else has changed *)
  bi_frame : forall c, c <> LOCAL_INSTALLED_PATH ->
    (forall f, f ∈ ma_files (sm_manifest (wb_signed_manifest (vp_bundle v))) -> dest f <> Ok c) ->
    (forall old file, find_installed (PACKAGE_MANAGER w) (ip_name ip) = Some old -> file ∈ ip_files old ->
       canonical_path file <> Ok c) ->
    fm w' !! c = fm w !! c;
}.

Lemma stale_files_elem m old file :
  file ∈ stale_files m (Some old) <-> file ∈ ip_files old /\ (forall f, f ∈ ma_files m -> mf_path f <> file).
Proof.
  unfold stale_files. rewrite list_elem_of_In, filter_In, forallb_forall, <- list_elem_of_In.
  setoid_rewrite <- list_elem_of_In. split; intros [? Hf]; (split; [done|]); intros f Hin.
  - apply Hf in Hin. by case_bool_decide.
  - rewrite bool_decide_false; [done|]. by apply Hf.
Qed.

Lemma apply_bundle_installed v size uid ip (w w' : PkgWorld S) :
  fok w -> apply_verified_bundle ticks v size uid w = (Ok ip, w') ->
  fok w' /\ authority w' = authority w /\ bundle_installed v ip w w'.
Proof.
  set (man := sm_manifest (wb_signed_manifest (vp_bundle v))).
  intros Hw E. unfold apply_verified_bundle in E. fold man in E. erewrite bind_Ok in E by reflexivity.
  unfold mbind, stm_bind in E.
  destruct (foldM _ (stale_files man _) () w) as [[[]|] w1] eqn:E1; [|done].
  destruct (foldM _ (ma_files man) [] w1) as [[fl|] w2] eqn:E2; [|done].
  apply remove_stales_Ok in E1 as (Ho1 & Hs1 & Hp1 & Hf1 & Hg1); [|done].
  apply install_files_Ok in E2 as (Hfl & Ho2 & Hs2 & Hp2 & Hf2 & Hl2); [|done]. cbn [app] in Hfl. subst fl.
  cbn [tick_count update_manager modify] in E.
  destruct (save_installed_list ticks _) as [[[]|] w3] eqn:E3; [|done].
  apply save_installed_Ok in E3 as (Ho3 & [Hpm3 Ha3] & Hload & He3 & Hf3); [|done].
  unfold pkg_log, tick_count, mbind, stm_bind, modify in E. cbn in E. unfold mret, stm_ret in E.
  apply pair_equal_spec in E as [[= <-] <-].
  destruct Hs1 as [Hpm1 Ha1], Hs2 as [Hpm2 Ha2]. cbn [PACKAGE_MANAGER set_manager] in Hpm3.
  split; [done|]. split; [by etransitivity; [apply Ha3|]; etransitivity|].
  split; cbn [PACKAGE_MANAGER set_machine filesystem machine kernel audit ip_name ip_version ip_files]; fold man.
  - done.
  - rewrite Hpm3. cbn. by rewrite Hpm2, Hpm1.
  - done.
  - exact He3.
  - split; [done|]. intros old file Hold Hin.
    destruct (decide (Exists (fun f => mf_path f = file) (ma_files man))) as [(f & Hf & <-)%Exists_exists|Hn].
    + by apply Hp2.
    + apply Hp1. rewrite Hold. apply stale_files_elem. split; [done|]. intros f Hf E. apply Hn, Exists_exists. by exists f.
  - intros l1 f l2 c Hsplit Hd Hlast Hc. change (holds_payload (vp_bundle v) f (fm w3 !! c)). rewrite Hf3 by done.
    by eapply Hl2.
  - intros old file c Hold Hin Hc Hnot Hne. change (fm w3 !! c = None). rewrite Hf3 by done.
    change (fm w2 !! c = None). rewrite Hf2 by done. apply (Hg1 c file); [|done].
    rewrite Hold. apply stale_files_elem. split; [done|]. intros f Hf <-. by apply (Hnot f).
  - intros c Hc Hnot Hprev. change (fm w3 !! c = fm w !! c). rewrite Hf3 by done. change (fm w2 !! c = fm w !! c).
    rewrite Hf2 by done. apply Hf1. intros p Hp.
    destruct (find_installed (PACKAGE_MANAGER w) (ma_name man)) as [old|] eqn:Hold; [|by apply not_elem_of_nil in Hp].
    apply stale_files_elem in Hp as [Hp _]. by eapply Hprev.
Qed.
End install.

(** ** Only signed packages are installed *)

Section signed.
Context {S : Type} `{Backend S}.
Context (ticks : nat -> Z) (debug : Z -> bytes).
Context (sha256 sha3_256 : bytes -> bytes) (bootstrap_pk_hex : bytes).
Context `{Json CanonicalSignedManifest, MlDsa, Json PackageIndex, Json WarPackBundle}.
Context `{JsonOk (list InstalledPackage)}.
Context (http_get : bytes -> Machine S -> result () bytes * Machine S).

Abbreviation root := (embedded_bootstrap_root bootstrap_pk_hex).

Lemma verify_package_Ok package data v (w w' : PkgWorld S) :
  verify_package_bytes ticks sha256 sha3_256 bootstrap_pk_hex package data w = (Ok v, w') ->
  sha256_hex sha256 data = pi_sha256 package /\ from_slice data = Ok (vp_bundle v) /\
  v = verified_package (vp_bundle v) /\ verify_bundle sha3_256 (vp_bundle v) root = Ok () /\
  metadata_matches (sm_manifest (wb_signed_manifest (vp_bundle v))) package = true /\
  filesystem w' = filesystem w /\ same_state w w' /\ exec_current_uid (machine w') = exec_current_uid (machine w).
Proof.
  unfold verify_package_bytes. case_bool_decide as Hsha; [done|].
  destruct (from_slice data) as [bundle|]; [|done].
  unfold verify_bootstrap_bundle, verify_bundle_with_embedded_root.
  destruct (verify_bundle sha3_256 bundle root) as [[]|] eqn:Ev; [|done].
  destruct (metadata_matches _ _) eqn:Em; [|done]. cbn [negb].
  intros E. erewrite bind_Ok in E by reflexivity. unfold mret, stm_ret in E.
  apply pair_equal_spec in E as [[= <-] <-]. cbn [vp_bundle verified_package].
  split_and!; try done.
Qed.

(** The file is the one the root signed: its hash and size are those of the
    signed digest of its payload. *)
Definition signed_contents (bundle : WarPackBundle) (f : ManifestFile) (o : option FileEntry) : Prop :=
  exists d e, d ∈ sm_payloads (wb_signed_manifest bundle) /\ dg_source d = mf_source f /\ o = Some e /\
    sha3_256_hex sha3_256 (fe_data e) = dg_sha3_256 d /\ blen (fe_data e) = mf_size f.

Lemma payload_signed bundle f o :
  payloads_ok sha3_256 bundle -> f ∈ ma_files (sm_manifest (wb_signed_manifest bundle)) ->
  holds_payload bundle f o -> signed_contents bundle f o.
Proof.
  intros Hok Hf (p & e & Hp & -> & Hd & _). destruct (po_files _ _ Hok f Hf) as (d & Hin & Hsrc & Hsize).
  destruct (po_digests _ _ Hok d Hin) as (q & Hq & Hqs & Hql & Hqh).
  apply find_source_iff in Hp as [Hp Hps]; [|apply Hok].
  assert (q = p) as -> by (eapply source_unique; [apply Hok|..]; naive_solver congruence).
  exists d, e. unfold sha3_256_hex. rewrite Hd. split_and!; congruence.
Qed.

(** C8: what [install] puts on the system comes from a signed bundle.  When a
    package that was not there has been installed, the fetched data hash to the
    checksum of the index and decode to a bundle the trust root has signed, for
    this package; for each path the file is the payload with the signed hash and
    size; the stale files of the package are gone, every other file is as it
    was; and the list of installed packages, in memory and on disk, has the new
    entry. *)
Theorem installed_files_are_signed package data (w w1 w' : PkgWorld S) :
  fok w1 -> is_installed (PACKAGE_MANAGER w) (pi_name package) = false ->
  fetch_package http_get (pi_download_url package) w = (Ok data, w1) ->
  install_package ticks sha256 sha3_256 bootstrap_pk_hex http_get package w = (Ok (), w') ->
  exists bundle ip,
    from_slice data = Ok bundle /\ sha256_hex sha256 data = pi_sha256 package /\
    metadata_matches (sm_manifest (wb_signed_manifest bundle)) package = true /\
    signed_by_root bundle root /\ bundle_installed (verified_package bundle) ip w1 w' /\
    forall l1 f l2 c, ma_files (sm_manifest (wb_signed_manifest bundle)) = l1 ++ f :: l2 ->
      canonical_path (mf_path f) = Ok c -> (forall g, g ∈ l2 -> canonical_path (mf_path g) <> Ok c) ->
      c <> LOCAL_INSTALLED_PATH -> signed_contents bundle f (fm w' !! c).
Proof.
  intros Hw Hnot Hfetch E. unfold install_package in E. erewrite bind_Ok in E by reflexivity.
  cbn beta in E. rewrite Hnot in E. erewrite bind_Ok in E by done. unfold mbind at 1, stm_bind at 1 in E.
  destruct (verify_package_bytes _ _ _ _ _ _ w1) as [[v|] w2] eqn:Ev; [|done].
  apply verify_package_Ok in Ev as (Hsha & Hfrom & Hv & Hver & Hmeta & Hfs & [Hpm Ha] & Huid).
  erewrite bind_Ok in E by reflexivity. unfold mbind, stm_bind in E.
  destruct (apply_verified_bundle _ _ _ _ w2) as [[ip|] w3] eqn:Ea; [|done]. unfold mret, stm_ret in E.
  apply pair_equal_spec in E as [_ <-].
  assert (fok w2) as Hw2 by (unfold fok; by rewrite Hfs).
  destruct (apply_bundle_installed ticks v _ _ ip w2 w3 Hw2 Ea) as (Ho & Ha3 & Hinst).
  apply verify_bundle_iff in Hver as [Hsig Hpay].
  exists (vp_bundle v), ip. rewrite <- Hv.
  assert (bundle_installed v ip w1 w3) as Hinst1.
  { destruct Hinst. unfold fm in *. rewrite Hfs, Hpm in *. by split. }
  split_and!; try done. intros l1 f l2 c Hsplit Hd Hlast Hc. apply payload_signed; [done| |].
  - rewrite Hsplit. set_solver.
  - by eapply bi_files.
Qed.
End signed.
