(* ===== verification/PkgUpdateSpecs.v ===== *)
(** * The update state machine

    [update_step] is the table of transitions of the stored update state.
    Whatever update commands and boots happen, the stored state moves along it
    ([update_history]); so the promises about updates (nothing is confirmed
    before it has booted, a failed update asks for recovery) are proved on the
    table. *)
From stdpp Require Import relations.
From S2P Require Import Prelude RustStr Paths Auth Session AuditLog WarFS FsCurrent Caps Process Exec PkgBundle PkgIndex Pkg PkgUpdate PkgSpecs.

(** ** The table *)

Inductive update_label : Type :=
| LStage | LApply | LConfirm | LReject | LRollback | LClear | LRequest | LResume | LBoot | LReady.

Inductive update_step : update_label -> UpdateState -> UpdateState -> Prop :=
| step_stage st m from source staged :
    unsettled st = false ->
    update_step LStage st (set_current (Some (staged_transaction m from source staged)) st)
| step_apply st m from source staged now :
    unsettled st = false ->
    update_step LApply st (set_recovery false None (set_current (Some (applied_transaction m from source staged now)) st))
| step_confirm st t now :
    us_current st = Some t -> ut_phase t = PendingConfirmation -> ut_boot_observed t = true ->
    update_step LConfirm st (set_recovery false None (set_current (Some (confirm_transaction now t)) st))
| step_reject st t reason why :
    us_current st = Some t -> ut_phase t = PendingConfirmation ->
    update_step LReject st (set_recovery true (Some why) (set_current (Some (reject_transaction reason t)) st))
| step_rollback st t now :
    us_current st = Some t ->
    update_step LRollback st (set_recovery false None (set_current (Some (rolled_back_transaction now t)) st))
| step_clear st reason :
    unsettled st = false ->
    update_step LClear st (mkUpdateState (us_schema_version st) (us_recovery_requested st) reason None)
| step_request st reason :
    update_step LRequest st (set_recovery true (Some reason) st)
| step_resume st :
    unsettled st = false -> update_step LResume st (set_recovery false None st)
| step_boot st :
    update_step LBoot st (boot_state st).1.1
| step_ready st t :
    us_current st = Some t -> ut_phase t = PendingConfirmation -> ut_boot_started t = true ->
    ut_boot_observed t = false ->
    update_step LReady st (set_current (Some (observe_boot_transaction t)) st).

(** The states along a sequence of labels. *)
Inductive update_run : UpdateState -> list update_label -> UpdateState -> Prop :=
| run_nil st : update_run st [] st
| run_snoc st ls st' l st'' : update_run st ls st' -> update_step l st' st'' -> update_run st (ls ++ [l]) st''.

(** *** Confirmation needs a boot *)

Definition phase_of (st : UpdateState) : option UpdatePhase := ut_phase <$> us_current st.

(** What must have happened for the transaction to be where it is. *)
Definition needed (st : UpdateState) : list update_label :=
  match us_current st with
  | None => []
  | Some t =>
      match ut_phase t with
      | PendingConfirmation =>
          [LApply] ++ (if ut_boot_started t || ut_boot_observed t then [LBoot] else [])
          ++ (if ut_boot_observed t then [LReady] else [])
      | Confirmed => [LApply; LBoot; LReady; LConfirm]
      | _ => []
      end
  end.

Lemma needed_step l st st' ls :
  update_step l st st' -> sublist (needed st) ls -> sublist (needed st') (ls ++ [l]).
Proof.
  intros Hstep Hsub.
  assert (sublist (needed st ++ [l]) (ls ++ [l])) as Hmore by (by apply sublist_app).
  assert (sublist (needed st) (ls ++ [l])) as Hsame by (by apply sublist_inserts_r).
  assert (sublist [] (ls ++ [l])) as Hnil by apply sublist_nil_l.
  unfold needed in *. destruct Hstep as [| |st t now Ht Hp Ho|st t reason why Ht Hp|st t now Ht| | | |st|st t Ht Hp Hs Ho];
    cbn [us_current set_recovery set_current] in *; try done; try by destruct (us_current st).
  - apply (sublist_app [] ls [LApply] [LApply]); [apply sublist_nil_l|done].
  - rewrite Ht, Hp, Ho, orb_true_r in Hmore. exact Hmore.
  - unfold boot_state. destruct (us_current st) as [t|] eqn:Ht; [|cbn; by rewrite Ht].
    destruct (ut_phase t) eqn:Hp; cbn; rewrite ?Ht, ?Hp; cbn; try done.
    destruct (ut_boot_started t) eqn:Hs, (ut_boot_observed t) eqn:Ho; cbn; rewrite ?Hp; cbn in *; rewrite ?Ho; done.
  - cbn. rewrite Hp, Hs. rewrite Ht, Hp, Hs, Ho in Hmore. exact Hmore.
Qed.

(** A confirmed transaction has behind it an apply, a later boot, a later
    shell-ready report and a later confirmation. *)
Lemma confirmed_run st0 ls st :
  needed st0 = [] -> update_run st0 ls st -> phase_of st = Some Confirmed ->
  sublist [LApply; LBoot; LReady; LConfirm] ls.
Proof.
  intros H0 Hrun Hph. assert (sublist (needed st) ls) as Hsub.
  { clear Hph. induction Hrun as [|st0 ls st l st' Hrun IH Hstep]; [by rewrite H0|].
    eapply needed_step; [done|by apply IH]. }
  unfold phase_of in Hph. unfold needed in Hsub. destruct (us_current st) as [t|]; [|done].
  cbn in Hph. simplify_eq. by rewrite Hph in Hsub.
Qed.

(** *** Failures ask for recovery *)

(** A failed update has its recovery request; an update that has reached the
    shell has booted. *)
Definition state_ok (st : UpdateState) : Prop :=
  (phase_of st = Some UpdateFailed -> us_recovery_requested st = true) /\
  (forall t, us_current st = Some t -> ut_boot_observed t = true -> ut_boot_started t = true).

Lemma state_ok_step l st st' : update_step l st st' -> state_ok st -> state_ok st'.
Proof.
  intros Hstep [Hf Hb]. unfold state_ok, phase_of in *.
  destruct Hstep as [| |st t now Ht Hp Ho|st t reason why Ht Hp|st t now Ht| | |st Hu|st|st t Ht Hp Hs Ho];
    cbn [us_current us_recovery_requested set_recovery set_current fmap option_fmap option_map] in *;
    try (split; [done|]; by intros ? [= <-]); try by split.
  - split; [done|]. intros t' [= <-]. cbn. by apply Hb.
  - split; [|exact Hb]. intros Hph. unfold unsettled in Hu. destruct (us_current st) as [t|]; [|done].
    cbn in Hph. simplify_eq. by rewrite Hph in Hu.
  - unfold boot_state. destruct (us_current st) as [t|] eqn:Ht; [|cbn; by rewrite Ht].
    specialize (Hb t eq_refl).
    destruct (ut_phase t) eqn:Hp; cbn; rewrite ?Ht; cbn; try (split; [congruence|]; intros t' [= <-]; done).
    destruct (ut_boot_started t) eqn:Hs, (ut_boot_observed t) eqn:Ho; cbn;
      (split; [intuition congruence|]; intros t' [= <-]; cbn; intuition congruence).
  - split; [cbn; congruence|]. intros t' [= <-]. done.
Qed.

(** A failed update stays failed until it is rolled back. *)
Lemma failed_step l st st' :
  update_step l st st' -> l <> LRollback -> phase_of st = Some UpdateFailed -> us_recovery_requested st = true ->
  phase_of st' = Some UpdateFailed /\ us_recovery_requested st' = true.
Proof.
  intros Hstep Hl Hf Hr. unfold phase_of in *.
  assert (unsettled st = true) as Hu.
  { unfold unsettled. destruct (us_current st) as [t|]; [|done]. cbn in Hf. simplify_eq. by rewrite Hf. }
  destruct Hstep as [| |st t now Ht Hp Ho|st t reason why Ht Hp|st t now Ht| | | |st|st t Ht Hp Hs Ho];
    try done; try congruence; try (rewrite Ht in Hf; cbn in Hf; congruence).
  unfold boot_state. destruct (us_current st) as [t|] eqn:Ht; [|done]. cbn in Hf. simplify_eq. rewrite Hf.
  cbn. by rewrite Ht; cbn; rewrite Hf.
Qed.

(** The state after the shell has reported itself ready. *)
Definition ready_state (st : UpdateState) : UpdateState :=
  match us_current st with
  | Some t =>
      if bool_decide (ut_phase t = PendingConfirmation) && ut_boot_started t && negb (ut_boot_observed t)
      then set_current (Some (observe_boot_transaction t)) st else st
  | None => st
  end.

(** Two boots with or without the shell coming up in between, and no
    confirmation: the update has failed. *)
Lemma two_boots_fail st (ready : bool) :
  phase_of st = Some PendingConfirmation ->
  let st1 := (boot_state st).1.1 in
  let st2 := if ready then ready_state st1 else st1 in
  let st3 := (boot_state st2).1.1 in
  phase_of st3 = Some UpdateFailed /\ us_recovery_requested st3 = true.
Proof.
  unfold phase_of. destruct st as [v r rs [t|]]; [|done]. cbn. intros [= Hp].
  destruct t as [n from to src staged rb ph aa ca started observed fr note]. cbn in Hp. subst ph.
  destruct ready, started, observed; done.
Qed.

(** ** The files of the package manager *)

Abbreviation pkg_file cs := (render (str "var" :: str "pkg" :: cs)).

(** Records of rollbacks: the files below [/var/pkg/rollback]. *)
Definition in_rollback (c : bytes) : Prop :=
  exists cs, Forall valid_component cs /\ c = pkg_file (str "rollback" :: cs).

(** The path denotes no file below [/var/pkg]. *)
Definition outside_pkg (path : bytes) : Prop :=
  forall c cs, canonical_path path = Ok c -> Forall valid_component cs -> c <> pkg_file cs.

Lemma pkg_names : Forall valid_component
  [str "var"; str "pkg"; str "rollback"; str "staged"; str "update-state.json"; str "installed.json"].
Proof. apply (bool_decide_eq_true_1 (Forall valid_component _)). vm_compute. reflexivity. Qed.

Ltac pkg_names :=
  pose proof pkg_names as Hnames; rewrite !Forall_cons in Hnames;
  destruct Hnames as (? & ? & ? & ? & ? & ? & _).

Ltac valid_names := rewrite ?Forall_cons, ?Forall_nil; done.

Lemma pkg_file_inj cs cs' :
  Forall valid_component cs -> Forall valid_component cs' -> pkg_file cs = pkg_file cs' -> cs = cs'.
Proof.
  intros Hc Hc' E. pkg_names.
  apply render_inj in E; [by simplify_eq| |]; by valid_names.
Qed.

Lemma canonical_below dir s c :
  valid_component dir -> canonical_path (pkg_file [dir] ++ slash :: s) = Ok c ->
  exists cs, Forall valid_component (dir :: cs) /\ c = pkg_file (dir :: cs).
Proof.
  intros Hd E. pkg_names.
  apply (canonical_path_below [str "var"; str "pkg"; dir]) in E as (cs & Hcs & ->).
  - exists cs. split; [|done]. apply (Forall_app _ [str "var"; str "pkg"]) in Hcs. apply Hcs.
  - by valid_names.
  - done.
Qed.

Lemma rollback_path_below name c : canonical_path (rollback_record_path name) = Ok c -> in_rollback c.
Proof.
  intros E. apply (canonical_below (str "rollback")) in E as (cs & Hcs & ->).
  - exists cs. split; [|done]. by apply Forall_cons in Hcs as [_ ?].
  - by pkg_names.
Qed.

(** A file of another name below [/var/pkg] is not a rollback record. *)
Lemma pkg_file_not_rollback dir cs :
  Forall valid_component (dir :: cs) -> dir <> str "rollback" -> ~ in_rollback (pkg_file (dir :: cs)).
Proof.
  intros Hv Hne (cs' & Hcs' & E). pkg_names.
  apply pkg_file_inj in E; [|done|by constructor]. by simplify_eq.
Qed.

Lemma staged_path_below name version c : canonical_path (staged_bundle_path name version) = Ok c ->
  c <> UPDATE_STATE_PATH /\ ~ in_rollback c.
Proof.
  pkg_names.
  intros E. apply (canonical_below (str "staged")) in E as (cs & Hcs & ->); [|done]. split.
  - change UPDATE_STATE_PATH with (pkg_file [str "update-state.json"]). intros E.
    apply pkg_file_inj in E; [done|done|by valid_names].
  - by apply pkg_file_not_rollback.
Qed.

Lemma state_path_facts :
  canonical_path UPDATE_STATE_PATH = Ok UPDATE_STATE_PATH /\ ~ in_rollback UPDATE_STATE_PATH /\
  ~ in_rollback LOCAL_INSTALLED_PATH /\ UPDATE_STATE_PATH <> LOCAL_INSTALLED_PATH.
Proof.
  pkg_names.
  split_and!; [vm_compute; reflexivity| | |done].
  - by apply (pkg_file_not_rollback (str "update-state.json") []); [valid_names|].
  - by apply (pkg_file_not_rollback (str "installed.json") []); [valid_names|].
Qed.

Lemma outside_pkg_state path c : outside_pkg path -> canonical_path path = Ok c ->
  c <> UPDATE_STATE_PATH /\ c <> LOCAL_INSTALLED_PATH /\ ~ in_rollback c.
Proof.
  pkg_names.
  intros Hout E. split_and!.
  - by apply (Hout c [str "update-state.json"] E); valid_names.
  - by apply (Hout c [str "installed.json"] E); valid_names.
  - intros (cs & Hcs & ->). by apply (Hout _ (str "rollback" :: cs) E); [constructor|].
Qed.

Lemma push_unique_elem paths path x : x ∈ push_unique_path paths path -> x ∈ paths \/ x = path.
Proof. unfold push_unique_path. destruct (forallb _ paths); [|by left]. set_solver. Qed.

(** ** Running the update commands *)

Create HintDb quiet.

Section machine.
Context {S : Type} `{Backend S}.
Context (ticks : nat -> Z) (debug : Z -> bytes).
Context (sha3_256 : bytes -> bytes) (bootstrap_pk_hex : bytes).
Context `{Json CanonicalSignedManifest, MlDsa, Json (list InstalledPackage), Json WarPackBundle}.
Context `{JsonOk UpdateState, JsonOk RollbackRecord}.

Abbreviation pst A := (stm (PkgWorld S) PkgError A).
Abbreviation root := (embedded_bootstrap_root bootstrap_pk_hex).
Abbreviation manifest_of b := (sm_manifest (wb_signed_manifest b)).

(** The signer of the trust root ships no file below [/var/pkg]. *)
Definition trusted_packages_outside : Prop :=
  forall b, verify_bundle sha3_256 b root = Ok () -> forall f, f ∈ ma_files (manifest_of b) -> outside_pkg (mf_path f).

Inductive update_op : Type :=
| UStage (path : bytes) | UApply (path : bytes) | UApplyStaged | UConfirm | UReject (reason : bytes) | URollback
| UClear | URequest (reason : bytes) | UResume | UBoot | UReady.

Definition label_of (op : update_op) : update_label :=
  match op with
  | UStage _ => LStage | UApply _ => LApply | UApplyStaged => LApply | UConfirm => LConfirm | UReject _ => LReject
  | URollback => LRollback | UClear => LClear | URequest _ => LRequest | UResume => LResume | UBoot => LBoot
  | UReady => LReady
  end.

Definition run_update_op (op : update_op) : pst () :=
  match op with
  | UStage path => discard (stage_bundle_from_path ticks debug sha3_256 bootstrap_pk_hex path)
  | UApply path => discard (apply_bundle_from_path ticks debug sha3_256 bootstrap_pk_hex path)
  | UApplyStaged => discard (apply_staged_bundle ticks debug sha3_256 bootstrap_pk_hex)
  | UConfirm => discard (confirm_pending_update ticks debug)
  | UReject reason => discard (reject_pending_update ticks debug reason)
  | URollback => discard (rollback_current_update ticks debug)
  | UClear => clear_completed_state ticks debug
  | URequest reason => request_recovery ticks reason
  | UResume => clear_recovery_request ticks
  | UBoot => discard (prepare_boot ticks)
  | UReady => discard (note_shell_ready ticks)
  end.

(** The stored state of a world. *)
Definition ust (w : PkgWorld S) : result PkgError UpdateState := stored_state (fs (filesystem w)).

(** *** The invariant of the records *)

Definition files_outside (files : list bytes) : Prop := forall file, file ∈ files -> outside_pkg file.
Definition packages_outside (l : list InstalledPackage) : Prop := forall p, p ∈ l -> files_outside (ip_files p).
Definition record_outside (rr : RollbackRecord) : Prop :=
  files_outside (map rf_path (rr_files rr)) /\ forall p, rr_previous_installed rr = Some p -> files_outside (ip_files p).
Definition state_paths (st : UpdateState) : Prop :=
  forall t, us_current st = Some t -> exists name, ut_rollback_path t = rollback_record_path name.

Record winv (w : PkgWorld S) : Prop := mkWinv {
  wi_fs : fok w;
  wi_installed : packages_outside (pm_installed (PACKAGE_MANAGER w));
  wi_records : forall c e rr, in_rollback c -> fm w !! c = Some e -> from_slice (fe_data e) = Ok rr -> record_outside rr;
  wi_state : forall st, ust w = Ok st -> state_paths st;
}.

Lemma ust_fm (w : PkgWorld S) :
  ust w = match fm w !! UPDATE_STATE_PATH with
          | Some e => map_err (fun _ => StateCorrupted) (from_slice (fe_data e))
          | None => Ok update_state_default
          end.
Proof.
  unfold ust, stored_state. rewrite (read_fm w _ _ (proj1 state_path_facts)). by destruct (fm w !! UPDATE_STATE_PATH).
Qed.

(** *** Triples: computations that leave the stored state alone *)

Definition hoare {A} (st : UpdateState) (m : pst A) (Q : A -> Prop) : Prop :=
  forall w, winv w -> ust w = Ok st ->
    winv (m w).2 /\ ust (m w).2 = Ok st /\ forall a, (m w).1 = Ok a -> Q a.

(** Computations that may take one step of the table. *)
Definition final {A} (st : UpdateState) (l : update_label) (m : pst A) : Prop :=
  forall w, winv w -> ust w = Ok st ->
    winv (m w).2 /\ (ust (m w).2 = Ok st \/ exists st', ust (m w).2 = Ok st' /\ update_step l st st').

Lemma hoare_bind {A B} st (m : pst A) (f : A -> pst B) Q R :
  hoare st m Q -> (forall a, Q a -> hoare st (f a) R) -> hoare st (m ≫= f) R.
Proof.
  intros Hm Hf w Hw Hst. destruct (Hm w Hw Hst) as (Hw1 & Hst1 & HQ). unfold mbind, stm_bind.
  destruct (m w) as [[a|e] w1]; cbn in *; [|done]. by apply Hf; [apply HQ|..].
Qed.
Lemma hoare_mono {A} st (m : pst A) (Q R : A -> Prop) : hoare st m Q -> (forall a, Q a -> R a) -> hoare st m R.
Proof. intros Hm HQR w Hw Hst. destruct (Hm w Hw Hst) as (? & ? & HQ). split_and!; auto. Qed.

Lemma final_bind {A B} st l (m : pst A) (f : A -> pst B) Q :
  hoare st m Q -> (forall a, Q a -> final st l (f a)) -> final st l (m ≫= f).
Proof.
  intros Hm Hf w Hw Hst. destruct (Hm w Hw Hst) as (Hw1 & Hst1 & HQ). unfold mbind, stm_bind.
  destruct (m w) as [[a|e] w1]; cbn in *; [|by split; [|left]]. by apply Hf; [apply HQ|..].
Qed.
Lemma final_hoare {A} st l (m : pst A) Q : hoare st m Q -> final st l m.
Proof. intros Hm w Hw Hst. destruct (Hm w Hw Hst) as (? & ? & _). split; [done|by left]. Qed.
Lemma final_discard {A} st l (m : pst A) : final st l m -> final st l (discard m).
Proof.
  intros Hm w Hw Hst. specialize (Hm w Hw Hst). unfold discard, mbind, stm_bind. by destruct (m w) as [[|] ?].
Qed.

(** Computations that touch neither the file system nor the manager. *)
Definition quiet {A} (m : pst A) : Prop :=
  forall w, filesystem (m w).2 = filesystem w /\ PACKAGE_MANAGER (m w).2 = PACKAGE_MANAGER w.

Lemma winv_same (w w' : PkgWorld S) :
  filesystem w' = filesystem w -> PACKAGE_MANAGER w' = PACKAGE_MANAGER w -> winv w -> winv w' /\ ust w' = ust w.
Proof.
  intros Hfs Hpm [H1' H2' H3' H4']. unfold fok, fm, ust in *. rewrite <- Hfs, <- Hpm in *. split; [by split|done].
Qed.

Lemma hoare_quiet {A} st (m : pst A) Q :
  quiet m -> (forall w a, winv w -> (m w).1 = Ok a -> Q a) -> hoare st m Q.
Proof.
  intros Hm HQ w Hw Hst. destruct (Hm w) as [Hfs Hpm]. destruct (winv_same w _ Hfs Hpm Hw) as [Hw' Hu].
  split_and!; [done|congruence|]. intros a. by apply HQ.
Qed.
Lemma hoare_ret {A} st (a : A) (Q : A -> Prop) : Q a -> hoare st (mret a) Q.
Proof. intros HQ w Hw Hst. split_and!; [done..|]. by intros ? [= <-]. Qed.
Lemma hoare_foldM {A B} st (f : A -> B -> pst B) l (Q : B -> Prop) acc :
  (forall x b, x ∈ l -> Q b -> hoare st (f x b) Q) -> Q acc -> hoare st (foldM f l acc) Q.
Proof.
  revert acc. induction l as [|x l IH]; intros acc Hf HQ; cbn [foldM]; [by apply hoare_ret|].
  eapply hoare_bind; [apply Hf; [by left|done]|]. intros b Hb. apply IH; [|done].
  intros y b' Hy. apply Hf. by right.
Qed.

(** *** The services, as triples *)

Lemma quiet_bind {A B} (m : pst A) (f : A -> pst B) : quiet m -> (forall a, quiet (f a)) -> quiet (m ≫= f).
Proof.
  intros Hm Hf w. destruct (Hm w) as [H1' H2']. unfold mbind, stm_bind. destruct (m w) as [[a|e] w1]; cbn in *; [|done].
  destruct (Hf a w1) as [H3' H4']. split; congruence.
Qed.
Lemma quiet_log event : quiet (pkg_log (S := S) ticks event).
Proof. by intros w. Qed.
Lemma quiet_require : quiet (require_pkg_install (S := S) ticks debug).
Proof. intros w. unfold require_pkg_install. erewrite bind_Ok by reflexivity. unfold session_require. by destruct (cap_contains _ _). Qed.
Lemma quiet_log_policy change : quiet (log_policy (S := S) ticks change).
Proof. by intros w. Qed.
Lemma quiet_read_file err path : quiet (read_file (S := S) err path).
Proof. by intros w. Qed.
Lemma quiet_lift {A} (r : result PkgError A) : quiet (lift_result r).
Proof. by intros w. Qed.
Lemma quiet_gets {A} (f : PkgWorld S -> A) : quiet (gets f).
Proof. by intros w. Qed.
Lemma quiet_tick : quiet (tick_count (S := S) ticks).
Proof. by intros w. Qed.
Lemma quiet_read_local path : quiet (read_local_bundle (S := S) path).
Proof.
  assert (forall k : Kernel S, (read_current path k).2 = k) as Hk.
  { intros k. unfold read_current, mbind, stm_bind, resolve_checked. destruct (negb _); cbn; [done|].
    by destruct (read_as _ _ _ _). }
  intros w. unfold read_local_bundle. specialize (Hk (kernel (machine w))).
  destruct (read_current path (kernel (machine w))) as [r k]. cbn in Hk. by subst k.
Qed.

(** A file operation away from the state file and the rollback records. *)
Lemma hoare_op st err op :
  (forall c, canonical_path (op_name op) = Ok c -> c <> UPDATE_STATE_PATH /\ ~ in_rollback c) ->
  hoare st (locked_fs err (run_fs_op op)) (fun _ => True).
Proof.
  intros Hc w [Hf Hi Hr Hs] Hst. destruct (locked_op err op w Hf) as (_ & Hm & Ho & Hp & _).
  set (w' := (locked_fs err (run_fs_op op) w).2) in *.
  assert (forall c, c = UPDATE_STATE_PATH \/ in_rollback c -> fm w' !! c = fm w !! c) as Hframe.
  { intros c Hin. rewrite Hm. apply spec_op_frame. intros [? ?]%Hc. naive_solver. }
  assert (ust w' = ust w) as Hu by (rewrite !ust_fm, Hframe by (by left); done).
  split_and!; [|congruence|done]. split; [done| | |].
  - by rewrite Hp.
  - intros c e rr Hin He. rewrite Hframe in He by (by right). by apply Hr with c.
  - rewrite Hu. exact Hs.
Qed.

Lemma hoare_write_system st path data :
  (forall c, canonical_path path = Ok c -> c <> UPDATE_STATE_PATH /\ ~ in_rollback c) ->
  hoare st (write_system_file ticks path data) (fun _ => True).
Proof.
  intros Hc. eapply hoare_bind; [apply (hoare_quiet _ _ (fun _ => True)); [apply quiet_tick|done]|].
  intros now _. apply (hoare_op st _ (FsWrite now path data 0 Admin perm_system false)). done.
Qed.

Lemma hoare_remove_stale st path : outside_pkg path -> hoare st (remove_stale path) (fun _ => True).
Proof.
  intros Hout w Hw Hst.
  assert (forall c, canonical_path (op_name (FsDelete path 0 Admin)) = Ok c -> c <> UPDATE_STATE_PATH /\ ~ in_rollback c)
    as Hc by (intros c Hc; destruct (outside_pkg_state path c Hout Hc) as (? & ? & ?); done).
  destruct (hoare_op st (fun _ => InstallFailed) _ Hc w Hw Hst) as (H1' & H2' & _).
  unfold remove_stale, locked_fs in *. cbn [run_fs_op] in *.
  destruct (delete_as path 0 Admin (filesystem w)) as [[|[]] x]; done.
Qed.

Lemma hoare_save_installed st : hoare st (save_installed_list (S := S) ticks) (fun _ => True).
Proof.
  eapply hoare_bind; [apply (hoare_quiet _ _ (fun _ => True)); [apply quiet_gets|done]|]. intros pm _.
  eapply hoare_bind; [apply (hoare_quiet _ _ (fun _ => True)); [apply quiet_lift|done]|]. intros data _.
  apply hoare_write_system. intros c Hc. rewrite installed_path_canonical in Hc. simplify_eq.
  split; [|apply state_path_facts]. intros E. by apply (proj2 (proj2 (proj2 state_path_facts))).
Qed.

Lemma hoare_update_manager st f :
  (forall pm, packages_outside (pm_installed pm) -> packages_outside (pm_installed (f pm))) ->
  hoare (A := ()) st (update_manager f) (fun _ => True).
Proof. intros Hf w [Hfo Hi Hr Hs] Hst. split_and!; [|done|done]. split; [done|by apply Hf|done|done]. Qed.

Lemma hoare_manager st : hoare st manager (fun pm => packages_outside (pm_installed pm)).
Proof. apply hoare_quiet; [apply quiet_gets|]. intros w pm Hw [= <-]. apply Hw. Qed.

Lemma hoare_load_state st : hoare st load_state (fun st' => st' = st).
Proof. intros w Hw Hst. split_and!; [done|done|]. cbn. unfold ust in Hst. rewrite Hst. by intros ? [= <-]. Qed.

(** Step over a service that is quiet, or that only needs its own triple. *)
#[local] Hint Resolve quiet_log quiet_require quiet_log_policy quiet_read_file quiet_lift quiet_gets quiet_tick
  quiet_read_local : quiet.
Ltac over_quiet := eapply final_bind; [apply (hoare_quiet _ _ (fun _ => True)); [auto with quiet|done]|]; intros ? _.
Ltac hover_quiet := eapply hoare_bind; [apply (hoare_quiet _ _ (fun _ => True)); [auto with quiet|done]|]; intros ? _.

(** Saving the state writes its file or, when it fails, changes nothing. *)
Lemma save_state_spec st (w : PkgWorld S) : fok w ->
  fok (save_state ticks st w).2 /\ PACKAGE_MANAGER (save_state ticks st w).2 = PACKAGE_MANAGER w /\
  authority (save_state ticks st w).2 = authority w /\
  (forall c, c <> UPDATE_STATE_PATH -> fm (save_state ticks st w).2 !! c = fm w !! c) /\
  ust (save_state ticks st w).2 = match (save_state ticks st w).1 with Ok _ => Ok st | Err _ => ust w end.
Proof.
  intros Hf. unfold save_state. destruct (json_roundtrip st) as (data & Hto & Hfrom).
  erewrite bind_Ok; [|unfold lift_result; by rewrite Hto]. unfold write_system_file. erewrite bind_Ok by reflexivity.
  set (w0 := mkPkgWorld _ _ _). set (op := FsWrite (ticks (clock w)) UPDATE_STATE_PATH data 0 Admin perm_system false).
  destruct (locked_op (fun _ => InstallFailed) op w0 Hf) as (Hres & Hm & Ho & Hp & Ha).
  change (locked_fs (fun _ => InstallFailed) (write_system (ticks (clock w)) UPDATE_STATE_PATH data false) w0)
    with (locked_fs (fun _ => InstallFailed) (run_fs_op op) w0).
  set (w' := (locked_fs _ (run_fs_op op) w0).2) in *. change (fm w0) with (fm w) in *.
  split_and!; [done|done|done| |].
  - intros c Hc. rewrite Hm. apply spec_op_frame. change (op_name op) with UPDATE_STATE_PATH.
    rewrite (proj1 state_path_facts). congruence.
  - rewrite Hres, !ust_fm, Hm. cbn [spec_op op]. destruct (spec_store _ _ _ _ _) as [[[]|] m'] eqn:Es; cbn [map_err fst snd].
    + apply spec_store_Ok in Es as (c & e & Hc & -> & He). rewrite (proj1 state_path_facts) in Hc. simplify_eq.
      rewrite lookup_insert_eq. assert (fe_data e = data) as ->; [|by rewrite Hfrom].
      destruct He as [[_ ->]|(x & _ & Hx)]; [done|]. by repeat case_match; simplify_eq.
    + by apply spec_store_Err in Es as ->.
Qed.

Lemma save_state_winv st (w : PkgWorld S) : state_paths st -> winv w -> winv (save_state ticks st w).2.
Proof.
  intros Hp [Hf Hi Hr Hs]. destruct (save_state_spec st w Hf) as (Ho & Hpm & _ & Hframe & Hu).
  split; [done|by rewrite Hpm| |].
  - intros c e rr Hin He. rewrite Hframe in He; [by eapply Hr|]. intros ->. by apply state_path_facts in Hin.
  - intros st'. rewrite Hu. destruct (save_state ticks st w).1; [by intros [= <-]|apply Hs].
Qed.

Lemma final_save {A} st l st' (rest : () -> pst A) :
  update_step l st st' -> state_paths st' -> (forall a, quiet (rest a)) -> final st l (save_state ticks st' ≫= rest).
Proof.
  intros Hstep Hp Hq w Hw Hst. pose proof (save_state_winv st' w Hp Hw) as Hw'.
  destruct (save_state_spec st' w (wi_fs w Hw)) as (_ & _ & _ & _ & Hu). unfold mbind, stm_bind.
  destruct (save_state ticks st' w) as [[a|e] w1]; cbn in *.
  - destruct (Hq a w1) as [Hfs Hpm]. destruct (winv_same w1 _ Hfs Hpm Hw') as [Hw2 Hu2].
    split; [done|]. right. exists st'. split; [congruence|done].
  - split; [done|]. left. congruence.
Qed.

Context (trusted : trusted_packages_outside).

Lemma hoare_verify_local st data :
  hoare st (verify_local_bundle_bytes ticks sha3_256 bootstrap_pk_hex data)
    (fun v => files_outside (map mf_path (ma_files (manifest_of (vp_bundle v))))).
Proof.
  apply hoare_quiet.
  - unfold verify_local_bundle_bytes. destruct (from_slice data) as [b|]; [|by intros w].
    by destruct (verify_bootstrap_bundle _ _ b); intros w.
  - intros w v _. unfold verify_local_bundle_bytes. destruct (from_slice data) as [b|]; [|done].
    unfold verify_bootstrap_bundle, verify_bundle_with_embedded_root.
    destruct (verify_bundle sha3_256 b root) as [[]|] eqn:E; [|done]. intros [= <-].
    intros file (f & -> & Hf)%list_elem_of_fmap. by apply (trusted b).
Qed.

Lemma push_all_outside paths acc :
  files_outside paths -> files_outside acc -> files_outside (fold_left push_unique_path paths acc).
Proof.
  revert acc. induction paths as [|p paths IH]; intros acc Hp Ha; cbn [fold_left]; [done|].
  apply IH; [intros x Hx; apply Hp; by right|].
  intros x [Hx| ->]%push_unique_elem; [by apply Ha|apply Hp; by left].
Qed.

Lemma rollback_paths_outside m previous :
  files_outside (map mf_path (ma_files m)) -> (forall p, previous = Some p -> files_outside (ip_files p)) ->
  files_outside (rollback_paths m previous).
Proof.
  intros Hm Hp. unfold rollback_paths.
  assert (files_outside (fold_left push_unique_path (map mf_path (ma_files m)) [])) as Hf.
  { apply push_all_outside; [done|]. by intros x ?%not_elem_of_nil. }
  destruct previous; [|done]. apply push_all_outside; [by apply Hp|done].
Qed.

Lemma capture_path f path : rf_path (capture_file f path) = path.
Proof. unfold capture_file. by destruct (stat f path). Qed.

Lemma hoare_capture st m previous :
  files_outside (map mf_path (ma_files m)) -> (forall p, previous = Some p -> files_outside (ip_files p)) ->
  hoare st (capture_rollback_record ticks m previous) record_outside.
Proof.
  intros Hm Hp. apply hoare_quiet; [by intros w|]. intros w rr _ [= <-]. split; cbn; [|exact Hp].
  rewrite map_map. intros file (p & -> & Hin)%list_elem_of_fmap. rewrite capture_path.
  by apply (rollback_paths_outside m previous Hm Hp).
Qed.

Lemma hoare_store_record st name rr : record_outside rr ->
  hoare st (store_rollback_record ticks (rollback_record_path name) rr) (fun _ => True).
Proof.
  intros Hrr w [Hf Hi Hr Hs] Hst. unfold store_rollback_record.
  destruct (json_roundtrip rr) as (data & Hto & Hfrom).
  erewrite bind_Ok; [|unfold lift_result; by rewrite Hto]. unfold write_system_file.
  erewrite bind_Ok by reflexivity.
  set (w0 := mkPkgWorld _ _ _). set (op := FsWrite (ticks (clock w)) (rollback_record_path name) data 0 Admin perm_system false).
  destruct (locked_op (fun _ => InstallFailed) op w0 Hf) as (_ & Hm & Ho & Hp & _).
  change (locked_fs (fun _ => InstallFailed) (write_system (ticks (clock w)) (rollback_record_path name) data false) w0)
    with (locked_fs (fun _ => InstallFailed) (run_fs_op op) w0).
  set (w' := (locked_fs _ (run_fs_op op) w0).2) in *. change (fm w0) with (fm w) in Hm.
  assert (forall c, ~ in_rollback c -> fm w' !! c = fm w !! c) as Hframe.
  { intros c Hc. rewrite Hm. apply spec_op_frame. intros E. by apply rollback_path_below in E. }
  assert (ust w' = ust w) as Hu by (rewrite !ust_fm, Hframe by apply state_path_facts; done).
  split_and!; [|congruence|done]. split; [done|by rewrite Hp| |by rewrite Hu].
  intros c e rr' Hin He Hrr'. cbn [spec_op op] in Hm.
  destruct (spec_store _ _ _ _ _) as [[[]|] m'] eqn:Es; cbn in Hm.
  - apply spec_store_Ok in Es as (c' & e' & Hc' & -> & He'). rewrite Hm in He.
    destruct (decide (c = c')) as [->|Hne]; [|rewrite lookup_insert_ne in He by done; by eapply Hr].
    rewrite lookup_insert_eq in He. simplify_eq.
    assert (fe_data e = data) as Hd.
    { destruct He' as [[_ ->]|(x & _ & Hx)]; [done|]. by repeat case_match; simplify_eq. }
    rewrite Hd, Hfrom in Hrr'. by simplify_eq.
  - apply spec_store_Err in Es as ->. rewrite Hm in He. by eapply Hr.
Qed.

Lemma outside_op path c : outside_pkg path -> canonical_path path = Ok c -> c <> UPDATE_STATE_PATH /\ ~ in_rollback c.
Proof. intros Ho Hc. destruct (outside_pkg_state path c Ho Hc) as (? & _ & ?). done. Qed.

Lemma hoare_install_file st b f acc :
  outside_pkg (mf_path f) -> files_outside acc -> hoare st (install_file ticks b f acc) files_outside.
Proof.
  intros Hf Ha. do 2 hover_quiet. eapply hoare_bind.
  { apply (hoare_op st _ (FsWrite _ (mf_path f) _ 0 Admin perm_system false)). intros c. by apply outside_op. }
  intros _ _. eapply (hoare_bind _ _ _ (fun _ => True)).
  { destruct (mf_executable f); [|by apply hoare_ret].
    apply (hoare_op st _ (FsChmod (mf_path f) 0 Admin (str "rwr-"))). intros c. by apply outside_op. }
  intros _ _. apply hoare_ret. intros x [Hx| ->%list_elem_of_singleton]%elem_of_app; [by apply Ha|done].
Qed.

Lemma without_outside name l : packages_outside l -> packages_outside (without_package name l).
Proof. intros Hl p Hp. apply Hl. apply list_elem_of_In, filter_In in Hp as [Hp _]. by apply list_elem_of_In. Qed.

Lemma find_installed_outside pm name p :
  packages_outside (pm_installed pm) -> find_installed pm name = Some p -> files_outside (ip_files p).
Proof. intros Hl [Hp _]%find_first_Some. by apply Hl. Qed.

Lemma hoare_apply_bundle st v size uid :
  files_outside (map mf_path (ma_files (manifest_of (vp_bundle v)))) ->
  hoare st (apply_verified_bundle ticks v size uid) (fun _ => True).
Proof.
  intros Hv. eapply hoare_bind; [apply hoare_manager|]. intros pm Hpm.
  eapply (hoare_bind _ _ _ (fun _ => True)).
  { apply hoare_foldM; [|done]. intros file _ Hfile _. apply hoare_remove_stale.
    destruct (find_installed pm _) as [old|] eqn:Eo; [|by apply not_elem_of_nil in Hfile].
    apply stale_files_elem in Hfile as [Hfile _]. by apply (find_installed_outside pm _ old Hpm Eo). }
  intros _ _. eapply hoare_bind.
  { apply (hoare_foldM _ _ _ files_outside); [|by intros x ?%not_elem_of_nil].
    intros f acc Hf Hacc. apply hoare_install_file; [|done]. apply Hv. by apply list_elem_of_fmap_2. }
  intros files Hfiles. hover_quiet.
  eapply hoare_bind.
  { apply hoare_update_manager. intros pm' Hpm' p [Hp| ->%list_elem_of_singleton]%elem_of_app.
    - by eapply without_outside.
    - exact Hfiles. }
  intros _ _. eapply hoare_bind; [apply hoare_save_installed|]. intros _ _. hover_quiet. by apply hoare_ret.
Qed.

Lemma hoare_load_record st name :
  hoare st (load_rollback_record (rollback_record_path name)) record_outside.
Proof.
  apply hoare_quiet; [apply quiet_bind; auto with quiet|]. intros w rr Hw. unfold load_rollback_record.
  unfold mbind, stm_bind, read_file.
  destruct (canonical_path (rollback_record_path name)) as [c|e] eqn:Ec.
  - rewrite (read_fm w _ c Ec). destruct (fm w !! c) as [e|] eqn:Ee; cbn; [|done].
    destruct (from_slice (fe_data e)) as [r|] eqn:Er; cbn; [|done]. intros [= <-].
    eapply (wi_records w Hw); [by eapply rollback_path_below|done|done].
  - unfold read, read_as. rewrite Ec. done.
Qed.

Lemma hoare_restore st file : outside_pkg (rf_path file) -> hoare st (restore_file file) (fun _ => True).
Proof.
  intros Hout. unfold restore_file. destruct (rf_existed file); [|by apply hoare_remove_stale].
  destruct (apply_mode_string _ _) as [p valid]. destruct valid; cbn [negb]; [|by apply hoare_quiet; [intros w|]].
  eapply hoare_bind.
  { apply (hoare_op st _ (FsLoad (rf_path file) (rf_data file) (rf_owner_uid file) p (rf_readonly file)
                            (rf_created_at file) (rf_modified_at file))). intros c. by apply outside_op. }
  intros _ _ w [Hf Hi Hr Hs] Hst. split_and!; [|cbn; unfold ust; cbn; by rewrite sync_found_fs|done].
  split; unfold fok, fm, ust; cbn; rewrite ?sync_found_fs; done.
Qed.

(** *** Every operation follows the table *)

Lemma state_paths_of st t : state_paths st -> us_current st = Some t ->
  exists name, ut_rollback_path t = rollback_record_path name.
Proof. intros Hp. apply Hp. Qed.

Lemma final_apply_bytes st source data staged :
  final st LApply (apply_verified_bundle_bytes ticks sha3_256 bootstrap_pk_hex source data staged).
Proof.
  eapply final_bind; [apply hoare_load_state|]. intros ? ->. eapply final_bind.
  { apply (hoare_quiet _ _ (fun _ => unsettled st = false)); [auto with quiet|].
    intros w a _. unfold lift_result, ensure_state_replaceable. by destruct (unsettled st). }
  intros [] Hst. eapply final_bind; [apply hoare_verify_local|]. intros v Hv.
  eapply final_bind; [apply hoare_manager|]. intros pm Hpm.
  eapply final_bind; [apply hoare_capture; [done|intros p; by apply find_installed_outside]|]. intros rr Hrr.
  eapply final_bind; [by apply hoare_store_record|]. intros _ _. over_quiet.
  eapply final_bind; [by apply hoare_apply_bundle|]. intros _ _. over_quiet.
  apply final_save; [by constructor| |by intros _ w].
  intros t [= <-]. by eexists.
Qed.

Lemma final_stage st path : final st LStage (stage_bundle_from_path ticks debug sha3_256 bootstrap_pk_hex path).
Proof.
  do 2 over_quiet. destruct a0 as [resolved data].
  eapply final_bind; [apply hoare_verify_local|]. intros v Hv.
  eapply final_bind; [apply hoare_load_state|]. intros ? ->. eapply final_bind.
  { apply (hoare_quiet _ _ (fun _ => unsettled st = false)); [auto with quiet|].
    intros w a' _. unfold lift_result, ensure_state_replaceable. by destruct (unsettled st). }
  intros [] Hst. eapply final_bind; [apply hoare_write_system; apply staged_path_below|]. intros _ _.
  eapply final_bind; [apply hoare_manager|]. intros pm Hpm.
  apply final_save; [by constructor| |by intros _ w]. intros t [= <-]. by eexists.
Qed.

Lemma final_apply st path : final st LApply (apply_bundle_from_path ticks debug sha3_256 bootstrap_pk_hex path).
Proof. do 2 over_quiet. destruct a0 as [resolved data]. apply final_apply_bytes. Qed.

Lemma final_apply_staged st : final st LApply (apply_staged_bundle ticks debug sha3_256 bootstrap_pk_hex).
Proof.
  over_quiet. eapply final_bind; [apply hoare_load_state|]. intros ? ->. do 2 over_quiet. apply final_apply_bytes.
Qed.

Lemma hoare_pending st : hoare st (lift_result (pending_transaction st))
  (fun t => us_current st = Some t /\ ut_phase t = PendingConfirmation).
Proof.
  apply hoare_quiet; [auto with quiet|]. intros w t _. unfold lift_result, pending_transaction.
  destruct (us_current st) as [t'|]; cbn; [|done]. case_bool_decide; [|done]. by intros [= <-].
Qed.

Lemma final_confirm st : state_paths st -> final st LConfirm (confirm_pending_update ticks debug).
Proof.
  intros Hp. over_quiet. eapply final_bind; [apply hoare_load_state|]. intros ? ->.
  eapply final_bind; [apply hoare_pending|]. intros t [Ht Hph].
  destruct (ut_boot_observed t) eqn:Ho; cbn [negb].
  - over_quiet. apply final_save; [by eapply step_confirm| |by intros _ w]. intros t' [= <-]. exact (Hp t Ht).
  - apply (final_hoare _ _ _ (fun _ => True)). by apply hoare_quiet; [intros w|].
Qed.

Lemma final_reject st reason : state_paths st -> final st LReject (reject_pending_update ticks debug reason).
Proof.
  intros Hp. over_quiet. eapply final_bind; [apply hoare_load_state|]. intros ? ->.
  eapply final_bind; [apply hoare_pending|]. intros t [Ht Hph].
  apply final_save; [by eapply step_reject| |by intros _ w]. intros t' [= <-]. exact (Hp t Ht).
Qed.

Lemma final_rollback st : state_paths st -> final st LRollback (rollback_current_update ticks debug).
Proof.
  intros Hp. over_quiet. eapply final_bind; [apply hoare_load_state|]. intros ? ->.
  eapply final_bind.
  { apply (hoare_quiet _ _ (fun t => us_current st = Some t)); [auto with quiet|]. intros w t _.
    unfold lift_result. by destruct (us_current st); cbn; intros [= <-]. }
  intros t Ht. destruct (Hp t Ht) as [name Hname]. rewrite Hname.
  eapply final_bind; [apply hoare_load_record|]. intros rr [Hfiles Hprev].
  eapply final_bind.
  { apply (hoare_foldM _ _ _ (fun _ => True)); [|done]. intros file _ Hfile _. apply hoare_restore.
    apply Hfiles. by apply list_elem_of_fmap_2. }
  intros _ _. eapply final_bind.
  { apply hoare_update_manager. intros pm Hpm p [Hin|Hin]%elem_of_app; [by eapply without_outside|].
    destruct (rr_previous_installed rr) as [p'|]; [|by apply not_elem_of_nil in Hin].
    apply list_elem_of_singleton in Hin as ->. by apply Hprev. }
  intros _ _. eapply final_bind; [apply hoare_save_installed|]. intros _ _. over_quiet.
  apply final_save; [by eapply step_rollback| |by intros _ w]. intros t' [= <-]. cbn. by exists name.
Qed.

Lemma final_save_only st l st' :
  update_step l st st' -> state_paths st' -> final st l (save_state ticks st').
Proof.
  intros Hstep Hp w Hw Hst.
  pose proof (final_save st l st' mret Hstep Hp ltac:(by intros a w') w Hw Hst) as Hf.
  unfold mbind, stm_bind in Hf. by destruct (save_state ticks st' w) as [[|] ?].
Qed.

Lemma final_throw {A} st l e : final (A := A) st l (throw e).
Proof. apply (final_hoare _ _ _ (fun _ => True)). by apply hoare_quiet; [intros w|]. Qed.

Lemma final_ret {A} st l (a : A) : final st l (mret a).
Proof. apply (final_hoare _ _ _ (fun _ => True)). by apply hoare_ret. Qed.

Lemma final_clear st : final st LClear (clear_completed_state ticks debug).
Proof.
  over_quiet. eapply final_bind; [apply hoare_load_state|]. intros ? ->.
  destruct (unsettled st) eqn:Hu; [apply final_throw|].
  apply final_save_only; [by apply step_clear|]. by intros t.
Qed.

Lemma final_request st reason : state_paths st -> final st LRequest (request_recovery ticks reason).
Proof.
  intros Hp. eapply final_bind; [apply hoare_load_state|]. intros ? ->.
  apply final_save; [by constructor|exact Hp|]. intros _. auto with quiet.
Qed.

Lemma final_resume st : state_paths st -> final st LResume (clear_recovery_request ticks).
Proof.
  intros Hp. eapply final_bind; [apply hoare_load_state|]. intros ? ->.
  destruct (unsettled st) eqn:Hu; [apply final_throw|].
  apply final_save; [by constructor|exact Hp|]. intros _. auto with quiet.
Qed.

Lemma boot_state_path st t : us_current (boot_state st).1.1 = Some t ->
  exists t0, us_current st = Some t0 /\ ut_rollback_path t = ut_rollback_path t0.
Proof.
  unfold boot_state. destruct (us_current st) as [t0|] eqn:Ht; [|cbn; by rewrite Ht]. intros E. exists t0. split; [done|].
  revert E. destruct (ut_phase t0); cbn; rewrite ?Ht; repeat case_match; cbn; intros [= <-]; done.
Qed.

Lemma final_boot st : state_paths st -> final st LBoot (prepare_boot ticks).
Proof.
  intros Hp w Hw Hst. unfold prepare_boot. unfold ust in Hst. rewrite Hst.
  destruct (boot_state st) as [[st1 summary] failure] eqn:Eb. cbn [snd].
  set (w1 := match failure with Some _ => _ | None => w end).
  assert (filesystem w1 = filesystem w /\ PACKAGE_MANAGER w1 = PACKAGE_MANAGER w) as [Hfs Hpm]
    by (subst w1; destruct failure as [[t d]|]; [apply quiet_log_policy|done]).
  destruct (winv_same w w1 Hfs Hpm Hw) as [Hw1 Hu1].
  assert (st1 = (boot_state st).1.1) as Hst1 by (by rewrite Eb).
  refine (final_save_only st LBoot st1 _ _ w1 Hw1 _); [rewrite Hst1; constructor| |by rewrite Hu1].
  intros t Ht. rewrite Hst1 in Ht. apply boot_state_path in Ht as (t0 & Ht0 & ->). by apply Hp.
Qed.

Lemma final_ready st : state_paths st -> final st LReady (note_shell_ready ticks).
Proof.
  intros Hp. eapply final_bind; [apply hoare_load_state|]. intros ? ->.
  destruct (us_current st) as [t|] eqn:Ht; [|apply final_ret].
  destruct (_ || _) eqn:E; [apply final_ret|].
  apply orb_false_iff in E as [Hph%bool_decide_eq_false Hb%negb_false_iff].
  destruct (ut_boot_observed t) eqn:Ho; [apply final_ret|].
  apply final_save; [eapply step_ready; try done; by apply dec_stable| |by intros _ w].
  intros t' [= <-]. exact (Hp t Ht).
Qed.

Lemma run_op_final op st : state_paths st -> final st (label_of op) (run_update_op op).
Proof.
  intros Hp. destruct op; cbn [run_update_op label_of]; try apply final_discard;
    auto using final_stage, final_apply, final_apply_staged, final_confirm, final_reject, final_rollback, final_clear,
      final_request, final_resume, final_boot, final_ready.
Qed.

(** A history of commands, boots and shell-ready reports. *)
Definition run_updates (ops : list update_op) (w : PkgWorld S) : PkgWorld S :=
  fold_left (fun w op => (run_update_op op w).2) ops w.

Lemma update_history ops (w : PkgWorld S) st :
  winv w -> ust w = Ok st ->
  exists ls st', sublist ls (map label_of ops) /\ update_run st ls st' /\
    ust (run_updates ops w) = Ok st' /\ winv (run_updates ops w).
Proof.
  intros Hw Hst. induction ops as [|op ops IH] using rev_ind.
  - exists [], st. split_and!; try done. constructor.
  - destruct IH as (ls & st1 & Hsub & Hrun & Hst1 & Hw1).
    unfold run_updates in *. rewrite fold_left_app, map_app. cbn [fold_left map].
    destruct (run_op_final op st1 (wi_state _ Hw1 _ Hst1) _ Hw1 Hst1) as [Hw2 [Hst2|(st2 & Hst2 & Hstep)]].
    + exists ls, st1. split_and!; try done. by apply sublist_inserts_r.
    + exists (ls ++ [label_of op]), st2. split_and!; try done; [by apply sublist_app|by econstructor].
Qed.

(** No update is confirmed before it has been applied, booted and has
    reached the shell, in this order.  Start from a stored state without an
    update in progress; whatever commands are issued, successful or not, and
    whenever the machine boots, the stored state stays readable, and if it says
    that an update is confirmed then the history contains an apply, a later
    boot, a later shell-ready report and a later confirmation. *)
Theorem confirmed_update_has_booted ops (w : PkgWorld S) st :
  winv w -> ust w = Ok st -> needed st = [] ->
  exists st', ust (run_updates ops w) = Ok st' /\
    (phase_of st' = Some Confirmed -> sublist [LApply; LBoot; LReady; LConfirm] (map label_of ops)).
Proof.
  intros Hw Hst Hn. destruct (update_history ops w st Hw Hst) as (ls & st' & Hsub & Hrun & Hst' & _).
  exists st'. split; [done|]. intros Hc. etransitivity; [|exact Hsub]. by eapply confirmed_run.
Qed.


(** *** Liveness *)

(** The encoding of [st] fits into the file system of [w], where the state file
    is already there. *)
Definition fits (w : PkgWorld S) (st : UpdateState) : Prop :=
  exists data e, to_vec st = Ok data /\ blen data <= MAX_FILE_SIZE /\
    map_used (delete UPDATE_STATE_PATH (fm w)) + blen data <= TOTAL_CAPACITY /\
    fm w !! UPDATE_STATE_PATH = Some e /\ fe_readonly e = false.

Lemma save_state_fits st (w : PkgWorld S) : fok w -> fits w st ->
  exists w', save_state ticks st w = (Ok (), w') /\ ust w' = Ok st /\ fok w' /\ (forall st', fits w st' -> fits w' st').
Proof.
  intros Hf (data & e & Hto & Hmax & Hcap & He & Hro).
  pose proof (save_state_spec st w Hf) as (Ho & _ & _ & Hframe & Hu).
  assert (exists w', save_state ticks st w = (Ok (), w') /\ exists e', fm w' = <[UPDATE_STATE_PATH := e']> (fm w) /\
    fe_readonly e' = false) as (w' & Hsave & e' & Hm & Hro').
  { unfold save_state. erewrite bind_Ok; [|unfold lift_result; by rewrite Hto]. unfold write_system_file.
    erewrite bind_Ok by reflexivity. set (w0 := mkPkgWorld _ _ _).
    edestruct (write_existing (fun _ => InstallFailed) (ticks (clock w)) UPDATE_STATE_PATH data perm_system false
                 UPDATE_STATE_PATH e w0) as (w' & Hw' & Hm & _); [exact Hf|apply state_path_facts|done|done..|].
    exists w'. split; [exact Hw'|]. eexists. split; [exact Hm|done]. }
  rewrite Hsave in *. exists w'. split_and!; [done|done|done|].
  intros st' (data' & ? & Hto' & Hmax' & Hcap' & _ & _). exists data', e'.
  by rewrite Hm, delete_insert_eq, lookup_insert_eq.
Qed.

Lemma boot_fits st (w : PkgWorld S) : fok w -> ust w = Ok st -> fits w (boot_state st).1.1 ->
  exists report w', prepare_boot ticks w = (Ok report, w') /\
    bh_recovery_requested report = us_recovery_requested (boot_state st).1.1 /\
    ust w' = Ok (boot_state st).1.1 /\ fok w' /\ (forall st', fits w st' -> fits w' st').
Proof.
  intros Hf Hst Hfit. unfold prepare_boot. unfold ust in Hst. rewrite Hst.
  destruct (boot_state st) as [[st1 summary] failure]. cbn [fst] in *.
  set (w1 := match failure with Some _ => _ | None => w end).
  assert (filesystem w1 = filesystem w) as Hfs
    by (subst w1; destruct failure as [[t d]|]; [apply quiet_log_policy|done]).
  assert (forall st', fits w st' <-> fits w1 st') as Hiff by (intros st'; unfold fits, fm; by rewrite Hfs).
  destruct (save_state_fits st1 w1) as (w2 & Hsave & Hu & Ho & Hmore); [unfold fok; by rewrite Hfs|by apply Hiff|].
  rewrite Hsave. cbn [snd]. do 2 eexists. split; [reflexivity|]. split; [done|]. split_and!; [done|done|].
  intros st' Hst'. by apply Hmore, Hiff.
Qed.

Lemma ready_fits st (w : PkgWorld S) : fok w -> ust w = Ok st -> fits w (ready_state st) ->
  exists r w', note_shell_ready ticks w = (Ok r, w') /\
    ust w' = Ok (ready_state st) /\ fok w' /\ (forall st', fits w st' -> fits w' st').
Proof.
  intros Hf Hst Hfit. unfold note_shell_ready. erewrite bind_Ok; [|unfold load_state; unfold ust in Hst; by rewrite Hst].
  unfold ready_state in *. destruct (us_current st) as [t|]; [|by do 2 eexists].
  destruct (decide (ut_phase t = PendingConfirmation)) as [Hp|Hp];
    [rewrite bool_decide_false, bool_decide_true in * by tauto|
     rewrite bool_decide_true, bool_decide_false in * by tauto; by do 2 eexists].
  destruct (ut_boot_started t); cbn [andb orb negb] in *; [|by do 2 eexists].
  destruct (ut_boot_observed t); cbn [andb orb negb] in *; [by do 2 eexists|].
  destruct (save_state_fits _ w Hf Hfit) as (w' & Hsave & Hu & Ho & Hmore).
  erewrite bind_Ok by exact Hsave. do 2 eexists. split; [reflexivity|done].
Qed.

(** The events of two boots; [ready] says whether the shell came up in between. *)
Definition two_boots (ready : bool) : list update_op := [UBoot] ++ (if ready then [UReady] else []) ++ [UBoot].

End machine.
