(* ===== verification/PkgRollback.v ===== *)
(** * Rolling back an update

    A rollback record is a copy of every file the update can touch; restoring it
    gives these files back exactly as they were, whatever has happened to them
    in between. *)
From stdpp Require Import relations.
From S2P Require Import Prelude RustStr Paths Auth Session AuditLog WarFS FsCurrent Caps Process Exec PkgBundle PkgIndex Pkg PkgUpdate PkgSpecs PkgUpdateSpecs.

(** The permissions of an entry belong to its owner. *)
Definition owner_consistent (m : gmap bytes FileEntry) : Prop :=
  forall c e, m !! c = Some e -> perm_owner_uid (fe_permissions e) = fe_owner_uid e.

Lemma mode_roundtrip (p : FilePermissions) o :
  apply_mode_string (perm_default_for o) (mode_string p) =
  (mkPermissions o (owner_read p) (owner_write p) (others_read p) (others_write p), true).
Proof. destruct p as [u [] [] [] []]; reflexivity. Qed.

Lemma stat_abs (f : WarFS) path c : canonical_path path = Ok c ->
  stat f path = match abs f !! c with Some e => Ok e | None => Err FileNotFound end.
Proof.
  intros Hc. unfold stat. rewrite stat_as_abs, Hc. cbn. by destruct (abs f !! c).
Qed.

Lemma abs_entry f c e : fs_ok f -> abs f !! c = Some e ->
  fe_name e = c /\ c <> [slash] /\ blen (fe_data e) <= MAX_FILE_SIZE.
Proof.
  intros Hok He. rewrite abs_lookup in He. destruct (entry_name_ok f c e Hok He) as [Hin Hn].
  destruct Hok as [_ Hnames Hsizes _ _ _]. rewrite Forall_forall in Hnames, Hsizes.
  split_and!; [done| |by apply Hsizes]. rewrite <- Hn. by apply Hnames.
Qed.

Lemma push_unique_all acc paths x : x ∈ fold_left push_unique_path paths acc <-> x ∈ acc \/ x ∈ paths.
Proof.
  revert acc. induction paths as [|p paths IH]; intros acc; cbn [fold_left]; [set_solver|].
  rewrite IH. assert (x ∈ push_unique_path acc p <-> x ∈ acc \/ x = p) as ->; [|set_solver].
  split; [apply push_unique_elem|]. unfold push_unique_path. destruct (forallb _ acc) eqn:E; [set_solver|].
  intros [?| ->]; [done|]. destruct (decide (p ∈ acc)) as [|Hn]; [done|]. exfalso.
  apply not_true_iff_false in E. apply E. apply forallb_forall. intros y Hy%list_elem_of_In.
  rewrite bool_decide_false; [done|]. by intros ->.
Qed.

Section restore.
Context {S : Type} `{Backend S}.

(** One file of a record taken from [f]: it is again as in [f]. *)
Lemma restore_captured (f : WarFS) path c (w : PkgWorld S) :
  fs_ok f -> owner_consistent (abs f) -> fok w -> canonical_path path = Ok c ->
  map_used (delete c (fm w)) + blen (rf_data (capture_file f path)) <= TOTAL_CAPACITY ->
  Z.of_nat (size (fm w)) < MAX_FILES ->
  (abs f !! c = None -> forall x, fm w !! c = Some x -> fe_readonly x = false) ->
  exists w', restore_file (capture_file f path) w = (Ok (), w') /\
    fm w' = partial_alter (fun _ => abs f !! c) c (fm w) /\ fok w' /\ same_state w w'.
Proof.
  intros Hf Hown Hw Hc Hcap Hn Hro. unfold capture_file in *. rewrite (stat_abs f path c Hc) in *.
  destruct (abs f !! c) as [e|] eqn:He.
  - destruct (abs_entry f c e Hf He) as (Hname & Hslash & Hmax). unfold restore_file.
    cbn [rf_existed rf_owner_uid rf_permissions_mode rf_path rf_data rf_readonly rf_created_at rf_modified_at] in *.
    rewrite mode_roundtrip. cbn [negb].
    edestruct (locked_succeeds (fun _ => InstallFailed)
      (FsLoad path (fe_data e) (fe_owner_uid e) (mkPermissions (fe_owner_uid e) (owner_read (fe_permissions e))
        (owner_write (fe_permissions e)) (others_read (fe_permissions e)) (others_write (fe_permissions e)))
        (fe_readonly e) (fe_created_at e) (fe_modified_at e)) (<[c := e]> (fm w)) w Hw) as (w1 & Hop & Hm & Ho & Hs).
    { cbn [spec_op]. unfold spec_store. rewrite Hc. replace (blen (fe_data e) >? MAX_FILE_SIZE) with false by lia.
      rewrite bool_decide_false by done. replace (_ + blen (fe_data e) >? TOTAL_CAPACITY) with false by lia.
      assert (forall n, n = c -> mkEntry n (fe_data e) (fe_created_at e) (fe_modified_at e) (fe_readonly e) (fe_owner_uid e)
        (set_perm_owner (mkPermissions (fe_owner_uid e) (owner_read (fe_permissions e)) (owner_write (fe_permissions e))
          (others_read (fe_permissions e)) (others_write (fe_permissions e))) (fe_owner_uid e)) = e) as Heq.
      { intros n ->. pose proof (Hown c e He) as Ho. rewrite <- Hname. destruct e as [? ? ? ? ? o [po ? ? ? ?]]. cbn in *. by subst po. }
      destruct (fm w !! c) as [x|] eqn:Ex.
      - rewrite Heq; [done|]. by apply (abs_entry (fs (filesystem w)) c x).
      - replace (MAX_FILES <=? Z.of_nat (size (fm w))) with false by lia. by rewrite Heq. }
    erewrite bind_Ok by exact Hop. eexists. split; [reflexivity|]. split_and!.
    + unfold fm. cbn. rewrite sync_found_fs. exact Hm.
    + unfold fok. cbn. by rewrite sync_found_fs.
    + by etransitivity.
  - unfold restore_file. cbn [rf_existed rf_path]. unfold remove_stale.
    destruct (op_refines (FsDelete path 0 Admin) (filesystem w) Hw) as (Hr & Hm & Ho). cbn [run_fs_op spec_op] in *.
    rewrite Hc in *. fold (fm w) in *. destruct (delete_as path 0 Admin (filesystem w)) as [r x]. cbn [fst snd] in *.
    change (partial_alter (fun _ => None) c (fm w)) with (delete c (fm w)).
    destruct (fm w !! c) as [y|] eqn:Ey.
    + unfold owner_access in *. rewrite (Hro eq_refl y eq_refl) in *. rewrite bool_decide_false in * by tauto. cbn in *.
      subst r. by eexists.
    + cbn in *. subst r. eexists. split; [reflexivity|]. rewrite delete_id by done. done.
Qed.

Lemma map_used_alter m c (o : option FileEntry) :
  map_used (partial_alter (fun _ => o) c m) = map_used (delete c m) + match o with Some e => blen (fe_data e) | None => 0 end.
Proof.
  destruct o as [e|]; [|cbn; change (partial_alter (fun _ => None) c m) with (delete c m); lia].
  change (partial_alter (fun _ => Some e) c m) with (<[c := e]> m). rewrite <- insert_delete_eq.
  rewrite map_used_insert, delete_delete_eq. lia.
Qed.

Lemma size_alter (m : gmap bytes FileEntry) c (o : option FileEntry) : (size (partial_alter (fun _ => o) c m) <= size m + 1)%nat.
Proof.
  destruct o as [e|].
  - change (partial_alter (fun _ => Some e) c m) with (<[c := e]> m). rewrite map_size_insert. destruct (m !! c); cbn; unfold id; lia.
  - change (partial_alter (fun _ => None) c m) with (delete c m). rewrite map_size_delete. destruct (m !! c); cbn; unfold id; lia.
Qed.

Definition captured_size (f : WarFS) (paths : list bytes) : Z :=
  sumZ (map (fun p => blen (rf_data (capture_file f p))) paths).

Lemma captured_data f path c : canonical_path path = Ok c ->
  blen (rf_data (capture_file f path)) = match abs f !! c with Some e => blen (fe_data e) | None => 0 end.
Proof. intros Hc. unfold capture_file. rewrite (stat_abs f path c Hc). by destruct (abs f !! c). Qed.

(** The whole record: every file it covers is as it was in [f], every other
    file is as before. *)
Lemma restore_all (f : WarFS) paths (w : PkgWorld S) :
  fs_ok f -> owner_consistent (abs f) -> fok w ->
  (forall p, p ∈ paths -> exists c, canonical_path p = Ok c /\
     (abs f !! c = None -> forall x, fm w !! c = Some x -> fe_readonly x = false)) ->
  map_used (fm w) + captured_size f paths <= TOTAL_CAPACITY ->
  Z.of_nat (size (fm w)) + blen paths <= MAX_FILES ->
  exists w', foldM (fun file _ => restore_file file) (map (capture_file f) paths) () w = (Ok (), w') /\
    fok w' /\ same_state w w' /\
    map_used (fm w') <= map_used (fm w) + captured_size f paths /\
    (forall c p, p ∈ paths -> canonical_path p = Ok c -> fm w' !! c = abs f !! c) /\
    (forall c, (forall p, p ∈ paths -> canonical_path p <> Ok c) -> fm w' !! c = fm w !! c).
Proof.
  intros Hf Hown. revert w. induction paths as [|p paths IH]; intros w Hw Hp Hcap Hn; cbn [map foldM].
  - exists w. split_and!; try done; [unfold captured_size; cbn; lia|]. by intros c p ?%not_elem_of_nil.
  - destruct (Hp p) as (c0 & Hc0 & Hro0); [by left|].
    unfold captured_size in *. cbn [map sumZ] in *. rewrite blen_cons in Hn.
    assert (0 <= sumZ (map (fun p => blen (rf_data (capture_file f p))) paths)) as Hpos
      by (apply sumZ_nonneg, Forall_forall; intros z (q & -> & _)%list_elem_of_fmap; apply blen_nonneg).
    pose proof (map_used_delete (fm w) c0) as Hdel. pose proof (blen_nonneg paths).
    destruct (restore_captured f p c0 w) as (w1 & Hr & Hm & Ho & Hs); try done; [lia|lia|].
    pose proof (captured_data f p c0 Hc0) as Hsz.
    assert (map_used (fm w1) <= map_used (fm w) + blen (rf_data (capture_file f p))) as Hu1
      by (rewrite Hm, map_used_alter, Hsz; lia).
    pose proof (size_alter (fm w) c0 (abs f !! c0)) as Hsize. rewrite <- Hm in Hsize.
    destruct (IH w1 Ho) as (w2 & Hr2 & Ho2 & Hs2 & Hu2 & Hin2 & Hout2); [|lia|lia|].
    { intros q Hq. destruct (Hp q) as (c & Hc & Hro); [by right|]. exists c. split; [done|]. intros Hnone x.
      rewrite Hm. destruct (decide (c = c0)) as [->|Hne].
      - rewrite lookup_partial_alter_eq. congruence.
      - rewrite lookup_partial_alter_ne by done. by apply Hro. }
    exists w2. erewrite bind_Ok by exact Hr. split_and!; [done|done|by etransitivity|lia| |].
    + intros c q [->|Hq]%elem_of_cons Hc; [|by eapply Hin2]. rewrite Hc0 in Hc. simplify_eq.
      destruct (decide (Exists (fun q => canonical_path q = Ok c) paths)) as [(q & Hq & Hcq)%Exists_exists|Hnot].
      * by eapply Hin2.
      * rewrite Hout2; [by rewrite Hm, lookup_partial_alter_eq|].
        intros q Hq Hcq. apply Hnot, Exists_exists. by exists q.
    + intros c Hc. rewrite Hout2 by (intros q Hq; apply Hc; by right). rewrite Hm.
      apply lookup_partial_alter_ne. intros ->. apply (Hc p); [by left|done].
Qed.
End restore.

Section rollback.
Context {S : Type} `{Backend S}.
Context (ticks : nat -> Z) (debug : Z -> bytes).
Context (sha3_256 : bytes -> bytes) (bootstrap_pk_hex : bytes).
Context `{Json CanonicalSignedManifest, MlDsa, Json WarPackBundle}.
Context `{JsonOk (list InstalledPackage), JsonOk UpdateState, JsonOk RollbackRecord}.
Context (trusted : trusted_packages_outside sha3_256 bootstrap_pk_hex).

Abbreviation pst A := (stm (PkgWorld S) PkgError A).
Abbreviation manifest_of b := (sm_manifest (wb_signed_manifest b)).

(** The files an update of the package keeps a copy of. *)
Definition touched (w : PkgWorld S) (man : Manifest) : list bytes :=
  rollback_paths man (find_installed (PACKAGE_MANAGER w) (ma_name man)).

(** What a successful apply leaves for a later rollback. *)
Record applied_update (w w1 : PkgWorld S) (man : Manifest) (t : UpdateTransaction) (rr : RollbackRecord) (cr : bytes) :
    Prop := mkApplied {
  au_fok : fok w1;
  au_authority : authority w1 = authority w;
  au_files : rr_files rr = map (capture_file (fs (filesystem w))) (touched w man);
  au_package : rr_package_name rr = ma_name man /\
    rr_previous_installed rr = find_installed (PACKAGE_MANAGER w) (ma_name man);
  au_stored : canonical_path (rollback_record_path (ma_name man)) = Ok cr /\
    exists er, fm w1 !! cr = Some er /\ from_slice (fe_data er) = Ok rr;
  au_state : exists st, ust w1 = Ok st /\ us_current st = Some t /\ ut_rollback_path t = rollback_record_path (ma_name man);
  au_installed : exists ip, ip_name ip = ma_name man /\
    pm_installed (PACKAGE_MANAGER w1) = without_package (ma_name man) (pm_installed (PACKAGE_MANAGER w)) ++ [ip];
  au_paths : forall p, p ∈ touched w man -> outside_pkg p /\ exists c, canonical_path p = Ok c /\
    (fm w !! c = None -> forall x, fm w1 !! c = Some x -> fe_readonly x = false);
  au_frame : forall c, c <> cr -> c <> UPDATE_STATE_PATH -> c <> LOCAL_INSTALLED_PATH ->
    (forall p, p ∈ touched w man -> canonical_path p <> Ok c) -> fm w1 !! c = fm w !! c;
  au_own_files : forall c, c = UPDATE_STATE_PATH \/ c = LOCAL_INSTALLED_PATH ->
    exists e, fm w1 !! c = Some e /\ fe_readonly e = false;
}.

Lemma verify_local_Ok data v (w w' : PkgWorld S) :
  verify_local_bundle_bytes ticks sha3_256 bootstrap_pk_hex data w = (Ok v, w') ->
  filesystem w' = filesystem w /\ same_state w w' /\ files_outside (map mf_path (ma_files (manifest_of (vp_bundle v)))).
Proof.
  unfold verify_local_bundle_bytes. destruct (from_slice data) as [b|]; [|done].
  unfold verify_bootstrap_bundle, verify_bundle_with_embedded_root.
  destruct (verify_bundle sha3_256 b _) as [[]|] eqn:E; [|done].
  intros Ev. erewrite bind_Ok in Ev by reflexivity. unfold mret, stm_ret in Ev. apply pair_equal_spec in Ev as [[= <-] <-].
  split_and!; try done. intros file (f & -> & Hf)%list_elem_of_fmap. by apply (trusted b).
Qed.

Lemma save_state_Ok st (w w' : PkgWorld S) :
  fok w -> save_state ticks st w = (Ok (), w') ->
  fok w' /\ same_state w w' /\ ust w' = Ok st /\
  (exists e, fm w' !! UPDATE_STATE_PATH = Some e /\ fe_readonly e = false) /\
  (forall c, c <> UPDATE_STATE_PATH -> fm w' !! c = fm w !! c).
Proof.
  intros Hw E. destruct (save_state_spec ticks st w Hw) as (Ho & Hp & Ha & Hf & Hu). rewrite E in *. cbn [fst snd] in *.
  split_and!; try done. unfold save_state in E. destruct (json_roundtrip st) as (data & Hto & _).
  erewrite bind_Ok in E; [|unfold lift_result; by rewrite Hto].
  apply write_system_Ok in E as (c & e & Hc & Hm & _ & Hro & _); [|done].
  rewrite (proj1 state_path_facts) in Hc. simplify_eq. exists e. by rewrite Hm, lookup_insert_eq.
Qed.

Lemma touched_elem w man p :
  p ∈ touched w man <-> (exists f, f ∈ ma_files man /\ mf_path f = p) \/
    exists old, find_installed (PACKAGE_MANAGER w) (ma_name man) = Some old /\ p ∈ ip_files old.
Proof.
  unfold touched, rollback_paths.
  assert (p ∈ map mf_path (ma_files man) <-> exists f, f ∈ ma_files man /\ mf_path f = p) as Hm
    by (rewrite list_elem_of_fmap; naive_solver).
  destruct (find_installed _ _) as [old|]; rewrite !push_unique_all, Hm, elem_of_nil; naive_solver.
Qed.

(** The last file of a list that has a given destination. *)
Lemma last_for (files : list ManifestFile) f c :
  f ∈ files -> canonical_path (mf_path f) = Ok c ->
  exists l1 g l2, files = l1 ++ g :: l2 /\ canonical_path (mf_path g) = Ok c /\
    (forall h, h ∈ l2 -> canonical_path (mf_path h) <> Ok c).
Proof.
  intros Hf Hc. induction files as [|g files IH] using rev_ind; [by apply not_elem_of_nil in Hf|].
  destruct (decide (canonical_path (mf_path g) = Ok c)) as [Hg|Hg].
  - exists files, g, []. split_and!; [done|done|]. by intros h ?%not_elem_of_nil.
  - apply elem_of_app in Hf as [Hf|Hf%list_elem_of_singleton]; [|by subst].
    destruct (IH Hf) as (l1 & h & l2 & -> & Hh & Hl). exists l1, h, (l2 ++ [g]). split_and!; [|done|].
    + by rewrite <- app_assoc.
    + intros h' [Hh'| ->%list_elem_of_singleton]%elem_of_app; [by apply Hl|done].
Qed.

(** The files in reach of an installation, seen from a world [w] with the same
    installed packages. *)
Lemma installed_paths v ip (w w' : PkgWorld S) :
  bundle_installed v ip w w' -> packages_outside (pm_installed (PACKAGE_MANAGER w)) ->
  files_outside (map mf_path (ma_files (manifest_of (vp_bundle v)))) ->
  forall p, p ∈ touched w (manifest_of (vp_bundle v)) -> outside_pkg p /\ exists c, canonical_path p = Ok c /\
    forall x, fm w' !! c = Some x -> fe_readonly x = false.
Proof.
  intros Hbi Hpk Hout p Hp. destruct (bi_record _ _ _ _ Hbi) as (Hname & _ & _).
  destruct (bi_paths _ _ _ _ Hbi) as [Hpf Hpo]. rewrite Hname in *.
  assert (outside_pkg p) as Hop.
  { apply touched_elem in Hp as [(f & Hf & <-)|(old & Hold & Hin)].
    - apply Hout. by apply list_elem_of_fmap_2.
    - by apply (find_installed_outside _ _ old Hpk Hold). }
  assert (exists c, canonical_path p = Ok c) as [c Hc].
  { apply touched_elem in Hp as [(f & Hf & <-)|(old & Hold & Hin)]; [by apply Hpf|by eapply Hpo]. }
  split; [done|]. exists c. split; [done|]. intros x Hx.
  destruct (outside_pkg_state p c Hop Hc) as (_ & Hne & _).
  destruct (decide (Exists (fun f => canonical_path (mf_path f) = Ok c) (ma_files (manifest_of (vp_bundle v)))))
    as [(f & Hf & Hfc)%Exists_exists|Hnot].
  - destruct (last_for _ f c Hf Hfc) as (l1 & g & l2 & Hsplit & Hg & Hl).
    destruct (bi_files _ _ _ _ Hbi l1 g l2 c Hsplit Hg Hl Hne) as (pay & e & _ & He & _ & Hro). congruence.
  - assert (forall f, f ∈ ma_files (manifest_of (vp_bundle v)) -> canonical_path (mf_path f) <> Ok c) as Hno
      by (intros f Hf E; apply Hnot, Exists_exists; by exists f).
    apply touched_elem in Hp as [(f & Hf & <-)|(old & Hold & Hin)]; [by apply Hno in Hc|].
    rewrite <- Hname in Hold. by rewrite (bi_stale _ _ _ _ Hbi old p c Hold Hin Hc Hno Hne) in Hx.
Qed.

Lemma store_record_Ok name rr (w w' : PkgWorld S) :
  fok w -> store_rollback_record ticks (rollback_record_path name) rr w = (Ok (), w') ->
  exists cr er, canonical_path (rollback_record_path name) = Ok cr /\ fm w' = <[cr := er]> (fm w) /\
    from_slice (fe_data er) = Ok rr /\ fok w' /\ same_state w w'.
Proof.
  intros Hw E. unfold store_rollback_record in E. destruct (json_roundtrip rr) as (data & Hto & Hfrom).
  erewrite bind_Ok in E; [|unfold lift_result; by rewrite Hto].
  apply write_system_Ok in E as (c & e & Hc & Hm & Hd & _ & Ho & Hs); [|done]. exists c, e. by rewrite Hd.
Qed.

Lemma apply_bytes_applied source data staged t (w w1 : PkgWorld S) :
  winv w -> apply_verified_bundle_bytes ticks sha3_256 bootstrap_pk_hex source data staged w = (Ok t, w1) ->
  exists man rr cr, applied_update w w1 man t rr cr.
Proof.
  intros [Hw Hpk _ _] E. unfold apply_verified_bundle_bytes in E.
  destruct (ust w) as [st|] eqn:Hst; [|unfold ust in Hst; unfold mbind, stm_bind, load_state in E; by rewrite Hst in E].
  erewrite bind_Ok in E; [|unfold load_state; unfold ust in Hst; by rewrite Hst].
  unfold ensure_state_replaceable in E. destruct (unsettled st) eqn:Hu; [done|].
  erewrite bind_Ok in E by reflexivity. unfold mbind at 1, stm_bind at 1 in E.
  destruct (verify_local_bundle_bytes _ _ _ data w) as [[v|] w2] eqn:Ev; [|done].
  apply verify_local_Ok in Ev as (Hfs2 & [Hpm2 Ha2] & Hout). set (man := manifest_of (vp_bundle v)) in *.
  erewrite bind_Ok in E by reflexivity. erewrite bind_Ok in E by reflexivity.
  set (rr := mkRollback _ _ _ _ _) in E. set (w3 := mkPkgWorld _ _ _) in E.
  unfold mbind at 1, stm_bind at 1 in E.
  destruct (store_rollback_record _ _ rr w3) as [[[]|] w4] eqn:Es; [|done].
  apply store_record_Ok in Es as (cr & er & Hcr & Hm4 & Her & Ho4 & [Hpm4 Ha4]);
    [|change (fs_ok (fs (filesystem w2))); by rewrite Hfs2].
  erewrite bind_Ok in E by reflexivity. unfold mbind at 1, stm_bind at 1 in E.
  destruct (apply_verified_bundle _ _ _ _ w4) as [[ip|] w5] eqn:Ea; [|done].
  destruct (apply_bundle_installed ticks v _ _ ip w4 w5 Ho4 Ea) as (Ho5 & Ha5 & Hbi).
  erewrite bind_Ok in E by reflexivity. set (w6 := mkPkgWorld _ _ _) in E.
  unfold mbind at 1, stm_bind at 1 in E.
  destruct (save_state _ _ w6) as [[[]|] w7] eqn:E7; [|done].
  apply save_state_Ok in E7 as (Ho7 & [Hpm7 Ha7] & Hu7 & Hown7 & Hf7); [|done].
  unfold log_update_state, log_policy, pkg_log, gets, mbind, stm_bind, tick_count, modify, mret, stm_ret in E.
  apply pair_equal_spec in E as [[= <-] <-].
  match goal with |- context [applied_update w ?x _ _ _ _] => set (w8 := x) end.
  assert (forall c, fm w8 !! c = fm w7 !! c) as Hm8 by done.
  assert (PACKAGE_MANAGER w4 = PACKAGE_MANAGER w) as HpmA by (rewrite Hpm4; exact Hpm2).
  assert (fm w3 = fm w) as Hm3 by (unfold fm; by rewrite <- Hfs2).
  assert (packages_outside (pm_installed (PACKAGE_MANAGER w4))) as Hpk4 by (by rewrite HpmA).
  assert (touched w4 man = touched w man) as Ht by (unfold touched; by rewrite HpmA).
  pose proof (rollback_path_below _ _ Hcr) as Hin.
  assert (forall p, p ∈ touched w man -> outside_pkg p /\ exists c, canonical_path p = Ok c /\
    forall x, fm w5 !! c = Some x -> fe_readonly x = false) as Hpaths
    by (intros p Hp; rewrite <- Ht in Hp; by apply (installed_paths v ip w4 w5 Hbi)).
  exists man, rr, cr. split.
  - exact Ho7.
  - transitivity (authority w7); [done|]. rewrite Ha7. transitivity (authority w5); [done|]. rewrite Ha5, Ha4. exact Ha2.
  - cbn. unfold touched. by rewrite Hpm2, Hfs2.
  - cbn. by rewrite Hpm2.
  - split; [done|]. exists er. split; [|done]. rewrite Hm8, Hf7 by (intros ->; by apply state_path_facts in Hin).
    change (fm w5 !! cr = Some er). rewrite (bi_frame _ _ _ _ Hbi).
    + by rewrite Hm4, lookup_insert_eq.
    + intros ->. by apply state_path_facts in Hin.
    + intros f Hf Hd. destruct (outside_pkg_state (mf_path f) cr) as (_ & _ & ?); [|done|done].
      apply Hout. by apply list_elem_of_fmap_2.
    + intros old file Hold Hfile Hd. destruct (outside_pkg_state file cr) as (_ & _ & ?); [|done|done].
      by apply (find_installed_outside _ _ old Hpk4 Hold).
  - eexists. split; [exact Hu7|]. done.
  - exists ip. destruct (bi_record _ _ _ _ Hbi) as (Hname & _ & _). split; [done|].
    transitivity (pm_installed (PACKAGE_MANAGER w7)); [done|]. rewrite Hpm7.
    transitivity (pm_installed (PACKAGE_MANAGER w5)); [done|]. by rewrite (bi_installed _ _ _ _ Hbi), Hname, HpmA.
  - intros p Hp. destruct (Hpaths p Hp) as (Hop & c & Hc & Hro). split; [done|]. exists c. split; [done|].
    intros _ x. rewrite Hm8, Hf7 by (by apply (outside_pkg_state p c Hop Hc)). apply Hro.
  - intros c Hne1 Hne2 Hne3 Hnot. rewrite Hm8, Hf7 by done. change (fm w5 !! c = fm w !! c).
    destruct (bi_record _ _ _ _ Hbi) as (Hname & _ & _). rewrite (bi_frame _ _ _ _ Hbi).
    + by rewrite Hm4, lookup_insert_ne, Hm3 by done.
    + done.
    + intros f Hf. apply Hnot, touched_elem. left. by exists f.
    + intros old file Hold Hfile. apply Hnot, touched_elem. right. exists old. by rewrite Hname, HpmA in Hold.
  - intros c [->| ->]; [by rewrite Hm8|]. rewrite Hm8, Hf7 by (intros Ex; by apply (proj2 (proj2 (proj2 state_path_facts)))).
    apply (bi_list_file _ _ _ _ Hbi).
Qed.

(** *** The rollback succeeds *)

Definition installed_after (rr : RollbackRecord) (pm : PackageManager) : list InstalledPackage :=
  without_package (rr_package_name rr) (pm_installed pm)
  ++ match rr_previous_installed rr with Some p => [p] | None => [] end.
Definition rolled_back_state (now : Z) (t : UpdateTransaction) (st : UpdateState) : UpdateState :=
  set_recovery false None (set_current (Some (rolled_back_transaction now t)) st).

(** There is room for the files of the record and for rewriting the list of
    packages and the state, whose encodings have at most [size] bytes. *)
Definition rollback_room (w : PkgWorld S) (st : UpdateState) (t : UpdateTransaction) (rr : RollbackRecord) (limit : Z) :
    Prop :=
  0 <= limit <= MAX_FILE_SIZE /\
  map_used (fm w) + sumZ (map (fun r => blen (rf_data r)) (rr_files rr)) + 2 * limit <= TOTAL_CAPACITY /\
  Z.of_nat (size (fm w)) + blen (rr_files rr) <= MAX_FILES /\
  (forall data, to_vec (installed_after rr (PACKAGE_MANAGER w)) = Ok data -> blen data <= limit) /\
  (forall k data, to_vec (rolled_back_state (ticks k) t st) = Ok data -> blen data <= limit).

Lemma require_allowed (w : PkgWorld S) : may_manage w = true ->
  require_pkg_install ticks debug w = (Ok (), mkPkgWorld (machine w) (PACKAGE_MANAGER w) (Datatypes.S (clock w))).
Proof.
  intros Hm. unfold require_pkg_install. erewrite bind_Ok by reflexivity. cbn [machine].
  unfold session_require. unfold may_manage in Hm. by rewrite Hm.
Qed.

Lemma may_manage_authority (w w' : PkgWorld S) : authority w' = authority w -> may_manage w' = may_manage w.
Proof.
  intros [= H1' H2' H3']. unfold may_manage, current_or_session_capabilities, current_capabilities, process_capabilities,
    session_capabilities_for_uid. by rewrite H1', H2', H3'.
Qed.

(** Overwriting one of its own files with at most [limit] bytes. *)
Lemma write_own path data limit e (w : PkgWorld S) :
  fok w -> canonical_path path = Ok path -> path <> [slash] -> fm w !! path = Some e -> fe_readonly e = false ->
  blen data <= limit -> limit <= MAX_FILE_SIZE -> map_used (fm w) + limit <= TOTAL_CAPACITY ->
  exists w' e', write_system_file ticks path data w = (Ok (), w') /\ fm w' = <[path := e']> (fm w) /\
    fe_data e' = data /\ fok w' /\ same_state w w' /\ map_used (fm w') <= map_used (fm w) + limit.
Proof.
  intros Hw Hc Hs He Hro Hd Hl Hcap. unfold write_system_file. erewrite bind_Ok by reflexivity.
  set (w0 := mkPkgWorld _ _ _). pose proof (map_used_delete (fm w) path) as Hdel.
  edestruct (write_existing (fun _ => InstallFailed) (ticks (clock w)) path data perm_system false path e w0)
    as (w' & Hw' & Hm & Ho & Hst); [exact Hw|done|done|done|done|lia|change (fm w0) with (fm w); lia|].
  exists w'. eexists. split; [exact Hw'|]. change (fm w0) with (fm w) in Hm. split; [exact Hm|]. split; [done|].
  split; [done|]. split; [exact Hst|]. rewrite Hm.
  change (<[path := ?x]> (fm w)) with (partial_alter (fun _ => Some x) path (fm w)). rewrite map_used_alter. cbn. lia.
Qed.

Lemma save_installed_succeeds limit e (w : PkgWorld S) :
  fok w -> fm w !! LOCAL_INSTALLED_PATH = Some e -> fe_readonly e = false -> limit <= MAX_FILE_SIZE ->
  map_used (fm w) + limit <= TOTAL_CAPACITY ->
  (forall data, to_vec (pm_installed (PACKAGE_MANAGER w)) = Ok data -> blen data <= limit) ->
  exists w' e', save_installed_list ticks w = (Ok (), w') /\ fm w' = <[LOCAL_INSTALLED_PATH := e']> (fm w) /\
    fok w' /\ same_state w w' /\ map_used (fm w') <= map_used (fm w) + limit.
Proof.
  intros Hw He Hro Hl Hcap Hsize. unfold save_installed_list. erewrite bind_Ok by reflexivity.
  destruct (json_roundtrip (pm_installed (PACKAGE_MANAGER w))) as (data & Hto & _).
  erewrite bind_Ok; [|unfold lift_result; by rewrite Hto].
  destruct (write_own LOCAL_INSTALLED_PATH data limit e w) as (w' & e' & Hr & Hm & _ & Ho & Hs & Hu);
    [done|apply installed_path_canonical|done|done|done|by apply Hsize|done|done|].
  by exists w', e'.
Qed.

Lemma save_state_succeeds limit st e (w : PkgWorld S) :
  fok w -> fm w !! UPDATE_STATE_PATH = Some e -> fe_readonly e = false -> limit <= MAX_FILE_SIZE ->
  map_used (fm w) + limit <= TOTAL_CAPACITY -> (forall data, to_vec st = Ok data -> blen data <= limit) ->
  exists w', save_state ticks st w = (Ok (), w').
Proof.
  intros Hw He Hro Hl Hcap Hsize. unfold save_state. destruct (json_roundtrip st) as (data & Hto & _).
  erewrite bind_Ok; [|unfold lift_result; by rewrite Hto].
  destruct (write_own UPDATE_STATE_PATH data limit e w) as (w' & e' & Hr & _);
    [done|apply state_path_facts|done|done|done|by apply Hsize|done|done|].
  by exists w'.
Qed.

Lemma rollback_succeeds (f : WarFS) paths rr st t limit (w : PkgWorld S) :
  fok w -> may_manage w = true -> ust w = Ok st -> us_current st = Some t ->
  load_rollback_record (ut_rollback_path t) w = (Ok rr, w) ->
  fs_ok f -> owner_consistent (abs f) -> rr_files rr = map (capture_file f) paths ->
  (forall p, p ∈ paths -> outside_pkg p /\ exists c, canonical_path p = Ok c /\
     (abs f !! c = None -> forall x, fm w !! c = Some x -> fe_readonly x = false)) ->
  (forall c, c = UPDATE_STATE_PATH \/ c = LOCAL_INSTALLED_PATH -> exists e, fm w !! c = Some e /\ fe_readonly e = false) ->
  rollback_room w st t rr limit ->
  exists now w', rollback_current_update ticks debug w = (Ok (rolled_back_transaction now t), w') /\
    ust w' = Ok (rolled_back_state now t st) /\ pm_installed (PACKAGE_MANAGER w') = installed_after rr (PACKAGE_MANAGER w) /\
    (forall c p, p ∈ paths -> canonical_path p = Ok c -> fm w' !! c = abs f !! c) /\
    (forall c, c <> UPDATE_STATE_PATH -> c <> LOCAL_INSTALLED_PATH ->
       (forall p, p ∈ paths -> canonical_path p <> Ok c) -> fm w' !! c = fm w !! c).
Proof.
  intros Hw Hmay Hst Ht Hrec Hf Hown Hfiles Hpaths Howns (Hl & Hcap & Hcount & Hlist & Hstate).
  unfold rollback_current_update. erewrite bind_Ok by (by apply require_allowed). set (w0 := mkPkgWorld _ _ _).
  erewrite bind_Ok; [|unfold load_state; unfold ust in Hst; change (filesystem w0) with (filesystem w); by rewrite Hst].
  erewrite bind_Ok; [|unfold lift_result; by rewrite Ht].
  assert (load_rollback_record (ut_rollback_path t) w0 = (Ok rr, w0)) as Hrec0.
  { unfold load_rollback_record, read_file, lift_result, mbind, stm_bind in *. change (filesystem w0) with (filesystem w).
    destruct (map_err _ (read _ _)); [|done]. simplify_eq. congruence. }
  erewrite bind_Ok by exact Hrec0. unfold restore_rollback_files. rewrite Hfiles in *. rewrite map_map in Hcap.
  unfold blen in Hcount. rewrite length_map in Hcount.
  edestruct (restore_all f paths w0) as (w1 & Hr1 & Ho1 & [Hpm1 _] & Hu1 & Hin1 & Hout1);
    [done|done|exact Hw|intros p Hp; by apply Hpaths|unfold captured_size; change (fm w0) with (fm w); lia|
     unfold blen; change (fm w0) with (fm w); lia|].
  erewrite bind_Ok by exact Hr1. erewrite bind_Ok by reflexivity.
  match goal with |- context [set_manager ?pm w1] => set (w2 := set_manager pm w1) end.
  assert (forall c, c = UPDATE_STATE_PATH \/ c = LOCAL_INSTALLED_PATH -> exists e, fm w2 !! c = Some e /\ fe_readonly e = false)
    as Hown2.
  { intros c Hc. change (fm w2) with (fm w1). rewrite Hout1; [by apply Howns|]. intros p Hp Hcp.
    destruct (Hpaths p Hp) as [Hop _]. destruct (outside_pkg_state p c Hop Hcp) as (? & ? & _). naive_solver. }
  assert (pm_installed (PACKAGE_MANAGER w2) = installed_after rr (PACKAGE_MANAGER w)) as Hinst.
  { cbn. by rewrite Hpm1. }
  destruct (Hown2 LOCAL_INSTALLED_PATH) as (e2 & He2 & Hro2); [by right|].
  unfold captured_size in Hu1. change (fm w0) with (fm w) in Hu1.
  edestruct (save_installed_succeeds limit e2 w2) as (w3 & e3 & Hr3 & Hm3 & Ho3 & [Hpm3 _] & Hu3);
    [exact Ho1|done|done|lia|change (fm w2) with (fm w1); lia|by rewrite Hinst|].
  erewrite bind_Ok by exact Hr3. erewrite bind_Ok by reflexivity. set (w4 := mkPkgWorld _ _ _).
  destruct (Hown2 UPDATE_STATE_PATH) as (e4 & He4 & Hro4); [by left|].
  change (fm w2) with (fm w1) in *.
  edestruct (save_state_succeeds limit (rolled_back_state (ticks (clock w3)) t st) e4 w4) as (w5 & Hr5);
    [exact Ho3| |done|lia|change (fm w4) with (fm w3); lia|apply Hstate|].
  { change (fm w3 !! UPDATE_STATE_PATH = Some e4). by rewrite Hm3, lookup_insert_ne. }
  destruct (save_state_Ok _ w4 w5 Ho3 Hr5) as (Ho5 & [Hpm5 _] & Hu5 & _ & Hf5).
  exists (ticks (clock w3)). eexists. split; [erewrite bind_Ok by exact Hr5; reflexivity|].
  match goal with |- ust ?x = _ /\ _ => set (w6 := x) end.
  assert (forall c, c <> UPDATE_STATE_PATH -> c <> LOCAL_INSTALLED_PATH -> fm w6 !! c = fm w1 !! c) as Hfin.
  { intros c Hc1 Hc2. transitivity (fm w5 !! c); [done|]. rewrite Hf5 by done. change (fm w4) with (fm w3).
    by rewrite Hm3, lookup_insert_ne. }
  split_and!.
  - exact Hu5.
  - transitivity (pm_installed (PACKAGE_MANAGER w5)); [done|]. rewrite Hpm5. change (PACKAGE_MANAGER w4) with (PACKAGE_MANAGER w3).
    by rewrite Hpm3.
  - intros c p Hp Hc. destruct (Hpaths p Hp) as [Hop _]. destruct (outside_pkg_state p c Hop Hc) as (? & ? & _).
    rewrite Hfin by done. by apply (Hin1 c p).
  - intros c Hc1 Hc2 Hnot. rewrite Hfin by done. by apply Hout1.
Qed.

(** *** Between the update and the rollback *)

(** What can happen to an applied update before it is rolled back: boots,
    shell-ready reports, rejections and requests for recovery. *)
Definition unsettled_event (op : update_op) : Prop :=
  match op with UBoot | UReady | UReject _ | URequest _ => True | _ => False end.

(** These touch the state file only. *)
Definition state_only {A} (m : pst A) : Prop :=
  forall w, fok w -> fok (m w).2 /\ same_state w (m w).2 /\
    (forall c, c <> UPDATE_STATE_PATH -> fm (m w).2 !! c = fm w !! c) /\
    ((exists e, fm w !! UPDATE_STATE_PATH = Some e /\ fe_readonly e = false) ->
     exists e, fm (m w).2 !! UPDATE_STATE_PATH = Some e /\ fe_readonly e = false).

Lemma state_only_bind {A B} (m : pst A) (f : A -> pst B) :
  state_only m -> (forall a, state_only (f a)) -> state_only (m ≫= f).
Proof.
  intros Hm Hf w Hw. destruct (Hm w Hw) as (Ho & Hs & Hc & He). unfold mbind, stm_bind.
  destruct (m w) as [[a|] w1]; cbn [snd] in *; [|done].
  destruct (Hf a w1 Ho) as (Ho' & Hs' & Hc' & He'). split_and!; [done|by etransitivity| |by auto].
  intros c Hne. rewrite Hc' by done. by apply Hc.
Qed.
Lemma state_only_silent {A} (m : pst A) :
  (forall w, filesystem (m w).2 = filesystem w /\ same_state w (m w).2) -> state_only m.
Proof. intros Hm w Hw. destruct (Hm w) as [Hfs Hs]. unfold fok, fm. rewrite Hfs. by split_and!. Qed.
Lemma state_only_save st : state_only (save_state ticks st).
Proof.
  intros w Hw. destruct (save_state_spec ticks st w Hw) as (Ho & Hp & Ha & Hf & _).
  split_and!; [done|done|done|]. intros (e & He & Hro). destruct (save_state ticks st w) as [[[]|x] w'] eqn:Es; cbn [snd] in *.
  - by apply save_state_Ok in Es as (_ & _ & _ & ? & _).
  - exists e. split; [|done]. rewrite <- He. unfold save_state in Es.
    destruct (json_roundtrip st) as (data & Hto & _). erewrite bind_Ok in Es; [|unfold lift_result; by rewrite Hto].
    unfold write_system_file in Es. erewrite bind_Ok in Es by reflexivity. set (w0 := mkPkgWorld _ _ _) in Es.
    destruct (locked_op (fun _ => InstallFailed) (FsWrite (ticks (clock w)) UPDATE_STATE_PATH data 0 Admin perm_system false) w0 Hw)
      as (Hr & Hm & _).
    change (write_system (ticks (clock w)) UPDATE_STATE_PATH data false)
      with (run_fs_op (S := S) (FsWrite (ticks (clock w)) UPDATE_STATE_PATH data 0 Admin perm_system false)) in Es.
    rewrite Es in Hr, Hm. cbn [fst snd spec_op] in Hr, Hm. destruct (spec_store _ _ _ _ _) as [[|] m] eqn:E; [done|].
    apply spec_store_Err in E as ->. cbn [snd] in Hm. by rewrite Hm.
Qed.

Lemma require_silent : forall w : PkgWorld S, filesystem (require_pkg_install ticks debug w).2 = filesystem w /\
  same_state w (require_pkg_install ticks debug w).2.
Proof.
  intros w. unfold require_pkg_install. erewrite bind_Ok by reflexivity. unfold session_require. by destruct (cap_contains _ _).
Qed.

Lemma event_state_only op : unsettled_event op -> state_only (run_update_op ticks debug sha3_256 bootstrap_pk_hex op).
Proof.
  destruct op; try done; intros _; cbn [run_update_op]; unfold discard.
  - apply state_only_bind; [|intros; by apply state_only_silent].
    apply state_only_bind; [apply state_only_silent, require_silent|intros _].
    apply state_only_bind; [by apply state_only_silent|intros st].
    apply state_only_bind; [by apply state_only_silent|intros t].
    apply state_only_bind; [apply state_only_save|intros _]. by apply state_only_silent.
  - apply state_only_bind; [by apply state_only_silent|intros st].
    apply state_only_bind; [apply state_only_save|intros _]. by apply state_only_silent.
  - apply state_only_bind; [|intros; by apply state_only_silent]. intros w Hw. unfold prepare_boot.
    destruct (stored_state _) as [st|[]]; try done.
    all: destruct (boot_state _) as [[st1 summary] failure]; cbn [snd].
    all: set (w1 := match failure with Some _ => _ | None => w end).
    all: assert (filesystem w1 = filesystem w /\ same_state w w1) as [Hfs Hs] by (subst w1; by destruct failure as [[t d]|]).
    all: assert (fok w1) as Hw1 by (unfold fok; by rewrite Hfs).
    all: destruct (state_only_save st1 w1 Hw1) as (Ho & Hs' & Hf & He); unfold fm in *; rewrite Hfs in *.
    all: split_and!; [done|by etransitivity|done|done].
  - apply state_only_bind; [|intros; by apply state_only_silent].
    apply state_only_bind; [by apply state_only_silent|intros st].
    destruct (us_current st) as [t|]; [|by apply state_only_silent].
    destruct (_ || _); [by apply state_only_silent|]. destruct (ut_boot_observed t); [by apply state_only_silent|].
    apply state_only_bind; [apply state_only_save|intros _]. by apply state_only_silent.
Qed.

Lemma events_state_only ops (w : PkgWorld S) : Forall unsettled_event ops -> fok w ->
  let w' := run_updates ticks debug sha3_256 bootstrap_pk_hex ops w in
  fok w' /\ same_state w w' /\ (forall c, c <> UPDATE_STATE_PATH -> fm w' !! c = fm w !! c) /\
  ((exists e, fm w !! UPDATE_STATE_PATH = Some e /\ fe_readonly e = false) ->
   exists e, fm w' !! UPDATE_STATE_PATH = Some e /\ fe_readonly e = false).
Proof.
  intros Hops. revert w. induction Hops as [|op ops Hop Hops IH]; intros w Hw; [done|].
  destruct (event_state_only op Hop w Hw) as (Ho & Hs & Hf & He).
  destruct (IH _ Ho) as (Ho' & Hs' & Hf' & He'). split_and!; [done|by etransitivity| |by auto].
  intros c Hc. etransitivity; [by apply Hf'|by apply Hf].
Qed.

Lemma event_label l op : l = label_of op -> unsettled_event op -> l = LBoot \/ l = LReady \/ l = LReject \/ l = LRequest.
Proof. intros ->. destruct op; cbn; tauto. Qed.

(** These transitions keep the transaction and its rollback path. *)
Lemma event_run_path ls st st' :
  update_run st ls st' -> Forall (fun l => l = LBoot \/ l = LReady \/ l = LReject \/ l = LRequest) ls ->
  forall t, us_current st = Some t -> exists t', us_current st' = Some t' /\ ut_rollback_path t' = ut_rollback_path t.
Proof.
  intros Hrun. induction Hrun as [|st ls st1 l st2 Hrun IH Hstep]; intros Hls t Ht; [by exists t|].
  apply Forall_app in Hls as [Hls Hl]. rewrite Forall_singleton in Hl. destruct (IH Hls t Ht) as (t1 & Ht1 & Hp1).
  destruct Hl as [Hl|[Hl|[Hl|Hl]]]; subst l; inversion Hstep; simplify_eq; cbn.
  - destruct (us_current (boot_state st1).1.1) as [t2|] eqn:E.
    + exists t2. split; [done|]. apply boot_state_path in E as (t0 & Ht0 & ->). congruence.
    + exfalso. revert E. unfold boot_state. rewrite Ht1. destruct (ut_phase t1); cbn; rewrite ?Ht1; try done.
      repeat case_match; done.
  - eexists. split; [reflexivity|done].
  - eexists. split; [reflexivity|done].
  - by exists t1.
Qed.

Lemma find_installed_after rr (pm pm' : PackageManager) ip :
  ip_name ip = rr_package_name rr -> rr_previous_installed rr = find_installed pm (rr_package_name rr) ->
  pm_installed pm' = without_package (rr_package_name rr) (pm_installed pm) ++ [ip] ->
  forall l name, pm_installed l = installed_after rr pm' -> find_installed l name = find_installed pm name.
Proof.
  intros Hip Hprev Hpm' l name Hl. unfold find_installed. rewrite Hl. unfold installed_after. rewrite Hpm'.
  set (n := rr_package_name rr) in *. unfold without_package. rewrite List.filter_app. cbn [List.filter].
  replace (installed_is n ip) with true by (symmetry; by apply bool_decide_eq_true). cbn [negb]. rewrite app_nil_r.
  assert (forall (q : InstalledPackage -> bool) k, List.filter q (List.filter q k) = List.filter q k) as Hidem.
  { intros q k. induction k as [|x k IH]; [done|]. cbn. destruct (q x) eqn:E; cbn; [rewrite E; by f_equal|done]. }
  rewrite Hidem, find_first_app, Hprev.
  assert (forall k, find_first (installed_is name) (List.filter (fun p => negb (installed_is n p)) k) =
    if decide (name = n) then None else find_first (installed_is name) k) as Hflt.
  { intros k. unfold installed_is, find_first. induction k as [|x k IH]; [by case_decide|]. cbn.
    repeat (case_bool_decide; cbn; try case_decide; simplify_eq; try done). all: rewrite ?IH; try done. }
  rewrite Hflt. destruct (decide (name = n)) as [->|Hne].
  - unfold find_installed. destruct (find_first (installed_is n) (pm_installed pm)) as [p|] eqn:E; [|done].
    apply find_first_Some in E as [_ Hn]. cbn. by rewrite Hn.
  - destruct (find_first (installed_is name) (pm_installed pm)) as [p|]; [done|].
    unfold find_installed. destruct (find_first (installed_is n) (pm_installed pm)) as [p|] eqn:E; [|done].
    apply find_first_Some in E as [_ Hn%bool_decide_eq_true]. unfold installed_is. cbn.
    rewrite bool_decide_false by congruence. done.
Qed.

Lemma apply_from_path_applied path t (w w1 : PkgWorld S) :
  winv w -> apply_bundle_from_path ticks debug sha3_256 bootstrap_pk_hex path w = (Ok t, w1) ->
  may_manage w = true /\ winv w1 /\ exists man rr cr, applied_update w w1 man t rr cr.
Proof.
  intros Hw E. destruct (may_manage w) eqn:Hm.
  2: { destruct (require_denied ticks debug w Hm) as (w' & Er & _). unfold apply_bundle_from_path, mbind, stm_bind in E.
       by rewrite Er in E. }
  split; [done|]. unfold apply_bundle_from_path in E. erewrite bind_Ok in E by (by apply require_allowed).
  set (w0 := mkPkgWorld _ _ _) in E. unfold mbind, stm_bind in E.
  pose proof (quiet_read_local path w0) as [Hfs Hpm].
  assert (authority (read_local_bundle path w0).2 = authority w) as Ha.
  { assert (forall k : Kernel S, (read_current path k).2 = k) as Hk.
    { intros k. unfold read_current, mbind, stm_bind, resolve_checked. destruct (negb _); cbn; [done|].
      by destruct (read_as _ _ _ _). }
    unfold read_local_bundle. specialize (Hk (kernel (machine w0))).
    destruct (read_current path (kernel (machine w0))) as [r k]. cbn in Hk. by subst k. }
  destruct (read_local_bundle path w0) as [[[resolved data]|] w2]; [|done]. cbn [snd] in *.
  destruct (winv_same w w2 Hfs Hpm Hw) as [Hw2 Hu2].
  destruct (apply_bytes_applied _ _ _ t w2 w1 Hw2 E) as (man & rr & cr & [A1 A2 A3 A4 A5 A6 A7 A8 A9 A10]).
  split.
  - destruct (ust w2) as [st|e] eqn:Est.
    + pose proof (final_apply_bytes ticks sha3_256 bootstrap_pk_hex trusted st resolved data None w2 Hw2 Est) as [Hf _].
      by rewrite E in Hf.
    + exfalso. unfold apply_verified_bundle_bytes, mbind, stm_bind, load_state in E. unfold ust in Est. by rewrite Est in E.
  - exists man, rr, cr. unfold touched, fm in *. rewrite Hfs, Hpm, Ha in *. by split.
Qed.

End rollback.
