(* ===== verification/PkgBootstrap.v ===== *)
(** * The built-in repository (kernel/src/pkg/bootstrap.rs and the start of
    kernel/src/pkg/mod.rs)

    The packages compiled into the kernel and the repository the first boot
    writes from them.  The texts the build includes from other files (the
    signatures and the example circuits) and the version of the kernel are
    arguments. *)
From stdpp Require Import relations.
From S2P Require Import Prelude RustStr Paths Auth Session AuditLog WarFS FsCurrent Caps Process Exec PkgBundle PkgIndex Pkg PkgUpdate PkgSpecs PkgUpdateSpecs.

(** [include_str!] of the example circuits and of the signature of a package. *)
Record Includes : Type := mkIncludes {
  in_bell : bytes;
  in_ghz5 : bytes;
  in_grover2 : bytes;
  in_qft4 : bytes;
  in_signature : bytes -> bytes;
}.

Section bootstrap.
Context (sha256 sha3_256 : bytes -> bytes).
Context (KERNEL_VERSION : bytes) (texts : Includes).

Definition pkg_text (path source : bytes) (executable : bool) (contents : bytes) : ManifestFile * WarPackPayload :=
  (mkManifestFile path source executable (blen contents), mkPayload source contents).

Definition signed_package (signature_hex name description category : bytes) (files : list (ManifestFile * WarPackPayload))
    (dependencies : list bytes) : WarPackBundle :=
  let manifest := mkManifest name (str "0.1.0") description (str "War Enterprise") (str "Apache-2.0") (map fst files)
                    dependencies KERNEL_VERSION category in
  let payloads := map snd files in
  mkBundle (mkSigned manifest (payload_digests sha3_256 payloads)
              (mkEnvelope WARPKG_SIGNATURE_SCHEME WARPKG_BOOTSTRAP_KEY_ID signature_hex)) payloads.

(** A line of a launcher script, with its line feed. *)
Definition line (s : string) : bytes := str s ++ [x0a].

Definition builtin (name description category : string) (files : list (ManifestFile * WarPackPayload))
    (dependencies : list bytes) : WarPackBundle :=
  signed_package (in_signature texts (str name)) (str name) (str description) (str category) files dependencies.

Definition built_in_packages : list WarPackBundle :=
  [builtin "quantum-examples" "Quantum example circuits" "quantum"
     [pkg_text (str "/usr/share/quantum/bell.qasm") (str "bell.qasm") false (in_bell texts);
      pkg_text (str "/usr/share/quantum/ghz5.qasm") (str "ghz5.qasm") false (in_ghz5 texts);
      pkg_text (str "/usr/share/quantum/grover2.qasm") (str "grover2.qasm") false (in_grover2 texts);
      pkg_text (str "/usr/share/quantum/qft4.qasm") (str "qft4.qasm") false (in_qft4 texts)] [];
   builtin "crypto-tools" "Post-quantum crypto command helpers" "crypto"
     [pkg_text (str "/usr/bin/crypto-tools") (str "crypto-tools") true (line "#!warsh" ++ line "crypto")] [];
   builtin "network-utils" "Network helper scripts" "binary"
     [pkg_text (str "/usr/bin/net-status") (str "net-status") true (line "#!warsh" ++ line "net status");
      pkg_text (str "/usr/bin/net-dns") (str "net-dns") true (line "#!warsh" ++ line "dns warenterprise.com")] [];
   builtin "system-monitor" "Top-style system dashboard launcher" "binary"
     [pkg_text (str "/usr/bin/system-monitor") (str "system-monitor") true (line "#!warsh" ++ line "top")] [];
   builtin "waros-docs" "Offline WarOS documentation" "docs"
     [pkg_text (str "/usr/share/doc/waros/README.txt") (str "README.txt") false
        (line "WarOS package repository bootstrap."
         ++ line "Use 'warpkg list', 'warpkg info <name>', and 'warpkg verify <name>'.")] [];
   builtin "quantum-benchmarks" "Quantum benchmark scripts" "quantum"
     [pkg_text (str "/usr/share/quantum/benchmarks.txt") (str "benchmarks.txt") false
        (line "bell: 2 qubits" ++ line "qft4: 4 qubits" ++ line "ghz5: 5 qubits")] [str "quantum-examples"];
   builtin "hello-world" "WarExec hello-world launcher" "binary"
     [pkg_text (str "/usr/bin/hello") (str "hello") true
        (line "#!warsh" ++ line "echo Hello from WarOS package manager")] [];
   builtin "war-shell-plugins" "Shell helper launchers" "binary"
     [pkg_text (str "/usr/bin/waros-help") (str "waros-help") true (line "#!warsh" ++ line "help");
      pkg_text (str "/usr/bin/waros-version") (str "waros-version") true (line "#!warsh" ++ line "version --all")] []].

(** The entry of the index for a bundle whose encoding is [data]. *)
Definition index_entry (bundle : WarPackBundle) (data : bytes) : PackageInfo :=
  let manifest := sm_manifest (wb_signed_manifest bundle) in
  let signature := sm_signature (wb_signed_manifest bundle) in
  mkInfo (ma_name manifest) (ma_version manifest) (ma_description manifest) (blen data) (sha256_hex sha256 data)
    (sg_key_id signature) (sg_scheme signature) (ma_dependencies manifest) (bundle_path (ma_name manifest)).

Section seed.
Context {S : Type} `{Backend S}.
Context (ticks : nat -> Z).
Context `{Json (list InstalledPackage), Json PackageIndex, Json WarPackBundle, Json UpdateState}.

Abbreviation pst A := (stm (PkgWorld S) PkgError A).

Definition seed_bundle (bundle : WarPackBundle) (index_packages : list PackageInfo) : pst (list PackageInfo) :=
  data ← lift_result (map_err (fun _ => ExtractFailed) (to_vec bundle));
  _ ← write_system_file ticks (bundle_path (ma_name (sm_manifest (wb_signed_manifest bundle)))) data;
  mret (index_packages ++ [index_entry bundle data]).

Definition seed_repository : pst () :=
  index_packages ← foldM seed_bundle built_in_packages [];
  now ← tick_count ticks;
  index_bytes ← lift_result (map_err (fun _ => ExtractFailed) (to_vec (mkIndex index_packages now)));
  _ ← write_system_file ticks LOCAL_INDEX_PATH index_bytes;
  have ← gets (fun w => is_ok (read (fs (filesystem w)) LOCAL_INSTALLED_PATH));
  if have : bool then mret () else write_system_file ticks LOCAL_INSTALLED_PATH (str "[]").

Definition pkg_init : pst () :=
  _ ← seed_repository;
  _ ← modify (fun w => set_manager (manager_new DEFAULT_REPO_URL (fs (filesystem w))) w);
  ensure_state_file ticks.
End seed.
End bootstrap.

(** ** The seeded repository is consistent *)

Section seeded.
Context (sha256 sha3_256 : bytes -> bytes) (bootstrap_pk_hex : bytes).
Context (KERNEL_VERSION : bytes) (texts : Includes).
Context {S : Type} `{Backend S}.
Context (ticks : nat -> Z).
Context `{Json CanonicalSignedManifest, MlDsa, Json (list InstalledPackage), Json UpdateState}.
Context `{JsonOk PackageIndex, JsonOk WarPackBundle}.
Context (http_get : bytes -> Machine S -> result () bytes * Machine S).

Abbreviation packages := (built_in_packages sha3_256 KERNEL_VERSION texts).
Abbreviation name_of b := (ma_name (sm_manifest (wb_signed_manifest b))).
Abbreviation root := (embedded_bootstrap_root bootstrap_pk_hex).

Definition stored_bundle (w : PkgWorld S) (b : WarPackBundle) (data : bytes) : Prop :=
  to_vec b = Ok data /\ from_slice data = Ok b /\
  exists e, fm w !! bundle_path (name_of b) = Some e /\ fe_data e = data.

Lemma bundle_path_inj a b : bundle_path a = bundle_path b -> a = b.
Proof. unfold bundle_path. intros E. apply app_inv_head in E. by apply app_inv_tail in E. Qed.

Lemma seed_bundles_Ok bs acc acc' (w w' : PkgWorld S) :
  fok w -> NoDup (map (fun b => name_of b) bs) ->
  (forall b, b ∈ bs -> canonical_path (bundle_path (name_of b)) = Ok (bundle_path (name_of b))) ->
  foldM (seed_bundle sha256 ticks) bs acc w = (Ok acc', w') ->
  fok w' /\ (forall c, (forall b, b ∈ bs -> c <> bundle_path (name_of b)) -> fm w' !! c = fm w !! c) /\
  exists datas, Forall2 (stored_bundle w') bs datas /\ acc' = acc ++ zip_with (index_entry sha256) bs datas.
Proof.
  revert acc w. induction bs as [|b bs IH]; intros acc w Hw Hnd Hpath E; cbn [foldM] in E.
  - unfold mret, stm_ret in E. simplify_eq. split_and!; try done. exists []. rewrite app_nil_r. by split; [constructor|].
  - apply NoDup_cons in Hnd as [Hnew Hnd]. unfold mbind at 1, stm_bind at 1 in E.
    destruct (seed_bundle sha256 ticks b acc w) as [[acc1|] w1] eqn:E1; [|done].
    unfold seed_bundle in E1. destruct (json_roundtrip b) as (data & Hto & Hfrom).
    erewrite bind_Ok in E1; [|unfold lift_result; by rewrite Hto]. unfold mbind, stm_bind in E1.
    destruct (write_system_file _ _ _ w) as [[[]|] w2] eqn:E2; [|done]. unfold mret, stm_ret in E1. simplify_eq.
    apply write_system_Ok in E2 as (c & e & Hc & Hm & Hd & _ & Ho & _); [|done].
    rewrite Hpath in Hc by (by left). simplify_eq.
    apply IH in E as (Ho' & Hf & datas & Hst & ->); [|done|done|intros b' Hb'; apply Hpath; by right].
    assert (forall b', b' ∈ bs -> bundle_path (name_of b) <> bundle_path (name_of b')) as Hfresh.
    { intros b' Hb' Eb%bundle_path_inj. apply Hnew. rewrite Eb. by apply (list_elem_of_fmap_2 (fun b => name_of b)). }
    split_and!; [done| |].
    + intros c Hc'. rewrite Hf by (intros b' Hb'; apply Hc'; by right). rewrite Hm, lookup_insert_ne; [done|].
      intros E'. apply (Hc' b); [by left|done].
    + exists (fe_data e :: datas). split; [|by rewrite <- app_assoc]. constructor; [|done]. split_and!; [done|done|].
      exists e. split; [|done]. by rewrite Hf, Hm, lookup_insert_eq.
Qed.

(** The built-in packages pass every check but the signature, whatever the
    included texts are: their payloads are the listed ones. *)
Lemma built_in_payloads_ok b : b ∈ packages -> payloads_ok sha3_256 b.
Proof.
  assert (forall sig name description category files deps,
    NoDup (map (fun f => mf_source (fst f)) files) ->
    Forall (fun f => pa_source (snd f) = mf_source (fst f) /\ blen (pa_contents (snd f)) = mf_size (fst f)) files ->
    payloads_ok sha3_256 (signed_package sha3_256 KERNEL_VERSION sig name description category files deps)) as Hgen.
  { intros sig name description category files deps Hnd Hall. apply built_payloads_ok.
    - rewrite map_map. erewrite map_ext_Forall; [exact Hnd|]. eapply Forall_impl; [exact Hall|]. by intros f [? _].
    - intros f (fp & -> & Hin)%list_elem_of_fmap. rewrite Forall_forall in Hall. exists (snd fp).
      split; [by apply list_elem_of_fmap_2|]. by apply Hall. }
  unfold built_in_packages. rewrite !elem_of_cons, elem_of_nil.
  intros Hb. destruct_or!; try done; subst b; apply Hgen; try (by repeat constructor).
  all: cbn; apply (bool_decide_eq_true_1 (NoDup _)); vm_compute; reflexivity.
Qed.

Lemma built_in_names :
  map (fun b => name_of b) packages =
  map str ["quantum-examples"; "crypto-tools"; "network-utils"; "system-monitor"; "waros-docs"; "quantum-benchmarks";
           "hello-world"; "war-shell-plugins"]%string.
Proof. reflexivity. Qed.

Lemma built_in_paths b : b ∈ packages ->
  canonical_path (bundle_path (name_of b)) = Ok (bundle_path (name_of b)) /\ bundle_path (name_of b) <> LOCAL_INDEX_PATH /\
  bundle_path (name_of b) <> LOCAL_INSTALLED_PATH /\ bundle_path (name_of b) <> UPDATE_STATE_PATH.
Proof.
  intros Hb. assert (name_of b ∈ map (fun b => name_of b) packages) as Hn by (by apply (list_elem_of_fmap_2 (fun b => name_of b))).
  rewrite built_in_names in Hn. revert Hn. generalize (name_of b). cbn [map]. intros n Hn.
  rewrite !elem_of_cons, elem_of_nil in Hn. destruct_or!; try done; subst n; vm_compute; split_and!; done.
Qed.

(** Every built-in package resolves in the index, whatever its data are. *)
Lemma built_in_resolves datas now b : length datas = length packages -> b ∈ packages ->
  let index := mkIndex (zip_with (index_entry sha256) packages datas) now in
  exists order, resolved index (name_of b) = Ok order.
Proof.
  intros Hlen Hb. cbn [length built_in_packages] in Hlen.
  do 8 (destruct datas as [|? datas]; [done|]). destruct datas; [|done]. unfold built_in_packages in Hb |- *.
  rewrite !elem_of_cons, elem_of_nil in Hb. destruct_or!; try done; subst b; eexists; vm_compute; reflexivity.
Qed.

Lemma find_entry bs datas now b : NoDup (map (fun b => name_of b) bs) -> length datas = length bs ->
  forall i data, bs !! i = Some b -> datas !! i = Some data ->
  find_package (mkIndex (zip_with (index_entry sha256) bs datas) now) (name_of b) = Some (index_entry sha256 b data).
Proof.
  intros Hnd Hlen i data Hb Hd. unfold find_package.
  apply (find_key_Some pi_name (package_is (name_of b)) (name_of b)).
  - intros y. apply bool_decide_eq_true.
  - replace (map pi_name _) with (map (fun b => name_of b) bs); [done|]. clear Hb Hd Hnd. revert datas Hlen.
    induction bs as [|x bs IH]; intros [|d datas] Hlen; try done. cbn in *. f_equal. apply IH. lia.
  - split; [|done]. apply list_elem_of_lookup. exists i. cbn. apply lookup_zip_with_Some. by exists b, data.
Qed.

Lemma ensure_state_Ok (w w' : PkgWorld S) : fok w -> ensure_state_file ticks w = (Ok (), w') ->
  PACKAGE_MANAGER w' = PACKAGE_MANAGER w /\ forall c, c <> UPDATE_STATE_PATH -> fm w' !! c = fm w !! c.
Proof.
  intros Hw E. unfold ensure_state_file in E. erewrite bind_Ok in E by reflexivity.
  destruct (is_ok _); [unfold mret, stm_ret in E; by simplify_eq|]. unfold save_state in E.
  unfold mbind, stm_bind, lift_result in E. destruct (to_vec update_state_default); [|done]. cbn [map_err] in E.
  apply write_system_Ok in E as (c & e & Hc & Hm & _ & _ & _ & [Hpm _]); [|done].
  rewrite (proj1 state_path_facts) in Hc. simplify_eq. split; [done|]. intros c Hne. by rewrite Hm, lookup_insert_ne.
Qed.

(** The repository the first boot writes is usable.  After [init] the index
    in memory has every built-in package; its download location holds data with
    the recorded checksum; they decode to the bundle, whose payloads match its
    digests and whose metadata match the index; its dependencies resolve.  So
    each package verifies if its signature does. *)
Theorem seeded_repository_consistent (w w' : PkgWorld S) :
  fok w -> pkg_init sha256 sha3_256 KERNEL_VERSION texts ticks w = (Ok (), w') ->
  exists index, pm_index (PACKAGE_MANAGER w') = Some index /\
    forall b, b ∈ packages -> exists info data order,
      find_package index (name_of b) = Some info /\ resolved index (name_of b) = Ok order /\
      fetch_package http_get (pi_download_url info) w' = (Ok data, w') /\
      sha256_hex sha256 data = pi_sha256 info /\ from_slice data = Ok b /\ validate_payloads sha3_256 b = Ok () /\
      (verify_bundle sha3_256 b root = Ok () ->
       (verify_package_bytes ticks sha256 sha3_256 bootstrap_pk_hex info data w').1 = Ok (verified_package b)).
Proof.
  intros Hw E. unfold pkg_init, mbind, stm_bind in E.
  destruct (seed_repository _ _ _ _ ticks w) as [[[]|] w4] eqn:E4; [|done]. unfold modify in E.
  unfold seed_repository, mbind, stm_bind in E4.
  destruct (foldM _ packages [] w) as [[infos|] w1] eqn:E1; [|done]. cbn [tick_count] in E4.
  apply seed_bundles_Ok in E1 as (Ho1 & Hf1 & datas & Hst1 & ->);
    [|done|rewrite built_in_names; apply (bool_decide_eq_true_1 (NoDup _)); vm_compute; reflexivity|
     intros b Hb; by apply built_in_paths].
  set (index := mkIndex _ _) in E4. set (w2 := mkPkgWorld _ _ _) in E4. unfold lift_result in E4.
  destruct (json_roundtrip index) as (idata & Hto & Hfrom). rewrite Hto in E4. cbn [map_err] in E4.
  destruct (write_system_file ticks LOCAL_INDEX_PATH idata w2) as [[[]|] w3] eqn:E3; [|done].
  apply write_system_Ok in E3 as (c & ie & Hc & Hm3 & Hd3 & _ & Ho3 & _); [|done].
  assert (canonical_path LOCAL_INDEX_PATH = Ok LOCAL_INDEX_PATH) as Hci by (vm_compute; reflexivity).
  rewrite Hci in Hc. injection Hc as <-.
  assert (fok w4 /\ forall c, c <> LOCAL_INSTALLED_PATH -> fm w4 !! c = fm w3 !! c) as [Ho4 Hf4].
  { unfold gets in E4. destruct (is_ok _); [unfold mret, stm_ret in E4; by simplify_eq|].
    apply write_system_Ok in E4 as (c & e & Hc & Hm & _ & _ & Ho & _); [|done].
    rewrite installed_path_canonical in Hc. injection Hc as <-. split; [done|].
    intros c Hne. by rewrite Hm, lookup_insert_ne. }
  set (w5 := set_manager _ w4) in E. apply ensure_state_Ok in E as [Hpm Hf5]; [|done].
  assert (forall c, c <> UPDATE_STATE_PATH -> c <> LOCAL_INSTALLED_PATH -> c <> LOCAL_INDEX_PATH -> fm w' !! c = fm w1 !! c) as Hfin.
  { intros c H1' H2' H3'. rewrite Hf5 by done. change (fm w5) with (fm w4). by rewrite Hf4, Hm3, lookup_insert_ne. }
  assert (pm_index (PACKAGE_MANAGER w') = Some index) as Hidx.
  { rewrite Hpm. cbn. unfold load_local_index. rewrite (read_fm w4 _ _ Hci), Hf4, Hm3, lookup_insert_eq by done.
    cbn. by rewrite Hd3, Hfrom. }
  exists index. split; [done|]. intros b Hb. destruct (list_elem_of_lookup_1 _ _ Hb) as [i Hi].
  destruct (Forall2_lookup_l _ _ _ _ _ Hst1 Hi) as (data & Hdi & Htob & Hfromb & e & He & Hde).
  pose proof (Forall2_length _ _ _ Hst1) as Hlen.
  destruct (built_in_resolves datas (ix_last_updated index) b (eq_sym Hlen) Hb) as [order Hord].
  destruct (built_in_paths b Hb) as (Hcp & Hp1 & Hp2 & Hp3).
  exists (index_entry sha256 b data), data, order. split_and!; try done.
  - apply (find_entry packages datas _ b) with i; [|done|done|done].
    rewrite built_in_names. apply (bool_decide_eq_true_1 (NoDup _)). vm_compute. reflexivity.
  - unfold fetch_package. cbn [pi_download_url index_entry].
    change (starts_with (bundle_path (name_of b)) [slash]) with true. cbn iota. unfold read_file.
    by rewrite (read_fm w' _ _ Hcp), Hfin, He, Hde by done.
  - apply validate_payloads_iff. by apply built_in_payloads_ok.
  - intros Hv. unfold verify_package_bytes. rewrite bool_decide_false by tauto. rewrite Hfromb.
    unfold verify_bootstrap_bundle, verify_bundle_with_embedded_root. rewrite Hv.
    unfold metadata_matches. cbn [index_entry pi_name pi_version pi_description pi_dependencies].
    rewrite !bool_decide_true by done. done.
Qed.
End seeded.
