(* ===== verification/PkgExamples.v ===== *)
(** * Concrete packages

    A small self-delimiting encoding stands in for JSON and two toy signature
    schemes for ML-DSA, so that the package manager can be run: the theorems are
    applied to concrete updates here, and two runs show what the code does when
    an update fails half-way and when a staged update is rolled back. *)
From stdpp Require Import relations.
From S2P Require Import Prelude RustStr Paths Auth Session AuditLog WarFS FsCurrent Caps Process Exec PkgBundle PkgIndex Pkg PkgUpdate PkgSpecs PkgUpdateSpecs PkgRollback PkgBootstrap.

(** ** An encoding with a proven inverse *)

Class Codec (A : Type) : Type := {
  enc : A -> bytes;
  dec : bytes -> option (A * bytes);
  dec_enc : forall a rest, dec (enc a ++ rest) = Some (a, rest);
}.

Lemma enc_inj {A} `{Codec A} (a b : A) : enc a = enc b -> a = b.
Proof. intros E. pose proof (dec_enc a []) as Ea. rewrite E, dec_enc in Ea. by simplify_eq. Qed.

#[refine] Instance byte_codec : Codec byte :=
  {| enc b := [b]; dec bs := match bs with b :: rest => Some (b, rest) | [] => None end |}.
Proof. done. Defined.

#[refine] Instance bool_codec : Codec bool :=
  {| enc (b : bool) := [if b then x01 else x00];
     dec bs := match bs with x00 :: rest => Some (false, rest) | x01 :: rest => Some (true, rest) | _ => None end |}.
Proof. by intros []. Defined.

#[refine] Instance unit_codec : Codec () := {| enc _ := []; dec bs := Some ((), bs) |}.
Proof. by intros []. Defined.

#[refine] Instance pair_codec {A B} `{Codec A, Codec B} : Codec (A * B) :=
  {| enc '(a, b) := enc a ++ enc b;
     dec bs := '(a, bs) ← dec bs; '(b, bs) ← dec bs; Some ((a, b), bs) |}.
Proof. intros [a b] rest. rewrite <- app_assoc, dec_enc. cbn. by rewrite dec_enc. Defined.

#[refine] Instance option_codec {A} `{Codec A} : Codec (option A) :=
  {| enc o := match o with Some a => x01 :: enc a | None => [x00] end;
     dec bs := match bs with
               | x00 :: rest => Some (None, rest)
               | x01 :: rest => '(a, rest) ← dec rest; Some (Some a, rest)
               | _ => None
               end |}.
Proof. intros [a|] rest; [|done]. cbn. by rewrite dec_enc. Defined.

Fixpoint enc_list {A} `{Codec A} (l : list A) : bytes :=
  match l with [] => [x00] | a :: l => x01 :: enc a ++ enc_list l end.
Fixpoint dec_list {A} `{Codec A} (fuel : nat) (bs : bytes) : option (list A * bytes) :=
  match fuel with
  | O => None
  | S fuel =>
      match bs with
      | x00 :: rest => Some ([], rest)
      | x01 :: rest => '(a, rest) ← dec rest; '(l, rest) ← dec_list fuel rest; Some (a :: l, rest)
      | _ => None
      end
  end.
Lemma dec_enc_list {A} `{Codec A} (l : list A) rest fuel :
  (length l < fuel)%nat -> dec_list fuel (enc_list l ++ rest) = Some (l, rest).
Proof.
  revert fuel. induction l as [|a l IH]; intros [|fuel] Hf; try (cbn in Hf; lia); [done|].
  cbn [enc_list dec_list app]. rewrite <- app_assoc, dec_enc. cbn. rewrite IH by (cbn in Hf; lia). done.
Qed.
Lemma length_enc_list {A} `{Codec A} (l : list A) : (length l < length (enc_list l))%nat.
Proof. induction l as [|a l IH]; cbn; [lia|]. rewrite length_app. lia. Qed.
#[refine] Instance list_codec {A} `{Codec A} : Codec (list A) :=
  {| enc := enc_list; dec bs := dec_list (length bs) bs |}.
Proof. intros l rest. apply dec_enc_list. rewrite length_app. pose proof (length_enc_list l). lia. Defined.

Fixpoint enc_pos (p : positive) : bytes :=
  match p with xH => [x00] | xO p => x01 :: enc_pos p | xI p => x02 :: enc_pos p end.
Fixpoint dec_pos (bs : bytes) : option (positive * bytes) :=
  match bs with
  | x00 :: rest => Some (xH, rest)
  | x01 :: rest => '(p, rest) ← dec_pos rest; Some (xO p, rest)
  | x02 :: rest => '(p, rest) ← dec_pos rest; Some (xI p, rest)
  | _ => None
  end.
#[refine] Instance pos_codec : Codec positive := {| enc := enc_pos; dec := dec_pos |}.
Proof. intros p rest. induction p as [p IH|p IH|]; cbn; rewrite ?IH; done. Defined.

(** A type that is another one under a bijection. *)
Definition iso_codec {A B} `{Codec B} (f : A -> B) (g : B -> A) (Hgf : forall a, g (f a) = a) : Codec A.
Proof.
  refine {| enc a := enc (f a); dec bs := '(b, rest) ← dec bs; Some (g b, rest) |}.
  intros a rest. rewrite dec_enc. cbn. by rewrite Hgf.
Defined.

Definition Z_split (z : Z) : option (bool * positive) :=
  match z with Z0 => None | Zpos p => Some (true, p) | Zneg p => Some (false, p) end.
Definition Z_join (o : option (bool * positive)) : Z :=
  match o with None => 0 | Some (true, p) => Zpos p | Some (false, p) => Zneg p end.
#[refine] Instance Z_codec : Codec Z := iso_codec Z_split Z_join _.
Proof. by intros []. Defined.

(** ** The records, field by field *)

Definition phase_code (p : UpdatePhase) : Z :=
  match p with Staged => 0 | PendingConfirmation => 1 | Confirmed => 2 | UpdateFailed => 3 | RolledBack => 4 end.
Definition phase_of_code (z : Z) : UpdatePhase :=
  if z =? 0 then Staged else if z =? 1 then PendingConfirmation else if z =? 2 then Confirmed
  else if z =? 3 then UpdateFailed else RolledBack.
#[refine] Instance UpdatePhase_codec : Codec UpdatePhase := iso_codec phase_code phase_of_code _.
Proof. by intros []. Defined.
#[refine] Instance ManifestFile_codec : Codec ManifestFile :=
  iso_codec (fun r => (mf_path r, mf_source r, mf_executable r, mf_size r))
    (fun '(a, b, c, d) => mkManifestFile a b c d) _.
Proof. by intros []. Defined.
#[refine] Instance Manifest_codec : Codec Manifest :=
  iso_codec (fun r => (ma_name r, ma_version r, ma_description r, ma_author r, ma_license r, ma_files r, ma_dependencies r, ma_min_waros_version r, ma_category r))
    (fun '(a, b, c, d, e, f, g, h, i) => mkManifest a b c d e f g h i) _.
Proof. by intros []. Defined.
#[refine] Instance WarPackPayload_codec : Codec WarPackPayload :=
  iso_codec (fun r => (pa_source r, pa_contents r))
    (fun '(a, b) => mkPayload a b) _.
Proof. by intros []. Defined.
#[refine] Instance PayloadDigest_codec : Codec PayloadDigest :=
  iso_codec (fun r => (dg_source r, dg_size r, dg_sha3_256 r))
    (fun '(a, b, c) => mkDigest a b c) _.
Proof. by intros []. Defined.
#[refine] Instance SignatureEnvelope_codec : Codec SignatureEnvelope :=
  iso_codec (fun r => (sg_scheme r, sg_key_id r, sg_signature r))
    (fun '(a, b, c) => mkEnvelope a b c) _.
Proof. by intros []. Defined.
#[refine] Instance SignedManifest_codec : Codec SignedManifest :=
  iso_codec (fun r => (sm_manifest r, sm_payloads r, sm_signature r))
    (fun '(a, b, c) => mkSigned a b c) _.
Proof. by intros []. Defined.
#[refine] Instance WarPackBundle_codec : Codec WarPackBundle :=
  iso_codec (fun r => (wb_signed_manifest r, wb_payloads r))
    (fun '(a, b) => mkBundle a b) _.
Proof. by intros []. Defined.
#[refine] Instance CanonicalSignedManifest_codec : Codec CanonicalSignedManifest :=
  iso_codec (fun r => (cm_manifest r, cm_payloads r))
    (fun '(a, b) => mkCanonical a b) _.
Proof. by intros []. Defined.
#[refine] Instance InstalledPackage_codec : Codec InstalledPackage :=
  iso_codec (fun r => (ip_name r, ip_version r, ip_description r, ip_files r, ip_installed_at r, ip_size_bytes r, ip_signed_by r, ip_signature_scheme r))
    (fun '(a, b, c, d, e, f, g, h) => mkInstalled a b c d e f g h) _.
Proof. by intros []. Defined.
#[refine] Instance PackageInfo_codec : Codec PackageInfo :=
  iso_codec (fun r => (pi_name r, pi_version r, pi_description r, pi_size_bytes r, pi_sha256 r, pi_signed_by r, pi_signature_scheme r, pi_dependencies r, pi_download_url r))
    (fun '(a, b, c, d, e, f, g, h, i) => mkInfo a b c d e f g h i) _.
Proof. by intros []. Defined.
#[refine] Instance PackageIndex_codec : Codec PackageIndex :=
  iso_codec (fun r => (ix_packages r, ix_last_updated r))
    (fun '(a, b) => mkIndex a b) _.
Proof. by intros []. Defined.
#[refine] Instance UpdateTransaction_codec : Codec UpdateTransaction :=
  iso_codec (fun r => (ut_package_name r, ut_from_version r, ut_to_version r, ut_source_path r, ut_staged_path r, ut_rollback_path r, ut_phase r, ut_applied_at r, ut_confirmed_at r, ut_boot_started r, ut_boot_observed r, ut_failure_reason r, ut_last_boot_note r))
    (fun '(a, b, c, d, e, f, g, h, i, j, k, l, m) => mkTransaction a b c d e f g h i j k l m) _.
Proof. by intros []. Defined.
#[refine] Instance UpdateState_codec : Codec UpdateState :=
  iso_codec (fun r => (us_schema_version r, us_recovery_requested r, us_recovery_reason r, us_current r))
    (fun '(a, b, c, d) => mkUpdateState a b c d) _.
Proof. by intros []. Defined.
#[refine] Instance RollbackFileRecord_codec : Codec RollbackFileRecord :=
  iso_codec (fun r => (rf_path r, rf_existed r, rf_data r, rf_owner_uid r, rf_permissions_mode r, rf_readonly r, rf_created_at r, rf_modified_at r))
    (fun '(a, b, c, d, e, f, g, h) => mkRollbackFile a b c d e f g h) _.
Proof. by intros []. Defined.
#[refine] Instance RollbackRecord_codec : Codec RollbackRecord :=
  iso_codec (fun r => (rr_package_name r, rr_to_version r, rr_previous_installed r, rr_files r, rr_captured_at r))
    (fun '(a, b, c, d, e) => mkRollback a b c d e) _.
Proof. by intros []. Defined.

(** The encoding as [serde_json]: [from_slice] wants the whole input. *)
Instance codec_json {A} `{Codec A} : Json A :=
  {| to_vec a := Ok (enc a); from_slice bs := match dec bs with Some (a, []) => Ok a | _ => Err () end |}.
Lemma from_enc {A} `{Codec A} (x : A) : from_slice (enc x) = Ok x.
Proof. cbn. rewrite <- (app_nil_r (enc x)). by rewrite dec_enc. Qed.
Lemma to_vec_enc {A} `{Codec A} (x : A) data : to_vec x = Ok data -> data = enc x.
Proof. by intros [= <-]. Qed.
Instance codec_json_ok {A} `{Codec A} : JsonOk A.
Proof. intros x. exists (enc x). split; [done|apply from_enc]. Qed.

(** ** Toy signature schemes *)

(** A scheme in which the signature is the key and the message. *)
Definition open_scheme : MlDsa :=
  {| VerifyingKey := bytes; Signature := bytes; Seed := bytes;
     decode_verifying_key bs := Some bs; encode_verifying_key k := k;
     decode_signature bs := match bs with x01 :: s => Some s | _ => None end; encode_signature s := x01 :: s;
     decode_seed bs := Some bs; verifying_key s := s;
     ml_dsa_sign seed m := seed ++ m; ml_dsa_verify k m s := bool_decide (s = k ++ m) |}.
Lemma open_scheme_ok : @MlDsaOk open_scheme.
Proof. split; try done. intros seed m. by apply bool_decide_eq_true. Qed.

(** A signer that has signed the given messages and no other. *)
Definition closed_scheme (signed : list bytes) : MlDsa :=
  {| VerifyingKey := (); Signature := bytes; Seed := ();
     decode_verifying_key _ := Some (); encode_verifying_key _ := [];
     decode_signature bs := Some bs; encode_signature s := s;
     decode_seed _ := None; verifying_key s := s;
     ml_dsa_sign _ _ := []; ml_dsa_verify _ m _ := bool_decide (m ∈ signed) |}.

(** ** A system with packages *)

Definition demo_ticks (n : nat) : Z := 7.
Definition no_debug (cap : Z) : bytes := [].

Definition demo_bundle (version : string) (files : list (ManifestFile * WarPackPayload)) : WarPackBundle :=
  mkBundle (mkSigned (mkManifest (str "hello") (str version) (str "demo") [] [] (map fst files) [] (str "0.2") (str "docs"))
              (payload_digests toy_sha3 (map snd files))
              (mkEnvelope WARPKG_SIGNATURE_SCHEME WARPKG_BOOTSTRAP_KEY_ID (str "00"))) (map snd files).

Definition hello : bytes := str "/usr/bin/hello".
Definition extra : bytes := str "/usr/bin/extra".
Definition version1 : WarPackBundle := demo_bundle "1" [pkg_text hello (str "hello") true (str "one")].
Definition version2 : WarPackBundle :=
  demo_bundle "2" [pkg_text hello (str "hello") true (str "two"); pkg_text extra (str "extra") false (str "more")].
Definition version3 : WarPackBundle := demo_bundle "3" [pkg_text hello (str "hello") true (str "three")].
(** Its second path has a component that is too long. *)
Definition broken : WarPackBundle :=
  demo_bundle "4" [pkg_text hello (str "hello") true (str "four");
                   pkg_text (str "/usr/bin/" ++ replicate 40 x61) (str "extra") false (str "more")].

Definition demo_message (b : WarPackBundle) : bytes :=
  SIGNING_DOMAIN ++ enc (mkCanonical (sm_manifest (wb_signed_manifest b)) (sm_payloads (wb_signed_manifest b))).
Definition demo_signed : list WarPackBundle := [version1; version2; version3; broken].
Instance demo_scheme : MlDsa := closed_scheme (map demo_message demo_signed).

Definition root_user : UserAccount := mkUser 0 (str "root") [] [] Admin (str "/root") true 0 0.
Definition demo_files : list fs_op :=
  map (fun '(name, b) => FsWrite 1 (str name) (enc b) 0 Admin perm_system false)
      [("/tmp/one", version1); ("/tmp/two", version2); ("/tmp/three", version3); ("/tmp/four", broken)]%string.
Definition demo_world : PkgWorld () :=
  mkPkgWorld (mkMachine (mkKernel (start 0 root_user) (mkUserDB [root_user] 1000)
                           (run_trace demo_files (mkWorld fs_new ())).2 logger_new)
                        (mkExec table_new scheduler_new 0 0) tasks_new)
             (mkManager [] None DEFAULT_REPO_URL) 0.

Abbreviation demo_run := (run_updates demo_ticks no_debug toy_sha3 []).
Abbreviation demo_apply := (apply_bundle_from_path demo_ticks no_debug toy_sha3 []).
Abbreviation demo_rollback := (rollback_current_update demo_ticks no_debug).

(** Version 1 is installed, booted and confirmed. *)
Definition first_update : list update_op := [UApply (str "/tmp/one"); UBoot; UReady; UConfirm].
Definition running1 : PkgWorld () := demo_run first_update demo_world.

Definition contents (w : PkgWorld ()) (path : bytes) : option bytes := fe_data <$> fm w !! path.

Example running1_ok :
  contents running1 hello = Some (str "one") /\ map ip_version (pm_installed (PACKAGE_MANAGER running1)) = [str "1"] /\
  (match ust running1 with Ok st => phase_of st | Err _ => None end) = Some Confirmed.
Proof. vm_compute. done. Qed.

Definition state_phase (w : PkgWorld ()) : option UpdatePhase :=
  match ust w with Ok st => phase_of st | Err _ => None end.
Definition versions (w : PkgWorld ()) : list bytes := map ip_version (pm_installed (PACKAGE_MANAGER w)).

(** Version 1 runs and no update is in progress; the bundle whose second file
    cannot be written is applied. *)
Definition idle1 : PkgWorld () := demo_run [UClear] running1.
Definition half_updated : PkgWorld () := (demo_apply (str "/tmp/four") idle1).2.

(** An apply that fails half-way cannot be undone.  The files before the
    failing one are already replaced, but no transaction is recorded: the list
    of packages still names the old version, the state is idle and asks for no
    recovery, and a rollback is refused although the record of the old files
    has been written. *)
Theorem failed_apply_cannot_be_undone :
  (demo_apply (str "/tmp/four") idle1).1 = Err InstallFailed /\
  contents idle1 hello = Some (str "one") /\ contents half_updated hello = Some (str "four") /\
  versions half_updated = [str "1"] /\ state_phase half_updated = None /\
  should_enter_recovery half_updated = false /\ (demo_rollback half_updated).1 = Err RollbackUnavailable /\
  is_Some (contents half_updated (str "/var/pkg/rollback/hello.json")).
Proof. vm_compute. split_and!; try reflexivity. by eexists. Qed.

(** Version 2 is applied over version 1 and confirmed; version 3 is staged. *)
Definition running2 : PkgWorld () := demo_run [UApply (str "/tmp/two"); UBoot; UReady; UConfirm] running1.
Definition staged3 : PkgWorld () := demo_run [UStage (str "/tmp/three")] running2.

(** Rolling back a staged update reverts an older one.  While an update is
    only staged, [rollback_current_update] does not refuse: it restores the
    record of the previous update of the package, which was confirmed, and
    brings back the version before it. *)
Theorem staged_rollback_reverts_confirmed_update :
  state_phase running2 = Some Confirmed /\ contents running2 hello = Some (str "two") /\ versions running2 = [str "2"] /\
  state_phase staged3 = Some Staged /\ contents staged3 hello = Some (str "two") /\
  is_ok (demo_rollback staged3).1 = true /\
  contents (demo_rollback staged3).2 hello = Some (str "one") /\ versions (demo_rollback staged3).2 = [str "1"].
Proof. vm_compute. done. Qed.

(** ** The theorems on concrete runs *)

Lemma demo_fok : fok demo_world.
Proof. apply (trace_refines demo_files (mkWorld fs_new ()) fs_new_ok). Qed.

(** A path whose canonical form does not start with [/var]. *)
Lemma outside_by_prefix path c : canonical_path path = Ok c -> starts_with c (str "/var") = false -> outside_pkg path.
Proof.
  intros Hc Hs c' cs Hc' _ ->. rewrite Hc in Hc'. by simplify_eq.
Qed.

Lemma demo_trusted : trusted_packages_outside toy_sha3 [].
Proof.
  intros b (Hs & _)%verify_bundle_iff f Hf.
  destruct Hs as (_ & _ & _ & pk & key & sb & sig & json & _ & _ & _ & _ & Hto & Hv).
  cbn [to_vec codec_json] in Hto. injection Hto as <-.
  apply bool_decide_eq_true in Hv. apply list_elem_of_fmap in Hv as (b' & Hb' & Hin).
  unfold demo_message in Hb'. apply app_inv_head in Hb'.
  assert (mkCanonical (sm_manifest (wb_signed_manifest b)) (sm_payloads (wb_signed_manifest b)) =
          mkCanonical (sm_manifest (wb_signed_manifest b')) (sm_payloads (wb_signed_manifest b'))) as Hm.
  { apply enc_inj. exact Hb'. }
  injection Hm as Hm _. rewrite Hm in Hf. clear -Hin Hf.
  assert (forall g, g ∈ [hello; extra] -> outside_pkg g) as Hout.
  { intros g Hg. apply (outside_by_prefix g g); rewrite !elem_of_cons, elem_of_nil in Hg;
      (destruct Hg as [->|[->|[]]]; vm_compute; reflexivity). }
  assert (outside_pkg (str "/usr/bin/" ++ replicate 40 x61)) as Hbad by (by intros c cs ?).
  unfold demo_signed in Hin. rewrite !elem_of_cons, elem_of_nil in Hin.
  destruct_or!; try done; subst b'; cbn [wb_signed_manifest sm_manifest ma_files version1 version2 version3 broken demo_bundle
    map fst pkg_text] in Hf; rewrite !elem_of_cons, elem_of_nil in Hf; destruct_or!; try done; subst f; cbn [mf_path];
    first [exact Hbad|apply Hout; set_solver].
Qed.

Lemma demo_winv : winv demo_world.
Proof.
  split.
  - apply demo_fok.
  - by intros p ?%not_elem_of_nil.
  - intros c e rr (cs & _ & ->) He _. exfalso. unfold fm in He. rewrite abs_lookup in He.
    apply find_first_Some in He as [Hin Hn]. apply name_is_spec in Hn.
    assert (forallb (fun x => negb (starts_with (fe_name x) (str "/var"))) (files (fs (filesystem demo_world))) = true) as Hall
      by (vm_compute; reflexivity).
    rewrite forallb_forall in Hall. specialize (Hall e (proj1 (list_elem_of_In _ _) Hin)). rewrite Hn in Hall.
    apply negb_true_iff, not_true_iff_false in Hall. apply Hall. apply starts_with_true. cbn. by eexists.
  - intros st Hst t Ht. vm_compute in Hst. simplify_eq.
Qed.

Lemma run_ok {S E A} (m : stm S E A) w a : (m w).1 = Ok a -> m w = (Ok a, (m w).2).
Proof. intros E1. by destruct (m w); cbn in *; subst. Qed.

(** An ordinary user tries to manage packages. *)
Definition ana_world : PkgWorld () :=
  mkPkgWorld (mkMachine (mkKernel (start 0 ana) two_users (filesystem demo_world) logger_new)
                        (mkExec table_new scheduler_new 0 0) tasks_new) (PACKAGE_MANAGER demo_world) 0.
Definition no_network (url : bytes) (m : Machine ()) : result () bytes * Machine () := (Err (), m).
Definition ana_commands : list pkg_op := [OpApply (str "/tmp/one"); OpRemove (str "hello"); OpClear].

Lemma pkg_needs_capability_witness :
  filesystem (run_pkg_ops demo_ticks no_debug toy_sha3 toy_sha3 [] no_network ana_commands ana_world).2 = filesystem ana_world.
Proof.
  apply (pkg_needs_capability demo_ticks no_debug toy_sha3 toy_sha3 [] no_network ana_commands ana_world).
  vm_compute. reflexivity.
Defined.

(** Installing version 1 from an index that lists it. *)
Definition info1 : PackageInfo := index_entry toy_sha3 version1 (enc version1).
Definition info1_local : PackageInfo :=
  mkInfo (pi_name info1) (pi_version info1) (pi_description info1) (pi_size_bytes info1) (pi_sha256 info1)
    (pi_signed_by info1) (pi_signature_scheme info1) (pi_dependencies info1) (str "/tmp/one").
Abbreviation demo_install := (install_package demo_ticks toy_sha3 toy_sha3 [] no_network info1_local).

Lemma demo_install_runs :
  is_installed (PACKAGE_MANAGER demo_world) (pi_name info1_local) = false /\
  fetch_package no_network (pi_download_url info1_local) demo_world = (Ok (enc version1), demo_world) /\
  demo_install demo_world = (Ok (), (demo_install demo_world).2).
Proof.
  split; [vm_compute; reflexivity|]. split; [vm_compute; reflexivity|].
  apply run_ok. vm_compute. reflexivity.
Qed.

Lemma installed_files_are_signed_witness :
  exists bundle, from_slice (enc version1) = Ok bundle /\
    signed_contents toy_sha3 bundle (mkManifestFile hello (str "hello") true 3) (fm (demo_install demo_world).2 !! hello).
Proof.
  destruct demo_install_runs as (H1 & H2 & H3).
  destruct (installed_files_are_signed demo_ticks toy_sha3 toy_sha3 [] no_network info1_local (enc version1) demo_world demo_world
              (demo_install demo_world).2 demo_fok H1 H2 H3) as (bundle & ip & Hb & _ & _ & _ & _ & Hfiles).
  exists bundle. split; [exact Hb|].
  assert (bundle = version1) as -> by (rewrite from_enc in Hb; congruence).
  apply (Hfiles [] (mkManifestFile hello (str "hello") true 3) [] hello).
  - reflexivity.
  - vm_compute. reflexivity.
  - intros g Hg. destruct (not_elem_of_nil _ Hg).
  - intros E. discriminate E.
Defined.

Lemma demo_idle : ust demo_world = Ok update_state_default.
Proof. vm_compute. reflexivity. Qed.

Lemma first_update_confirmed st : ust (demo_run first_update demo_world) = Ok st -> phase_of st = Some Confirmed.
Proof. intros E. vm_compute in E. injection E as <-. reflexivity. Qed.

Lemma confirmed_update_has_booted_witness :
  sublist [LApply; LBoot; LReady; LConfirm] (map label_of first_update).
Proof.
  destruct (confirmed_update_has_booted demo_ticks no_debug toy_sha3 [] demo_trusted first_update demo_world update_state_default
              demo_winv demo_idle eq_refl) as (st' & Hst & Hsub).
  exact (Hsub (first_update_confirmed st' Hst)).
Defined.

Lemma demo_run_winv ops : winv (demo_run ops demo_world).
Proof.
  destruct (update_history demo_ticks no_debug toy_sha3 [] demo_trusted ops demo_world update_state_default demo_winv demo_idle)
    as (ls & st & _ & _ & _ & Hw). exact Hw.
Qed.

Definition stored (w : PkgWorld ()) : UpdateState := match ust w with Ok st => st | Err _ => update_state_default end.
Lemma stored_ok w : is_ok (ust w) = true -> ust w = Ok (stored w).
Proof. unfold stored. by destruct (ust w). Qed.

(** Version 2 is applied and boots twice without reaching the shell. *)
Definition lost_update : list update_op := [UApply (str "/tmp/two"); UBoot; UBoot].
Abbreviation failed2 := (demo_run lost_update demo_world).
Definition excuses : list update_op := [UClear; UResume; UConfirm; UBoot; UApply (str "/tmp/three")].

Lemma failed2_facts :
  ust failed2 = Ok (stored failed2) /\ phase_of (stored failed2) = Some UpdateFailed /\
  us_recovery_requested (stored failed2) = true /\ URollback ∉ excuses.
Proof.
  split; [apply stored_ok; vm_compute; reflexivity|]. split; [vm_compute; reflexivity|]. split; [vm_compute; reflexivity|].
  unfold excuses. rewrite !elem_of_cons, elem_of_nil. naive_solver.
Qed.


(** Version 2 is applied, boots, reaches the shell, and is not confirmed. *)
Definition applied2 : list update_op := [UApply (str "/tmp/two")].
Abbreviation pending2 := (demo_run applied2 demo_world).

Definition fits_check (w : PkgWorld ()) (st : UpdateState) : bool :=
  (blen (enc st) <=? MAX_FILE_SIZE) && (used_space (fs (filesystem w)) + blen (enc st) <=? TOTAL_CAPACITY)
  && match find (fs (filesystem w)) UPDATE_STATE_PATH with Some e => negb (fe_readonly e) | None => false end.
Lemma fits_check_ok w st : fok w -> fits_check w st = true -> fits w st.
Proof.
  unfold fits_check. intros Hw Hc. apply andb_true_iff in Hc as [Hc He]. apply andb_true_iff in Hc as [Hm Ht].
  destruct (find _ _) as [e|] eqn:Ef; [|done]. apply negb_true_iff in He. exists (enc st), e.
  rewrite <- abs_lookup in Ef. pose proof (map_used_delete (fm w) UPDATE_STATE_PATH) as Hd.
  unfold fm in *. rewrite (map_used_abs _ Hw) in Hd. split_and!; [done|lia|lia|done|done].
Qed.

Lemma pending2_facts :
  let st1 := (boot_state (stored pending2)).1.1 in
  ust pending2 = Ok (stored pending2) /\ phase_of (stored pending2) = Some PendingConfirmation /\
  Forall (fits pending2) [st1; ready_state st1; (boot_state (ready_state st1)).1.1].
Proof.
  split; [apply stored_ok; vm_compute; reflexivity|]. split; [vm_compute; reflexivity|].
  rewrite !Forall_cons. split_and!; [..|done];
    (apply fits_check_ok; [apply (wi_fs _ (demo_run_winv applied2))|vm_compute; reflexivity]).
Qed.


(** Version 2 over version 1: it boots, reaches the shell, is not confirmed, and
    is rolled back. *)
Abbreviation before := (demo_run first_update demo_world).
Abbreviation after := (demo_apply (str "/tmp/two") before).2.
Definition mishap : list update_op := [UBoot; UReady; UBoot].
Abbreviation doomed := (demo_run mishap after).
Definition transaction_of (st : UpdateState) : UpdateTransaction :=
  default (rolled_back_transaction 0 (staged_transaction (sm_manifest (wb_signed_manifest version1)) None [] [])) (us_current st).
Definition record_of (w : PkgWorld ()) (path : bytes) : RollbackRecord :=
  match (load_rollback_record path w).1 with Ok rr => rr | Err _ => mkRollback [] [] None [] 0 end.
Definition applied_of (r : result PkgError UpdateTransaction) : UpdateTransaction :=
  match r with Ok t => t | Err _ => transaction_of update_state_default end.

Lemma owner_check (w : PkgWorld ()) :
  forallb (fun e => perm_owner_uid (fe_permissions e) =? fe_owner_uid e) (files (fs (filesystem w))) = true ->
  owner_consistent (fm w).
Proof.
  intros Hall c e He. unfold fm in He. rewrite abs_lookup in He. apply find_first_Some in He as [Hin _].
  rewrite forallb_forall in Hall. apply Z.eqb_eq, Hall. by apply list_elem_of_In.
Qed.

Lemma room_check (w : PkgWorld ()) st t rr limit : fok w ->
  (0 <=? limit) && (limit <=? MAX_FILE_SIZE)
  && (used_space (fs (filesystem w)) + sumZ (map (fun r => blen (rf_data r)) (rr_files rr)) + 2 * limit <=? TOTAL_CAPACITY)
  && (blen (files (fs (filesystem w))) + blen (rr_files rr) <=? MAX_FILES)
  && (blen (enc (installed_after rr (PACKAGE_MANAGER w))) <=? limit)
  && (blen (enc (rolled_back_state 7 t st)) <=? limit) = true ->
  rollback_room demo_ticks w st t rr limit.
Proof.
  intros Hw Hc. rewrite !andb_true_iff in Hc. destruct Hc as (((((H1 & H2) & H3) & H4) & H5) & H6).
  unfold rollback_room, fm. rewrite (map_used_abs _ Hw), (size_abs _ Hw). split_and!; try lia.
  - intros data ->%to_vec_enc. lia.
  - intros k data ->%to_vec_enc. unfold demo_ticks. lia.
Qed.

Lemma load_record_run path (w : PkgWorld ()) :
  is_ok (load_rollback_record path w).1 = true -> load_rollback_record path w = (Ok (record_of w path), w).
Proof.
  unfold record_of, load_rollback_record, read_file, lift_result, mbind, stm_bind.
  destruct (map_err _ (read _ path)); [|done]. by destruct (map_err _ (from_slice _)).
Qed.

Lemma doomed_facts :
  owner_consistent (fm before) /\
  demo_apply (str "/tmp/two") before = (Ok (applied_of (demo_apply (str "/tmp/two") before).1), after) /\
  Forall unsettled_event mishap /\
  ust doomed = Ok (stored doomed) /\ us_current (stored doomed) = Some (transaction_of (stored doomed)) /\
  load_rollback_record (ut_rollback_path (transaction_of (stored doomed))) doomed
    = (Ok (record_of doomed (ut_rollback_path (transaction_of (stored doomed)))), doomed).
Proof.
  split; [apply owner_check; vm_compute; reflexivity|].
  split; [apply run_ok; vm_compute; reflexivity|]. split; [by repeat constructor|].
  split; [apply stored_ok; vm_compute; reflexivity|]. split; [vm_compute; reflexivity|].
  apply load_record_run. vm_compute. reflexivity.
Qed.

Lemma run_app ops ops' w : demo_run (ops ++ ops') w = demo_run ops' (demo_run ops w).
Proof. apply fold_left_app. Qed.
Lemma run_apply path ops w : demo_run (UApply path :: ops) w = demo_run ops (demo_apply path w).2.
Proof.
  unfold run_updates. cbn [fold_left run_update_op]. unfold discard, mbind, stm_bind.
  by destruct (demo_apply path w) as [[|] ?].
Qed.

Lemma after_winv w path ops : (forall ops, winv (demo_run ops w)) -> winv (demo_run ops (demo_apply path w).2).
Proof. intros Hw. rewrite <- run_apply. apply Hw. Qed.

Lemma doomed_winv : winv doomed.
Proof. apply after_winv. intros ops. rewrite <- run_app. apply demo_run_winv. Qed.

Lemma doomed_room :
  rollback_room demo_ticks doomed (stored doomed) (transaction_of (stored doomed))
    (record_of doomed (ut_rollback_path (transaction_of (stored doomed)))) 4096.
Proof.
  apply room_check; [|vm_compute; reflexivity]. apply (wi_fs _ doomed_winv).
Qed.

Lemma hello_outside cs : Forall valid_component cs -> hello <> pkg_file cs.
Proof. intros _ E. discriminate E. Qed.


(** The first boot seeds the repository. *)
Definition demo_texts : Includes := mkIncludes (str "bell") (str "ghz5") (str "grover2") (str "qft4") (fun _ => str "00").
Abbreviation demo_init := (pkg_init toy_sha3 toy_sha3 (str "0.2.0") demo_texts demo_ticks).

Lemma demo_init_runs : demo_init demo_world = (Ok (), (demo_init demo_world).2).
Proof. apply run_ok. vm_compute. reflexivity. Qed.

Lemma seeded_repository_consistent_witness :
  exists index, pm_index (PACKAGE_MANAGER (demo_init demo_world).2) = Some index.
Proof.
  destruct (seeded_repository_consistent toy_sha3 toy_sha3 [] (str "0.2.0") demo_texts demo_ticks no_network demo_world
              (demo_init demo_world).2 demo_fok demo_init_runs) as (index & Hi & _).
  exists index. exact Hi.
Defined.

(** Signing version 2 with a seed, and verifying it. *)
Lemma version2_payloads :
  NoDup (map pa_source (wb_payloads version2)) /\
  files_of_payloads (sm_manifest (wb_signed_manifest version2)) (wb_payloads version2).
Proof.
  split.
  - apply (bool_decide_eq_true_1 (NoDup _)). vm_compute. reflexivity.
  - intros f Hf. cbn in Hf. rewrite !elem_of_cons, elem_of_nil in Hf. destruct Hf as [->|[->|[]]].
    + exists (mkPayload (str "hello") (str "two")). split; [by left|done].
    + exists (mkPayload (str "extra") (str "more")). split; [by right; left|done].
Qed.

Lemma signed_bundle_accepted_witness :
  exists envelope, @verify_bundle toy_sha3 _ open_scheme
    (built_bundle toy_sha3 (sm_manifest (wb_signed_manifest version2)) (wb_payloads version2) envelope)
    (mkRoot (str "key") WARPKG_SIGNATURE_SCHEME (hex_encode [x05])) = Ok ().
Proof.
  destruct version2_payloads as [H1 H2].
  destruct (@signed_bundle_accepted toy_sha3 _ _ open_scheme open_scheme_ok (sm_manifest (wb_signed_manifest version2))
              (wb_payloads version2) (str "key") (str "05") [x05] [x05] eq_refl eq_refl H1 H2) as (envelope & _ & Hv).
  exists envelope. exact Hv.
Defined.
