(* ===== verification/RustParse.v ===== *)
(** * Searching text and reading numbers

    The functions of Rust's standard library that the network sources use on
    strings and slices: [windows(n).position(..)], [split_once], [rsplit_once],
    [str::parse] and [from_str_radix] for unsigned integers. *)
From S2P Require Import Prelude RustStr.

(** ** Searching *)

(** The first position of [pat] in [s]: [s.find(pat)], and
    [s.windows(pat.len()).position(|w| w == pat)] for a non-empty [pat]. *)
Fixpoint find_sub (pat s : bytes) : option nat :=
  if starts_with s pat then Some O
  else match s with
       | [] => None
       | _ :: s' => S <$> find_sub pat s'
       end.

Definition split_once (pat s : bytes) : option (bytes * bytes) :=
  i ← find_sub pat s; Some (take i s, drop (i + length pat) s).
Definition rsplit_once (c : byte) (s : bytes) : option (bytes * bytes) :=
  i ← rfind c s; Some (take i s, drop (S i) s).

(** ** Numbers *)

Definition to_digit (radix : Z) (b : byte) : option Z :=
  let v := bval b in
  let d := if (48 <=? v) && (v <=? 57) then v - 48
           else if (97 <=? v) && (v <=? 122) then v - 87
           else if (65 <=? v) && (v <=? 90) then v - 55
           else radix in
  if d <? radix then Some d else None.

Fixpoint parse_digits (radix max : Z) (s : bytes) (acc : Z) : option Z :=
  match s with
  | [] => Some acc
  | b :: s' =>
      d ← to_digit radix b;
      let acc' := acc * radix + d in
      if max <? acc' then None else parse_digits radix max s' acc'
  end.

(** [from_str_radix] of an unsigned type with largest value [max]: one plus sign
    may precede the digits. *)
Definition parse_uint (radix max : Z) (s : bytes) : option Z :=
  match s with
  | [] => None
  | b :: s' =>
      if bool_decide (b = x2b) then match s' with [] => None | _ => parse_digits radix max s' 0 end
      else parse_digits radix max s 0
  end.

(** Text of a number in a radix up to 16, most significant digit first. *)
Definition digit_char (d : Z) : byte := bofZ (if d <? 10 then 48 + d else 87 + d).
Fixpoint radix_digits (radix : Z) (fuel : nat) (n : Z) (acc : bytes) : bytes :=
  match fuel with
  | O => acc
  | S fuel' =>
      let acc' := digit_char (n mod radix) :: acc in
      if n <? radix then acc' else radix_digits radix fuel' (n / radix) acc'
  end.

(** ** Lemmas on searching *)

Lemma find_sub_Some pat s i :
  find_sub pat s = Some i -> exists r, s = take i s ++ pat ++ r /\ (i <= length s)%nat.
Proof.
  revert i. induction s as [|b s IH]; intros i E; cbn [find_sub] in E.
  - destruct (starts_with [] pat) eqn:Hs; [|done]. simplify_eq.
    apply starts_with_true in Hs as [r Hr]. exists r. split; [done|lia].
  - destruct (starts_with (b :: s) pat) eqn:Hs.
    + simplify_eq. apply starts_with_true in Hs as [r Hr]. exists r. split; [done|lia].
    + apply fmap_Some in E as (j & Hj & ->). destruct (IH j Hj) as (r & Hr & Hle).
      exists r. cbn [take length]. split; [|lia]. cbn [app]. by rewrite <- Hr.
Qed.

Lemma find_sub_short pat s : (length s < length pat)%nat -> find_sub pat s = None.
Proof.
  induction s as [|b s IH]; intros Hl; cbn [find_sub];
    (destruct (starts_with _ pat) eqn:Hs;
     [apply starts_with_true in Hs as [r Hr]; apply (f_equal length) in Hr; rewrite length_app in Hr; cbn in *; lia|]);
    [done|]. cbn in Hl. rewrite IH by lia. done.
Qed.

Lemma find_sub_here pat r : find_sub pat (pat ++ r) = Some O.
Proof. destruct (pat ++ r) eqn:E; cbn [find_sub]; rewrite <- E; by rewrite starts_with_app. Qed.

(** A byte of the pattern that does not occur before it fixes the position. *)
Lemma find_sub_after c pat s r :
  c ∉ s -> find_sub (c :: pat) (s ++ c :: pat ++ r) = Some (length s).
Proof.
  induction s as [|b s IH]; intros Hc.
  - apply (find_sub_here (c :: pat)).
  - apply not_elem_of_cons in Hc as [Hb Hc]. cbn [app find_sub].
    assert (starts_with (b :: s ++ c :: pat ++ r) (c :: pat) = false) as ->.
    { destruct (starts_with _ _) eqn:Hs; [|done]. apply starts_with_true in Hs as [r' Hr]. cbn in Hr. by simplify_eq. }
    by rewrite IH.
Qed.

Lemma find_sub_absent c pat s : c ∉ s -> find_sub (c :: pat) s = None.
Proof.
  induction s as [|b s IH]; intros Hc; [done|]. apply not_elem_of_cons in Hc as [Hb Hc]. cbn [find_sub].
  destruct (starts_with _ _) eqn:Hs; [apply starts_with_true in Hs as [r' Hr]; cbn in Hr; by simplify_eq|].
  by rewrite IH.
Qed.

Lemma split_once_after c pat s r :
  c ∉ s -> split_once (c :: pat) (s ++ c :: pat ++ r) = Some (s, r).
Proof.
  intros Hc. unfold split_once. rewrite find_sub_after by done. cbn [mbind option_bind].
  rewrite take_app_length. f_equal. f_equal.
  change (s ++ c :: pat ++ r) with (s ++ (c :: pat) ++ r). by rewrite app_assoc, <- length_app, drop_app_length.
Qed.

Lemma rfind_after c s r : c ∉ r -> rfind c (s ++ c :: r) = Some (length s).
Proof.
  intros Hr. induction s as [|b s IH]; cbn [app rfind length].
  - assert (rfind c r = None) as ->.
    { clear -Hr. induction r as [|x r IH]; [done|]. apply not_elem_of_cons in Hr as [Hx Hr]. cbn [rfind].
      by rewrite IH, bool_decide_false by done. }
    by rewrite bool_decide_true.
  - by rewrite IH.
Qed.

Lemma rfind_absent c s : c ∉ s -> rfind c s = None.
Proof.
  induction s as [|x s IH]; [done|]. intros Hc. apply not_elem_of_cons in Hc as [Hx Hc]. cbn [rfind].
  by rewrite IH, bool_decide_false by done.
Qed.

Lemma rsplit_once_after c s r : c ∉ r -> rsplit_once c (s ++ c :: r) = Some (s, r).
Proof.
  intros Hr. unfold rsplit_once. rewrite rfind_after by done. cbn [mbind option_bind].
  rewrite take_app_length. change (c :: r) with ([c] ++ r). rewrite app_assoc.
  by rewrite drop_app_length' by (rewrite length_app; cbn; lia).
Qed.

(** ** Numbers are read back *)

Lemma digit_char_val d : 0 <= d < 16 -> bval (digit_char d) = if d <? 10 then 48 + d else 87 + d.
Proof. intros Hd. unfold digit_char. rewrite bval_bofZ. apply Z.mod_small. destruct (d <? 10) eqn:E; lia. Qed.

Lemma to_digit_char radix d : 0 <= d < radix -> radix <= 16 -> to_digit radix (digit_char d) = Some d.
Proof.
  intros Hd Hr. unfold to_digit. rewrite digit_char_val by lia.
  destruct (d <? 10) eqn:E.
  - replace ((48 <=? 48 + d) && (48 + d <=? 57)) with true by lia. by rewrite Z.add_simpl_l, (proj2 (Z.ltb_lt _ _)) by lia.
  - replace ((48 <=? 87 + d) && (87 + d <=? 57)) with false by lia.
    replace ((97 <=? 87 + d) && (87 + d <=? 122)) with true by lia.
    by rewrite Z.add_simpl_l, (proj2 (Z.ltb_lt _ _)) by lia.
Qed.

Section radix.
Context (radix max : Z) (Hradix : 2 <= radix <= 16).

Lemma parse_radix_digits fuel n s :
  0 <= n <= max -> n < radix ^ Z.of_nat fuel ->
  parse_digits radix max (radix_digits radix fuel n s) 0 = parse_digits radix max s n.
Proof.
  revert n s. induction fuel as [|fuel IH]; intros n s Hn Hf.
  - change (radix ^ Z.of_nat 0) with 1 in Hf. cbn [radix_digits]. by replace n with 0 by lia.
  - cbn [radix_digits]. rewrite Nat2Z.inj_succ, Z.pow_succ_r in Hf by lia.
    pose proof (Z.mod_pos_bound n radix ltac:(lia)). pose proof (Z.div_mod n radix ltac:(lia)) as Hdm.
    destruct (n <? radix) eqn:E.
    + cbn [parse_digits]. rewrite to_digit_char by lia. cbn [mbind option_bind].
      rewrite Z.mod_small by lia. replace (0 * radix + n) with n by lia.
      by rewrite (proj2 (Z.ltb_ge max n)) by lia.
    + assert (0 <= n / radix <= n) by (split; [apply Z.div_pos; lia|apply Z.div_le_upper_bound; nia]).
      rewrite IH; [|lia|apply Z.div_lt_upper_bound; lia].
      cbn [parse_digits]. rewrite to_digit_char by lia. cbn [mbind option_bind].
      replace (n / radix * radix + n mod radix) with n by lia.
      by rewrite (proj2 (Z.ltb_ge max n)) by lia.
Qed.

Lemma radix_digits_spec fuel n s :
  0 <= n -> (0 < fuel)%nat ->
  exists p, radix_digits radix fuel n s = p ++ s /\ p <> [] /\
    Forall (fun b => exists d, 0 <= d < radix /\ b = digit_char d) p.
Proof.
  revert n s. induction fuel as [|fuel IH]; intros n s Hn Hf; [lia|]. cbn [radix_digits].
  pose proof (Z.mod_pos_bound n radix ltac:(lia)).
  assert (Forall (fun b => exists d, 0 <= d < radix /\ b = digit_char d) [digit_char (n mod radix)]) as Hone
    by (constructor; [by eexists|constructor]).
  destruct (n <? radix) eqn:E; [by exists [digit_char (n mod radix)]|].
  destruct fuel as [|fuel]; [by exists [digit_char (n mod radix)]|].
  destruct (IH (n / radix) (digit_char (n mod radix) :: s)) as (p & -> & Hp & Hall); [apply Z.div_pos; lia|lia|].
  exists (p ++ [digit_char (n mod radix)]). split_and!.
  - by rewrite <- app_assoc.
  - by intros [? ?]%app_nil.
  - by apply Forall_app.
Qed.

Lemma digit_char_not_plus d : 0 <= d < 16 -> digit_char d <> x2b.
Proof. intros Hd E. apply (f_equal bval) in E. rewrite digit_char_val in E by done. change (bval x2b) with 43 in E. destruct (d <? 10) eqn:?; lia. Qed.

Lemma parse_uint_digits fuel n :
  0 <= n <= max -> (0 < fuel)%nat -> n < radix ^ Z.of_nat fuel ->
  parse_uint radix max (radix_digits radix fuel n []) = Some n.
Proof.
  intros Hn Hf Hlt. pose proof (parse_radix_digits fuel n [] Hn Hlt) as Hparse.
  destruct (radix_digits_spec fuel n [] ltac:(lia) Hf) as (p & Hp & Hne & Hall).
  rewrite app_nil_r in Hp. rewrite Hp in Hparse |- *. destruct p as [|b p]; [done|].
  apply Forall_cons in Hall as [(d & Hd & ->) _]. unfold parse_uint.
  rewrite bool_decide_false by (apply digit_char_not_plus; lia). exact Hparse.
Qed.
End radix.

Lemma digits_radix fuel n s : digits fuel n s = radix_digits 10 fuel n s.
Proof.
  revert n s. induction fuel as [|fuel IH]; intros n s; [done|]. cbn [digits radix_digits].
  assert (bofZ (48 + n mod 10) = digit_char (n mod 10)) as ->.
  { unfold digit_char. pose proof (Z.mod_pos_bound n 10 ltac:(lia)). by rewrite (proj2 (Z.ltb_lt _ _)) by lia. }
  by rewrite IH.
Qed.

(** [n.to_string().parse()] gives [n] back. *)
Lemma parse_decimal max n : 0 <= n <= max -> n < 10 ^ 20 -> parse_uint 10 max (decimal n) = Some n.
Proof. intros Hn Hlt. unfold decimal. rewrite digits_radix. by apply parse_uint_digits; try lia. Qed.

(** ** Printing characters *)

Definition is_digit (b : byte) : bool := (48 <=? bval b) && (bval b <=? 57).
(** A printing ASCII character, the blank excluded. *)
Definition inert (b : byte) : bool := (33 <=? bval b) && (bval b <=? 126).
(** Text that starts and ends with such a character. *)
Definition tight (s : bytes) : bool :=
  match s with b :: _ => inert b && match last s with Some c => inert c | None => false end | [] => false end.

Lemma inert_heads b : inert b = true ->
  heads_none whitespace_encodings b = true /\ heads_none (map reverse whitespace_encodings) b = true.
Proof. destruct b; vm_compute; done. Qed.
Lemma inert_not_space b s : inert b = true -> encoding_len whitespace_encodings (b :: s) = O.
Proof. intros Hb. by apply encoding_len_0, inert_heads. Qed.
Lemma trim_tight s : tight s = true -> trim s = s.
Proof.
  unfold tight. destruct s as [|b s]; [done|]. intros [Hb Hl]%andb_prop. destruct (last (b :: s)) as [c|] eqn:E; [|done].
  apply (trim_id b s c); [by apply inert_heads|by apply inert_heads|done].
Qed.
Lemma tight_app b s c : inert b = true -> inert c = true -> tight (b :: s ++ [c]) = true.
Proof. intros Hb Hc. unfold tight. rewrite Hb, app_comm_cons, last_snoc. by rewrite Hc. Qed.
Lemma trim_blank s : trim (x20 :: s) = trim s.
Proof. reflexivity. Qed.

Lemma decimal_spec n : 0 <= n -> decimal n <> [] /\ Forall (fun b => is_digit b = true) (decimal n).
Proof.
  intros Hn. unfold decimal. rewrite digits_radix.
  destruct (radix_digits_spec 10 ltac:(lia) 20 n [] Hn ltac:(lia)) as (p & Hp & Hne & Hall).
  rewrite app_nil_r in Hp. rewrite Hp. split; [done|]. eapply Forall_impl; [exact Hall|].
  intros b (d & Hd & ->). unfold is_digit. rewrite digit_char_val by lia. rewrite (proj2 (Z.ltb_lt d 10)) by lia. lia.
Qed.
Lemma digit_inert b : is_digit b = true -> inert b = true.
Proof. unfold is_digit, inert. lia. Qed.
(** Text of digits has none of the characters the parser looks for. *)
Lemma digits_avoid c s : is_digit c = false -> Forall (fun b => is_digit b = true) s -> c ∉ s.
Proof. intros Hc Hs Hin. pose proof (Forall_elem _ _ _ Hs Hin). congruence. Qed.
Lemma inert_tight s : s <> [] -> Forall (fun b => inert b = true) s -> tight s = true.
Proof.
  intros Hne Hs. unfold tight. destruct s as [|b s]; [done|]. rewrite (Forall_elem _ _ b Hs) by by left.
  destruct (last (b :: s)) as [c|] eqn:E; [|by apply last_None in E]. cbn.
  apply (Forall_elem _ _ c Hs). apply last_Some in E as [l ->]. apply elem_of_app. right. by left.
Qed.
Lemma digits_tight s : s <> [] -> Forall (fun b => is_digit b = true) s -> tight s = true.
Proof. intros Hne Hs. apply inert_tight; [done|]. eapply Forall_impl; [exact Hs|]. apply digit_inert. Qed.

Lemma find_byte_after c s r : c ∉ s -> find_sub [c] (s ++ c :: r) = Some (length s).
Proof. apply (find_sub_after c []). Qed.

Lemma tight_span a m b : tight a = true -> tight b = true -> tight (a ++ m ++ b) = true.
Proof.
  unfold tight. destruct a as [|x a]; [done|]. intros [Hx _]%andb_prop Hb. cbn [app]. rewrite Hx. cbn [andb].
  destruct b as [|y b]; [done|]. apply andb_prop in Hb as [_ Hl]. rewrite app_comm_cons, app_assoc, last_app_cons. done.
Qed.
Lemma trim_blank_end s : tight s = true -> trim (s ++ [x20]) = s.
Proof.
  unfold tight. destruct s as [|b s]; [done|]. intros [Hb Hl]%andb_prop. destruct (last (b :: s)) as [c|] eqn:E; [|done].
  apply last_Some in E as [l E]. unfold trim, trim_start. cbn [app]. rewrite drop_encodings_id by by apply inert_heads.
  rewrite app_comm_cons, E. unfold trim_end. rewrite !reverse_snoc.
  change (drop_encodings (map reverse whitespace_encodings) 0 (x20 :: c :: reverse l))
    with (drop_encodings (map reverse whitespace_encodings) 0 (c :: reverse l)).
  rewrite drop_encodings_id by by apply inert_heads. by rewrite reverse_cons, reverse_involutive.
Qed.
