(* ===== verification/SerialLink.v ===== *)
(** * The serial link (kernel/src/net/serial.rs)

    Messages are framed with a magic number, a type, a length and a CRC and go
    over a serial port.  [SerialWorld] is the interface with its receive
    buffer, the bytes the port has received and not handed out, and the bytes
    written to it; the busy-wait of [write_byte] for an empty transmitter is
    left out.  The theorems: messages arrive in order, however the bytes are
    cut, and a burst of errors within two bytes of a payload is detected. *)
From S2P Require Import Prelude RustStr RustParse.

(** ** Data *)

Inductive NetError : Type :=
  | NetPayloadTooLarge | NetInvalidFrame | NetNotInitialized | NetFrameTooShort
  | NetUnsupportedDevice (reason : bytes) | NetInitializationFailed (reason : bytes)
  | NetOutOfMemory | NetQueueFull | NetNoHardware | NetProtocolError (message : bytes).

Inductive MessageType : Type := Ping | Pong | CircuitData | MeasurementResult | Text.
#[global] Instance MessageType_eq_dec : EqDecision MessageType.
Proof. solve_decision. Defined.

(** [msg_type as u8]. *)
Definition type_byte (t : MessageType) : byte :=
  match t with Ping => x01 | Pong => x02 | CircuitData => x10 | MeasurementResult => x11 | Text => x20 end.
Definition message_type_of (value : byte) : result NetError MessageType :=
  match value with
  | x01 => Ok Ping | x02 => Ok Pong | x10 => Ok CircuitData | x11 => Ok MeasurementResult | x20 => Ok Text
  | _ => Err NetInvalidFrame
  end.

Record Message : Type := mkMessage { msg_type : MessageType; payload : bytes }.
Record NetInterface : Type := mkInterface { serial_port : Z; rx_buffer : bytes; initialized : bool }.
Record SerialWorld : Type := mkSerial { iface : NetInterface; line_in : bytes; line_out : bytes }.

Definition MAGIC : bytes := str "WNET".

Definition net_interface_new (port : Z) : NetInterface := mkInterface port [] false.
Definition init_interface (i : NetInterface) : NetInterface := mkInterface (serial_port i) (rx_buffer i) true.
Definition set_rx_buffer (b : bytes) (w : SerialWorld) : SerialWorld :=
  mkSerial (mkInterface (serial_port (iface w)) b (initialized (iface w))) (line_in w) (line_out w).

(** ** Checksum *)

Definition crc16_bit (crc : Z) : Z :=
  if Z.land crc 1 =? 1 then Z.lxor (Z.shiftr crc 1) 0xA001 else Z.shiftr crc 1.
Definition crc16_byte (crc : Z) (b : byte) : Z := Nat.iter 8 crc16_bit (Z.lxor crc (bval b)).
Definition crc16 (msg_type : byte) (length : Z) (payload : bytes) : Z :=
  let crc := 0xFFFF in
  let crc := crc16_byte crc msg_type in
  let crc := crc16_byte crc (bofZ (Z.land length 0xFF)) in
  let crc := crc16_byte crc (bofZ (Z.shiftr length 8)) in
  fold_left crc16_byte payload crc.

(** ** Sending and receiving *)

Abbreviation sst A := (stm SerialWorld NetError A).

Definition write_byte (b : byte) : sst () :=
  modify (fun w => mkSerial (iface w) (line_in w) (line_out w ++ [b])).
Definition write_bytes (bs : bytes) : sst () := foldM (fun b _ => write_byte b) bs ().

Definition serial_send (t : MessageType) (payload : bytes) : sst () :=
  ready ← gets (fun w => initialized (iface w));
  if negb ready then throw NetNotInitialized
  else if u16_max <? blen payload then throw NetPayloadTooLarge
  else
    let length := blen payload in
    let checksum := crc16 (type_byte t) length payload in
    _ ← write_bytes MAGIC;
    _ ← write_byte (type_byte t);
    _ ← write_byte (bofZ (Z.land length 0xFF));
    _ ← write_byte (bofZ (Z.shiftr length 8));
    _ ← write_bytes payload;
    _ ← write_byte (bofZ (Z.land checksum 0xFF));
    write_byte (bofZ (Z.shiftr checksum 8)).

(** The loop of [receive] over [read_byte] takes what the port has. *)
Definition read_line (w : SerialWorld) : SerialWorld :=
  set_rx_buffer (rx_buffer (iface w) ++ line_in w) (mkSerial (iface w) [] (line_out w)).

Definition serial_receive (w : SerialWorld) : option Message * SerialWorld :=
  let w := read_line w in
  match find_sub MAGIC (rx_buffer (iface w)) with
  | None => (None, w)
  | Some start =>
      let buf := drop start (rx_buffer (iface w)) in
      let w := set_rx_buffer buf w in
      if blen buf <? 9 then (None, w)
      else
        let byte_at i := nth i buf x00 in
        let length := Z.lor (bval (byte_at 5%nat)) (Z.shiftl (bval (byte_at 6%nat)) 8) in
        let frame_len := 4 + 1 + 2 + length + 2 in
        if blen buf <? frame_len then (None, w)
        else
          let payload := field 7 (Z.to_nat length) buf in
          let checksum_offset := (7 + Z.to_nat length)%nat in
          let checksum := Z.lor (bval (byte_at checksum_offset)) (Z.shiftl (bval (byte_at (S checksum_offset))) 8) in
          let w := set_rx_buffer (drop (Z.to_nat frame_len) buf) w in
          match message_type_of (byte_at 4%nat) with
          | Err _ => (None, w)
          | Ok kind =>
              if negb (checksum =? crc16 (byte_at 4%nat) length payload) then (None, w)
              else
                let w := if bool_decide (kind = Ping) then (serial_send Pong (str "pong") w).2 else w in
                (Some (mkMessage kind payload), w)
          end
  end.

Definition send_circuit (qasm : bytes) : sst () := serial_send CircuitData qasm.
Definition send_text (text : bytes) : sst () := serial_send Text text.
Definition serial_status (i : NetInterface) : bytes :=
  if initialized i then str "COM2 active" else str "COM2 offline".

(** ** What goes over the line *)

Definition u16_le (n : Z) : bytes := [bofZ (Z.land n 0xFF); bofZ (Z.shiftr n 8)].

(** A frame with any type byte and any checksum. *)
Definition raw_frame (t : byte) (payload : bytes) (checksum : Z) : bytes :=
  MAGIC ++ [t] ++ u16_le (blen payload) ++ payload ++ u16_le checksum.
Definition frame (m : Message) : bytes :=
  raw_frame (type_byte (msg_type m)) (payload m) (crc16 (type_byte (msg_type m)) (blen (payload m)) (payload m)).
Definition sendable (m : Message) : Prop := blen (payload m) <= u16_max.
Definition unread (w : SerialWorld) : bytes := rx_buffer (iface w) ++ line_in w.


Lemma u16_le_val n : 0 <= n < 2 ^ 16 -> exists a b, u16_le n = [a; b] /\ Z.lor (bval a) (Z.shiftl (bval b) 8) = n.
Proof.
  intros Hn. unfold u16_le. eexists _, _. split; [reflexivity|].
  rewrite lor_shiftl_8 by apply bval_range. rewrite land_255, Z.shiftr_div_pow2, !bval_bofZ, Z.mod_mod by lia.
  rewrite (Z.mod_small (n / 2 ^ 8)) by (split; [apply Z.div_pos; lia|apply Z.div_lt_upper_bound; lia]).
  change (2 ^ 8) with 256. pose proof (Z.div_mod n 256). lia.
Qed.

Lemma write_bytes_run bs w :
  write_bytes bs w = (Ok (), mkSerial (iface w) (line_in w) (line_out w ++ bs)).
Proof.
  revert w. induction bs as [|b bs IH]; intros w; [rewrite app_nil_r; by destruct w|].
  unfold write_bytes in *. cbn [foldM]. erewrite bind_Ok by reflexivity. rewrite IH. cbn. by rewrite <- app_assoc.
Qed.

(** [serial_send] writes the frame of the message, or fails and writes nothing. *)
Lemma serial_send_frame t p w :
  serial_send t p w =
    if negb (initialized (iface w)) then (Err NetNotInitialized, w)
    else if u16_max <? blen p then (Err NetPayloadTooLarge, w)
    else (Ok (), mkSerial (iface w) (line_in w) (line_out w ++ frame (mkMessage t p))).
Proof.
  unfold serial_send. erewrite bind_Ok by reflexivity. cbn beta.
  destruct (initialized (iface w)); cbn [negb]; [|done]. destruct (u16_max <? blen p); [done|].
  repeat (erewrite bind_Ok by (apply write_bytes_run || reflexivity)). cbn [iface line_in line_out].
  unfold write_byte, modify. cbn [iface line_in line_out]. unfold frame, raw_frame. cbn [msg_type payload].
  by rewrite <- !app_assoc.
Qed.

(** ** Receiving a frame *)

Lemma crc16_bit_range c : 0 <= c < 2 ^ 16 -> 0 <= crc16_bit c < 2 ^ 16.
Proof.
  intros Hc. assert (0 <= Z.shiftr c 1 < 2 ^ 16).
  { rewrite Z.shiftr_div_pow2 by lia. split; [apply Z.div_pos; lia|apply Z.div_lt_upper_bound; lia]. }
  unfold crc16_bit. destruct (Z.land c 1 =? 1); [|done]. by apply lxor_range.
Qed.
Lemma crc16_iter_range n c : 0 <= c < 2 ^ 16 -> 0 <= Nat.iter n crc16_bit c < 2 ^ 16.
Proof. intros Hc. induction n as [|n IH]; [done|]. by apply crc16_bit_range. Qed.
Lemma crc16_byte_range c b : 0 <= c < 2 ^ 16 -> 0 <= crc16_byte c b < 2 ^ 16.
Proof. intros Hc. apply crc16_iter_range, lxor_range; [done..|]. pose proof (bval_range b). lia. Qed.
Lemma crc16_fold_range p c : 0 <= c < 2 ^ 16 -> 0 <= fold_left crc16_byte p c < 2 ^ 16.
Proof. revert c. induction p as [|b p IH]; intros c Hc; [done|]. by apply IH, crc16_byte_range. Qed.
Lemma crc16_range t n p : 0 <= crc16 t n p < 2 ^ 16.
Proof. apply crc16_fold_range. by repeat apply crc16_byte_range. Qed.

(** The state after [receive] has taken what the port has and left [rest]. *)
Definition taken (rest : bytes) (w : SerialWorld) : SerialWorld :=
  mkSerial (mkInterface (serial_port (iface w)) rest (initialized (iface w))) [] (line_out w).

Lemma raw_frame_length t p cs : length (raw_frame t p cs) = (9 + length p)%nat.
Proof. unfold raw_frame, u16_le. rewrite !length_app. cbn. lia. Qed.

(** What [receive] does with a frame at the front, whatever its type byte and
    checksum are: it consumes exactly the frame. *)
Lemma receive_raw_frame t p cs rest w :
  blen p <= u16_max -> 0 <= cs < 2 ^ 16 -> unread w = raw_frame t p cs ++ rest ->
  serial_receive w =
    match message_type_of t with
    | Err _ => (None, taken rest w)
    | Ok kind =>
        if negb (cs =? crc16 t (blen p) p) then (None, taken rest w)
        else (Some (mkMessage kind p),
              if bool_decide (kind = Ping) then (serial_send Pong (str "pong") (taken rest w)).2 else taken rest w)
    end.
Proof.
  intros Hp Hcs Hun.
  destruct (u16_le_val (blen p)) as (l0 & l1 & Hl & Hlv); [pose proof (blen_nonneg p); unfold u16_max in Hp; lia|].
  destruct (u16_le_val cs Hcs) as (c0 & c1 & Hc & Hcv).
  assert (Hbuf : raw_frame t p cs = MAGIC ++ t :: l0 :: l1 :: p ++ [c0; c1]) by (unfold raw_frame; by rewrite Hl, Hc).
  unfold serial_receive, read_line. cbn [iface line_in line_out rx_buffer set_rx_buffer serial_port initialized].
  change (rx_buffer (iface w) ++ line_in w) with (unread w). rewrite Hun, Hbuf, <- app_assoc, find_sub_here.
  rewrite drop_0. set (buf := MAGIC ++ (t :: l0 :: l1 :: p ++ [c0; c1]) ++ rest).
  assert (Hlen : blen buf = 9 + blen p + blen rest).
  { unfold buf, blen. rewrite !length_app. cbn [length]. rewrite length_app. cbn. lia. }
  pose proof (blen_nonneg p). pose proof (blen_nonneg rest).
  rewrite (proj2 (Z.ltb_ge (blen buf) 9)) by lia.
  change (nth 5 buf x00) with l0. change (nth 6 buf x00) with l1. change (nth 4 buf x00) with t. rewrite Hlv.
  rewrite (proj2 (Z.ltb_ge _ _)) by lia.
  assert (Hn : Z.to_nat (blen p) = length p) by (unfold blen; lia). rewrite Hn.
  assert (Hpay : field 7 (length p) buf = p).
  { unfold field. change (drop 7 buf) with ((p ++ [c0; c1]) ++ rest). rewrite <- app_assoc. apply take_app_length. }
  assert (forall k, nth (7 + length p + k) buf x00 = nth k ([c0; c1] ++ rest) x00) as Hnth.
  { intros k. change buf with ((MAGIC ++ [t; l0; l1]) ++ (p ++ [c0; c1]) ++ rest).
    rewrite <- (app_assoc p), app_assoc. rewrite app_nth2; rewrite length_app; cbn [length MAGIC]; [|cbn; lia].
    f_equal. cbn. lia. }
  pose proof (Hnth O) as Hn0. rewrite Nat.add_0_r in Hn0. rewrite Hn0.
  pose proof (Hnth 1%nat) as Hn1. rewrite Nat.add_1_r in Hn1. rewrite Hn1. cbn [nth app]. rewrite Hcv, Hpay.
  assert (Hdrop : drop (Z.to_nat (4 + 1 + 2 + blen p + 2)) buf = rest).
  { replace (Z.to_nat (4 + 1 + 2 + blen p + 2)) with (length (raw_frame t p cs)) by (rewrite raw_frame_length; lia).
    unfold buf. rewrite app_assoc, <- Hbuf. apply drop_app_length. }
  rewrite Hdrop. by destruct (message_type_of t).
Qed.

Lemma message_type_roundtrip t : message_type_of (type_byte t) = Ok t.
Proof. by destruct t. Qed.

(** The answer to a ping, on an interface that can send. *)
Definition answered (m : Message) (w : SerialWorld) : SerialWorld :=
  if bool_decide (msg_type m = Ping) then (serial_send Pong (str "pong") w).2 else w.

Lemma receive_frame m rest w :
  sendable m -> unread w = frame m ++ rest -> serial_receive w = (Some m, answered m (taken rest w)).
Proof.
  intros Hm Hun. destruct m as [t p]. erewrite receive_raw_frame; [|exact Hm| |exact Hun].
  - cbn [msg_type payload]. rewrite message_type_roundtrip, Z.eqb_refl. done.
  - apply crc16_range.
Qed.

Lemma answered_unread m w : unread (answered m w) = unread w.
Proof.
  unfold answered. case_bool_decide; [|done]. rewrite serial_send_frame.
  by destruct (negb (initialized (iface w))), (u16_max <? blen (str "pong")).
Qed.

(** A frame that has not arrived completely stays in the buffer. *)
Lemma receive_incomplete m d rest w :
  sendable m -> rest <> [] -> unread w = d -> d ++ rest = frame m -> serial_receive w = (None, taken d w).
Proof.
  intros Hm Hr Hun Hd. unfold serial_receive, read_line.
  cbn [iface line_in line_out rx_buffer set_rx_buffer serial_port initialized].
  change (rx_buffer (iface w) ++ line_in w) with (unread w). rewrite Hun.
  assert (Hlen : (length d < length (frame m))%nat).
  { rewrite <- Hd, length_app. destruct rest; [done|]. cbn. lia. }
  destruct (decide (length d < 4)%nat) as [Hs|Hs]; [by rewrite (find_sub_short MAGIC d) by done|].
  assert (exists d', d = MAGIC ++ d') as (d' & ->).
  { exists (drop 4 d). rewrite <- (take_drop 4 d) at 1. f_equal.
    transitivity (take 4 (d ++ rest)); [by rewrite take_app_le by lia|]. by rewrite Hd. }
  rewrite find_sub_here, drop_0.
  destruct (blen (MAGIC ++ d') <? 9) eqn:H9; [done|]. apply Z.ltb_ge in H9.
  unfold frame, raw_frame in Hd, Hlen. destruct m as [t p]. cbn [msg_type payload] in *.
  destruct (u16_le_val (blen p)) as (l0 & l1 & Hl & Hlv);
    [pose proof (blen_nonneg p); unfold sendable, u16_max in Hm; cbn in Hm; lia|].
  rewrite Hl in Hd. rewrite <- app_assoc in Hd. apply app_inv_head in Hd.
  destruct d' as [|b0 [|b1 [|b2 d']]]; try (unfold blen in H9; cbn in H9; lia).
  cbn [app] in Hd. simplify_eq. change (nth 5 (MAGIC ++ type_byte t :: l0 :: l1 :: d') x00) with l0.
  change (nth 6 (MAGIC ++ type_byte t :: l0 :: l1 :: d') x00) with l1. rewrite Hlv.
  rewrite (proj2 (Z.ltb_lt _ _)); [done|].
  pose proof (raw_frame_length (type_byte t) p (crc16 (type_byte t) (blen p) p)) as Hraw. unfold raw_frame in Hraw.
  rewrite Hraw in Hlen. unfold blen in *. cbn [length app] in *. lia.
Qed.

(** ** Messages arrive in order *)

Inductive serial_event : Type := Arrive (chunk : bytes) | Poll.

Definition serial_step (e : serial_event) (w : SerialWorld) : list Message * SerialWorld :=
  match e with
  | Arrive chunk => ([], mkSerial (iface w) (line_in w ++ chunk) (line_out w))
  | Poll => let '(m, w') := serial_receive w in (option_list m, w')
  end.
Fixpoint serial_run (es : list serial_event) (w : SerialWorld) : list Message * SerialWorld :=
  match es with
  | [] => ([], w)
  | e :: es' =>
      let '(l, w1) := serial_step e w in
      let '(l', w2) := serial_run es' w1 in (l ++ l', w2)
  end.
Definition arrived (es : list serial_event) : bytes :=
  concat (map (fun e => match e with Arrive chunk => chunk | Poll => [] end) es).
Definition stream (ms : list Message) : bytes := concat (map frame ms).
Arguments frame : simpl never.

Lemma stream_cons m ms : stream (m :: ms) = frame m ++ stream ms.
Proof. done. Qed.

Lemma frame_not_nil m : frame m <> [].
Proof. done. Qed.

(** One poll returns the next message if it is complete and nothing else. *)
Lemma poll_step ms more w :
  Forall sendable ms -> unread w ++ more = stream ms ->
  (exists m ms' w', ms = m :: ms' /\ serial_receive w = (Some m, w') /\ unread w = frame m ++ unread w') \/
  (exists w', serial_receive w = (None, w') /\ unread w' = unread w /\ (more = [] -> ms = [])).
Proof.
  intros Hms Hst. destruct ms as [|m ms].
  - right. apply app_nil in Hst as [Hun ->]. exists (taken [] w). split_and!; [|by rewrite Hun|done].
    unfold serial_receive, read_line. cbn. change (rx_buffer (iface w) ++ line_in w) with (unread w). by rewrite Hun.
  - apply Forall_cons in Hms as [Hm _]. unfold stream in Hst. cbn [map concat] in Hst.
    apply app_eq_app in Hst as (rest & [[Hun Hmore]|[Hun Hmore]]).
    + left. eexists m, ms, _. split_and!; [done|by apply receive_frame|]. by rewrite answered_unread, Hun; unfold unread; cbn; rewrite app_nil_r.
    + destruct rest as [|b rest].
      * left. rewrite app_nil_r in Hun. eexists m, ms, _. split_and!; [done|apply (receive_frame m []); [done|]|];
          rewrite ?answered_unread, <- Hun; unfold unread; cbn; by rewrite ?app_nil_r.
      * right. eexists. split_and!; [by eapply (receive_incomplete m _ (b :: rest))|unfold unread; cbn; by rewrite app_nil_r|].
        intros ->. done.
Qed.

Lemma serial_run_prefix es ms more w :
  Forall sendable ms -> unread w ++ arrived es ++ more = stream ms ->
  exists k, (serial_run es w).1 = take k ms /\ stream (take k ms) ++ unread (serial_run es w).2 = unread w ++ arrived es.
Proof.
  revert ms w. induction es as [|e es IH]; intros ms w Hms Hst; [exists 0%nat; cbn; by rewrite app_nil_r|].
  destruct e as [chunk|]; cbn [serial_run serial_step].
  - destruct (IH ms (mkSerial (iface w) (line_in w ++ chunk) (line_out w)) Hms) as (k & H1 & H2).
    + rewrite <- Hst. unfold unread, arrived. cbn. by rewrite <- !app_assoc.
    + exists k. destruct (serial_run es _) as [l w2]. cbn in *. split; [done|]. rewrite H2.
      unfold unread, arrived. cbn. by rewrite <- !app_assoc.
  - destruct (poll_step ms (arrived (Poll :: es) ++ more) w Hms Hst) as [(m & ms' & w' & -> & -> & Hun)|(w' & -> & Hun & _)].
    + apply Forall_cons in Hms as [_ Hms]. destruct (IH ms' w' Hms) as (k & H1 & H2).
      { rewrite Hun in Hst. rewrite stream_cons, <- app_assoc in Hst. by apply app_inv_head in Hst. }
      exists (S k). destruct (serial_run es w') as [l w2]. cbn [fst snd option_list app firstn] in *. split; [by rewrite H1|].
      rewrite Hun, stream_cons, <- !app_assoc. f_equal. exact H2.
    + destruct (IH ms w' Hms) as (k & H1 & H2); [by rewrite Hun|]. exists k.
      destruct (serial_run es w') as [l w2]. cbn in *. by rewrite <- Hun.
Qed.

Lemma serial_run_app es1 es2 w :
  serial_run (es1 ++ es2) w =
    let '(l, w1) := serial_run es1 w in let '(l', w2) := serial_run es2 w1 in (l ++ l', w2).
Proof.
  revert w. induction es1 as [|e es IH]; intros w; cbn [app serial_run]; [by destruct (serial_run es2 w)|].
  destruct (serial_step e w) as [l w1]. rewrite IH. destruct (serial_run es w1) as [l' w2].
  destruct (serial_run es2 w2) as [l'' w3]. by rewrite app_assoc.
Qed.

Lemma polls_drain n ms w :
  Forall sendable ms -> unread w = stream ms -> (length ms <= n)%nat -> (serial_run (replicate n Poll) w).1 = ms.
Proof.
  revert ms w. induction n as [|n IH]; intros ms w Hms Hun Hn; [destruct ms; [done|cbn in Hn; lia]|].
  cbn [replicate serial_run serial_step].
  destruct (poll_step ms [] w Hms) as [(m & ms' & w' & -> & -> & Hun')|(w' & -> & Hun' & Hnil)]; [by rewrite app_nil_r| |].
  - apply Forall_cons in Hms as [_ Hms]. rewrite Hun in Hun'. rewrite stream_cons in Hun'. apply app_inv_head in Hun'.
    pose proof (IH ms' w' Hms (eq_sym Hun') ltac:(cbn in Hn; lia)) as E.
    destruct (serial_run (replicate n Poll) w'). cbn in *. by rewrite E.
  - rewrite Hnil by done. pose proof (IH [] w' ltac:(constructor)) as E. rewrite Hnil in Hun by done.
    specialize (E ltac:(congruence) ltac:(cbn; lia)). by destruct (serial_run (replicate n Poll) w').
Qed.


(** ** What the checksum detects *)

Lemma land_1_lxor_double x y : Z.land (Z.lxor x (2 * y)) 1 = Z.land x 1.
Proof.
  change 1 with (Z.ones 1). rewrite !Z.land_ones by lia. apply Z.bits_inj'. intros n Hn.
  destruct (decide (n < 1)).
  - rewrite !Z.mod_pow2_bits_low by lia. rewrite Z.lxor_spec. replace n with 0 by lia.
    by rewrite Z.testbit_even_0, xorb_false_r.
  - by rewrite !Z.mod_pow2_bits_high by lia.
Qed.

(** A bit that has not reached the lowest position only moves. *)
Lemma crc16_bit_shift x y : crc16_bit (Z.lxor x (2 * y)) = Z.lxor (crc16_bit x) y.
Proof.
  unfold crc16_bit. rewrite land_1_lxor_double.
  assert (Z.shiftr (Z.lxor x (2 * y)) 1 = Z.lxor (Z.shiftr x 1) y) as ->.
  { rewrite Z.shiftr_lxor. f_equal. rewrite Z.shiftr_div_pow2 by lia. change (2 ^ 1) with 2. by rewrite Z.mul_comm, Z.div_mul. }
  destruct (Z.land x 1 =? 1); [|done]. by rewrite !Z.lxor_assoc, (Z.lxor_comm y).
Qed.

Lemma crc16_iter_shift n x y :
  Nat.iter n crc16_bit (Z.lxor x (2 ^ Z.of_nat n * y)) = Z.lxor (Nat.iter n crc16_bit x) y.
Proof.
  revert y. induction n as [|n IH]; intros y; [by rewrite Z.mul_1_l|].
  rewrite Nat2Z.inj_succ, Z.pow_succ_r, (Z.mul_comm 2), <- Z.mul_assoc by lia.
  change (Nat.iter (S n) crc16_bit ?z) with (crc16_bit (Nat.iter n crc16_bit z)).
  by rewrite IH, crc16_bit_shift.
Qed.

(** Two bytes are absorbed like one word of sixteen bits. *)
Lemma crc16_two_bytes c a b :
  crc16_byte (crc16_byte c a) b = Nat.iter 16 crc16_bit (Z.lxor c (bval a + 256 * bval b)).
Proof.
  unfold crc16_byte. rewrite <- (crc16_iter_shift 8).
  change 16%nat with (8 + 8)%nat. rewrite Nat.iter_add, Z.lxor_assoc. do 3 f_equal.
  rewrite <- lor_shiftl_8 by apply bval_range. rewrite <- Z.lxor_lor, Z.shiftl_mul_pow2, (Z.mul_comm (bval b)) by
    (apply land_shiftl_8, bval_range || lia). done.
Qed.

(** The shift register can be run backwards: the top bit of the result tells
    which branch was taken. *)
Lemma crc16_bit_inj x y :
  0 <= x < 2 ^ 16 -> 0 <= y < 2 ^ 16 -> crc16_bit x = crc16_bit y -> x = y.
Proof.
  intros Hx Hy E.
  assert (Htop : forall z, 0 <= z < 2 ^ 16 -> Z.testbit (crc16_bit z) 15 = (Z.land z 1 =? 1)).
  { intros z Hz. assert (Z.testbit (Z.shiftr z 1) 15 = false) as Hs.
    { rewrite Z.shiftr_spec by lia. rewrite <- (Z.mod_small z (2 ^ 16)) by lia. by apply Z.mod_pow2_bits_high. }
    unfold crc16_bit. destruct (Z.land z 1 =? 1); [by rewrite Z.lxor_spec, Hs|done]. }
  pose proof (Htop x Hx) as Tx. rewrite E, (Htop y Hy) in Tx. unfold crc16_bit in E. rewrite Tx in E.
  assert (Z.shiftr x 1 = Z.shiftr y 1) as Hs.
  { destruct (Z.land x 1 =? 1); [|done]. rewrite !(Z.lxor_comm _ 0xA001) in E. by apply lxor_cancel_l in E. }
  change 1 with (Z.ones 1) in Tx at 1 3. rewrite !Z.land_ones in Tx by lia. change (2 ^ 1) with 2 in Tx.
  rewrite !Z.shiftr_div_pow2 in Hs by lia. change (2 ^ 1) with 2 in Hs.
  pose proof (Z.div_mod x 2). pose proof (Z.div_mod y 2). pose proof (Z.mod_pos_bound x 2). pose proof (Z.mod_pos_bound y 2).
  destruct (Z.eqb_spec (x mod 2) 1), (Z.eqb_spec (y mod 2) 1); try done; lia.
Qed.

Lemma crc16_iter_inj n x y :
  0 <= x < 2 ^ 16 -> 0 <= y < 2 ^ 16 -> Nat.iter n crc16_bit x = Nat.iter n crc16_bit y -> x = y.
Proof.
  intros Hx Hy. induction n as [|n IH]; [done|]. intros E. apply crc16_bit_inj in E; [by apply IH|by apply crc16_iter_range..].
Qed.

Lemma crc16_fold_inj p x y :
  0 <= x < 2 ^ 16 -> 0 <= y < 2 ^ 16 -> fold_left crc16_byte p x = fold_left crc16_byte p y -> x = y.
Proof.
  revert x y. induction p as [|b p IH]; intros x y Hx Hy E; [done|].
  apply IH in E; [|by apply crc16_byte_range..]. pose proof (bval_range b).
  apply crc16_iter_inj in E; [|apply lxor_range; lia..].
  rewrite !(Z.lxor_comm _ (bval b)) in E. by apply lxor_cancel_l in E.
Qed.

(** The checksum detects every error within two neighbouring bytes of a
    payload.  When such bytes of a frame are changed on the line, [receive]
    returns no message; it drops the frame and keeps what follows it. *)
Theorem serial_detects_burst t pre a1 a2 b1 b2 post rest w :
  let sent := pre ++ [a1; a2] ++ post in
  let received := pre ++ [b1; b2] ++ post in
  blen sent <= u16_max -> (a1, a2) <> (b1, b2) ->
  unread w = raw_frame (type_byte t) received (crc16 (type_byte t) (blen sent) sent) ++ rest ->
  serial_receive w = (None, taken rest w).
Proof.
  intros sent received Hlen Hne Hun.
  assert (blen received = blen sent) as Hl by (unfold blen, received, sent; by rewrite !length_app).
  erewrite receive_raw_frame; [|by rewrite Hl|apply crc16_range|exact Hun]. rewrite message_type_roundtrip, Hl.
  assert (crc16 (type_byte t) (blen sent) sent <> crc16 (type_byte t) (blen sent) received) as Hcrc.
  2: { by rewrite (proj2 (Z.eqb_neq _ _) Hcrc). }
  unfold crc16, sent, received. rewrite !fold_left_app. cbn [fold_left]. intros E.
  set (c := fold_left crc16_byte pre _) in E. assert (0 <= c < 2 ^ 16) as Hc.
  { apply crc16_fold_range. by repeat apply crc16_byte_range. }
  apply crc16_fold_inj in E; [|by repeat apply crc16_byte_range..]. rewrite !crc16_two_bytes in E.
  pose proof (bval_range a1). pose proof (bval_range a2). pose proof (bval_range b1). pose proof (bval_range b2).
  apply crc16_iter_inj in E; [|apply lxor_range; lia..]. apply lxor_cancel_l in E.
  apply Hne. f_equal; apply bval_inj; lia.
Qed.

(** ** A run *)

Definition demo_messages : list Message := [mkMessage Text (str "hello"); mkMessage Ping []].
Definition demo_line : SerialWorld := mkSerial (mkInterface 0x2F8 [] true) [] [].
Definition demo_events : list serial_event :=
  [Arrive (take 10 (stream demo_messages)); Poll; Arrive (drop 10 (stream demo_messages))].


Abbreviation demo_received := (raw_frame x20 (str "hullo") (crc16 x20 5 (str "hello"))).
Lemma serial_detects_burst_witness :
  serial_receive (mkSerial (iface demo_line) demo_received []) = (None, taken [] (mkSerial (iface demo_line) demo_received [])).
Proof.
  apply (serial_detects_burst Text (str "h") x65 x6c x75 x6c (str "lo") []).
  - vm_compute. discriminate.
  - discriminate.
  - vm_compute. reflexivity.
Defined.
