(* ===== verification/Float64.v ===== *)
(** * Floating-point numbers

    [f64] of Rust is binary64, for which the Standard Library has executable
    definitions ([SpecFloat]).  Added here: the text conversions of Rust's
    standard library that the quantum crate uses, [format!("{x:.3}")] and
    [str::parse::<f64>], both correctly rounded. *)
From Corelib Require Import SpecFloat.
From S2P Require Import Prelude RustStr RustParse.

Definition f64 : Type := spec_float.
Definition fadd : f64 -> f64 -> f64 := SFadd 53 1024.
Definition fsub : f64 -> f64 -> f64 := SFsub 53 1024.
Definition fmul : f64 -> f64 -> f64 := SFmul 53 1024.
Definition fdiv : f64 -> f64 -> f64 := SFdiv 53 1024.
Definition fsqrt : f64 -> f64 := SFsqrt 53 1024.
Definition fneg : f64 -> f64 := SFopp.
Definition fabs : f64 -> f64 := SFabs.
Definition fleb : f64 -> f64 -> bool := SFleb.
Definition fltb : f64 -> f64 -> bool := SFltb.

(** The number nearest to [n], and to the fraction [m / d]. *)
Definition f64_of_Z (n : Z) : f64 := binary_normalize 53 1024 n 0 false.
Definition f64_of_ratio (negative : bool) (m d : positive) : f64 :=
  let '(mz, ez, lz) := SFdiv_core_binary 53 1024 (Zpos m) 0 (Zpos d) 0 in
  binary_round_aux 53 1024 negative mz ez lz.
Definition f64_of_decimal (negative : bool) (mantissa exponent : Z) : f64 :=
  if mantissa =? 0 then S754_zero negative
  else if 0 <=? exponent then f64_of_ratio negative (Z.to_pos (mantissa * 10 ^ exponent)) 1
  else f64_of_ratio negative (Z.to_pos mantissa) (Z.to_pos (10 ^ (- exponent))).

Definition f64_zero : f64 := S754_zero false.
Definition f64_one : f64 := f64_of_Z 1.
Definition f64_two : f64 := f64_of_Z 2.
Definition f64_half : f64 := f64_of_decimal false 5 (-1).

(** ** Text *)

(** [n / d] rounded to the nearest integer, ties to even. *)
Definition round_half_even (n d : Z) : Z :=
  let q := n / d in
  match 2 * (n mod d) ?= d with
  | Lt => q
  | Gt => q + 1
  | Eq => if Z.even q then q else q + 1
  end.

(** [format!("{x:.3}")]: at most 309 digits before the point. *)
Definition fmt3 (x : f64) : bytes :=
  let sign (s : bool) := if s then str "-" else [] in
  match x with
  | S754_nan => str "NaN"
  | S754_infinity s => sign s ++ str "inf"
  | S754_zero s => sign s ++ str "0.000"
  | S754_finite s m e =>
      let q := if 0 <=? e then Zpos m * 2 ^ e * 1000 else round_half_even (Zpos m * 1000) (2 ^ (- e)) in
      let frac := decimal (q mod 1000) in
      sign s ++ radix_digits 10 310 (q / 1000) [] ++ str "."
        ++ replicate (3 - length frac) x30 ++ frac
  end.

Fixpoint span (p : byte -> bool) (s : bytes) : bytes * bytes :=
  match s with
  | b :: s' => if p b then let '(u, v) := span p s' in (b :: u, v) else ([], s)
  | [] => ([], [])
  end.
Definition digits_value (s : bytes) : Z := fold_left (fun acc b => acc * 10 + (bval b - 48)) s 0.

Definition take_sign (s : bytes) : bool * bytes :=
  match s with
  | b :: s' => if bool_decide (b = x2d) then (true, s') else if bool_decide (b = x2b) then (false, s') else (false, s)
  | [] => (false, [])
  end.

Definition parse_exponent (s : bytes) : option Z :=
  match s with
  | [] => Some 0
  | b :: s' =>
      if bool_decide (to_ascii_lowercase b = x65) then
        let '(negative, s') := take_sign s' in
        let '(ds, rest) := span is_digit s' in
        if bool_decide (ds <> [] /\ rest = []) then Some (if negative then - digits_value ds else digits_value ds) else None
      else None
  end.

Definition parse_f64 (text : bytes) : option f64 :=
  let '(negative, s) := take_sign text in
  if eq_ignore_ascii_case s (str "inf") || eq_ignore_ascii_case s (str "infinity") then Some (S754_infinity negative)
  else if eq_ignore_ascii_case s (str "nan") then Some S754_nan
  else
    let '(whole, s) := span is_digit s in
    let '(frac, s) := match s with b :: s' => if bool_decide (b = dot) then span is_digit s' else ([], s) | [] => ([], []) end in
    if bool_decide (whole = [] /\ frac = []) then None
    else
      exponent ← parse_exponent s;
      Some (f64_of_decimal negative (digits_value (whole ++ frac)) (exponent - blen frac)).

(** [f64::round], half away from zero, and [as usize]. *)
Definition f_round (x : f64) : f64 :=
  match x with
  | S754_finite s m e =>
      if 0 <=? e then x
      else let n := (2 * Zpos m + 2 ^ (- e)) / (2 * 2 ^ (- e)) in
           if n =? 0 then S754_zero s else if s then fneg (f64_of_Z n) else f64_of_Z n
  | _ => x
  end.
Definition f_to_usize (x : f64) : Z :=
  match x with
  | S754_infinity false => u64_max
  | S754_finite false m e => Z.min u64_max (if 0 <=? e then Zpos m * 2 ^ e else Zpos m / 2 ^ (- e))
  | _ => 0
  end.

(** Small runs. *)
Example fmt3_runs :
  fmt3 (f64_of_decimal false 25 (-2)) = str "0.250" /\ fmt3 (f64_of_decimal true 12345678 (-4)) = str "-1234.568" /\
  fmt3 (f64_of_decimal false 4 (-4)) = str "0.000".
Proof. vm_compute. done. Qed.
Example parse_f64_runs :
  parse_f64 (str "0.250") = Some (f64_of_ratio false 1 4) /\ parse_f64 (str "-1e3") = Some (f64_of_ratio true 1000 1) /\
  parse_f64 (str ".") = None /\ parse_f64 (str "1.5x") = None.
Proof. vm_compute. done. Qed.

(** [clamp]: a NaN stays one. *)
Definition f_clamp (x low high : f64) : f64 := if fltb x low then low else if fltb high x then high else x.

(** ** Zeros *)

Definition is_zero (x : f64) : bool := match x with S754_zero _ => true | _ => false end.
(** What a product with zero can be. *)
Definition vanishes (x : f64) : bool := match x with S754_zero _ | S754_nan => true | _ => false end.

Lemma zero_mul x y : is_zero x = true -> vanishes (fmul x y) = true.
Proof. destruct x as [s| | |]; try done. by destruct y. Qed.
Lemma vanishes_add x y : vanishes x = true -> vanishes y = true -> vanishes (fadd x y) = true.
Proof. destruct x as [[]| | |], y as [[]| | |]; done. Qed.
Lemma vanishes_sub x y : vanishes x = true -> vanishes y = true -> vanishes (fsub x y) = true.
Proof. destruct x as [[]| | |], y as [[]| | |]; done. Qed.

(** Sums of four terms of which only the first two, or only one, count can be
    associated either way. *)
Lemma sum4_first a b c d : vanishes c = true -> vanishes d = true -> fadd (fadd (fadd a b) c) d = fadd (fadd a b) (fadd c d).
Proof. intros Hc Hd. generalize (fadd a b). intros x. destruct c as [[]| | |], d as [[]| | |]; try done; destruct x as [[]|[]| |[]]; done. Qed.
Lemma sum4_last a b c d :
  vanishes a = true -> vanishes b = true -> vanishes c || vanishes d = true -> fadd (fadd (fadd a b) c) d = fadd (fadd a b) (fadd c d).
Proof.
  intros Ha Hb Hcd. pose proof (vanishes_add a b Ha Hb) as Hx. generalize dependent (fadd a b). intros x Hx.
  destruct x as [[]| | |], c as [[]|[]| |[]], d as [[]|[]| |[]]; done.
Qed.

(** Comparisons. *)
Lemma fltb_fleb x y : fltb x y = true -> fleb y x = false.
Proof.
  unfold fltb, fleb, SFltb, SFleb. destruct x as [s|s| |s m e], y as [s'|s'| |s' m' e']; cbn; try done;
    try (by destruct s); try (by destruct s'); try (by destruct s, s').
  destruct s, s'; try done; rewrite (Z.compare_antisym e e'); destruct (e ?= e')%Z; cbn; try done;
    change (Pos.compare_cont Eq m' m) with (Pos.compare m' m); change (Pos.compare_cont Eq m m') with (Pos.compare m m');
    rewrite (Pos.compare_antisym m m'); by destruct (Pos.compare m m').
Qed.
