(* ===== verification/Circuit.v ===== *)
(** * Quantum circuits (crates/waros-quantum/src: complex.rs, gate.rs, circuit.rs,
    circuit/extensions.rs)

    A circuit is a list of instructions with a number of qubits and of classical
    bits; every builder checks its arguments.  Indices are [nat] ([usize] in the
    code, far below its limit for circuits of at most 128 qubits).  The
    trigonometric functions come from the platform's mathematics library: the
    class [Libm], of which nothing is assumed.  [circuit_wf] is the typing of
    circuits; the builders preserve it. *)
From S2P Require Import Prelude RustStr RustParse Float64.

(** ** Complex numbers and gates *)

Record Complex : Type := mkComplex { c_re : f64; c_im : f64 }.
Definition C_ZERO : Complex := mkComplex f64_zero f64_zero.
Definition C_ONE : Complex := mkComplex f64_one f64_zero.
Definition C_I : Complex := mkComplex f64_zero f64_one.
Definition c_neg (c : Complex) : Complex := mkComplex (fneg (c_re c)) (fneg (c_im c)).
Definition c_conj (c : Complex) : Complex := mkComplex (c_re c) (fneg (c_im c)).
Definition c_add (a b : Complex) : Complex := mkComplex (fadd (c_re a) (c_re b)) (fadd (c_im a) (c_im b)).
Definition c_mul (a b : Complex) : Complex :=
  mkComplex (fsub (fmul (c_re a) (c_re b)) (fmul (c_im a) (c_im b)))
            (fadd (fmul (c_re a) (c_im b)) (fmul (c_im a) (c_re b))).
Definition norm_sq (c : Complex) : f64 := fadd (fmul (c_re c) (c_re c)) (fmul (c_im c) (c_im c)).

Class Libm : Type := { f_cos : f64 -> f64; f_sin : f64 -> f64 }.

Record Gate : Type := mkGate { gate_name : bytes; gate_matrix : list Complex; gate_num_qubits : nat }.

Definition gate_single (name : bytes) (m : list (list Complex)) : Gate := mkGate name (concat m) 1.
Definition gate_two_qubit (name : bytes) (m : list (list Complex)) : Gate := mkGate name (concat m) 2.
(** [gate.get(row, col)], for an index of the matrix. *)
Definition gate_get (g : Gate) (row col : nat) : Complex := nth (row * 2 ^ gate_num_qubits g + col) (gate_matrix g) C_ZERO.
Definition dagger (g : Gate) : Gate :=
  let dim := (2 ^ gate_num_qubits g)%nat in
  mkGate (gate_name g ++ str "^dagger")
         (concat (map (fun row => map (fun col => c_conj (gate_get g col row)) (seq 0 dim)) (seq 0 dim)))
         (gate_num_qubits g).

Definition FRAC_1_SQRT_2 : f64 := f64_of_decimal false 707106781186547524400844362104849039 (-36).
Definition PI : f64 := f64_of_decimal false 314159265358979323846264338327950288 (-35).

Definition gate_x : Gate := gate_single (str "X") [[C_ZERO; C_ONE]; [C_ONE; C_ZERO]].
Definition gate_y : Gate :=
  gate_single (str "Y") [[C_ZERO; mkComplex f64_zero (fneg f64_one)]; [mkComplex f64_zero f64_one; C_ZERO]].
Definition gate_z : Gate := gate_single (str "Z") [[C_ONE; C_ZERO]; [C_ZERO; c_neg C_ONE]].
Definition gate_h : Gate :=
  let s := mkComplex FRAC_1_SQRT_2 f64_zero in gate_single (str "H") [[s; s]; [s; c_neg s]].
Definition gate_s : Gate := gate_single (str "S") [[C_ONE; C_ZERO]; [C_ZERO; C_I]].
Definition gate_sdg : Gate := gate_single (str "Sdg") [[C_ONE; C_ZERO]; [C_ZERO; mkComplex f64_zero (fneg f64_one)]].
Definition gate_sx : Gate :=
  let a := mkComplex f64_half f64_half in
  let b := mkComplex f64_half (fneg f64_half) in gate_single (str "SX") [[a; b]; [b; a]].

Section rotations.
Context `{Libm}.

Definition from_polar (r theta : f64) : Complex := mkComplex (fmul r (f_cos theta)) (fmul r (f_sin theta)).
Definition gate_t : Gate :=
  gate_single (str "T") [[C_ONE; C_ZERO]; [C_ZERO; from_polar f64_one (fdiv PI (f64_of_Z 4))]].
Definition gate_tdg : Gate :=
  gate_single (str "Tdg") [[C_ONE; C_ZERO]; [C_ZERO; from_polar f64_one (fdiv (fneg PI) (f64_of_Z 4))]].
Definition gate_rx (theta : f64) : Gate :=
  let c := mkComplex (f_cos (fdiv theta f64_two)) f64_zero in
  let s := mkComplex f64_zero (fneg (f_sin (fdiv theta f64_two))) in
  gate_single (str "Rx(" ++ fmt3 theta ++ str ")") [[c; s]; [s; c]].
Definition gate_ry (theta : f64) : Gate :=
  let c := mkComplex (f_cos (fdiv theta f64_two)) f64_zero in
  let s := mkComplex (f_sin (fdiv theta f64_two)) f64_zero in
  gate_single (str "Ry(" ++ fmt3 theta ++ str ")") [[c; c_neg s]; [s; c]].
Definition gate_rz (theta : f64) : Gate :=
  gate_single (str "Rz(" ++ fmt3 theta ++ str ")")
    [[from_polar f64_one (fdiv (fneg theta) f64_two); C_ZERO]; [C_ZERO; from_polar f64_one (fdiv theta f64_two)]].
Definition gate_u3 (theta phi lambda : f64) : Gate :=
  let ct := f_cos (fdiv theta f64_two) in
  let st := f_sin (fdiv theta f64_two) in
  gate_single (str "U3(" ++ fmt3 theta ++ str "," ++ fmt3 phi ++ str "," ++ fmt3 lambda ++ str ")")
    [[mkComplex ct f64_zero; from_polar (fneg st) lambda]; [from_polar st phi; from_polar ct (fadd phi lambda)]].
Definition gate_rzz (theta : f64) : Gate :=
  let o := C_ZERO in
  let p1 := from_polar f64_one (fdiv (fneg theta) f64_two) in
  let p2 := from_polar f64_one (fdiv theta f64_two) in
  gate_two_qubit (str "Rzz(" ++ fmt3 theta ++ str ")") [[p1; o; o; o]; [o; p2; o; o]; [o; o; p2; o]; [o; o; o; p1]].
(** [2.0.powi(exponent)] is exact, or infinite. *)
Definition gate_crk (k : nat) : Gate :=
  let exponent := Z.min (Z.of_nat k) (2 ^ 31 - 1) in
  let angle := fdiv (fmul f64_two PI) (f64_of_Z (2 ^ exponent)) in
  let o := C_ZERO in let i := C_ONE in
  gate_two_qubit (str "CR" ++ decimal (Z.of_nat k))
    [[i; o; o; o]; [o; i; o; o]; [o; o; i; o]; [o; o; o; from_polar f64_one angle]].
End rotations.

Definition gate_cnot : Gate :=
  let o := C_ZERO in let i := C_ONE in
  gate_two_qubit (str "CNOT") [[i; o; o; o]; [o; i; o; o]; [o; o; o; i]; [o; o; i; o]].
Definition gate_cz : Gate :=
  let o := C_ZERO in let i := C_ONE in
  gate_two_qubit (str "CZ") [[i; o; o; o]; [o; i; o; o]; [o; o; i; o]; [o; o; o; c_neg i]].
Definition gate_swap : Gate :=
  let o := C_ZERO in let i := C_ONE in
  gate_two_qubit (str "SWAP") [[i; o; o; o]; [o; o; i; o]; [o; i; o; o]; [o; o; o; i]].
Definition gate_cy : Gate :=
  let o := C_ZERO in let i := C_ONE in
  gate_two_qubit (str "CY")
    [[i; o; o; o]; [o; i; o; o]; [o; o; o; mkComplex f64_zero (fneg f64_one)]; [o; o; mkComplex f64_zero f64_one; o]].

(** ** Instructions and circuits *)

Inductive WarosError : Type :=
  | ZeroQubits
  | QubitOutOfRange (qubit num_qubits : nat)
  | SameQubit (q0 q1 : nat)
  | TooManyQubits (n limit : nat)
  | CircuitQubitMismatch (a b : nat)
  | InvalidQubitMapping (a b : nat)
  | InsufficientMemory (n : nat) (needed : Z)
  | InvalidShots (shots : Z)
  | NumericalInstability (action : bytes)
  | SimulationError (message : bytes)
  | NetworkError (message : bytes)
  | APIError (message : bytes)
  | AuthError (message : bytes)
  | HardwareError (message : bytes)
  | Timeout (message : bytes)
  | ParseError (message : bytes)
  | IOError (message : bytes).

Inductive Instruction : Type :=
  | GateOp (gate : Gate) (targets : list nat)
  | ConditionalGate (classical_bits : list nat) (value : Z) (gate : Gate) (targets : list nat)
  | Measure (qubit classical_bit : nat)
  | Barrier (qubits : list nat).

Record Circuit : Type := mkCircuit {
  num_qubits : nat;
  num_classical_bits : nat;
  instructions : list Instruction;
}.

Definition MAX_QUBITS : nat := 128.

Definition circuit_new (n : nat) : result WarosError Circuit :=
  if bool_decide (n = 0%nat) then Err ZeroQubits
  else if bool_decide (MAX_QUBITS < n)%nat then Err (TooManyQubits n MAX_QUBITS)
  else Ok (mkCircuit n 0 []).
Definition with_classical_bits (n bits : nat) : result WarosError Circuit :=
  c ← circuit_new n; Ok (mkCircuit (num_qubits c) bits (instructions c)).

Definition is_gate (i : Instruction) : bool :=
  match i with GateOp _ _ | ConditionalGate _ _ _ _ => true | _ => false end.
Definition gate_count (c : Circuit) : nat := length (List.filter is_gate (instructions c)).

(** ** Builders *)

Abbreviation cst A := (stm Circuit WarosError A).

Definition push_instruction (i : Instruction) : cst () :=
  modify (fun c => mkCircuit (num_qubits c) (num_classical_bits c) (instructions c ++ [i])).
Definition check_circuit (f : Circuit -> result WarosError ()) : cst () := fun c => (f c, c).

Definition validate_qubit (qubit : nat) (c : Circuit) : result WarosError () :=
  if bool_decide (num_qubits c <= qubit)%nat then Err (QubitOutOfRange qubit (num_qubits c)) else Ok ().
Definition validate_pair (q0 q1 : nat) (c : Circuit) : result WarosError () :=
  _ ← validate_qubit q0 c; _ ← validate_qubit q1 c;
  if bool_decide (q0 = q1) then Err (SameQubit q0 q1) else Ok ().
Definition validate_triple (q0 q1 q2 : nat) (c : Circuit) : result WarosError () :=
  _ ← validate_qubit q0 c; _ ← validate_qubit q1 c; _ ← validate_qubit q2 c;
  if bool_decide (q0 = q1 \/ q0 = q2) then Err (SameQubit q0 (q1 `max` q2))
  else if bool_decide (q1 = q2) then Err (SameQubit q1 q2) else Ok ().
Fixpoint validate_distinct_qubits (qubits : list nat) (c : Circuit) : result WarosError () :=
  match qubits with
  | [] => Ok ()
  | qubit :: rest =>
      _ ← validate_qubit qubit c;
      if bool_decide (qubit ∈ rest) then Err (SameQubit qubit qubit) else validate_distinct_qubits rest c
  end.
Definition ensure_classical_bits (required : nat) : cst () :=
  modify (fun c => mkCircuit (num_qubits c) (num_classical_bits c `max` required) (instructions c)).
Fixpoint validate_classical_bits (bits : list nat) (c : Circuit) : result WarosError () :=
  match bits with
  | [] => Ok ()
  | b :: rest =>
      if bool_decide (num_classical_bits c <= b)%nat
      then Err (SimulationError (str "classical bit " ++ decimal (Z.of_nat b) ++ str " out of range (circuit has "
                                 ++ decimal (Z.of_nat (num_classical_bits c)) ++ str " classical bits)"))
      else validate_classical_bits rest c
  end.

Definition add1 (g : Gate) (qubit : nat) : cst () :=
  _ ← check_circuit (validate_qubit qubit); push_instruction (GateOp g [qubit]).
Definition add2 (g : Gate) (q0 q1 : nat) : cst () :=
  _ ← check_circuit (validate_pair q0 q1); push_instruction (GateOp g [q0; q1]).

Definition target_mismatch (g : Gate) (targets : list nat) : WarosError :=
  SimulationError (str "gate '" ++ gate_name g ++ str "' expects " ++ decimal (Z.of_nat (gate_num_qubits g))
                   ++ str " targets, got " ++ decimal (blen targets)).

Definition custom_gate (g : Gate) (targets : list nat) : cst () :=
  if negb (bool_decide (gate_num_qubits g = length targets)) then throw (target_mismatch g targets)
  else if negb (bool_decide (1 <= gate_num_qubits g <= 2)%nat)
  then throw (SimulationError (str "gate '" ++ gate_name g ++ str "' uses unsupported width "
                               ++ decimal (Z.of_nat (gate_num_qubits g))))
  else
    _ ← check_circuit (validate_distinct_qubits targets);
    push_instruction (GateOp g targets).

Definition conditional_gate (classical_bits : list nat) (value : Z) (g : Gate) (targets : list nat) : cst () :=
  if bool_decide (classical_bits = []) then throw (SimulationError (str "conditional gates require at least one classical bit"))
  else
    _ ← check_circuit (validate_classical_bits classical_bits);
    if negb (bool_decide (gate_num_qubits g = length targets)) then throw (target_mismatch g targets)
    else
      _ ← check_circuit (validate_distinct_qubits targets);
      push_instruction (ConditionalGate classical_bits value g targets).

Definition add_h (q : nat) : cst () := add1 gate_h q.
Definition add_x (q : nat) : cst () := add1 gate_x q.
Definition add_z (q : nat) : cst () := add1 gate_z q.
Definition add_t `{Libm} (q : nat) : cst () := add1 gate_t q.
Definition add_tdg `{Libm} (q : nat) : cst () := add1 gate_tdg q.
Definition add_rz `{Libm} (q : nat) (theta : f64) : cst () := add1 (gate_rz theta) q.
Definition add_cnot (control target : nat) : cst () := add2 gate_cnot control target.
Definition add_swap (q0 q1 : nat) : cst () := add2 gate_swap q0 q1.
Definition add_y (q : nat) : cst () := add1 gate_y q.
Definition add_s (q : nat) : cst () := add1 gate_s q.
Definition add_sdg (q : nat) : cst () := add1 gate_sdg q.
Definition add_sx (q : nat) : cst () := add1 gate_sx q.
Definition add_rx `{Libm} (q : nat) (theta : f64) : cst () := add1 (gate_rx theta) q.
Definition add_ry `{Libm} (q : nat) (theta : f64) : cst () := add1 (gate_ry theta) q.
Definition add_u3 `{Libm} (q : nat) (theta phi lambda : f64) : cst () := add1 (gate_u3 theta phi lambda) q.
Definition add_cz (q0 q1 : nat) : cst () := add2 gate_cz q0 q1.
Definition add_cy (q0 q1 : nat) : cst () := add2 gate_cy q0 q1.
Definition add_rzz `{Libm} (q0 q1 : nat) (theta : f64) : cst () := add2 (gate_rzz theta) q0 q1.
Definition add_crk `{Libm} (control target k : nat) : cst () := add2 (gate_crk k) control target.

Definition toffoli `{Libm} (control_0 control_1 target : nat) : cst () :=
  _ ← check_circuit (validate_triple control_0 control_1 target);
  _ ← add_h target;
  _ ← add_cnot control_1 target;
  _ ← add_tdg target;
  _ ← add_cnot control_0 target;
  _ ← add_t target;
  _ ← add_cnot control_1 target;
  _ ← add_tdg target;
  _ ← add_cnot control_0 target;
  _ ← add_t control_1;
  _ ← add_t target;
  _ ← add_h target;
  _ ← add_cnot control_0 control_1;
  _ ← add_t control_0;
  _ ← add_tdg control_1;
  add_cnot control_0 control_1.

Definition measure (qubit : nat) : cst nat :=
  _ ← check_circuit (validate_qubit qubit);
  classical_bit ← gets num_classical_bits;
  _ ← modify (fun c => mkCircuit (num_qubits c) (S (num_classical_bits c)) (instructions c));
  _ ← push_instruction (Measure qubit classical_bit);
  mret classical_bit.
Definition measure_into (qubit classical_bit : nat) : cst () :=
  _ ← check_circuit (validate_qubit qubit);
  _ ← ensure_classical_bits (S classical_bit);
  push_instruction (Measure qubit classical_bit).
Definition measure_all : cst () :=
  n ← gets num_qubits;
  foldM (fun q _ => _ ← measure q; mret ()) (seq 0 n) ().
Definition barrier (qubits : list nat) : cst () :=
  _ ← check_circuit (validate_distinct_qubits qubits); push_instruction (Barrier qubits).
Definition barrier_all : cst () :=
  n ← gets num_qubits; push_instruction (Barrier (seq 0 n)).

(** ** The Fourier transform *)

Definition enumerate {A} (l : list A) : list (nat * A) := zip (seq 0 (length l)) l.
Definition swap_ends (qubits : list nat) : cst () :=
  foldM (fun index _ => add_swap (nth index qubits O) (nth (length qubits - index - 1) qubits O))
        (seq 0 (length qubits / 2)) ().
Definition qft `{Libm} (qubits : list nat) : cst () :=
  _ ← check_circuit (validate_distinct_qubits qubits);
  _ ← foldM (fun e _ =>
        let '(index, target) := e in
        _ ← add_h target;
        foldM (fun o _ => let '(offset, control) := o in add_crk control target (offset - index + 1))
              (drop (index + 1) (enumerate qubits)) ()) (enumerate qubits) ();
  swap_ends qubits.
Definition iqft `{Libm} (qubits : list nat) : cst () :=
  _ ← check_circuit (validate_distinct_qubits qubits);
  _ ← swap_ends qubits;
  foldM (fun index _ =>
    let target := nth index qubits O in
    _ ← foldM (fun other _ => add2 (dagger (gate_crk (other - index + 1))) (nth other qubits O) target)
              (reverse (seq (index + 1) (length qubits - (index + 1)))) ();
    add_h target) (reverse (seq 0 (length qubits))) ().

(** ** Composition *)

(** [mapping[q]], which panics outside the mapping. *)
Definition mapped (mapping : option (list nat)) (q : nat) : option nat :=
  match mapping with None => Some q | Some m => m !! q end.

Definition append_instruction (i : Instruction) (mapping : option (list nat)) : stm Circuit (fault WarosError) () :=
  let panicking {A} (o : option A) : stm Circuit (fault WarosError) A :=
    match o with Some a => mret a | None => throw Panicked end in
  let lift {A} (m : cst A) : stm Circuit (fault WarosError) A :=
    fun c => let '(r, c') := m c in (map_err Raised r, c') in
  match i with
  | GateOp g targets =>
      ts ← panicking (mapM (mapped mapping) targets);
      lift (push_instruction (GateOp g ts))
  | ConditionalGate bits value g targets =>
      ts ← panicking (mapM (mapped mapping) targets);
      _ ← lift (ensure_classical_bits (foldr (fun b m => S b `max` m)%nat O bits));
      lift (push_instruction (ConditionalGate bits value g ts))
  | Measure qubit _ =>
      q ← panicking (mapped mapping qubit);
      _ ← lift (measure q); mret ()
  | Barrier qubits =>
      qs ← panicking (mapM (mapped mapping) qubits);
      lift (push_instruction (Barrier qs))
  end.

Definition append (other : Circuit) : stm Circuit (fault WarosError) () :=
  n ← gets num_qubits;
  if negb (bool_decide (n = num_qubits other)) then throw (Raised (CircuitQubitMismatch n (num_qubits other)))
  else foldM (fun i _ => append_instruction i None) (instructions other) ().

Definition compose (other : Circuit) (qubit_mapping : list nat) : stm Circuit (fault WarosError) () :=
  if negb (bool_decide (length qubit_mapping = num_qubits other))
  then throw (Raised (InvalidQubitMapping (length qubit_mapping) (num_qubits other)))
  else
    c ← gets id;
    _ ← lift_result (map_err Raised (validate_distinct_qubits qubit_mapping c));
    foldM (fun i _ => append_instruction i (Some qubit_mapping)) (instructions other) ().

(** [depth]: one layer per qubit. *)
Definition depth_step (i : Instruction) (acc : list nat * nat) : list nat * nat :=
  let '(layers, max_depth) := acc in
  match i with
  | GateOp _ targets | ConditionalGate _ _ _ targets =>
      let layer := S (foldr Nat.max O (map (fun t => nth t layers O) targets)) in
      (foldr (fun t ls => <[t := layer]> ls) layers targets, max_depth `max` layer)%nat
  | _ => (layers, max_depth)
  end.
Definition depth (c : Circuit) : nat :=
  (fold_left (fun acc i => depth_step i acc) (instructions c) (replicate (num_qubits c) O, O)).2.

(** ** Typing *)

Definition targets_wf (n : nat) (ts : list nat) : Prop := NoDup ts /\ Forall (fun t => t < n)%nat ts.
Definition instr_wf (n bits : nat) (i : Instruction) : Prop :=
  match i with
  | GateOp g ts => gate_num_qubits g = length ts /\ targets_wf n ts
  | ConditionalGate cbs _ g ts =>
      cbs <> [] /\ Forall (fun b => b < bits)%nat cbs /\ gate_num_qubits g = length ts /\ targets_wf n ts
  | Measure q b => (q < n /\ b < bits)%nat
  | Barrier qs => targets_wf n qs
  end.
Definition circuit_wf (c : Circuit) : Prop :=
  (0 < num_qubits c <= MAX_QUBITS)%nat /\ Forall (instr_wf (num_qubits c) (num_classical_bits c)) (instructions c).

(** What every builder does: it keeps circuits well formed and their width. *)
Definition grows (c c' : Circuit) : Prop :=
  num_qubits c' = num_qubits c /\ (num_classical_bits c <= num_classical_bits c')%nat.
Definition well_typed {E A} (m : stm Circuit E A) : Prop :=
  forall c, circuit_wf c -> circuit_wf (m c).2 /\ grows c (m c).2.

Lemma instr_wf_mono n b b' i : (b <= b')%nat -> instr_wf n b i -> instr_wf n b' i.
Proof.
  intros Hb. destruct i; cbn; try done.
  - intros (? & Hc & ?). split; [done|]. split; [|done]. eapply Forall_impl; [done|]. cbn. lia.
  - lia.
Qed.

Lemma well_typed_bind {E A B} (m : stm Circuit E A) (f : A -> stm Circuit E B) :
  well_typed m -> (forall a, well_typed (f a)) -> well_typed (m ≫= f).
Proof.
  intros Hm Hf c Hc. destruct (Hm c Hc) as (Hw & Hn & Hb). unfold mbind, stm_bind.
  destruct (m c) as [[a|e] c1]; cbn [snd] in *; [|done].
  destruct (Hf a c1 Hw) as (Hw2 & Hn2 & Hb2). split; [done|]. split; [congruence|lia].
Qed.
Lemma well_typed_same {E A} (m : stm Circuit E A) : (forall c, (m c).2 = c) -> well_typed m.
Proof. intros Hm c Hc. by rewrite Hm. Qed.
Lemma well_typed_ret {E A} (a : A) : well_typed (mret a : stm Circuit E A).
Proof. by apply well_typed_same. Qed.
Lemma well_typed_throw {E A} (e : E) : well_typed (throw e : stm Circuit E A).
Proof. by apply well_typed_same. Qed.
Lemma well_typed_gets {E A} (f : Circuit -> A) : well_typed (gets f : stm Circuit E A).
Proof. by apply well_typed_same. Qed.
Lemma well_typed_lift {E A} (r : result E A) : well_typed (lift_result r : stm Circuit E A).
Proof. by apply well_typed_same. Qed.
Lemma well_typed_check f : well_typed (check_circuit f).
Proof. by apply well_typed_same. Qed.
Lemma well_typed_foldM {E A B} (f : A -> B -> stm Circuit E B) l acc :
  (forall a b, a ∈ l -> well_typed (f a b)) -> well_typed (foldM f l acc).
Proof.
  revert acc. induction l as [|a l IH]; intros acc Hf; cbn [foldM]; [apply well_typed_ret|].
  apply well_typed_bind; [apply Hf; by left|]. intros b. apply IH. intros. apply Hf. by right.
Qed.

Lemma well_typed_ensure b : well_typed (ensure_classical_bits b).
Proof.
  intros c [Hn Hi]. cbn. unfold circuit_wf, grows. cbn. split; [|split; [done|lia]]. split; [done|].
  eapply Forall_impl; [exact Hi|]. intros i. apply instr_wf_mono. lia.
Qed.

(** Pushing an instruction that is well formed when it is pushed. *)
Lemma push_wf i c :
  circuit_wf c -> instr_wf (num_qubits c) (num_classical_bits c) i ->
  circuit_wf (push_instruction i c).2 /\ grows c (push_instruction i c).2.
Proof. intros [Hn Hi] Hwf. split; [|done]. split; [done|]. cbn. apply Forall_app. by repeat constructor. Qed.

Lemma validate_qubit_ok q c : validate_qubit q c = Ok () <-> (q < num_qubits c)%nat.
Proof. unfold validate_qubit. case_bool_decide; split; try done; lia. Qed.
Lemma validate_pair_ok q0 q1 c :
  validate_pair q0 q1 c = Ok () <-> targets_wf (num_qubits c) [q0; q1].
Proof.
  unfold validate_pair, targets_wf. rewrite !Forall_cons, NoDup_cons, list_elem_of_singleton, Forall_nil.
  destruct (validate_qubit q0 c) as [[]|] eqn:E0; cbn; [apply validate_qubit_ok in E0|];
    [destruct (validate_qubit q1 c) as [[]|] eqn:E1; cbn; [apply validate_qubit_ok in E1|]|].
  - case_bool_decide; split; try done; [naive_solver|]. intros _. split; [split; [done|apply NoDup_singleton]|done].
  - split; [done|]. intros (_ & _ & Hq & _). apply validate_qubit_ok in Hq. congruence.
  - split; [done|]. intros (_ & Hq & _). apply validate_qubit_ok in Hq. congruence.
Qed.
Lemma validate_distinct_ok qs c : validate_distinct_qubits qs c = Ok () <-> targets_wf (num_qubits c) qs.
Proof.
  induction qs as [|q qs IH]; cbn [validate_distinct_qubits]; [by split; [repeat constructor|]|].
  unfold targets_wf in *. rewrite NoDup_cons, Forall_cons.
  destruct (validate_qubit q c) as [[]|] eqn:E; cbn; [apply validate_qubit_ok in E|].
  - case_bool_decide; [split; [done|tauto]|]. rewrite IH. tauto.
  - split; [done|]. intros (_ & Hq & _). apply validate_qubit_ok in Hq. congruence.
Qed.
Lemma validate_classical_ok bs c :
  validate_classical_bits bs c = Ok () <-> Forall (fun b => b < num_classical_bits c)%nat bs.
Proof.
  induction bs as [|b bs IH]; cbn [validate_classical_bits]; [by split; [constructor|]|]. rewrite Forall_cons.
  case_bool_decide; [split; [done|]; lia|]. rewrite IH. split; [|tauto]. intros. split; [lia|done].
Qed.

(** A computation behind a check, and a checked push. *)
Lemma well_typed_after {A} f (m : cst A) :
  (forall c, circuit_wf c -> f c = Ok () -> circuit_wf (m c).2 /\ grows c (m c).2) ->
  well_typed (_ ← check_circuit f; m).
Proof.
  intros Hm c Hc. specialize (Hm c Hc). unfold mbind, stm_bind, check_circuit.
  destruct (f c) as [[]|e]; [by apply Hm|done].
Qed.
Lemma well_typed_checked f i :
  (forall c, circuit_wf c -> f c = Ok () -> instr_wf (num_qubits c) (num_classical_bits c) i) ->
  well_typed (_ ← check_circuit f; push_instruction i).
Proof. intros Hf. apply well_typed_after. intros c Hc Hok. apply push_wf; auto. Qed.

Lemma well_typed_add1 g q : gate_num_qubits g = 1%nat -> well_typed (add1 g q).
Proof.
  intros Hg. apply well_typed_checked. intros c _ Hq%validate_qubit_ok. split; [done|].
  split; [apply NoDup_singleton|by repeat constructor].
Qed.
Lemma well_typed_add2 g q0 q1 : gate_num_qubits g = 2%nat -> well_typed (add2 g q0 q1).
Proof. intros Hg. apply well_typed_checked. intros c _ Hq%validate_pair_ok. by split. Qed.
Lemma well_typed_custom g ts : well_typed (custom_gate g ts).
Proof.
  unfold custom_gate. case_bool_decide as Hw; [|apply well_typed_throw]. cbn [negb].
  case_bool_decide; [|apply well_typed_throw]. cbn [negb].
  apply well_typed_checked. intros c _ Ht%validate_distinct_ok. by split.
Qed.
Lemma well_typed_conditional bs v g ts : well_typed (conditional_gate bs v g ts).
Proof.
  unfold conditional_gate. case_bool_decide as Hb; [apply well_typed_throw|].
  apply well_typed_after. intros c Hc Hcb%validate_classical_ok.
  case_bool_decide as Hw; cbn [negb]; [|done].
  unfold mbind, stm_bind. cbn [check_circuit].
  destruct (validate_distinct_qubits ts c) as [[]|] eqn:Et; [|done].
  apply validate_distinct_ok in Et. by apply push_wf.
Qed.
Lemma well_typed_measure q : well_typed (measure q).
Proof.
  intros c Hc. unfold measure, mbind, stm_bind, check_circuit.
  destruct (validate_qubit q c) as [[]|] eqn:E; [|done]. apply validate_qubit_ok in E. cbn.
  destruct Hc as [Hn Hi]. unfold circuit_wf, grows. cbn. split; [|split; [done|lia]]. split; [done|].
  apply Forall_app. split; [|repeat constructor; cbn; lia].
  eapply Forall_impl; [exact Hi|]. intros i. apply instr_wf_mono. lia.
Qed.
Lemma well_typed_measure_into q b : well_typed (measure_into q b).
Proof.
  apply well_typed_after. intros c Hc Hq%validate_qubit_ok. erewrite bind_Ok by reflexivity.
  pose proof (well_typed_ensure (S b) c Hc) as [Hw Hg]. cbn [ensure_classical_bits modify snd] in Hw, Hg.
  destruct (push_wf (Measure q b) _ Hw) as [Hw2 Hg2]; [cbn; lia|]. split; [exact Hw2|].
  unfold grows in *. cbn in *. lia.
Qed.
Lemma well_typed_barrier qs : well_typed (barrier qs).
Proof. apply well_typed_checked. by intros c _ Ht%validate_distinct_ok. Qed.
Lemma well_typed_barrier_all : well_typed barrier_all.
Proof.
  intros c Hc. unfold barrier_all. erewrite bind_Ok by reflexivity. apply push_wf; [done|].
  split; [apply NoDup_seq|]. apply Forall_forall. intros t Ht%elem_of_seq. lia.
Qed.

Create HintDb typed.
#[export] Hint Resolve well_typed_ret well_typed_throw well_typed_gets well_typed_lift well_typed_check
  well_typed_ensure well_typed_add1 well_typed_add2 well_typed_custom well_typed_conditional
  well_typed_measure well_typed_measure_into well_typed_barrier well_typed_barrier_all : typed.
#[export] Hint Extern 1 (gate_num_qubits _ = _) => reflexivity : typed.
Ltac well_typed :=
  repeat first [solve [auto with typed] | apply well_typed_bind; [|intros ?] | apply well_typed_foldM; intros ? ? ?
                | match goal with |- context [let '(_, _) := ?e in _] => destruct e end].

(** ** Composition is total on well-formed circuits *)

(** [mapping] sends [n'] qubits into [n], one to one. *)
Definition mapping_ok (n' n : nat) (mapping : option (list nat)) : Prop :=
  match mapping with None => n' = n | Some m => length m = n' /\ targets_wf n m end.

Lemma mapped_lt n' n mapping q : mapping_ok n' n mapping -> (q < n')%nat ->
  exists q', mapped mapping q = Some q' /\ (q' < n)%nat.
Proof.
  destruct mapping as [m|]; cbn.
  - intros [Hl [_ Hm]] Hq. destruct (lookup_lt_is_Some_2 m q) as [q' Hq']; [lia|].
    exists q'. split; [done|]. by apply (Forall_lookup_1 _ _ _ _ Hm Hq').
  - intros -> Hq. eauto.
Qed.
Lemma mapped_inj n' n mapping q1 q2 q : mapping_ok n' n mapping ->
  mapped mapping q1 = Some q -> mapped mapping q2 = Some q -> q1 = q2.
Proof. destruct mapping as [m|]; cbn; [|naive_solver]. intros [_ [Hm _]] H1 H2. by eapply NoDup_lookup. Qed.

Lemma mapped_targets n' n mapping ts : mapping_ok n' n mapping -> targets_wf n' ts ->
  exists ts', mapM (mapped mapping) ts = Some ts' /\ targets_wf n ts' /\ length ts' = length ts.
Proof.
  intros Hmap [Hnd Hlt]. destruct (mapM (mapped mapping) ts) as [ts'|] eqn:E.
  - apply mapM_Some in E. exists ts'. split_and!; [done| |by apply Forall2_length in E]. split.
    + clear Hlt. induction E as [|q q' ts ts' Hq E IH]; [constructor|]. apply NoDup_cons in Hnd as [Hin Hnd].
      apply NoDup_cons. split; [|by apply IH]. intros [k Hk]%list_elem_of_lookup. destruct (Forall2_lookup_r _ _ _ _ _ E Hk) as (q2 & Hq2 & Hm2).
      apply Hin. rewrite (mapped_inj _ _ _ _ _ _ Hmap Hq Hm2). by eapply list_elem_of_lookup_2.
    + clear Hnd. induction E as [|q q' ts ts' Hq E IH]; [constructor|]. apply Forall_cons in Hlt as [Hl Hlt].
      destruct (mapped_lt _ _ _ _ Hmap Hl) as (q2 & H2 & ?). constructor; [naive_solver|by apply IH].
  - exfalso. apply mapM_None in E. apply Exists_exists in E as (q & Hq & Hm).
    rewrite Forall_forall in Hlt. destruct (mapped_lt _ _ _ _ Hmap (Hlt q Hq)) as (q2 & H2 & _). congruence.
Qed.

Lemma max_bits_le bs b : b ∈ bs -> (S b <= foldr (fun b m => S b `max` m) 0 bs)%nat.
Proof. induction bs as [|x bs IH]; intros Hb; [by apply elem_of_nil in Hb|]. apply elem_of_cons in Hb as [->|Hb]; cbn; [lia|]. specialize (IH Hb). lia. Qed.

Lemma append_instruction_ok n' bits i mapping c :
  mapping_ok n' (num_qubits c) mapping -> instr_wf n' bits i -> circuit_wf c ->
  exists c', append_instruction i mapping c = (Ok (), c') /\ circuit_wf c' /\ grows c c'.
Proof.
  intros Hmap Hi Hc. destruct i as [g ts|cbs v g ts|q b|qs]; cbn [instr_wf append_instruction] in *.
  - destruct Hi as [Hg Hts]. destruct (mapped_targets _ _ _ _ Hmap Hts) as (ts' & -> & Hts' & Hl).
    destruct (push_wf (GateOp g ts') c Hc) as [Hw Hgr]; [by split; [congruence|]|]. eexists. split; [reflexivity|done].
  - destruct Hi as (Hne & Hb & Hg & Hts). destruct (mapped_targets _ _ _ _ Hmap Hts) as (ts' & -> & Hts' & Hl).
    destruct (well_typed_ensure (foldr (fun b m => S b `max` m)%nat O cbs) c Hc) as [Hw1 [Hn1 Hb1]].
    destruct (push_wf (ConditionalGate cbs v g ts') _ Hw1) as [Hw2 [Hn2 Hb2]].
    { cbn. split_and!; [done| |congruence|done]. apply Forall_forall. intros x Hx%max_bits_le. lia. }
    eexists. split; [reflexivity|]. split; [exact Hw2|]. split; [done|]. cbn in *. lia.
  - destruct Hi as [Hq _]. destruct (mapped_lt _ _ _ _ Hmap Hq) as (q' & -> & Hq').
    destruct (well_typed_measure q' c Hc) as [Hw Hgr]. unfold measure, mbind, stm_bind, check_circuit in Hw, Hgr.
    rewrite (proj2 (validate_qubit_ok q' c) Hq') in Hw, Hgr.
    eexists. split; [|split; [exact Hw|exact Hgr]]. unfold measure, mbind, stm_bind, check_circuit, mret, stm_ret.
    by rewrite (proj2 (validate_qubit_ok q' c) Hq').
  - destruct (mapped_targets _ _ _ _ Hmap Hi) as (qs' & -> & Hqs' & _).
    destruct (push_wf (Barrier qs') c Hc) as [Hw Hgr]; [done|]. eexists. split; [reflexivity|done].
Qed.

Lemma append_all_ok n' bits ins mapping c :
  mapping_ok n' (num_qubits c) mapping -> Forall (instr_wf n' bits) ins -> circuit_wf c ->
  exists c', foldM (fun i _ => append_instruction i mapping) ins () c = (Ok (), c') /\ circuit_wf c' /\ grows c c'.
Proof.
  revert c. induction ins as [|i ins IH]; intros c Hmap Hall Hc; [by exists c|]. apply Forall_cons in Hall as [Hi Hall].
  destruct (append_instruction_ok _ _ _ _ _ Hmap Hi Hc) as (c1 & E1 & Hw1 & Hn1 & Hb1).
  destruct (IH c1) as (c2 & E2 & Hw2 & Hn2 & Hb2); [by rewrite Hn1|done..|].
  exists c2. cbn [foldM]. erewrite bind_Ok by done. split_and!; [done|done|]. split; [congruence|lia].
Qed.

Lemma append_spec other c : circuit_wf other -> circuit_wf c ->
  exists c', append other c =
    (if decide (num_qubits c = num_qubits other) then Ok () else Err (Raised (CircuitQubitMismatch (num_qubits c) (num_qubits other))), c')
    /\ circuit_wf c' /\ grows c c'.
Proof.
  intros [_ Ho] Hc. unfold append. erewrite bind_Ok by reflexivity. case_bool_decide as Hn; cbn [negb].
  - rewrite decide_True by done. eapply append_all_ok; [|exact Ho|done]. done.
  - rewrite decide_False by done. by exists c.
Qed.
Lemma compose_spec other m c : circuit_wf other -> circuit_wf c ->
  exists r c', compose other m c = (r, c') /\ circuit_wf c' /\ grows c c' /\ r <> Err Panicked /\
    (r = Ok () <-> length m = num_qubits other /\ targets_wf (num_qubits c) m).
Proof.
  intros [_ Ho] Hc. unfold compose. case_bool_decide as Hn; cbn [negb].
  - erewrite bind_Ok by reflexivity. unfold mbind, stm_bind, lift_result. cbn [id].
    destruct (validate_distinct_qubits m c) as [[]|e] eqn:E; cbn [map_err].
    + apply validate_distinct_ok in E.
      destruct (append_all_ok (num_qubits other) (num_classical_bits other) (instructions other) (Some m) c) as (c' & E' & ?);
        [done..|]. eexists _, c'. split; [exact E'|]. destruct_and!. split_and!; done.
    + eexists _, c. split; [reflexivity|]. split_and!; try done.
      split; [done|]. intros [_ Hm%validate_distinct_ok]. congruence.
  - eexists _, c. split; [reflexivity|]. split_and!; try done. split; [done|]. by intros [? _].
Qed.

(** ** Every circuit that can be built is well typed *)

Inductive circuit_op : Type :=
  | OpH (q : nat) | OpX (q : nat) | OpZ (q : nat) | OpT (q : nat) | OpTdg (q : nat) | OpRz (q : nat) (theta : f64)
  | OpCnot (q0 q1 : nat) | OpSwap (q0 q1 : nat) | OpToffoli (q0 q1 q2 : nat)
  | OpY (q : nat) | OpS (q : nat) | OpSdg (q : nat) | OpSx (q : nat) | OpRx (q : nat) (theta : f64) | OpRy (q : nat) (theta : f64)
  | OpU3 (q : nat) (theta phi lambda : f64) | OpCz (q0 q1 : nat) | OpCy (q0 q1 : nat) | OpRzz (q0 q1 : nat) (theta : f64)
  | OpCrk (control target k : nat) | OpQft (qs : list nat) | OpIqft (qs : list nat)
  | OpCustom (g : Gate) (ts : list nat) | OpConditional (bits : list nat) (value : Z) (g : Gate) (ts : list nat)
  | OpMeasure (q : nat) | OpMeasureInto (q b : nat) | OpMeasureAll | OpBarrier (qs : list nat) | OpBarrierAll.

Section built.
Context `{Libm}.

Definition ignore {A} (m : cst A) : cst () := _ ← m; mret ().
Definition run_circuit_op (op : circuit_op) : cst () :=
  match op with
  | OpH q => add_h q | OpX q => add_x q | OpZ q => add_z q | OpT q => add_t q | OpTdg q => add_tdg q
  | OpRz q theta => add_rz q theta | OpCnot q0 q1 => add_cnot q0 q1 | OpSwap q0 q1 => add_swap q0 q1
  | OpY q => add_y q | OpS q => add_s q | OpSdg q => add_sdg q | OpSx q => add_sx q
  | OpRx q theta => add_rx q theta | OpRy q theta => add_ry q theta | OpU3 q theta phi lambda => add_u3 q theta phi lambda
  | OpCz q0 q1 => add_cz q0 q1 | OpCy q0 q1 => add_cy q0 q1 | OpRzz q0 q1 theta => add_rzz q0 q1 theta
  | OpCrk control target k => add_crk control target k | OpQft qs => qft qs | OpIqft qs => iqft qs
  | OpToffoli q0 q1 q2 => toffoli q0 q1 q2 | OpCustom g ts => custom_gate g ts
  | OpConditional bs v g ts => conditional_gate bs v g ts | OpMeasure q => ignore (measure q)
  | OpMeasureInto q b => measure_into q b | OpMeasureAll => measure_all | OpBarrier qs => barrier qs
  | OpBarrierAll => barrier_all
  end.

Inductive built : Circuit -> Prop :=
  | built_new n bits c : with_classical_bits n bits = Ok c -> built c
  | built_op op c : built c -> built (run_circuit_op op c).2
  | built_append other c : built other -> built c -> built (append other c).2
  | built_compose other m c : built other -> built c -> built (compose other m c).2.

Lemma new_wf n bits c : with_classical_bits n bits = Ok c -> circuit_wf c.
Proof.
  unfold with_classical_bits, circuit_new. repeat case_bool_decide; cbn; intros E; simplify_eq.
  split; [cbn; lia|constructor].
Qed.

Lemma well_typed_op op : well_typed (run_circuit_op op).
Proof.
  destruct op; cbn [run_circuit_op]; unfold toffoli, qft, iqft, swap_ends, ignore, measure_all, add_h, add_x, add_z, add_t,
    add_tdg, add_rz, add_cnot, add_swap, add_y, add_s, add_sdg, add_sx, add_rx, add_ry, add_u3, add_cz, add_cy, add_rzz, add_crk;
    well_typed.
Qed.

End built.

(** ** Appending a circuit that uses its own measurement *)

(** Measure qubit 0 and flip qubit 1 if the outcome is 1. *)
Definition feedback : cst () :=
  _ ← measure 0; conditional_gate [0%nat] 1 gate_x [1%nat].

(** Appending redirects measurements but not the conditions that read them.
    When a circuit that measures and then acts on the outcome is appended to one
    that already has classical bits, the outcome goes to a new bit, but the
    condition still reads bit 0, which belongs to the first circuit. *)
Theorem append_misreads_outcome c k :
  (1 < num_qubits c <= MAX_QUBITS)%nat -> num_classical_bits c = S k ->
  exists own, feedback (mkCircuit (num_qubits c) 0 []) = (Ok (), own) /\
    instructions own = [Measure 0 0; ConditionalGate [0%nat] 1 gate_x [1%nat]] /\
    instructions (append own c).2 = instructions c ++ [Measure 0 (S k); ConditionalGate [0%nat] 1 gate_x [1%nat]].
Proof.
  destruct c as [n b is0]. cbn [num_qubits num_classical_bits instructions]. intros Hn ->.
  assert (forall b i, validate_qubit 0 (mkCircuit n b i) = Ok ()) as H0 by (intros; apply validate_qubit_ok; cbn; lia).
  assert (forall b i, validate_distinct_qubits [1%nat] (mkCircuit n b i) = Ok ()) as H1.
  { intros. apply validate_distinct_ok. split; [apply NoDup_singleton|]. repeat constructor. cbn. lia. }
  assert (forall i, validate_classical_bits [0%nat] (mkCircuit n 1 i) = Ok ()) as Hc.
  { intros. apply validate_classical_ok. repeat constructor. }
  exists (mkCircuit n 1 [Measure 0 0; ConditionalGate [0%nat] 1 gate_x [1%nat]]). split_and!; [|done|].
  - unfold feedback, measure, conditional_gate, check_circuit, mbind, stm_bind. rewrite H0.
    cbn -[validate_distinct_qubits validate_classical_bits]. rewrite Hc. cbn -[validate_distinct_qubits]. rewrite bool_decide_true by done. cbn [negb]. by rewrite H1.
  - unfold append. erewrite bind_Ok by reflexivity. cbn [num_qubits]. rewrite bool_decide_true by done. cbn [negb].
    unfold append_instruction, measure, check_circuit, mbind, stm_bind. cbn -[validate_qubit]. unfold mbind, stm_bind, mret, stm_ret. cbn -[validate_qubit]. rewrite H0. cbn.
    by rewrite <- app_assoc.
Qed.

Lemma append_misreads_outcome_witness :
  exists own, instructions (append own (mkCircuit 2 1 [Measure 1 0])).2 =
    [Measure 1 0; Measure 0 1; ConditionalGate [0%nat] 1 gate_x [1%nat]].
Proof.
  destruct (append_misreads_outcome (mkCircuit 2 1 [Measure 1 0]) 0) as (own & _ & _ & E);
    [split; repeat constructor|reflexivity|].
  exists own. exact E.
Defined.

(** ** A run *)

Definition no_libm : Libm := {| f_cos := fun _ => f64_one; f_sin := fun _ => f64_zero |}.

