(* ===== verification/CircuitOpt.v ===== *)
(** * The circuit optimiser (crates/waros-quantum/src/optimizer/mod.rs)

    One pass over the instructions that cancels neighbouring inverse gates and
    merges neighbouring rotations.  It recognises gates by their names: shown
    here to be sound for the fixed gates, in every interpretation in which they
    have the inverses their names say, and to lose angles of rotations, whose
    names have three decimals. *)
From S2P Require Import Prelude RustStr RustParse Float64 Circuit.

Definition ROTATION_EPSILON : f64 := f64_of_decimal false 1 (-9).

Record OptimizationStats : Type := mkStats {
  original_gate_count : nat;
  optimized_gate_count : nat;
  gates_removed : nat;
  reduction_percent : f64;
}.
Definition count_to_f64 (value : nat) : f64 := f64_of_Z (Z.min (Z.of_nat value) u32_max).
Definition stats_from_counts (original optimized : nat) : OptimizationStats :=
  let removed := (original - optimized)%nat in
  mkStats original optimized removed
    (if bool_decide (original = 0%nat) then f64_zero
     else fmul (fdiv (count_to_f64 removed) (count_to_f64 original)) (f64_of_Z 100)).

Definition SELF_INVERSE : list bytes := map str ["H"; "X"; "Y"; "Z"; "CNOT"; "CZ"; "SWAP"]%string.
Definition is_self_inverse (previous current : Gate) : bool :=
  bool_decide (gate_name previous = gate_name current) && bool_decide (gate_name previous ∈ SELF_INVERSE).
Definition is_inverse_pair (previous current : Gate) : bool :=
  bool_decide ((gate_name previous, gate_name current) ∈
    [(str "S", str "Sdg"); (str "Sdg", str "S"); (str "T", str "Tdg"); (str "Tdg", str "T")]).

Definition try_cancel_pair (previous current : Instruction) : bool :=
  match previous, current with
  | GateOp pg pt, GateOp cg ct => bool_decide (pt = ct) && (is_self_inverse pg cg || is_inverse_pair pg cg)
  | _, _ => false
  end.

(** [text.strip_suffix(')')]. *)
Definition strip_paren (text : bytes) : option bytes :=
  if ends_with_byte text x29 then Some (take (length text - 1) text) else None.
Fixpoint axis_and_angle (axes : list byte) (name : bytes) : option (byte * f64) :=
  match axes with
  | [] => None
  | axis :: axes' =>
      match strip_prefix (str "R" ++ [axis] ++ str "(") name ≫= strip_paren with
      | Some text => angle ← parse_f64 text; Some (axis, angle)
      | None => axis_and_angle axes' name
      end
  end.
Definition rotation_axis_and_angle (g : Gate) : option (byte * f64) := axis_and_angle (str "xyz") (gate_name g).

Section optimizer.
Context `{Libm}.

Definition rotation_gate (axis : byte) (angle : f64) : Gate :=
  if bool_decide (axis = x78) then gate_rx angle
  else if bool_decide (axis = x79) then gate_ry angle else gate_rz angle.

(** The instruction that replaces [previous], if the two merge. *)
Definition try_merge_rotations (previous current : Instruction) : option Instruction :=
  match previous, current with
  | GateOp pg pt, GateOp cg ct =>
      if bool_decide (pt <> ct \/ gate_num_qubits pg <> 1%nat \/ gate_num_qubits cg <> 1%nat) then None
      else
        '(axis, previous_angle) ← rotation_axis_and_angle pg;
        '(current_axis, current_angle) ← rotation_axis_and_angle cg;
        if bool_decide (axis <> current_axis) then None
        else
          let merged_angle := fadd previous_angle current_angle in
          if fleb (fabs merged_angle) ROTATION_EPSILON then Some (Barrier [])
          else Some (GateOp (rotation_gate axis merged_angle) pt)
  | _, _ => None
  end.

(** The output so far is kept with its last instruction first. *)
Definition optimize_step (optimized : list Instruction) (current : Instruction) : list Instruction :=
  match optimized with
  | previous :: rest =>
      if try_cancel_pair previous current then rest
      else match try_merge_rotations previous current with
           | Some merged => merged :: rest
           | None => current :: optimized
           end
  | [] => [current]
  end.
Definition optimize_instructions (l : list Instruction) : list Instruction :=
  reverse (fold_left optimize_step l []).

Definition rebuild_instruction (i : Instruction) : cst () :=
  match i with
  | GateOp g targets => custom_gate g targets
  | ConditionalGate bits value g targets => conditional_gate bits value g targets
  | Measure qubit bit => measure_into qubit bit
  | Barrier qubits => if bool_decide (qubits <> []) then barrier qubits else mret ()
  end.
Definition rebuild_circuit (template : Circuit) (l : list Instruction) : result WarosError Circuit :=
  c ← with_classical_bits (num_qubits template) (num_classical_bits template);
  let '(r, c') := foldM (fun i _ => rebuild_instruction i) l () c in
  _ ← r; Ok c'.

Definition optimize (c : Circuit) : result WarosError (Circuit * OptimizationStats) :=
  optimized ← rebuild_circuit c (optimize_instructions (instructions c));
  Ok (optimized, stats_from_counts (gate_count c) (gate_count optimized)).

(** ** Rebuilding *)

(** What the simulators can run: gates of one or two qubits. *)
Definition narrow (i : Instruction) : Prop :=
  match i with GateOp g _ => (1 <= gate_num_qubits g <= 2)%nat | _ => True end.
Definition no_op (i : Instruction) : bool := match i with Barrier [] => true | _ => false end.

Lemma rebuild_instruction_ok i c :
  instr_wf (num_qubits c) (num_classical_bits c) i -> narrow i ->
  rebuild_instruction i c =
    (Ok (), mkCircuit (num_qubits c) (num_classical_bits c) (instructions c ++ if no_op i then [] else [i])).
Proof.
  destruct i as [g ts|bs v g ts|q b|qs]; cbn [instr_wf narrow no_op rebuild_instruction].
  - intros [Hg Ht] Hn. unfold custom_gate. rewrite !bool_decide_true by done. cbn [negb].
    unfold mbind, stm_bind, check_circuit. by rewrite (proj2 (validate_distinct_ok ts c) Ht).
  - intros (Hne & Hb & Hg & Ht) _. unfold conditional_gate. rewrite bool_decide_false by done.
    unfold mbind, stm_bind, check_circuit. rewrite (proj2 (validate_classical_ok bs c) Hb), bool_decide_true by done.
    cbn [negb]. by rewrite (proj2 (validate_distinct_ok ts c) Ht).
  - intros [Hq Hb] _. unfold measure_into, mbind, stm_bind, check_circuit. rewrite (proj2 (validate_qubit_ok q c) Hq).
    cbn -[Nat.max]. by rewrite Nat.max_l by lia.
  - intros Ht _. destruct qs as [|q qs].
    + rewrite bool_decide_false by auto. rewrite app_nil_r. by destruct c.
    + rewrite bool_decide_true by done. unfold barrier, mbind, stm_bind, check_circuit.
      by rewrite (proj2 (validate_distinct_ok (q :: qs) c) Ht).
Qed.

Lemma rebuild_all_ok l c :
  Forall (instr_wf (num_qubits c) (num_classical_bits c)) l -> Forall narrow l ->
  foldM (fun i _ => rebuild_instruction i) l () c =
    (Ok (), mkCircuit (num_qubits c) (num_classical_bits c) (instructions c ++ List.filter (fun i => negb (no_op i)) l)).
Proof.
  revert c. induction l as [|i l IH]; intros c Hwf Hn; cbn [foldM List.filter]; [rewrite app_nil_r; by destruct c|].
  apply Forall_cons in Hwf as [Hi Hwf]. apply Forall_cons in Hn as [Hni Hn].
  erewrite bind_Ok by (by apply rebuild_instruction_ok). rewrite IH by done. cbn [num_qubits num_classical_bits instructions].
  rewrite <- app_assoc. by destruct (no_op i).
Qed.

(** Each instruction of the output is one of the input, a merged rotation or an
    empty barrier. *)
Lemma optimize_step_wf (P : Instruction -> Prop) st i :
  (forall p q m, try_merge_rotations p q = Some m -> P p -> P m) ->
  Forall P st -> P i -> Forall P (optimize_step st i).
Proof.
  intros Hm Hst Hi. unfold optimize_step. destruct st as [|p rest]; [by repeat constructor|].
  apply Forall_cons in Hst as [Hp Hrest]. destruct (try_cancel_pair p i); [done|].
  destruct (try_merge_rotations p i) as [m|] eqn:E; [constructor; [by eapply Hm|done]|by repeat constructor].
Qed.

Lemma merged_wf n b p q m :
  try_merge_rotations p q = Some m -> instr_wf n b p /\ narrow p -> instr_wf n b m /\ narrow m.
Proof.
  intros E [Hwf Hn]. destruct p as [pg pt| | |]; try done. destruct q as [cg ct| | |]; try done.
  cbn [try_merge_rotations] in E. case_bool_decide as Hc; [done|].
  destruct (rotation_axis_and_angle pg) as [[axis a]|]; cbn [mbind option_bind] in E; [|done].
  destruct (rotation_axis_and_angle cg) as [[axis' a']|]; cbn [mbind option_bind] in E; [|done]. case_bool_decide; [done|].
  destruct (fleb _ _); simplify_eq.
  - split; [split; constructor|done].
  - assert (gate_num_qubits (rotation_gate axis' (fadd a a')) = 1%nat) as Hr.
    { unfold rotation_gate. by repeat case_bool_decide. }
    cbn [instr_wf narrow] in *. rewrite Hr. destruct Hwf as [Hg Ht].
    assert (gate_num_qubits pg = 1%nat) by (destruct (decide (gate_num_qubits pg = 1%nat)); tauto). split; [split; [lia|done]|lia].
Qed.

Lemma optimize_ok c :
  circuit_wf c -> Forall narrow (instructions c) ->
  rebuild_circuit c (optimize_instructions (instructions c)) =
    Ok (mkCircuit (num_qubits c) (num_classical_bits c)
          (List.filter (fun i => negb (no_op i)) (optimize_instructions (instructions c)))).
Proof.
  intros [Hn Hwf] Hnar. unfold rebuild_circuit, with_classical_bits, circuit_new.
  rewrite !bool_decide_false by lia. cbn [mbind result_bind num_qubits instructions].
  assert (Forall (fun i => instr_wf (num_qubits c) (num_classical_bits c) i /\ narrow i)
            (optimize_instructions (instructions c))) as Hall.
  { unfold optimize_instructions. apply Forall_reverse.
    assert (Forall (fun i => instr_wf (num_qubits c) (num_classical_bits c) i /\ narrow i) (instructions c)) as Hin
      by (apply Forall_and; done).
    assert (Forall (fun i => instr_wf (num_qubits c) (num_classical_bits c) i /\ narrow i) []) as Hst by constructor.
    clear Hwf Hnar. revert Hst. generalize (@nil Instruction). induction Hin as [|i l Hi Hl IH]; intros st Hst; [done|]. apply IH.
    apply optimize_step_wf; [|done|done]. intros p q m. apply merged_wf. }
  apply Forall_and in Hall as [Hall1 Hall2]. by rewrite (rebuild_all_ok _ (mkCircuit _ _ [])).
Qed.
End optimizer.

(** ** Soundness on fixed gates *)

(** A meaning of circuits on states [S]; what a measurement observes is part of
    the state. *)
Class Meaning (S : Type) : Type := {
  do_gate : Gate -> list nat -> S -> S;
  do_conditional : list nat -> Z -> Gate -> list nat -> S -> S;
  do_measure : nat -> nat -> S -> S;
}.
Definition do_instruction {S} `{Meaning S} (i : Instruction) (s : S) : S :=
  match i with
  | GateOp g ts => do_gate g ts s
  | ConditionalGate bs v g ts => do_conditional bs v g ts s
  | Measure q b => do_measure q b s
  | Barrier _ => s
  end.
Definition do_instructions {S} `{Meaning S} (l : list Instruction) (s : S) : S :=
  fold_left (fun s i => do_instruction i s) l s.

Definition FIXED `{Libm} : list Gate :=
  [gate_x; gate_y; gate_z; gate_h; gate_s; gate_sdg; gate_t; gate_tdg; gate_sx; gate_cnot; gate_cz; gate_swap; gate_cy].
(** The gate identities: each of these gates is undone by the other. *)
Definition INVERSES `{Libm} : list (Gate * Gate) :=
  [(gate_x, gate_x); (gate_y, gate_y); (gate_z, gate_z); (gate_h, gate_h); (gate_s, gate_sdg); (gate_sdg, gate_s);
   (gate_t, gate_tdg); (gate_tdg, gate_t); (gate_cnot, gate_cnot); (gate_cz, gate_cz); (gate_swap, gate_swap)].
Class GateIdentities (S : Type) `{Libm, Meaning S} : Prop :=
  gate_inverse g1 g2 ts (s : S) : (g1, g2) ∈ INVERSES -> do_gate g2 ts (do_gate g1 ts s) = s.

Definition fixed `{Libm} (i : Instruction) : Prop := match i with GateOp g _ => g ∈ FIXED | _ => True end.

Section sound.
Context `{Libm} {S : Type} `{!Meaning S} `{!GateIdentities S}.

(** The names decide correctly among the fixed gates. *)
Lemma names_cancel g1 g2 :
  g1 ∈ FIXED -> g2 ∈ FIXED -> is_self_inverse g1 g2 || is_inverse_pair g1 g2 = true -> (g1, g2) ∈ INVERSES.
Proof.
  intros H1 H2. revert g2 H2. revert g1 H1.
  assert (Forall (fun g1 => Forall (fun g2 => is_self_inverse g1 g2 || is_inverse_pair g1 g2 = true -> (g1, g2) ∈ INVERSES) FIXED) FIXED) as Hall.
  2: { intros g1 H1 g2 H2. exact (Forall_elem _ _ _ (Forall_elem _ _ _ Hall H1) H2). }
  repeat first [apply List.Forall_nil | apply List.Forall_cons];
    solve [intros E; vm_compute in E; discriminate E | intros _; unfold INVERSES; repeat first [left | right]].
Qed.
Lemma fixed_not_rotation g : g ∈ FIXED -> rotation_axis_and_angle g = None.
Proof. intros Hg. revert g Hg. assert (Forall (fun g => rotation_axis_and_angle g = None) FIXED) as Hall by (repeat constructor). intros. by apply (Forall_elem _ _ _ Hall). Qed.

Lemma do_instructions_app l1 l2 (s : S) : do_instructions (l1 ++ l2) s = do_instructions l2 (do_instructions l1 s).
Proof. apply fold_left_app. Qed.

Lemma optimize_step_sound st i (s : S) :
  Forall fixed st -> fixed i ->
  do_instructions (reverse (optimize_step st i)) s = do_instruction i (do_instructions (reverse st) s) /\
  Forall fixed (optimize_step st i).
Proof.
  intros Hst Hi. unfold optimize_step. destruct st as [|p rest]; [split; [done|by repeat constructor]|].
  pose proof Hst as Hst'. apply Forall_cons in Hst' as [Hp Hrest].
  destruct (try_cancel_pair p i) eqn:Ec.
  - split; [|done]. destruct p as [g1 t1| | |]; try done. destruct i as [g2 t2| | |]; try done.
    cbn [try_cancel_pair] in Ec. apply andb_true_iff in Ec as [Et Ec]. apply bool_decide_eq_true in Et as ->.
    rewrite reverse_cons, do_instructions_app. cbn. by rewrite gate_inverse by (by apply names_cancel).
  - assert (try_merge_rotations p i = None) as ->.
    { destruct p as [g1 t1| | |]; try done. destruct i as [g2 t2| | |]; try done. cbn [try_merge_rotations].
      case_bool_decide; [done|]. by rewrite (fixed_not_rotation g1 Hp). }
    split; [|by repeat constructor]. by rewrite (reverse_cons (p :: rest)), do_instructions_app.
Qed.

Lemma optimize_instructions_sound l (s : S) :
  Forall fixed l -> do_instructions (optimize_instructions l) s = do_instructions l s.
Proof.
  intros Hl. unfold optimize_instructions.
  assert (forall st s0, Forall fixed st -> do_instructions (reverse st) s = s0 ->
    do_instructions (reverse (fold_left optimize_step l st)) s = do_instructions l s0) as Hgen.
  2: { by apply Hgen. }
  induction Hl as [|i l Hi Hl IH]; intros st s0 Hst Hs; [done|]. cbn [fold_left].
  destruct (optimize_step_sound st i s Hst Hi) as [E Hst2]. apply IH; [done|]. by rewrite E, Hs.
Qed.

Lemma do_instructions_filter l (s : S) :
  do_instructions (List.filter (fun i => negb (no_op i)) l) s = do_instructions l s.
Proof.
  unfold do_instructions. revert s. induction l as [|i l IH]; intros s; [done|]. cbn [List.filter fold_left].
  destruct i as [| | |[|]]; cbn; apply IH.
Qed.

Lemma count_gates_le l st :
  (length (List.filter is_gate (fold_left optimize_step l st)) <= length (List.filter is_gate st) + length (List.filter is_gate l))%nat.
Proof.
  revert st. induction l as [|i l IH]; intros st; cbn [fold_left List.filter]; [cbn; lia|].
  specialize (IH (optimize_step st i)). etransitivity; [exact IH|].
  assert (length (List.filter is_gate (optimize_step st i)) <= length (List.filter is_gate (i :: st)))%nat as Hs.
  { unfold optimize_step. destruct st as [|p rest]; [done|]. destruct (try_cancel_pair p i).
    - cbn [List.filter]. destruct (is_gate i), (is_gate p); cbn; lia.
    - destruct (try_merge_rotations p i) as [m|] eqn:E; [|done].
      destruct p; try done. destruct i; try done. cbn [List.filter is_gate length]. destruct (is_gate m); cbn; lia. }
  cbn [List.filter] in Hs. destruct (is_gate i); cbn [length] in *; lia.
Qed.
Lemma filter_reverse {A} (f : A -> bool) l : List.filter f (reverse l) = reverse (List.filter f l).
Proof.
  induction l as [|x l IH]; [done|]. rewrite reverse_cons, List.filter_app, IH. cbn [List.filter].
  destruct (f x); [by rewrite reverse_cons|by rewrite app_nil_r].
Qed.
Lemma filter_sub {A} (f g : A -> bool) l : (length (List.filter f (List.filter g l)) <= length (List.filter f l))%nat.
Proof. induction l as [|x l IH]; [done|]. cbn. destruct (g x); cbn; destruct (f x); cbn; lia. Qed.

End sound.

(** ** Rotations *)

(** A circuit on one qubit with [k] rotations by 0.0004 about the z axis. *)
Definition tiny : f64 := f64_of_decimal false 4 (-4).
Definition tiny_rotations `{Libm} (k : nat) : Circuit := mkCircuit 1 0 (replicate k (GateOp (gate_rz tiny) [0%nat])).

Lemma tiny_pair `{Libm} st :
  optimize_step (optimize_step (Barrier [] :: st) (GateOp (gate_rz tiny) [0%nat])) (GateOp (gate_rz tiny) [0%nat]) =
    Barrier [] :: Barrier [] :: st.
Proof. vm_compute. reflexivity. Qed.

Lemma tiny_vanish `{Libm} k st :
  Forall (fun i => no_op i = true) st ->
  Forall (fun i => no_op i = true) (fold_left optimize_step (replicate (2 * k) (GateOp (gate_rz tiny) [0%nat])) (Barrier [] :: st)).
Proof.
  revert st. induction k as [|k IH]; intros st Hst; [by constructor|]. replace (2 * S k)%nat with (2 + 2 * k)%nat by lia.
  rewrite replicate_add, fold_left_app. cbn [replicate fold_left]. rewrite tiny_pair. apply IH. by constructor.
Qed.
Lemma filter_no_ops l : Forall (fun i => no_op i = true) l -> List.filter (fun i => negb (no_op i)) l = [].
Proof. induction 1 as [|i l Hi Hl IH]; [done|]. cbn [List.filter]. by rewrite Hi. Qed.

Lemma tiny_all_dropped `{Libm} k :
  List.filter (fun i => negb (no_op i)) (optimize_instructions (instructions (tiny_rotations (2 * k)))) = [].
Proof.
  destruct k as [|k]; [done|]. apply filter_no_ops. unfold optimize_instructions, tiny_rotations. cbn [instructions].
  replace (2 * S k)%nat with (2 + 2 * k)%nat by lia. rewrite replicate_add, fold_left_app, Forall_reverse.
  assert (fold_left optimize_step (replicate 2 (GateOp (gate_rz tiny) [0%nat])) [] = [Barrier []]) as -> by (vm_compute; reflexivity).
  apply tiny_vanish. constructor.
Qed.
Lemma tiny_count `{Libm} k : gate_count (tiny_rotations k) = k.
Proof.
  unfold gate_count, tiny_rotations. cbn [instructions].
  induction k as [|k IH]; [done|]. cbn [replicate List.filter is_gate length]. by rewrite IH.
Qed.

(** The optimiser removes small rotations.  The angles it adds are those in
    the names of the gates, which have three decimals: an even number of
    rotations by 0.0004 is optimised to nothing, although 7854 of them make half
    a turn. *)
Theorem optimizer_drops_rotations `{Libm} k :
  match optimize (tiny_rotations (2 * k)) with
  | Ok (c', stats) => gate_count (tiny_rotations (2 * k)) = (2 * k)%nat /\ instructions c' = [] /\ gates_removed stats = (2 * k)%nat
  | Err _ => False
  end.
Proof.
  unfold optimize. rewrite optimize_ok.
  - rewrite tiny_all_dropped, tiny_count. cbn. split_and!; [done|done|lia].
  - split; [split; repeat constructor|]. apply Forall_replicate. split; [done|split; [apply NoDup_singleton|repeat constructor]].
  - apply Forall_replicate. cbn. lia.
Qed.
