(* ===== verification/Qec.v ===== *)
(** * Error-correcting codes (crates/waros-quantum/src/qec)

    The codes append gates to a circuit.  What these circuits do is stated on
    basis states: a register is a [Z] whose bits are the qubits.  X and CNOT act
    on it as permutations, Z only changes a phase, and a Hadamard gate on a
    qubit that is still 0 gives either value, decided by a coin of the state. *)
From S2P Require Import Prelude RustStr RustParse Float64 Circuit CircuitOpt.

(** ** Basis states *)

Definition flip (q : nat) (bits : Z) : Z := Z.lxor bits (2 ^ Z.of_nat q).
Definition qubit (q : nat) (bits : Z) : bool := Z.testbit bits (Z.of_nat q).

(** Gates that permute basis states, up to phases. *)
Definition permute (name : bytes) (ts : list nat) (bits : Z) : Z :=
  match ts with
  | [q] => if bool_decide (name ∈ [str "X"; str "Y"]) then flip q bits else bits
  | [c; t] =>
      if bool_decide (name = str "CNOT") then if bool_decide (c <> t) && qubit c bits then flip t bits else bits
      else if bool_decide (name = str "SWAP") then
        if Bool.eqb (qubit c bits) (qubit t bits) then bits else flip c (flip t bits)
      else bits
  | _ => bits
  end.

Lemma flip_flip q bits : flip q (flip q bits) = bits.
Proof. unfold flip. by rewrite Z.lxor_assoc, Z.lxor_nilpotent, Z.lxor_0_r. Qed.
Lemma flip_comm p q bits : flip p (flip q bits) = flip q (flip p bits).
Proof. unfold flip. by rewrite !Z.lxor_assoc, (Z.lxor_comm (2 ^ Z.of_nat q)). Qed.
Lemma qubit_flip p q bits : qubit p (flip q bits) = if bool_decide (p = q) then negb (qubit p bits) else qubit p bits.
Proof.
  unfold qubit, flip. rewrite Z.lxor_spec, Z.pow2_bits_eqb by lia.
  case_bool_decide as Hpq; [subst; by rewrite Z.eqb_refl, xorb_true_r|].
  rewrite (proj2 (Z.eqb_neq _ _)) by lia. apply xorb_false_r.
Qed.

(** ** Codes *)

(** [ensure_layout], the same in both codes. *)
Definition ensure_layout (required : nat) : cst () :=
  check_circuit (fun c => if bool_decide (num_qubits c < required)%nat then Err (QubitOutOfRange (required - 1) (num_qubits c)) else Ok ()).

Record RepetitionCode : Type := mkRepetition { distance : nat }.
Definition repetition_new (d : nat) : result WarosError RepetitionCode :=
  if bool_decide (d < 3)%nat || Nat.even d
  then Err (SimulationError (str "repetition code distance must be an odd integer >= 3"))
  else Ok (mkRepetition d).
Definition repetition_default : RepetitionCode := mkRepetition 3.
Definition ancilla_start (code : RepetitionCode) : nat := distance code.

Definition repetition_encode (code : RepetitionCode) (logical_qubit : nat) : cst () :=
  _ ← ensure_layout (logical_qubit + distance code);
  foldM (fun offset _ => add_cnot logical_qubit (logical_qubit + offset)) (seq 1 (distance code - 1)) ().

Definition syndrome_step (code : RepetitionCode) (offset : nat) (classical_bits : list nat) : cst (list nat) :=
  let ancilla := (ancilla_start code + offset)%nat in
  _ ← add_cnot offset ancilla;
  _ ← add_cnot (offset + 1) ancilla;
  b ← measure ancilla;
  mret (classical_bits ++ [b]).
Definition repetition_measure_syndrome (code : RepetitionCode) : cst (list nat) :=
  _ ← ensure_layout (ancilla_start code + distance code - 1);
  foldM (syndrome_step code) (seq 0 (distance code - 1)) [].

Definition repetition_correct (code : RepetitionCode) (syndrome : list Z) : cst () :=
  if negb (bool_decide (distance code = 3%nat))
  then throw (SimulationError (str "repetition correction is implemented for the 3-qubit code"))
  else if negb (bool_decide (length syndrome = 2%nat))
  then throw (SimulationError (str "3-qubit repetition code expects a 2-bit syndrome"))
  else if bool_decide (syndrome = [1; 0]) then add_x 0
  else if bool_decide (syndrome = [1; 1]) then add_x 1
  else if bool_decide (syndrome = [0; 1]) then add_x 2
  else if bool_decide (syndrome = [0; 0]) then mret ()
  else throw (SimulationError (str "syndrome bits must be 0 or 1")).

Definition DATA_QUBITS : nat := 7.
Definition ANCILLA_QUBITS : nat := 6.
Definition X_STABILIZERS : list (list nat) := [[0; 1; 2; 3]; [0; 1; 4; 5]; [0; 2; 4; 6]]%nat.

Definition syndrome_to_qubit (bits : list Z) : option nat :=
  match bits with
  | [1; 1; 1] => Some 0%nat
  | [1; 1; 0] => Some 1%nat
  | [1; 0; 1] => Some 2%nat
  | [0; 1; 1] => Some 3%nat
  | [1; 0; 0] => Some 4%nat
  | [0; 1; 0] => Some 5%nat
  | [0; 0; 1] => Some 6%nat
  | _ => None
  end.

Definition steane_encode (q : nat) : cst () :=
  _ ← ensure_layout (q + DATA_QUBITS);
  _ ← add_h (q + 4); _ ← add_h (q + 5); _ ← add_h (q + 6);
  _ ← add_cnot (q + 6) q; _ ← add_cnot (q + 6) (q + 1); _ ← add_cnot (q + 6) (q + 2);
  _ ← add_cnot (q + 5) q; _ ← add_cnot (q + 5) (q + 1); _ ← add_cnot (q + 5) (q + 3);
  _ ← add_cnot (q + 4) q; _ ← add_cnot (q + 4) (q + 2); _ ← add_cnot (q + 4) (q + 3);
  _ ← add_cnot q (q + 1); _ ← add_cnot q (q + 2); add_cnot q (q + 4).

Definition z_syndrome_step (o : nat * list nat) (bits : list nat) : cst (list nat) :=
  let ancilla := (DATA_QUBITS + o.1)%nat in
  _ ← foldM (fun data_qubit _ => add_cnot data_qubit ancilla) o.2 ();
  b ← measure ancilla; mret (bits ++ [b]).
Definition x_syndrome_step (o : nat * list nat) (bits : list nat) : cst (list nat) :=
  let ancilla := (DATA_QUBITS + 3 + o.1)%nat in
  _ ← add_h ancilla;
  _ ← foldM (fun data_qubit _ => add_cnot ancilla data_qubit) o.2 ();
  _ ← add_h ancilla;
  b ← measure ancilla; mret (bits ++ [b]).
Definition steane_measure_syndrome : cst (list nat) :=
  _ ← ensure_layout (DATA_QUBITS + ANCILLA_QUBITS);
  bits ← foldM z_syndrome_step (zip (seq 0 3) X_STABILIZERS) [];
  foldM x_syndrome_step (zip (seq 0 3) X_STABILIZERS) bits.

Definition steane_correct (syndrome : list Z) : cst () :=
  if negb (bool_decide (length syndrome = ANCILLA_QUBITS))
  then throw (SimulationError (str "Steane code expects a 6-bit syndrome"))
  else
    _ ← match syndrome_to_qubit (take 3 syndrome) with Some q => add_x q | None => mret () end;
    _ ← match syndrome_to_qubit (drop 3 syndrome) with Some q => add_z q | None => mret () end;
    if existsb (fun b => 1 <? b) syndrome then throw (SimulationError (str "syndrome bits must be 0 or 1")) else mret ().

(** ** Running circuits on basis states *)

Record Register : Type := mkRegister { bits : Z; coins : list bool; outcomes : list (nat * bool) }.

Definition run_gate (g : Gate) (ts : list nat) (r : Register) : Register :=
  if bool_decide (gate_name g = str "H") then
    match ts, coins r with
    | [q], coin :: cs => mkRegister (if coin then flip q (bits r) else bits r) cs (outcomes r)
    | _, _ => r
    end
  else mkRegister (permute (gate_name g) ts (bits r)) (coins r) (outcomes r).
#[local] Instance basis_meaning : Meaning Register := {|
  do_gate := run_gate;
  do_conditional := fun _ _ _ _ r => r;
  do_measure := fun q b r => mkRegister (bits r) (coins r) ((b, qubit q (bits r)) :: outcomes r);
|}.

(** The circuit a builder appends to an empty one of [n] qubits. *)
Definition appended {A} (n : nat) (m : cst A) : list Instruction := instructions (m (mkCircuit n 0 [])).2.
Definition outcome (r : Register) (b : nat) : Z :=
  match find_first (fun o => bool_decide (o.1 = b)) (outcomes r) with Some (_, true) => 1 | _ => 0 end.

(** ** The repetition code *)

Lemma add_cnot_ok q0 q1 n k is0 :
  (q0 < n)%nat -> (q1 < n)%nat -> q0 <> q1 ->
  add_cnot q0 q1 (mkCircuit n k is0) = (Ok (), mkCircuit n k (is0 ++ [GateOp gate_cnot [q0; q1]])).
Proof.
  intros H0 H1 Hne. unfold add_cnot, add2, mbind, stm_bind, check_circuit.
  rewrite (proj2 (validate_pair_ok q0 q1 _)); [done|]. cbn. split; [|by repeat constructor].
  apply NoDup_cons. split; [by intros ->%list_elem_of_singleton|apply NoDup_singleton].
Qed.
Lemma measure_ok q n k is0 :
  (q < n)%nat -> measure q (mkCircuit n k is0) = (Ok k, mkCircuit n (S k) (is0 ++ [Measure q k])).
Proof. intros Hq. unfold measure, mbind, stm_bind, check_circuit. by rewrite (proj2 (validate_qubit_ok q _)). Qed.

Definition encode_instructions (d : nat) : list Instruction := map (fun o => GateOp gate_cnot [0%nat; o]) (seq 1 (d - 1)).
Definition syndrome_instructions (d i : nat) : list Instruction :=
  [GateOp gate_cnot [i; d + i]; GateOp gate_cnot [i + 1; d + i]; Measure (d + i) i]%nat.

Lemma ensure_layout_ok required n k is0 :
  (required <= n)%nat -> ensure_layout required (mkCircuit n k is0) = (Ok (), mkCircuit n k is0).
Proof. intros Hr. unfold ensure_layout, check_circuit. cbn. by rewrite bool_decide_false by lia. Qed.

Lemma encode_appends d n k is0 :
  (0 < d <= n)%nat ->
  repetition_encode (mkRepetition d) 0 (mkCircuit n k is0) = (Ok (), mkCircuit n k (is0 ++ encode_instructions d)).
Proof.
  intros Hd. unfold repetition_encode. erewrite bind_Ok by (apply ensure_layout_ok; cbn; lia). cbn [distance].
  unfold encode_instructions. assert (Forall (fun o => 0 < o < n)%nat (seq 1 (d - 1))) as Hall.
  { apply Forall_forall. intros o Ho%elem_of_seq. lia. }
  revert is0. induction Hall as [|o l Ho Hl IH]; intros is0; cbn [foldM map]; [by rewrite app_nil_r|].
  erewrite bind_Ok by (apply add_cnot_ok; cbn; lia). rewrite IH. by rewrite <- app_assoc.
Qed.

Lemma syndrome_step_appends d a n is0 acc :
  (a < d - 1)%nat -> (2 * d - 1 <= n)%nat ->
  syndrome_step (mkRepetition d) a acc (mkCircuit n a is0) =
    (Ok (acc ++ [a]), mkCircuit n (S a) (is0 ++ syndrome_instructions d a)).
Proof.
  intros Ha Hn. unfold syndrome_step, ancilla_start. cbn [distance].
  erewrite bind_Ok by (apply add_cnot_ok; lia). erewrite bind_Ok by (apply add_cnot_ok; lia).
  erewrite bind_Ok by (apply measure_ok; lia). by rewrite <- !app_assoc.
Qed.
Lemma syndrome_appends d m a n is0 acc :
  (a + m <= d - 1)%nat -> (2 * d - 1 <= n)%nat -> (1 < d)%nat ->
  foldM (syndrome_step (mkRepetition d)) (seq a m) acc (mkCircuit n a is0) =
    (Ok (acc ++ seq a m), mkCircuit n (a + m) (is0 ++ concat (map (syndrome_instructions d) (seq a m)))).
Proof.
  intros Ham Hn Hd. revert a is0 acc Ham. induction m as [|m IH]; intros a is0 acc Ham.
  - cbn [seq foldM map concat]. by rewrite !app_nil_r, Nat.add_0_r.
  - cbn [seq foldM map concat]. erewrite bind_Ok by (apply syndrome_step_appends; lia).
    rewrite IH by lia. rewrite <- !app_assoc. cbn [app]. by replace (S a + m)%nat with (a + S m)%nat by lia.
Qed.

Lemma run_cnot c t r :
  c <> t -> do_instruction (GateOp gate_cnot [c; t]) r =
    mkRegister (if qubit c (bits r) then flip t (bits r) else bits r) (coins r) (outcomes r).
Proof. intros Hne. cbn. unfold run_gate. cbn. by rewrite (bool_decide_true (c <> t)). Qed.

(** Encoding copies the logical qubit. *)
Lemma encode_copies d r :
  (0 < d)%nat -> (forall q, (0 < q)%nat -> qubit q (bits r) = false) ->
  let r' := do_instructions (encode_instructions d) r in
  outcomes r' = outcomes r /\ forall q, qubit q (bits r') = if bool_decide (q < d)%nat then qubit 0 (bits r) else false.
Proof.
  intros Hd Hz. unfold encode_instructions.
  assert (forall m a r, (0 < a)%nat -> let r' := do_instructions (map (fun o => GateOp gate_cnot [0%nat; o]) (seq a m)) r in
    outcomes r' = outcomes r /\
    forall q, qubit q (bits r') = xorb (qubit q (bits r)) (bool_decide (a <= q < a + m)%nat && qubit 0 (bits r))) as Hgen.
  { clear. induction m as [|m IH]; intros a r Ha.
    - split; [done|]. intros q. cbn. rewrite bool_decide_false by lia. by rewrite xorb_false_r.
    - cbn [seq map do_instructions fold_left]. rewrite run_cnot by lia.
      destruct (IH (S a) (mkRegister (if qubit 0 (bits r) then flip a (bits r) else bits r) (coins r) (outcomes r))) as [Ho Hq]; [lia|].
      unfold do_instructions in *. split; [done|]. intros q. rewrite Hq. cbn [bits].
      destruct (qubit 0 (bits r)) eqn:E0.
      + rewrite !qubit_flip, E0. rewrite (bool_decide_false (0%nat = a)) by lia. rewrite !andb_true_r.
        destruct (decide (q = a)) as [->|Hqa].
        * rewrite (bool_decide_true (a = a)), (bool_decide_true (a <= a < a + S m)%nat), (bool_decide_false (S a <= a < S a + m)%nat) by lia.
          by rewrite xorb_false_r, xorb_true_r.
        * rewrite (bool_decide_false (q = a)) by done. f_equal. apply bool_decide_ext. lia.
      + by rewrite E0, !andb_false_r. }
  destruct (Hgen (d - 1)%nat 1%nat r ltac:(lia)) as [Ho Hq]. split; [done|]. intros q. rewrite Hq.
  destruct (decide (q = 0%nat)) as [->|Hq0].
  - rewrite (bool_decide_false (1 <= 0 < 1 + (d - 1))%nat), (bool_decide_true (0 < d)%nat) by lia. by rewrite xorb_false_r.
  - rewrite Hz, xorb_false_l by lia. repeat case_bool_decide; try done; lia.
Qed.

(** The syndrome circuit leaves the data alone and measures the parity of each
    pair of neighbours. *)
Lemma syndrome_measures d m a r :
  (a + m <= d - 1)%nat -> (forall i, (a <= i)%nat -> qubit (d + i) (bits r) = false) ->
  let r' := do_instructions (concat (map (syndrome_instructions d) (seq a m))) r in
  outcomes r' = reverse (map (fun i => (i, xorb (qubit i (bits r)) (qubit (i + 1) (bits r)))) (seq a m)) ++ outcomes r /\
  forall q, (q < d)%nat -> qubit q (bits r') = qubit q (bits r).
Proof.
  revert a r. induction m as [|m IH]; intros a r Ham Hz; [done|]. cbn [seq map concat].
  unfold do_instructions. rewrite fold_left_app. fold (do_instructions (S := Register)).
  set (r1 := fold_left _ (syndrome_instructions d a) r).
  assert (bits r1 = (if xorb (qubit a (bits r)) (qubit (a + 1) (bits r)) then flip (d + a) (bits r) else bits r) /\
          outcomes r1 = (a, xorb (qubit a (bits r)) (qubit (a + 1) (bits r))) :: outcomes r) as [Hb Ho].
  { unfold r1, syndrome_instructions. cbn [fold_left]. rewrite run_cnot by lia. rewrite run_cnot by lia. cbn [bits coins outcomes do_instruction do_measure basis_meaning].
    assert (qubit (a + 1) (flip (d + a) (bits r)) = qubit (a + 1) (bits r)) as E1 by (rewrite qubit_flip, bool_decide_false by lia; done).
    destruct (qubit a (bits r)); rewrite ?E1; destruct (qubit (a + 1) (bits r)); cbn [xorb];
      rewrite ?flip_flip, ?qubit_flip, ?(bool_decide_true (d + a = d + a)%nat), ?(Hz a) by lia; done. }
  assert (forall q, q <> (d + a)%nat -> qubit q (bits r1) = qubit q (bits r)) as Hsame.
  { intros q Hq. rewrite Hb. destruct (xorb _ _); [|done]. by rewrite qubit_flip, bool_decide_false. }
  destruct (IH (S a) r1) as [Ho' Hq']; [lia|intros i Hi; rewrite Hsame by lia; apply Hz; lia|].
  unfold do_instructions in Ho', Hq'. split.
  - rewrite Ho', Ho, reverse_cons, <- app_assoc. do 2 f_equal. apply map_ext_in. intros i Hi%in_seq.
    by rewrite !Hsame by lia.
  - intros q Hq. rewrite Hq' by done. apply Hsame. lia.
Qed.

(** Bit flips that hit the register, and whether they change qubit [q]. *)
Definition flips (es : list nat) (r : Register) : Register :=
  mkRegister (fold_right flip (bits r) es) (coins r) (outcomes r).
Definition hit (q : nat) (es : list nat) : bool := fold_right (fun e b => xorb (bool_decide (q = e)) b) false es.

Lemma qubit_flips q es r : qubit q (bits (flips es r)) = xorb (qubit q (bits r)) (hit q es).
Proof.
  cbn [flips bits]. induction es as [|e es IH]; cbn [fold_right hit]; [by rewrite xorb_false_r|].
  rewrite qubit_flip, IH. fold (hit q es).
  destruct (bool_decide (q = e)); [by destruct (qubit q (bits r)), (hit q es)|by rewrite xorb_false_l].
Qed.

Lemma outcome_seq f n os cs b i :
  (i < n)%nat -> outcome (mkRegister b cs (reverse (map (fun i => (i, f i)) (seq 0 n)) ++ os)) i = Z.b2z (f i).
Proof.
  intros Hi. unfold outcome. cbn [outcomes]. induction n as [|n IH]; [lia|].
  rewrite seq_S, map_app, reverse_app. cbn [map reverse rev_append app Nat.add]. unfold find_first in *. cbn [List.find fst].
  destruct (bool_decide_reflect (n = i)) as [->|E]; [by destruct (f i)|apply IH; lia].
Qed.

Lemma qubit_b2z l q : (0 < q)%nat -> qubit q (Z.b2z l) = false.
Proof. intros Hq. unfold qubit. destruct l; [|apply Z.bits_0]. apply Z.bits_above_log2; cbn; lia. Qed.

(** C23: the repetition code locates bit flips, at every distance.  For a code
    that [new] accepts, on a circuit with room for the ancillas, the encoder and
    the syndrome circuit are built without an error; on basis states, after
    encoding a bit and after any bit flips of the data qubits, measurement [i]
    is 1 exactly if one of the neighbours [i] and [i + 1] differs from the other
    by these flips, and measuring does not disturb the data. *)
Theorem repetition_syndrome_exact d code n (l : bool) es :
  repetition_new d = Ok code -> (2 * d - 1 <= n)%nat -> Forall (fun e => (e < d)%nat) es ->
  (repetition_encode code 0 (mkCircuit n 0 [])).1 = Ok () /\
  (repetition_measure_syndrome code (mkCircuit n 0 [])).1 = Ok (seq 0 (d - 1)) /\
  let r1 := do_instructions (appended n (repetition_encode code 0)) (mkRegister (Z.b2z l) [] []) in
  let r2 := do_instructions (appended n (repetition_measure_syndrome code)) (flips es r1) in
  (forall i, (i < d - 1)%nat -> outcome r2 i = Z.b2z (xorb (hit i es) (hit (i + 1) es))) /\
  (forall q, (q < d)%nat -> qubit q (bits r2) = xorb l (hit q es)).
Proof.
  unfold repetition_new. destruct (bool_decide (d < 3)%nat || Nat.even d) eqn:Ed; [done|]. intros [= <-] Hn Hes.
  apply orb_false_iff in Ed as [Hd%bool_decide_eq_false _].
  assert (repetition_measure_syndrome (mkRepetition d) (mkCircuit n 0 []) =
    (Ok (seq 0 (d - 1)), mkCircuit n (d - 1) (concat (map (syndrome_instructions d) (seq 0 (d - 1)))))) as Hm.
  { unfold repetition_measure_syndrome, ancilla_start. cbn [distance]. erewrite bind_Ok by (apply ensure_layout_ok; lia).
    rewrite syndrome_appends by lia. done. }
  unfold appended. rewrite encode_appends, Hm by lia. cbn [fst snd instructions app]. do 2 (split; [done|]).
  destruct (encode_copies d (mkRegister (Z.b2z l) [] [])) as [_ Hq]; [lia|by apply qubit_b2z|].
  set (r1 := do_instructions (encode_instructions d) _) in *. cbv zeta in *.
  assert (forall q, qubit q (bits (flips es r1)) = xorb (if bool_decide (q < d)%nat then l else false) (hit q es)) as Hq2.
  { intros q. rewrite qubit_flips, Hq. cbn. by destruct l. }
  assert (forall q, (d <= q)%nat -> hit q es = false) as Hfar.
  { intros q Hdq. clear -Hes Hdq. induction Hes as [|e es He _ IH]; cbn; [done|]. fold (hit q es). by rewrite IH, bool_decide_false by lia. }
  destruct (syndrome_measures d (d - 1) 0 (flips es r1)) as [Ho Hdata]; [lia| |].
  { intros i _. rewrite Hq2, Hfar, bool_decide_false by lia. done. }
  set (r2 := do_instructions _ (flips es r1)) in *. split.
  - intros i Hi. destruct r2 as [b cs os]. cbn in Ho. subst os. rewrite outcome_seq by done. f_equal.
    rewrite !Hq2, !bool_decide_true by lia. by destruct l, (hit i es), (hit (i + 1) es).
  - intros q Hqd. by rewrite Hdata, Hq2, bool_decide_true.
Qed.
Lemma repetition_syndrome_exact_witness :
  repetition_new 5 = Ok (mkRepetition 5) /\
  outcome (do_instructions (appended 9 (repetition_measure_syndrome (mkRepetition 5)))
    (flips [3%nat] (do_instructions (appended 9 (repetition_encode (mkRepetition 5) 0)) (mkRegister (Z.b2z true) [] [])))) 2 = 1.
Proof.
  split; [reflexivity|].
  rewrite (proj1 (proj2 (proj2 (repetition_syndrome_exact 5 (mkRepetition 5) 9 true [3%nat] eq_refl
    ltac:(lia) ltac:(repeat constructor)))) 2%nat ltac:(lia)). reflexivity.
Defined.

(** Encode, suffer errors, measure, and apply [correct] to what was measured. *)
Definition repetition_cycle (l : bool) (es : list nat) : Register :=
  let r1 := do_instructions (appended 5 (repetition_encode repetition_default 0)) (mkRegister (Z.b2z l) [] []) in
  let r2 := do_instructions (appended 5 (repetition_measure_syndrome repetition_default)) (flips es r1) in
  do_instructions (appended 5 (repetition_correct repetition_default [outcome r2 0; outcome r2 1])) r2.

(** The three-qubit code restores the encoded bit after any single bit flip. *)
Theorem repetition_corrects_one_flip l e q :
  (e < 3)%nat -> (q < 3)%nat -> qubit q (bits (repetition_cycle l [e])) = l /\ qubit q (bits (repetition_cycle l [])) = l.
Proof.
  intros He Hq. destruct e as [|[|[|e]]]; [| | |lia]; destruct q as [|[|[|q]]]; [| | |lia| | | |lia| | | |lia];
    destruct l; split; vm_compute; reflexivity.
Qed.

(** ** The Steane code *)

(** The bit-flip half of [measure_syndrome], and the word the data qubits hold. *)
Definition z_syndrome (r : Register) : list Z :=
  let r' := do_instructions (appended 13 (foldM z_syndrome_step (zip (seq 0 3) X_STABILIZERS) [])) r in
  map (outcome r') (seq 0 3).
Definition data (r : Register) : Z := Z.land (bits r) 127.
(** Correct the bit flips that the first three syndrome bits report. *)
Definition steane_cycle (w : Z) (e : nat) : Register :=
  let r := flips [e] (mkRegister w [] []) in
  do_instructions (appended 13 (steane_correct (z_syndrome r ++ [0; 0; 0]))) r.

Definition words : list Z := map Z.of_nat (seq 0 128).
Lemma elem_of_words w : 0 <= w < 128 -> w ∈ words.
Proof.
  intros Hw. unfold words. rewrite <- (Z2Nat.id w) by lia. apply list_elem_of_In, in_map, in_seq. lia.
Qed.

Definition steane_case (w : Z) (e : nat) : Prop :=
  z_syndrome (mkRegister w [] []) = [0; 0; 0] -> (data (steane_cycle w e) = w <-> e <> 3%nat /\ e <> 4%nat).
#[local] Instance steane_case_dec w e : Decision (steane_case w e).
Proof. unfold steane_case. apply _. Defined.
Lemma steane_cases : Forall (fun w => Forall (steane_case w) (seq 0 7)) words.
Proof. apply (bool_decide_unpack _). vm_compute. exact I. Qed.

(** C39: the Steane code repairs a single bit flip unless it hits qubit 3 or 4.
    Take any word that passes the three parity checks and flip one of the seven
    data qubits: the correction that [correct] appends for the syndrome that the
    code's own circuit measures gives the word back if and only if the qubit is
    neither 3 nor 4; for these two the syndrome table is swapped, and the
    correction flips the other one. *)
Theorem steane_corrects_iff w e :
  0 <= w < 128 -> z_syndrome (mkRegister w [] []) = [0; 0; 0] -> (e < 7)%nat ->
  (data (steane_cycle w e) = w <-> e <> 3%nat /\ e <> 4%nat).
Proof.
  intros Hw Hz He. assert (e ∈ seq 0 7) as Hin by (apply elem_of_seq; lia).
  exact (Forall_elem _ _ _ (Forall_elem _ _ _ steane_cases (elem_of_words w Hw)) Hin Hz).
Qed.
Lemma steane_corrects_iff_witness :
  data (steane_cycle 15 3) <> 15 /\ data (steane_cycle 15 2) = 15.
Proof.
  split.
  - intros H. apply (steane_corrects_iff 15 3) in H; [lia|lia|vm_compute; reflexivity|lia].
  - apply (steane_corrects_iff 15 2); [lia|vm_compute; reflexivity|lia|lia].
Defined.

(** The encoder leaves the code: with the coins shown, the state it prepares for
    either logical bit fails a parity check although nothing has gone wrong. *)
Theorem steane_encode_fails_checks l :
  exists cs, length cs = 3%nat /\
    z_syndrome (do_instructions (appended 13 (steane_encode 0)) (mkRegister (Z.b2z l) cs [])) <> [0; 0; 0].
Proof.
  exists [negb l; false; l]. split; [done|]. destruct l; vm_compute; discriminate.
Qed.

(** ** A meaning of gates *)

(** Permutations of basis states satisfy the gate identities. *)
Section permutations.
Context `{Libm}.
#[local] Instance permute_meaning : Meaning Z := {|
  do_gate := fun g ts => permute (gate_name g) ts;
  do_conditional := fun _ _ _ _ s => s;
  do_measure := fun _ _ s => s;
|}.

Lemma permute_cancels name ts s :
  permute name ts (permute name ts s) = s.
Proof.
  unfold permute. destruct ts as [|q [|t [|? ?]]]; [done| | |done].
  - case_bool_decide; [apply flip_flip|done].
  - case_bool_decide as E1; [|case_bool_decide; [|done]].
    + destruct (bool_decide_reflect (q <> t)) as [Hne|Heq]; cbn [andb]; [|done].
      destruct (qubit q s) eqn:E; rewrite ?qubit_flip, ?(bool_decide_false (q = t)), E by done; [apply flip_flip|done].
    + destruct (Bool.eqb (qubit q s) (qubit t s)) eqn:E; [by rewrite E|].
      assert (Bool.eqb (qubit q (flip q (flip t s))) (qubit t (flip q (flip t s))) = false) as ->.
      { rewrite !qubit_flip. destruct (decide (q = t)) as [->|Hne]; [by rewrite eqb_reflx in E|].
        rewrite (bool_decide_true (q = q)), (bool_decide_true (t = t)), (bool_decide_false (q = t)), (bool_decide_false (t = q)) by congruence.
        by destruct (qubit q s), (qubit t s). }
      by rewrite (flip_comm t q (flip t s)), !flip_flip.
Qed.
Lemma permute_identity name ts s : name ∉ [str "X"; str "Y"; str "CNOT"; str "SWAP"] -> permute name ts s = s.
Proof.
  rewrite !not_elem_of_cons. intros (H1 & H2 & H3 & H4 & _). unfold permute.
  destruct ts as [|q [|t [|? ?]]]; [done| | |done].
  - rewrite bool_decide_false; [done|]. rewrite !elem_of_cons, elem_of_nil. tauto.
  - by rewrite !bool_decide_false.
Qed.
#[local] Instance permute_identities : GateIdentities Z.
Proof.
  intros g1 g2 ts s Hg. cbn [do_gate permute_meaning].
  assert (Forall (fun p => gate_name p.1 = gate_name p.2 \/
    (gate_name p.1 ∉ [str "X"; str "Y"; str "CNOT"; str "SWAP"] /\ gate_name p.2 ∉ [str "X"; str "Y"; str "CNOT"; str "SWAP"])) INVERSES) as Hall
    by (apply (bool_decide_unpack _); vm_compute; exact I).
  destruct (Forall_elem _ _ _ Hall Hg) as [E|[E1 E2]]; cbn [fst snd] in *.
  - rewrite E. apply permute_cancels.
  - by rewrite !permute_identity.
Qed.
End permutations.
#[local] Existing Instance no_libm.
#[local] Existing Instance permute_meaning.
#[local] Existing Instance permute_identities.

Definition example_circuit : Circuit :=
  mkCircuit 2 1 [GateOp gate_x [0%nat]; GateOp gate_cnot [0; 1]%nat; GateOp gate_h [0%nat]; GateOp gate_h [0%nat]; Measure 1 0].
Lemma example_circuit_wf : circuit_wf example_circuit.
Proof.
  split; [by unfold MAX_QUBITS; cbn; lia|].
  repeat constructor; cbn; try lia; rewrite ?elem_of_cons, ?elem_of_nil; lia.
Qed.
