(* ===== verification/Qasm.v ===== *)
(** * OpenQASM 2.0 (crates/waros-quantum/src/qasm)

    The parser and the serializer of circuits.  Text is its UTF-8 bytes; the
    parser looks for ASCII characters and for white space, and both are found at
    the same places byte by byte.  A slice whose end is before its start, and an
    addition that overflows, panic ([QPanic]).  The recursion of [expand_gate]
    into gate definitions has no bound in the code; here it has a fuel, and
    [QOutOfFuel] stands for a recursion that goes deeper. *)
From S2P Require Import Prelude RustStr RustParse Float64 Circuit.

Inductive QasmError : Type :=
  | QasmParseError (line : nat) (message : bytes)
  | UnknownGate (name : bytes)
  | UndeclaredRegister (name : bytes)
  | QasmQubitOutOfRange (register : bytes) (index size : Z).
Inductive qasm_fault : Type := QErr (e : QasmError) | QPanic | QOutOfFuel.
Abbreviation qres A := (result qasm_fault A).

Definition parse_error {A} (line : nat) (message : bytes) : qres A := Err (QErr (QasmParseError line message)).

(** [WarosError::to_string]. *)
Definition waros_display (e : WarosError) : bytes :=
  let n (k : nat) := decimal (Z.of_nat k) in
  match e with
  | ZeroQubits => str "Circuit must have at least 1 qubit"
  | QubitOutOfRange q k => str "Qubit index " ++ n q ++ str " out of range (circuit has " ++ n k ++ str " qubits)"
  | SameQubit a b => str "Two-qubit gate requires different qubits, got " ++ n a ++ str " and " ++ n b
  | TooManyQubits a b => str "Circuit exceeds maximum qubit count (" ++ n a ++ str " > " ++ n b ++ str ")"
  | CircuitQubitMismatch a b => str "Circuit qubit count mismatch (" ++ n a ++ str " != " ++ n b ++ str ")"
  | InvalidQubitMapping a b => str "Qubit mapping length mismatch (" ++ n a ++ str " != " ++ n b ++ str ")"
  | InsufficientMemory k needed => str "Insufficient memory for " ++ n k ++ str "-qubit simulation (need " ++ decimal needed ++ str " bytes)"
  | InvalidShots shots => str "Shot count must be greater than zero, got " ++ decimal shots
  | NumericalInstability action => str "Numerical instability while " ++ action
  | SimulationError m => str "Simulation error: " ++ m
  | NetworkError m => str "Network error: " ++ m
  | APIError m => str "IBM API error: " ++ m
  | AuthError m => str "Authentication error: " ++ m
  | HardwareError m => str "Hardware error: " ++ m
  | Timeout m => str "Job timeout: " ++ m
  | ParseError m => str "Parse error: " ++ m
  | IOError m => str "IO error: " ++ m
  end.

(** ** Serializing *)

Definition indexed (register : string) (i : nat) : bytes := str register ++ str "[" ++ decimal (Z.of_nat i) ++ str "]".
(** [{targets:?}]. *)
Fixpoint join_with (sep : bytes) (l : list bytes) : bytes :=
  match l with [] => [] | [x] => x | x :: l' => x ++ sep ++ join_with sep l' end.
Definition debug_list (targets : list nat) : bytes :=
  str "[" ++ join_with (str ", ") (map (fun t => decimal (Z.of_nat t)) targets) ++ str "]".

Definition one_qubit_names : list (bytes * bytes) :=
  map (fun p => (str p.1, str p.2))
    [("H", "h"); ("X", "x"); ("Y", "y"); ("Z", "z"); ("S", "s"); ("Sdg", "sdg"); ("T", "t"); ("Tdg", "tdg")]%string.
Definition two_qubit_names : list (bytes * bytes) :=
  map (fun p => (str p.1, str p.2)) [("CNOT", "cx"); ("CZ", "cz"); ("SWAP", "swap")]%string.

Definition assoc {A} (l : list (bytes * A)) (k : bytes) : option A :=
  snd <$> find_first (fun p => bool_decide (p.1 = k)) l.

Definition format_gate (name : bytes) (targets : list nat) : bytes :=
  let unsupported := str "// unsupported gate " ++ name ++ str " on " ++ debug_list targets in
  match targets with
  | [q0] =>
      match assoc one_qubit_names name with
      | Some n => n ++ str " " ++ indexed "q" q0 ++ str ";"
      | None =>
          if starts_with name (str "Rx(") then str "rx" ++ drop 2 name ++ str " " ++ indexed "q" q0 ++ str ";"
          else if starts_with name (str "Ry(") then str "ry" ++ drop 2 name ++ str " " ++ indexed "q" q0 ++ str ";"
          else if starts_with name (str "Rz(") then str "rz" ++ drop 2 name ++ str " " ++ indexed "q" q0 ++ str ";"
          else if starts_with name (str "U3(") then str "u3" ++ drop 2 name ++ str " " ++ indexed "q" q0 ++ str ";"
          else unsupported
      end
  | [q0; q1] =>
      match assoc two_qubit_names name with
      | Some n => n ++ str " " ++ indexed "q" q0 ++ str ", " ++ indexed "q" q1 ++ str ";"
      | None =>
          if starts_with name (str "CR")
          then str "crk(" ++ drop 2 name ++ str ") " ++ indexed "q" q0 ++ str ", " ++ indexed "q" q1 ++ str ";"
          else unsupported
      end
  | _ => unsupported
  end.

Definition instruction_line (n : nat) (i : Instruction) : bytes :=
  match i with
  | GateOp g targets => format_gate (gate_name g) targets
  | ConditionalGate _ value g targets =>
      str "if(c==" ++ decimal value ++ str ") " ++ trim_end_matches x3b (format_gate (gate_name g) targets)
  | Measure qubit classical_bit => str "measure " ++ indexed "q" qubit ++ str " -> " ++ indexed "c" classical_bit ++ str ";"
  | Barrier qubits =>
      if bool_decide (qubits = seq 0 n) then str "barrier q;"
      else str "barrier " ++ join_with (str ", ") (map (indexed "q") qubits) ++ str ";"
  end.
Definition include_qelib : bytes := str "include " ++ [x22] ++ str "qelib1.inc" ++ [x22].
Definition to_qasm (c : Circuit) : bytes :=
  join_with [x0a]
    ([str "OPENQASM 2.0;"; include_qelib ++ str ";"; str "qreg " ++ indexed "q" (num_qubits c) ++ str ";"]
     ++ (if bool_decide (0 < num_classical_bits c)%nat then [str "creg " ++ indexed "c" (num_classical_bits c) ++ str ";"] else [])
     ++ map (instruction_line (num_qubits c)) (instructions c)).

(** ** Statements *)

Record scan : Type := mkScan {
  sc_statements : list (nat * bytes);
  sc_current : bytes;
  sc_start : nat;
  sc_line : nat;
  sc_depth : nat;
}.

Definition push_statement (st : scan) : scan :=
  let statement := trim (sc_current st) in
  mkScan (if bool_decide (statement = []) then sc_statements st else sc_statements st ++ [(sc_start st, statement)])
         [] (sc_start st) (sc_line st) (sc_depth st).
Definition push_char (b : byte) (st : scan) : scan :=
  mkScan (sc_statements st) (sc_current st ++ [b]) (sc_start st) (sc_line st) (sc_depth st).
Definition set_depth (d : nat) (st : scan) : scan :=
  mkScan (sc_statements st) (sc_current st) (sc_start st) (sc_line st) d.

(** One character; [rest] starts with it. *)
Definition scan_char (b : byte) (rest : bytes) (st : scan) : scan :=
  let st := if bool_decide (sc_current st = []) && bool_decide (encoding_len whitespace_encodings rest = O)
            then mkScan (sc_statements st) (sc_current st) (sc_line st) (sc_line st) (sc_depth st) else st in
  if bool_decide (b = x0a) then
    let st := if negb (ends_with_byte (sc_current st) x20) && negb (bool_decide (sc_current st = [])) then push_char x20 st else st in
    mkScan (sc_statements st) (sc_current st) (sc_start st) (S (sc_line st)) (sc_depth st)
  else if bool_decide (b = x7b) then push_char b (set_depth (S (sc_depth st)) st)
  else if bool_decide (b = x7d) then
    let st := push_char b (set_depth (sc_depth st - 1) st) in
    if bool_decide (sc_depth st = O) then push_statement st else st
  else if bool_decide (b = x3b) && bool_decide (sc_depth st = O) then push_statement st
  else push_char b st.
Fixpoint scan_chars (s : bytes) (st : scan) : scan :=
  match s with [] => st | b :: s' => scan_chars s' (scan_char b s st) end.

Definition strip_comment (line : bytes) : bytes :=
  trim_end (match split_once (str "//") line with Some (before, _) => before | None => line end).
Definition collect_statements (source : bytes) : qres (list (nat * bytes)) :=
  let sanitized := join_with [x0a] (map strip_comment (lines source)) in
  let st := scan_chars sanitized (mkScan [] [] 1 1 0) in
  if bool_decide (trim (sc_current st) = []) then Ok (sc_statements st)
  else parse_error (sc_start st) (str "missing semicolon or closing '}'").

(** ** Names and references *)

Record QRegister : Type := mkQReg { reg_base : Z; reg_size : Z }.
Record GateDefinition : Type := mkGateDef { def_parameters : list bytes; def_qubits : list bytes; def_body : list bytes }.
Record ParseContext : Type := mkContext {
  qregs : list (bytes * QRegister);
  custom_gates : list (bytes * GateDefinition);
  qubit_scope : list (bytes * nat);
  parameter_scope : list (bytes * f64);
}.
Record GateApplication : Type := mkApplication { app_gate : Gate; app_targets : list nat }.

Definition parse_indexed_identifier (line : nat) (source : bytes) : qres (bytes * Z) :=
  match find_sub (str "[") source with
  | None => parse_error line (str "expected indexed identifier, got '" ++ source ++ str "'")
  | Some open =>
      match rfind x5d source with
      | None => parse_error line (str "expected closing ']' in '" ++ source ++ str "'")
      | Some close =>
          if bool_decide (close < open + 1)%nat then Err QPanic
          else match parse_uint 10 u64_max (trim (take (close - (open + 1)) (drop (open + 1) source))) with
               | None => parse_error line (str "invalid register index in '" ++ source ++ str "'")
               | Some index => Ok (trim (take open source), index)
               end
      end
  end.

Definition resolve_register_reference (line : nat) (reference : bytes) (registers : list (bytes * QRegister)) : qres nat :=
  '(name, index) ← parse_indexed_identifier line reference;
  match assoc registers name with
  | None => Err (QErr (UndeclaredRegister name))
  | Some register =>
      if reg_size register <=? index then Err (QErr (QasmQubitOutOfRange name index (reg_size register)))
      else Ok (Z.to_nat (reg_base register + index))
  end.
Definition resolve_quantum_reference (line : nat) (reference : bytes) (registers : list (bytes * QRegister))
    (scope : list (bytes * nat)) : qres nat :=
  match assoc scope reference with Some qubit => Ok qubit | None => resolve_register_reference line reference registers end.

Definition parse_register_declaration (line : nat) (statement : bytes) (keyword : string) : qres (bytes * Z) :=
  match strip_prefix (str keyword) statement with
  | None => parse_error line (str "expected '" ++ str keyword ++ str "' declaration")
  | Some body => parse_indexed_identifier line (trim body)
  end.

(** [split_arguments]: commas outside parentheses. *)
Definition push_argument (current : bytes) (arguments : list bytes) : list bytes :=
  if bool_decide (trim current = []) then arguments else arguments ++ [trim current].
Fixpoint split_arguments_go (s current : bytes) (depth : nat) (arguments : list bytes) : list bytes :=
  match s with
  | [] => push_argument current arguments
  | b :: s' =>
      if bool_decide (b = x2c) && bool_decide (depth = O) then split_arguments_go s' [] depth (push_argument current arguments)
      else if bool_decide (b = x28) then split_arguments_go s' (current ++ [b]) (S depth) arguments
      else if bool_decide (b = x29) then split_arguments_go s' (current ++ [b]) (depth - 1) arguments
      else split_arguments_go s' (current ++ [b]) depth arguments
  end.
Definition split_arguments (source : bytes) : list bytes := split_arguments_go source [] 0 [].

(** [split_gate_statement]: the first white space outside parentheses. *)
Fixpoint split_gate_go (seen rest : bytes) (depth : nat) : option (bytes * bytes) :=
  match rest with
  | [] => None
  | b :: rest' =>
      if bool_decide (b = x28) then split_gate_go (seen ++ [b]) rest' (S depth)
      else if bool_decide (b = x29) then split_gate_go (seen ++ [b]) rest' (depth - 1)
      else if negb (bool_decide (encoding_len whitespace_encodings rest = O)) && bool_decide (depth = O)
              && negb (bool_decide (trim rest = []))
      then Some (trim seen, trim rest)
      else split_gate_go (seen ++ [b]) rest' depth
  end.
Definition split_gate_statement (line : nat) (statement : bytes) : qres (bytes * bytes) :=
  match split_gate_go [] statement 0 with
  | Some p => Ok p
  | None => parse_error line (str "gate statement requires operands")
  end.

(** [source.find('(')] and [source.rfind(')')]: the text before, and between. *)
Definition split_parens (line : nat) (source : bytes) : qres (bytes * option bytes) :=
  match find_sub (str "(") source with
  | None => Ok (source, None)
  | Some open =>
      match rfind x29 source with
      | None => parse_error line (str "missing closing ')'")
      | Some close =>
          if bool_decide (close < open + 1)%nat then Err QPanic
          else Ok (take open source, Some (take (close - (open + 1)) (drop (open + 1) source)))
      end
  end.
Definition parse_identifier_list (line : nat) (source : bytes) : qres (bytes * list bytes) :=
  '(name, inner) ← split_parens line source;
  Ok (map to_ascii_lowercase (trim name), match inner with Some a => split_arguments a | None => [] end).

Definition parse_gate_definition (line : nat) (statement : bytes) : qres (bytes * GateDefinition) :=
  match strip_prefix (str "gate") statement with
  | None => parse_error line (str "expected gate definition")
  | Some body =>
      match split_once (str "{") (trim body) with
      | None => parse_error line (str "gate definition must contain '{'")
      | Some (header, body) =>
          let gate_body := trim (trim_end_matches x7d (trim body)) in
          '(head, operands) ← split_gate_statement line (trim header);
          '(name, parameters) ← parse_identifier_list line head;
          Ok (name, mkGateDef parameters (split_arguments operands)
                      (List.filter (fun s => negb (bool_decide (s = []))) (map trim (split_on x3b gate_body))))
      end
  end.

(** ** Expressions *)

(** The parser's state is the input from its position on. *)
Abbreviation pst A := (stm bytes qasm_fault A).

(** [skip_whitespace] advances by one byte per character, so a longer white
    space leaves the position inside a character, where the next slice panics. *)
Fixpoint skip_whitespace_go (s : bytes) : qres bytes :=
  match s with
  | [] => Ok []
  | _ :: s' =>
      match encoding_len whitespace_encodings s with
      | O => Ok s
      | S O => skip_whitespace_go s'
      | _ => Err QPanic
      end
  end.
Definition skip_whitespace : pst () :=
  fun s => match skip_whitespace_go s with Ok s' => (Ok (), s') | Err e => (Err e, s) end.
Definition take_if (expected : byte) : pst bool :=
  fun s => match s with
           | b :: s' => if bool_decide (b = expected) then (Ok true, s') else (Ok false, s)
           | [] => (Ok false, [])
           end.
Definition consume (expected : byte) : pst bool := _ ← skip_whitespace; take_if expected.

Definition is_identifier_char (b : byte) : bool :=
  let v := bval b in (65 <=? v) && (v <=? 90) || (97 <=? v) && (v <=? 122) || bool_decide (b = x5f).
Definition take_identifier : pst (option bytes) :=
  fun s => let '(name, s') := span is_identifier_char s in
           (Ok (if bool_decide (name = []) then None else Some name), s').
Definition parse_identifier : pst (option bytes) := _ ← skip_whitespace; take_identifier.

(** The characters of a numeric literal; a minus sign is not the first. *)
Definition is_number_char (first : bool) (b : byte) : bool :=
  is_digit b || bool_decide (b = x2d) && negb first || bool_decide (b ∈ [x2e; x65; x45; x2b]).
Definition number_span (s : bytes) : bytes * bytes :=
  match s with
  | b :: s' => if is_number_char true b then let '(u, v) := span (is_number_char false) s' in (b :: u, v) else ([], s)
  | [] => ([], [])
  end.
Definition parse_number (line : nat) : pst f64 :=
  fun s =>
    let '(literal, s') := number_span s in
    match parse_f64 (trim literal) with
    | Some v => (Ok v, s')
    | None => (parse_error line (str "invalid numeric literal '" ++ literal ++ str "'"), s')
    end.

Section expressions.
Variable (line : nat) (scope : list (bytes * f64)).

Fixpoint parse_expression (fuel : nat) : pst f64 :=
  match fuel with
  | O => throw QOutOfFuel
  | S fuel => value ← parse_term fuel; expression_loop fuel value
  end
with expression_loop (fuel : nat) (value : f64) : pst f64 :=
  match fuel with
  | O => throw QOutOfFuel
  | S fuel =>
      _ ← skip_whitespace;
      plus ← consume x2b;
      if (plus : bool) then t ← parse_term fuel; expression_loop fuel (fadd value t)
      else
        minus ← consume x2d;
        if (minus : bool) then t ← parse_term fuel; expression_loop fuel (fsub value t)
        else mret value
  end
with parse_term (fuel : nat) : pst f64 :=
  match fuel with
  | O => throw QOutOfFuel
  | S fuel => value ← parse_factor fuel; term_loop fuel value
  end
with term_loop (fuel : nat) (value : f64) : pst f64 :=
  match fuel with
  | O => throw QOutOfFuel
  | S fuel =>
      _ ← skip_whitespace;
      times ← consume x2a;
      if (times : bool) then t ← parse_factor fuel; term_loop fuel (fmul value t)
      else
        divide ← consume x2f;
        if (divide : bool) then t ← parse_factor fuel; term_loop fuel (fdiv value t)
        else mret value
  end
with parse_factor (fuel : nat) : pst f64 :=
  match fuel with
  | O => throw QOutOfFuel
  | S fuel =>
      _ ← skip_whitespace;
      plus ← consume x2b;
      if (plus : bool) then parse_factor fuel
      else
        minus ← consume x2d;
        if (minus : bool) then v ← parse_factor fuel; mret (fneg v)
        else
          open ← consume x28;
          if (open : bool) then
            value ← parse_expression fuel;
            close ← consume x29;
            if (close : bool) then mret value else lift_result (parse_error line (str "missing closing ')' in expression"))
          else
            rest ← gets id;
            match strip_prefix (str "pi") rest with
            | Some rest' => _ ← modify (fun _ => rest'); mret PI
            | None =>
                name ← parse_identifier;
                match name with
                | Some identifier =>
                    match assoc scope identifier with
                    | Some v => mret v
                    | None => lift_result (parse_error line (str "unknown identifier '" ++ identifier ++ str "'"))
                    end
                | None => parse_number line
                end
            end
  end.

Definition expression_fuel (source : bytes) : nat := 4 * length source + 3.
Definition evaluate_expression (source : bytes) : qres f64 :=
  ((value ← parse_expression (expression_fuel source);
    _ ← skip_whitespace;
    rest ← gets id;
    if bool_decide (rest = []) then mret value
    else lift_result (parse_error line (str "unexpected token in expression '" ++ trim source ++ str "'"))) source).1.
End expressions.

Definition parse_gate_head (line : nat) (head : bytes) (scope : list (bytes * f64)) : qres (bytes * list f64) :=
  '(name, inner) ← split_parens line head;
  parameters ← match inner with
               | Some a => mapM (evaluate_expression line scope) (split_arguments a)
               | None => Ok []
               end;
  Ok (map to_ascii_lowercase (trim name), parameters).

(** ** Gates *)

Definition is_integer (value : f64) : bool :=
  fltb (fabs (fsub (f_round value) value)) (f64_of_decimal false 1 (-9)) && fleb f64_zero value.

Section gates.
Context `{Libm}.

Definition toffoli_decomposition (control_0 control_1 target : nat) : list GateApplication :=
  let one g q := mkApplication g [q] in
  let two g q0 q1 := mkApplication g [q0; q1] in
  [one gate_h target; two gate_cnot control_1 target; one gate_tdg target; two gate_cnot control_0 target;
   one gate_t target; two gate_cnot control_1 target; one gate_tdg target; two gate_cnot control_0 target;
   one gate_t control_1; one gate_t target; one gate_h target; two gate_cnot control_0 control_1;
   one gate_t control_0; one gate_tdg control_1; two gate_cnot control_0 control_1].

Definition FRAC_PI_2 : f64 := fdiv PI f64_two.

Definition builtin_gate (name : bytes) (parameters : list f64) (qubits : list nat) : option (result bytes (list GateApplication)) :=
  let named s := bool_decide (name = str s) in
  let single g q := Some (Ok [mkApplication g [q]]) in
  let double g q0 q1 := Some (Ok [mkApplication g [q0; q1]]) in
  match parameters, qubits with
  | [], [q0] =>
      if named "id" then Some (Ok [])
      else if named "h" then single gate_h q0
      else if named "x" then single gate_x q0
      else if named "y" then single gate_y q0
      else if named "z" then single gate_z q0
      else if named "s" then single gate_s q0
      else if named "sdg" then single gate_sdg q0
      else if named "t" then single gate_t q0
      else if named "tdg" then single gate_tdg q0
      else None
  | [theta], [q0] =>
      if named "rx" then single (gate_rx theta) q0
      else if named "ry" then single (gate_ry theta) q0
      else if named "rz" then single (gate_rz theta) q0
      else if named "u1" then single (gate_rz theta) q0
      else None
  | [phi; lambda], [q0] => if named "u2" then single (gate_u3 FRAC_PI_2 phi lambda) q0 else None
  | [theta; phi; lambda], [q0] => if named "u" || named "u3" then single (gate_u3 theta phi lambda) q0 else None
  | [], [q0; q1] =>
      if named "cx" then double gate_cnot q0 q1
      else if named "cz" then double gate_cz q0 q1
      else if named "swap" then double gate_swap q0 q1
      else None
  | [k], [q0; q1] => if named "crk" && is_integer k then double (gate_crk (Z.to_nat (f_to_usize k))) q0 q1 else None
  | [], [q0; q1; q2] => if named "ccx" then Some (Ok (toffoli_decomposition q0 q1 q2)) else None
  | _, _ => None
  end.

Fixpoint expand_gate (fuel : nat) (line : nat) (context : ParseContext) (statement : bytes) : qres (list GateApplication) :=
  match fuel with
  | O => Err QOutOfFuel
  | S fuel =>
      '(head, operands) ← split_gate_statement line statement;
      '(name, parameters) ← parse_gate_head line head (parameter_scope context);
      qubits ← mapM (fun operand => resolve_quantum_reference line (trim operand) (qregs context) (qubit_scope context))
                    (split_arguments operands);
      match builtin_gate name parameters qubits with
      | Some (Ok applications) => Ok applications
      | Some (Err message) => parse_error line message
      | None =>
          match assoc (custom_gates context) name with
          | None => Err (QErr (UnknownGate name))
          | Some definition =>
              if negb (bool_decide (length (def_parameters definition) = length parameters))
              then parse_error line (str "gate '" ++ name ++ str "' expects " ++ decimal (blen (def_parameters definition))
                                     ++ str " parameters, got " ++ decimal (blen parameters))
              else if negb (bool_decide (length (def_qubits definition) = length qubits))
              then parse_error line (str "gate '" ++ name ++ str "' expects " ++ decimal (blen (def_qubits definition))
                                     ++ str " operands, got " ++ decimal (blen qubits))
              else
                let nested := mkContext (qregs context) (custom_gates context)
                  (fold_left (fun sc p => p :: sc) (zip (def_qubits definition) qubits) (qubit_scope context))
                  (fold_left (fun sc p => p :: sc) (zip (def_parameters definition) parameters) (parameter_scope context)) in
                foldR (fun s expanded => more ← expand_gate fuel line nested s; Ok (expanded ++ more)) (def_body definition) []
          end
      end
  end.

(** ** Statements that change the circuit *)

Definition build {A} (line : nat) (m : cst A) (c : Circuit) : qres Circuit :=
  match m c with
  | (Ok _, c') => Ok c'
  | (Err e, _) => parse_error line (waros_display e)
  end.
Definition register_bits (r : QRegister) : list nat := seq (Z.to_nat (reg_base r)) (Z.to_nat (reg_size r)).

Definition parse_measurement (line : nat) (statement : bytes) (qregs cregs : list (bytes * QRegister)) (c : Circuit) : qres Circuit :=
  match strip_prefix (str "measure") statement with
  | None => parse_error line (str "expected measurement")
  | Some body =>
      match split_once (str "->") (trim body) with
      | None => parse_error line (str "measurement must use '->'")
      | Some (qubit_ref, classical_ref) =>
          qubit ← resolve_quantum_reference line (trim qubit_ref) qregs [];
          classical ← resolve_register_reference line (trim classical_ref) cregs;
          build line (measure_into qubit classical) c
      end
  end.

(** One operand of a barrier: a qubit, or a whole register. *)
Definition barrier_part (line : nat) (qregs : list (bytes * QRegister)) (scope : list (bytes * nat)) (part : bytes)
    (qubits : list nat) : qres (list nat) :=
  match assoc scope (trim part) with
  | Some qubit => Ok (qubits ++ [qubit])
  | None =>
      if contains part (str "[") then
        q ← resolve_quantum_reference line (trim part) qregs scope; Ok (qubits ++ [q])
      else match assoc qregs (trim part) with
           | None => Err (QErr (UndeclaredRegister (trim part)))
           | Some register => Ok (qubits ++ register_bits register)
           end
  end.
Definition parse_barrier (line : nat) (statement : bytes) (qregs : list (bytes * QRegister)) (scope : list (bytes * nat))
    (c : Circuit) : qres Circuit :=
  match strip_prefix (str "barrier") statement with
  | None => parse_error line (str "expected barrier")
  | Some body =>
      qubits ← foldR (barrier_part line qregs scope) (split_arguments (trim body)) [];
      build line (barrier qubits) c
  end.

Definition parse_conditional (fuel line : nat) (statement : bytes) (cregs : list (bytes * QRegister)) (context : ParseContext)
    (c : Circuit) : qres Circuit :=
  match find_sub (str "(") statement, find_sub (str ")") statement with
  | None, _ => parse_error line (str "conditional statement missing '('")
  | _, None => parse_error line (str "conditional statement missing ')'")
  | Some open, Some close =>
      if bool_decide (close < open + 1)%nat then Err QPanic
      else
        let condition := trim (take (close - (open + 1)) (drop (open + 1) statement)) in
        let operation := trim (drop (close + 1) statement) in
        match split_once (str "==") condition with
        | None => parse_error line (str "conditional must use '=='")
        | Some (register_name, expected_value) =>
            match assoc cregs (trim register_name) with
            | None => Err (QErr (UndeclaredRegister (trim register_name)))
            | Some register =>
                match parse_uint 10 u64_max (trim expected_value) with
                | None => parse_error line (str "conditional value must be an integer")
                | Some value =>
                    applications ← expand_gate fuel line context operation;
                    foldR (fun a c => build line (conditional_gate (register_bits register) value (app_gate a) (app_targets a)) c)
                          applications c
                end
            end
        end
  end.

Definition parse_statement (fuel line : nat) (statement : bytes) (cregs : list (bytes * QRegister)) (context : ParseContext)
    (c : Circuit) : qres Circuit :=
  if starts_with statement (str "measure ") then parse_measurement line statement (qregs context) cregs c
  else if starts_with statement (str "barrier ") then parse_barrier line statement (qregs context) (qubit_scope context) c
  else if starts_with statement (str "if(") || starts_with statement (str "if (")
  then parse_conditional fuel line statement cregs context c
  else
    applications ← expand_gate fuel line context statement;
    foldR (fun a c => build line (custom_gate (app_gate a) (app_targets a)) c) applications c.

(** ** Programs *)

Record Declarations : Type := mkDeclarations {
  d_qregs : list (bytes * QRegister);
  d_cregs : list (bytes * QRegister);
  d_gates : list (bytes * GateDefinition);
  d_qubits : Z;
  d_bits : Z;
  d_operations : list (nat * bytes);
}.

Definition declare (st : nat * bytes) (d : Declarations) : qres Declarations :=
  let '(line, statement) := st in
  if starts_with statement (str "include ") then
    if negb (bool_decide (statement = include_qelib))
    then parse_error line (str "only " ++ include_qelib ++ str " is supported") else Ok d
  else if starts_with statement (str "qreg ") then
    '(name, size) ← parse_register_declaration line statement "qreg";
    if u64_max <? d_qubits d + size then Err QPanic
    else Ok (mkDeclarations ((name, mkQReg (d_qubits d) size) :: d_qregs d) (d_cregs d) (d_gates d) (d_qubits d + size) (d_bits d) (d_operations d))
  else if starts_with statement (str "creg ") then
    '(name, size) ← parse_register_declaration line statement "creg";
    if u64_max <? d_bits d + size then Err QPanic
    else Ok (mkDeclarations (d_qregs d) ((name, mkQReg (d_bits d) size) :: d_cregs d) (d_gates d) (d_qubits d) (d_bits d + size) (d_operations d))
  else if starts_with statement (str "gate ") then
    definition ← parse_gate_definition line statement;
    Ok (mkDeclarations (d_qregs d) (d_cregs d) (definition :: d_gates d) (d_qubits d) (d_bits d) (d_operations d))
  else Ok (mkDeclarations (d_qregs d) (d_cregs d) (d_gates d) (d_qubits d) (d_bits d) (d_operations d ++ [(line, statement)])).

Definition parse_qasm (fuel : nat) (source : bytes) : qres Circuit :=
  statements ← collect_statements source;
  match statements with
  | [] => parse_error 1 (str "missing OPENQASM header")
  | (line, first) :: rest =>
      if negb (bool_decide (first = str "OPENQASM 2.0")) then parse_error line (str "expected 'OPENQASM 2.0;' header")
      else
        d ← foldR declare rest (mkDeclarations [] [] [] 0 0 []);
        if d_qubits d =? 0 then parse_error 1 (str "at least one qreg declaration is required")
        else match with_classical_bits (Z.to_nat (d_qubits d)) (Z.to_nat (d_bits d)) with
             | Err e => parse_error 1 (waros_display e)
             | Ok circuit =>
                 let context := mkContext (d_qregs d) (d_gates d) [] [] in
                 foldR (fun st c => parse_statement fuel st.1 st.2 (d_cregs d) context c) (d_operations d) circuit
             end
  end.
End gates.
