(* ===== verification/QasmSpecs.v ===== *)
(** * Reading back what was written (crates/waros-quantum/src/qasm)

    The theorems on [Qasm]: a serialized circuit is parsed back, without the
    gates the language has no statement for; evaluation of expressions
    terminates; and where the two disagree. *)
From S2P Require Import Prelude RustStr RustParse Float64 Circuit CircuitOpt Qasm.

(** ** References *)

Lemma indexed_found line r i :
  Forall (fun b => inert b = true /\ b <> x5b) (str r) -> str r <> [] -> Z.of_nat i <= u64_max ->
  parse_indexed_identifier line (indexed r i) = Ok (str r, Z.of_nat i).
Proof.
  intros Hr Hne Hi. unfold parse_indexed_identifier, indexed. destruct (decimal_spec (Z.of_nat i) ltac:(lia)) as [Hdn Hd].
  assert (x5b ∉ str r) as Hbr. { intros Hin. by destruct (Forall_elem _ _ _ Hr Hin). }
  change (str "[") with [x5b]. change (str "]") with [x5d].
  rewrite (find_byte_after x5b (str r) (decimal (Z.of_nat i) ++ [x5d]) Hbr : find_sub _ (_ ++ [x5b] ++ _) = _).
  assert (str r ++ [x5b] ++ decimal (Z.of_nat i) ++ [x5d] = (str r ++ [x5b] ++ decimal (Z.of_nat i)) ++ x5d :: []) as E
    by (by rewrite <- !app_assoc).
  rewrite E, rfind_after by (apply not_elem_of_nil). rewrite <- E, !length_app. cbn [length].
  rewrite bool_decide_false by lia.
  assert (drop (length (str r) + 1) (str r ++ [x5b] ++ decimal (Z.of_nat i) ++ [x5d]) = decimal (Z.of_nat i) ++ [x5d]) as ->.
  { rewrite app_assoc. apply drop_app_length'. by rewrite length_app. }
  rewrite take_app_length' by lia. rewrite (trim_tight (decimal _)) by by apply digits_tight.
  rewrite parse_decimal by (unfold u64_max in *; lia). rewrite take_app_length. f_equal. f_equal. apply trim_tight.
  unfold tight. destruct (str r) as [|b s]; [done|]. pose proof (proj1 (Forall_cons _ _ _) Hr) as [[-> _] _].
  destruct (last (b :: s)) as [c|] eqn:El; [|by apply last_None in El]. cbn.
  apply last_Some in El as [l El]. rewrite El in Hr. by apply Forall_app in Hr as [_ [[? _] _]%Forall_cons].
Qed.

(** The one register the serializer declares. *)
Abbreviation whole r n := [(str r, mkQReg 0 (Z.of_nat n))].

Lemma reference_resolved line (r : string) n i :
  Forall (fun b => inert b = true /\ b <> x5b) (str r) -> str r <> [] -> (i < n)%nat -> Z.of_nat n <= u64_max ->
  resolve_register_reference line (indexed r i) (whole r n) = Ok i.
Proof.
  intros Hr Hne Hi Hn. unfold resolve_register_reference. rewrite indexed_found by (done || lia).
  cbn [mbind result_bind]. unfold assoc, find_first. cbn [List.find fst]. rewrite bool_decide_true by done. cbn [fmap option_fmap option_map snd reg_size reg_base].
  rewrite (proj2 (Z.leb_gt _ _)) by lia. f_equal. lia.
Qed.
Lemma q_resolved line n i : (i < n)%nat -> (n <= MAX_QUBITS)%nat ->
  resolve_quantum_reference line (indexed "q" i) (whole "q" n) [] = Ok i.
Proof.
  intros Hi Hn. apply reference_resolved; [by repeat constructor|done|done|]. unfold MAX_QUBITS, u64_max in *. lia.
Qed.

Lemma indexed_q i : exists ds, indexed "q" i = x71 :: x5b :: ds ++ [x5d] /\ Forall (fun b => is_digit b = true) ds.
Proof. exists (decimal (Z.of_nat i)). split; [done|]. apply decimal_spec. lia. Qed.
Lemma indexed_q_tight i : tight (indexed "q" i) = true.
Proof. destruct (indexed_q i) as (ds & -> & _). apply (tight_app x71 (x5b :: ds) x5d); done. Qed.

(** ** Splitting *)

(** Characters that neither parentheses nor commas nor white space stop at. *)
Definition quiet (b : byte) : bool := inert b && negb (bool_decide (b ∈ [x28; x29; x2c; x3b; x7b; x7d; x2f])).
Lemma quiet_spec b : quiet b = true -> inert b = true /\ b <> x28 /\ b <> x29 /\ b <> x2c /\ b <> x3b /\ b <> x7b /\ b <> x7d /\ b <> x2f.
Proof.
  unfold quiet. intros [Hb Hn]%andb_prop. split; [done|]. apply negb_true_iff, bool_decide_eq_false in Hn.
  rewrite !not_elem_of_cons in Hn. tauto.
Qed.
Lemma digit_quiet b : is_digit b = true -> quiet b = true.
Proof. destruct b; vm_compute; done. Qed.
Lemma indexed_q_quiet i : Forall (fun b => quiet b = true) (indexed "q" i).
Proof.
  destruct (indexed_q i) as (ds & -> & Hds). do 2 (apply List.Forall_cons; [done|]). apply Forall_app. split; [|by repeat constructor].
  eapply Forall_impl; [exact Hds|]. apply digit_quiet.
Qed.

Lemma arguments_quiet w rest current depth arguments :
  Forall (fun b => quiet b = true) w ->
  split_arguments_go (w ++ rest) current depth arguments = split_arguments_go rest (current ++ w) depth arguments.
Proof.
  intros Hw. revert current. induction Hw as [|b w Hb Hw IH]; intros current; [by rewrite app_nil_r|].
  apply quiet_spec in Hb as (_ & H1 & H2 & H3 & _). cbn [app split_arguments_go].
  rewrite !(bool_decide_false (b = _)) by done. cbn [andb]. rewrite IH. by rewrite <- app_assoc.
Qed.
Lemma push_argument_tight s l : tight s = true -> push_argument s l = l ++ [s].
Proof. intros Hs. unfold push_argument. rewrite trim_tight by done. rewrite bool_decide_false; [done|]. by intros ->. Qed.

Lemma split_one s : tight s = true -> Forall (fun b => quiet b = true) s -> split_arguments s = [s].
Proof.
  intros Ht Hq. unfold split_arguments. rewrite <- (app_nil_r s) at 1. rewrite arguments_quiet by done.
  cbn [split_arguments_go app]. by rewrite push_argument_tight.
Qed.
Lemma join_cons sep x y l : join_with sep (x :: y :: l) = x ++ sep ++ join_with sep (y :: l).
Proof. reflexivity. Qed.
(** A list of arguments, as [join(", ")] writes it. *)
Lemma split_join l current arguments :
  l <> [] -> Forall (fun s => tight s = true /\ Forall (fun b => quiet b = true) s) l -> current = [] \/ current = [x20] ->
  split_arguments_go (join_with (str ", ") l) current 0 arguments = arguments ++ l.
Proof.
  intros Hne Hl. revert current arguments. induction Hl as [|s l [Ht Hq] Hl IH]; intros current arguments Hc; [done|].
  assert (forall l0, push_argument (current ++ s) l0 = l0 ++ [s]) as Hpush.
  { intros l0. destruct Hc as [->| ->]; [by apply push_argument_tight|]. unfold push_argument. cbn [app].
    rewrite trim_blank. by apply push_argument_tight. }
  destruct l as [|s2 l].
  - cbn [join_with]. rewrite <- (app_nil_r s) at 1. rewrite arguments_quiet by done. cbn [split_arguments_go]. apply Hpush.
  - rewrite join_cons, arguments_quiet by done. change (str ", ") with [x2c; x20].
    change (split_arguments_go ([x2c; x20] ++ join_with [x2c; x20] (s2 :: l)) (current ++ s) 0 arguments)
      with (split_arguments_go (join_with (str ", ") (s2 :: l)) [x20] 0 (push_argument (current ++ s) arguments)).
    rewrite Hpush, IH by auto. by rewrite <- app_assoc.
Qed.

Lemma gate_quiet w rest seen depth :
  Forall (fun b => quiet b = true) w -> split_gate_go seen (w ++ rest) depth = split_gate_go (seen ++ w) rest depth.
Proof.
  intros Hw. revert seen. induction Hw as [|b w Hb Hw IH]; intros seen; [by rewrite app_nil_r|].
  apply quiet_spec in Hb as (Hi & H1 & H2 & _). cbn [app split_gate_go].
  rewrite !(bool_decide_false (b = _)), inert_not_space by done. cbn [negb bool_decide]. rewrite bool_decide_true by done. cbn [negb andb].
  rewrite IH. by rewrite <- app_assoc.
Qed.
Lemma gate_blank seen operands :
  tight operands = true -> split_gate_go seen (x20 :: operands) 0 = Some (trim seen, operands).
Proof.
  intros Ht. cbn [split_gate_go]. rewrite !(bool_decide_false (x20 = _)) by done.
  rewrite trim_blank, trim_tight by done. rewrite (bool_decide_false (operands = [])) by (by intros ->). done.
Qed.

(** ** Statements *)

(** What the text of a statement consists of. *)
Definition statement_char (b : byte) : bool :=
  (inert b || bool_decide (b = x20)) && negb (bool_decide (b ∈ [x3b; x7b; x7d; x2f])).
Definition clean (s : bytes) : Prop := tight s = true /\ Forall (fun b => statement_char b = true) s.

Lemma statement_char_spec b : statement_char b = true -> b <> x0a /\ b <> x3b /\ b <> x7b /\ b <> x7d /\ b <> x2f /\ b <> x0d.
Proof. destruct b; vm_compute; try done; intros _; by split_and!. Qed.
Lemma quiet_statement b : quiet b = true -> statement_char b = true.
Proof. destruct b; vm_compute; done. Qed.

Lemma scan_text w rest sts cur st ln :
  cur <> [] -> Forall (fun b => statement_char b = true) w ->
  scan_chars (w ++ rest) (mkScan sts cur st ln 0) = scan_chars rest (mkScan sts (cur ++ w) st ln 0).
Proof.
  intros Hc Hw. revert cur Hc. induction Hw as [|b w Hb Hw IH]; intros cur Hc; [by rewrite app_nil_r|].
  apply statement_char_spec in Hb as (H1 & H2 & H3 & H4 & _). cbn [app scan_chars]. unfold scan_char. cbn [sc_current sc_depth].
  rewrite (bool_decide_false (cur = [])) by done. cbn [andb sc_current sc_depth].
  rewrite !(bool_decide_false (b = _)) by done. cbn [andb]. unfold push_char. cbn [sc_statements sc_current sc_start sc_line sc_depth].
  rewrite IH by (by destruct cur). by rewrite <- app_assoc.
Qed.
Lemma scan_statement s rest sts st ln :
  clean s -> scan_chars (s ++ x3b :: rest) (mkScan sts [] st ln 0) = scan_chars rest (mkScan (sts ++ [(ln, s)]) [] ln ln 0).
Proof.
  intros [Ht Hs]. pose proof (trim_tight s Ht) as Htrim. destruct s as [|b s]; [done|]. apply Forall_cons in Hs as [Hb Hs].
  apply andb_prop in Ht as [Hi _]. pose proof (statement_char_spec b Hb) as (H1 & H2 & H3 & H4 & _).
  cbn [app scan_chars]. unfold scan_char at 1. cbn [sc_current sc_depth]. rewrite inert_not_space, (bool_decide_true ([] = [])), (bool_decide_true (O = O)) by done.
  cbn [andb sc_statements sc_current sc_line sc_depth]. rewrite !(bool_decide_false (b = _)) by done.
  cbn [andb]. unfold push_char. cbn [sc_statements sc_current sc_start sc_line sc_depth app].
  rewrite scan_text by done. cbn [scan_chars]. unfold scan_char. cbn [sc_current sc_depth app].
  rewrite (bool_decide_false (b :: s = [])) by done. cbn [andb sc_depth].
  rewrite !(bool_decide_false (x3b = _)), (bool_decide_true (x3b = x3b)), (bool_decide_true (O = O)) by done. cbn [andb].
  unfold push_statement. cbn [sc_current sc_statements sc_start sc_line sc_depth]. rewrite Htrim. by rewrite bool_decide_false.
Qed.
Lemma scan_newline rest sts st ln :
  scan_chars (x0a :: rest) (mkScan sts [] st ln 0) = scan_chars rest (mkScan sts [] st (S ln) 0).
Proof. reflexivity. Qed.

(** A line of a program: a statement, or a comment. *)
Definition item_line (it : bytes + bytes) : bytes := match it with inl s => s ++ [x3b] | inr c => str "//" ++ c end.
Definition item_ok (it : bytes + bytes) : Prop :=
  match it with inl s => clean s | inr c => Forall (fun b => b <> x0a /\ b <> x0d) c end.
Fixpoint numbered (line : nat) (items : list (bytes + bytes)) : list (nat * bytes) :=
  match items with
  | [] => []
  | inl s :: items' => (line, s) :: numbered (S line) items'
  | inr _ :: items' => numbered (S line) items'
  end.

Lemma item_chars it : item_ok it -> item_line it <> [] /\ Forall (fun b => b <> x0a /\ b <> x0d) (item_line it).
Proof.
  destruct it as [s|c]; cbn.
  - intros [_ Hs]. split; [by destruct s|]. apply Forall_app. split; [|by repeat constructor].
    eapply Forall_impl; [exact Hs|]. intros b (? & ? & ? & ? & ? & ?)%statement_char_spec. done.
  - intros Hc. split; [done|]. by repeat (apply List.Forall_cons; [done|]).
Qed.
Lemma split_joined ls : ls <> [] -> Forall (fun l => x0a ∉ l) ls -> split_on x0a (join_with [x0a] ls) = ls.
Proof.
  intros Hne Hl. induction Hl as [|l ls Hl Hls IH]; [done|]. destruct ls as [|l2 ls]; [by apply split_on_none|].
  rewrite join_cons. change (l ++ [x0a] ++ ?r) with (l ++ x0a :: r). rewrite split_on_app by done. by rewrite IH.
Qed.
Lemma lines_joined ls :
  ls <> [] -> Forall (fun l => l <> [] /\ Forall (fun b => b <> x0a /\ b <> x0d) l) ls -> lines (join_with [x0a] ls) = ls.
Proof.
  intros Hne Hl. unfold lines. rewrite split_joined.
  - clear Hne. induction Hl as [|l ls [Hn Hc] Hls IH]; [done|]. destruct ls as [|l2 ls]; [by destruct l|].
    change (lines_go (l :: l2 :: ls)) with (strip_cr l :: lines_go (l2 :: ls)). rewrite IH. f_equal.
    unfold strip_cr, ends_with_byte. destruct (last l) as [b|] eqn:E; [|done]. rewrite bool_decide_false; [done|].
    apply last_Some in E as [l' ->]. by apply Forall_app in Hc as [_ [[_ ?] _]%Forall_cons].
  - done.
  - eapply Forall_impl; [exact Hl|]. intros l [_ Hc] Hin. by destruct (Forall_elem _ _ _ Hc Hin).
Qed.

Lemma trim_end_inert s c : inert c = true -> trim_end (s ++ [c]) = s ++ [c].
Proof.
  intros Hc. unfold trim_end. rewrite reverse_snoc, drop_encodings_id by by apply inert_heads.
  by rewrite reverse_cons, reverse_involutive.
Qed.
Definition sanitized_line (it : bytes + bytes) : bytes := match it with inl s => s ++ [x3b] | inr _ => [] end.
Lemma strip_item it : item_ok it -> strip_comment (item_line it) = sanitized_line it.
Proof.
  destruct it as [s|c]; cbn [item_line item_ok]; intros Hok.
  - unfold strip_comment, split_once. change (str "//") with (x2f :: [x2f]). rewrite find_sub_absent.
    + cbn [mbind option_bind]. by apply trim_end_inert.
    + destruct Hok as [_ Hs]. rewrite not_elem_of_app. split; [|by rewrite list_elem_of_singleton].
      intros Hin. by destruct (statement_char_spec _ (Forall_elem _ _ _ Hs Hin)) as (? & ? & ? & ? & ? & ?).
  - unfold strip_comment, split_once. by rewrite find_sub_here.
Qed.

Lemma scan_items items rest sts st ln :
  Forall item_ok items ->
  exists st' ln', scan_chars (join_with [x0a] (map sanitized_line items) ++ rest) (mkScan sts [] st ln 0)
    = scan_chars rest (mkScan (sts ++ numbered ln items) [] st' ln' 0).
Proof.
  intros Hok. revert sts st ln. induction Hok as [|it items Hit Hok IH]; intros sts st ln.
  { exists st, ln. cbn [map join_with app numbered]. by rewrite app_nil_r. }
  assert (forall rest, exists st', scan_chars (sanitized_line it ++ rest) (mkScan sts [] st ln 0)
    = scan_chars rest (mkScan (sts ++ numbered ln [it]) [] st' ln 0)) as Hone.
  { intros rest'. destruct it as [s|c]; cbn [numbered sanitized_line].
    - exists ln. rewrite <- app_assoc. apply scan_statement, Hit.
    - exists st. by rewrite app_nil_r. }
  destruct items as [|it2 items].
  - destruct (Hone rest) as [st' E]. exists st', ln. cbn [map join_with]. exact E.
  - cbn [map]. rewrite join_cons, <- !app_assoc. destruct (Hone ([x0a] ++ join_with [x0a] (map sanitized_line (it2 :: items)) ++ rest)) as [st' E].
    cbn [map] in E. rewrite E. change ([x0a] ++ ?r) with (x0a :: r). rewrite scan_newline.
    destruct (IH (sts ++ numbered ln [it]) st' (S ln)) as (st2 & ln2 & E2). cbn [map] in E2. rewrite E2. exists st2, ln2.
    rewrite <- app_assoc. f_equal. f_equal. f_equal. by destruct it.
Qed.

Lemma collect_items items :
  items <> [] -> Forall item_ok items -> collect_statements (join_with [x0a] (map item_line items)) = Ok (numbered 1 items).
Proof.
  intros Hne Hok. unfold collect_statements. rewrite lines_joined.
  - rewrite map_map. rewrite (map_ext_in _ sanitized_line).
    + destruct (scan_items items [] [] 1 1 Hok) as (st' & ln' & E). rewrite app_nil_r in E. by rewrite E.
    + intros it Hit. apply strip_item, (Forall_elem _ _ _ Hok), list_elem_of_In, Hit.
  - by destruct items.
  - apply Forall_map. eapply Forall_impl; [exact Hok|]. apply item_chars.
Qed.

(** ** What is written, and what is read *)

Section roundtrip.
Context `{Libm}.

(** The gates that have a statement, and its name. *)
Definition ONE : list (Gate * bytes) :=
  [(gate_h, str "h"); (gate_x, str "x"); (gate_y, str "y"); (gate_z, str "z");
   (gate_s, str "s"); (gate_sdg, str "sdg"); (gate_t, str "t"); (gate_tdg, str "tdg")].
Definition TWO : list (Gate * bytes) := [(gate_cnot, str "cx"); (gate_cz, str "cz"); (gate_swap, str "swap")].
Definition written (i : Instruction) : Prop :=
  match i with
  | GateOp g [_] => exists n, (g, n) ∈ ONE
  | GateOp g [_; _] => (exists n, (g, n) ∈ TWO) \/ exists k, (k < 256)%nat /\ g = gate_crk k
  | Measure _ _ => True
  | Barrier qs => qs <> []
  | _ => False
  end.
(** The gates of the library that have none: a comment is written instead. *)
Definition lost (i : Instruction) : Prop :=
  match i with
  | GateOp g [_] => g = gate_sx
  | GateOp g [_; _] => g = gate_cy
  | _ => False
  end.

(** What [expand_gate] makes of a statement. *)
Definition reads_as (n : nat) (s : bytes) (g : Gate) (ts : list nat) : Prop :=
  forall fuel line gates, expand_gate (S fuel) line (mkContext (whole "q" n) gates [] []) s = Ok [mkApplication g ts].

Lemma operands_one n q line :
  (q < n)%nat -> (n <= MAX_QUBITS)%nat ->
  mapM (fun operand => resolve_quantum_reference line (trim operand) (whole "q" n) []) (split_arguments (indexed "q" q)) = Ok [q].
Proof.
  intros Hq Hn. rewrite split_one by (apply indexed_q_tight || apply indexed_q_quiet). cbn [mapM mbind result_bind].
  rewrite trim_tight, q_resolved by (done || apply indexed_q_tight). reflexivity.
Qed.
Lemma operands_two n q0 q1 line :
  (q0 < n)%nat -> (q1 < n)%nat -> (n <= MAX_QUBITS)%nat ->
  mapM (fun operand => resolve_quantum_reference line (trim operand) (whole "q" n) [])
       (split_arguments (indexed "q" q0 ++ str ", " ++ indexed "q" q1)) = Ok [q0; q1].
Proof.
  intros H0 H1 Hn. unfold split_arguments.
  change (indexed "q" q0 ++ str ", " ++ indexed "q" q1) with (join_with (str ", ") [indexed "q" q0; indexed "q" q1]).
  rewrite (split_join [indexed "q" q0; indexed "q" q1] [] [])
    by (auto || (repeat (apply List.Forall_cons; [split; [apply indexed_q_tight|apply indexed_q_quiet]|]); apply List.Forall_nil)).
  cbn [app mapM mbind result_bind]. rewrite !trim_tight, !q_resolved by (done || apply indexed_q_tight). reflexivity.
Qed.

Lemma statement_split line head operands :
  Forall (fun b => quiet b = true) head -> trim head = head -> tight operands = true ->
  split_gate_statement line (head ++ str " " ++ operands) = Ok (head, operands).
Proof.
  intros Hh Ht Ho. unfold split_gate_statement. rewrite gate_quiet by done. change (str " " ++ operands) with (x20 :: operands).
  rewrite gate_blank by done. cbn [app]. by rewrite Ht.
Qed.

(** What the names of the fixed gates satisfy. *)
Definition name_ok (operands : nat) (p : Gate * bytes) : Prop :=
  Forall (fun b => quiet b = true) p.2 /\ trim p.2 = p.2 /\ (forall line, parse_gate_head line p.2 [] = Ok (p.2, [])) /\
  forall qs, length qs = operands -> builtin_gate p.2 [] qs = Some (Ok [mkApplication p.1 qs]).
Lemma ONE_ok : Forall (name_ok 1) ONE.
Proof.
  repeat (apply List.Forall_cons; [split_and!; [by repeat constructor|done|done|by intros [|q [|? ?]] Hq]|]). apply List.Forall_nil.
Qed.
Lemma TWO_ok : Forall (name_ok 2) TWO.
Proof.
  repeat (apply List.Forall_cons; [split_and!; [by repeat constructor|done|done|by intros [|q [|? [|? ?]]] Hq]|]). apply List.Forall_nil.
Qed.

Lemma read_fixed n g name operands qs :
  name_ok (length qs) (g, name) -> tight operands = true ->
  (forall line, mapM (fun operand => resolve_quantum_reference line (trim operand) (whole "q" n) []) (split_arguments operands) = Ok qs) ->
  reads_as n (name ++ str " " ++ operands) g qs.
Proof.
  intros (Hq & Ht & Hh & Hb) Ho Hr fuel line gates. cbn [fst snd] in *. cbn [expand_gate].
  rewrite statement_split by done. cbn [mbind result_bind parameter_scope qregs qubit_scope]. rewrite Hh. cbn [mbind result_bind].
  rewrite Hr. cbn [mbind result_bind]. by rewrite Hb.
Qed.
Lemma read_one n g name q :
  (g, name) ∈ ONE -> (q < n)%nat -> (n <= MAX_QUBITS)%nat -> reads_as n (name ++ str " " ++ indexed "q" q) g [q].
Proof.
  intros Hg Hq Hn. apply read_fixed; [apply (Forall_elem _ _ _ ONE_ok Hg)|apply indexed_q_tight|]. intros. by apply operands_one.
Qed.
Lemma two_tight q0 q1 : tight (indexed "q" q0 ++ str ", " ++ indexed "q" q1) = true.
Proof.
  destruct (indexed_q q0) as (d0 & -> & _), (indexed_q q1) as (d1 & -> & _).
  change (tight (x71 :: (x5b :: d0 ++ [x5d]) ++ str ", " ++ (x71 :: x5b :: d1) ++ [x5d]) = true).
  rewrite !app_assoc. by apply tight_app.
Qed.
Lemma read_two n g name q0 q1 :
  (g, name) ∈ TWO -> (q0 < n)%nat -> (q1 < n)%nat -> (n <= MAX_QUBITS)%nat ->
  reads_as n (name ++ str " " ++ indexed "q" q0 ++ str ", " ++ indexed "q" q1) g [q0; q1].
Proof.
  intros Hg H0 H1 Hn. apply read_fixed; [apply (Forall_elem _ _ _ TWO_ok Hg)|apply two_tight|]. intros. by apply operands_two.
Qed.

(** The phase rotations: their number is read as an expression. *)
Definition crk_head (k : nat) : bytes := str "crk(" ++ decimal (Z.of_nat k) ++ str ")".
Definition crk_head_ok (line k : nat) : bool :=
  match parse_gate_head line (crk_head k) [] with
  | Ok (name, [v]) => bool_decide (name = str "crk") && is_integer v && bool_decide (Z.to_nat (f_to_usize v) = k)
  | _ => false
  end.
Lemma crk_heads line : forallb (crk_head_ok line) (seq 0 256) = true.
Proof. vm_compute. reflexivity. Qed.
Lemma crk_read line k : (k < 256)%nat ->
  exists v, parse_gate_head line (crk_head k) [] = Ok (str "crk", [v]) /\ is_integer v = true /\ Z.to_nat (f_to_usize v) = k.
Proof.
  intros Hk. pose proof (crk_heads line) as Hall. rewrite forallb_forall in Hall.
  specialize (Hall k (proj2 (in_seq 256 0 k) ltac:(lia))). unfold crk_head_ok in Hall.
  destruct (parse_gate_head line (crk_head k) []) as [[name [|v [|? ?]]]|]; try done.
  apply andb_prop in Hall as [[Hn%bool_decide_eq_true Hi]%andb_prop Hv%bool_decide_eq_true]. exists v. by subst name.
Qed.
Lemma crk_tight k : tight (crk_head k) = true.
Proof.
  unfold crk_head. change (str "crk(") with (x63 :: str "rk("). change (str ")") with [x29].
  cbn [app]. rewrite app_assoc. by apply tight_app.
Qed.
Lemma crk_split line k operands :
  tight operands = true -> split_gate_statement line (crk_head k ++ str " " ++ operands) = Ok (crk_head k, operands).
Proof.
  intros Ho. unfold split_gate_statement. destruct (decimal_spec (Z.of_nat k) ltac:(lia)) as [_ Hd].
  change (split_gate_go [] (crk_head k ++ str " " ++ operands) 0)
    with (split_gate_go (str "crk(") ((decimal (Z.of_nat k) ++ str ")") ++ str " " ++ operands) 1).
  rewrite <- app_assoc, gate_quiet by (eapply Forall_impl; [exact Hd|apply digit_quiet]).
  change (split_gate_go (str "crk(" ++ decimal (Z.of_nat k)) (str ")" ++ str " " ++ operands) 1)
    with (split_gate_go ((str "crk(" ++ decimal (Z.of_nat k)) ++ [x29]) (x20 :: operands) 0).
  rewrite gate_blank by done. rewrite <- app_assoc. change ([x29]) with (str ")"). fold (crk_head k).
  by rewrite trim_tight by apply crk_tight.
Qed.
Lemma read_crk n k q0 q1 :
  (k < 256)%nat -> (q0 < n)%nat -> (q1 < n)%nat -> (n <= MAX_QUBITS)%nat ->
  reads_as n (crk_head k ++ str " " ++ indexed "q" q0 ++ str ", " ++ indexed "q" q1) (gate_crk k) [q0; q1].
Proof.
  intros Hk H0 H1 Hn fuel line gates. destruct (crk_read line k Hk) as (v & Hh & Hi & Hv). cbn [expand_gate].
  rewrite crk_split by apply two_tight. cbn [mbind result_bind parameter_scope qregs qubit_scope]. rewrite Hh.
  cbn [mbind result_bind]. rewrite operands_two by done. cbn [mbind result_bind]. unfold builtin_gate. by rewrite Hi, Hv.
Qed.

(** The text [s] is a statement that appends [i]. *)
Definition classical n : list (bytes * QRegister) := if bool_decide (0 < n)%nat then whole "c" n else [].
Definition stands_for (n bits : nat) (s : bytes) (i : Instruction) : Prop :=
  clean s /\
  (forall line d, declare (line, s) d =
     Ok (mkDeclarations (d_qregs d) (d_cregs d) (d_gates d) (d_qubits d) (d_bits d) (d_operations d ++ [(line, s)]))) /\
  (forall fuel line gates c, num_qubits c = n -> num_classical_bits c = bits ->
     parse_statement (S fuel) line s (classical bits) (mkContext (whole "q" n) gates [] []) c =
       Ok (mkCircuit n bits (instructions c ++ [i]))).

Definition keywords : list bytes := map str ["include "; "qreg "; "creg "; "gate "]%string.
Lemma declare_operation s line d :
  Forall (fun k => starts_with s k = false) keywords ->
  declare (line, s) d =
    Ok (mkDeclarations (d_qregs d) (d_cregs d) (d_gates d) (d_qubits d) (d_bits d) (d_operations d ++ [(line, s)])).
Proof.
  unfold keywords. cbn [map]. rewrite !Forall_cons. intros (H1 & H2 & H3 & H4 & _). unfold declare. by rewrite H1, H2, H3, H4.
Qed.

Lemma clean_app s1 s2 :
  Forall (fun b => statement_char b = true) s1 -> Forall (fun b => statement_char b = true) s2 ->
  tight (s1 ++ s2) = true -> clean (s1 ++ s2).
Proof. intros H1 H2 Ht. split; [done|]. by apply Forall_app. Qed.
Lemma indexed_chars r i :
  Forall (fun b => statement_char b = true) (str r) -> Forall (fun b => statement_char b = true) (indexed r i).
Proof.
  intros Hr. unfold indexed. apply Forall_app. split; [done|]. apply List.Forall_cons; [done|]. apply Forall_app.
  split; [|by repeat constructor]. eapply Forall_impl; [apply decimal_spec; lia|]. intros b Hb. by apply quiet_statement, digit_quiet.
Qed.
Lemma quiet_clean s : Forall (fun b => quiet b = true) s -> Forall (fun b => statement_char b = true) s.
Proof. intros Hs. eapply Forall_impl; [exact Hs|]. apply quiet_statement. Qed.

Definition operation_keywords : list bytes := map str ["measure "; "barrier "; "if("; "if ("]%string.
Lemma gate_stands n bits s g ts :
  clean s -> Forall (fun k => starts_with s k = false) (keywords ++ operation_keywords) -> reads_as n s g ts ->
  instr_wf n bits (GateOp g ts) -> (1 <= length ts <= 2)%nat -> stands_for n bits s (GateOp g ts).
Proof.
  intros Hc Hk Hr Hwf Hlen. apply Forall_app in Hk as [Hk Ho]. split; [done|]. split; [intros; by apply declare_operation|].
  intros fuel line gates c <- <-. unfold parse_statement.
  assert (starts_with s (str "measure ") = false /\ starts_with s (str "barrier ") = false /\
          starts_with s (str "if(") = false /\ starts_with s (str "if (") = false) as (-> & -> & -> & ->)
    by (unfold operation_keywords in Ho; cbn [map] in Ho; rewrite !Forall_cons in Ho; tauto).
  cbn [orb]. rewrite Hr. cbn [mbind result_bind foldR app_gate app_targets]. unfold build.
  pose proof (rebuild_instruction_ok (GateOp g ts) c Hwf) as E. cbn [rebuild_instruction no_op narrow] in E.
  rewrite E by (destruct Hwf as [-> _]; done). done.
Qed.

Definition name_written (p : Gate * bytes) : Prop :=
  tight p.2 = true /\
  forall rest, Forall (fun k => starts_with (p.2 ++ str " " ++ rest) k = false) (keywords ++ operation_keywords).
Lemma ONE_written : Forall (fun p => name_written p /\ assoc one_qubit_names (gate_name p.1) = Some p.2) ONE.
Proof.
  repeat (apply List.Forall_cons; [split; [split; [done|intros rest; by repeat constructor]|done]|]). apply List.Forall_nil.
Qed.
Lemma TWO_written : Forall (fun p => name_written p /\ assoc two_qubit_names (gate_name p.1) = Some p.2) TWO.
Proof.
  repeat (apply List.Forall_cons; [split; [split; [done|intros rest; by repeat constructor]|done]|]). apply List.Forall_nil.
Qed.

Lemma fixed_stands n bits g name qs operands :
  name_ok (length qs) (g, name) -> name_written (g, name) -> tight operands = true ->
  Forall (fun b => statement_char b = true) operands -> reads_as n (name ++ str " " ++ operands) g qs ->
  instr_wf n bits (GateOp g qs) -> (1 <= length qs <= 2)%nat -> stands_for n bits (name ++ str " " ++ operands) (GateOp g qs).
Proof.
  intros (Hq & _) (Ht & Hk) Ho Hc Hr Hwf Hl. cbn [snd] in *. apply gate_stands; try done.
  split; [by apply tight_span|]. rewrite !Forall_app. split_and!; [by apply quiet_clean|by repeat constructor|done].
Qed.
Lemma one_stands n bits g name q :
  (g, name) ∈ ONE -> instr_wf n bits (GateOp g [q]) -> (n <= MAX_QUBITS)%nat ->
  exists s, format_gate (gate_name g) [q] = s ++ [x3b] /\ stands_for n bits s (GateOp g [q]).
Proof.
  intros Hg Hwf Hn. destruct (Forall_elem _ _ _ ONE_written Hg) as [Hw Ha]. cbn [fst snd] in *.
  pose proof (proj2 Hwf) as [_ [Hq _]%Forall_cons].
  exists (name ++ str " " ++ indexed "q" q). split; [unfold format_gate; rewrite Ha; by rewrite <- !app_assoc|].
  apply fixed_stands; [exact (Forall_elem _ _ _ ONE_ok Hg)|done|apply indexed_q_tight|apply quiet_clean, indexed_q_quiet|by apply read_one|done|cbn; lia].
Qed.
Lemma two_chars q0 q1 : Forall (fun b => statement_char b = true) (indexed "q" q0 ++ str ", " ++ indexed "q" q1).
Proof. rewrite !Forall_app. split_and!; [apply quiet_clean, indexed_q_quiet|by repeat constructor|apply quiet_clean, indexed_q_quiet]. Qed.
Lemma two_stands n bits g name q0 q1 :
  (g, name) ∈ TWO -> instr_wf n bits (GateOp g [q0; q1]) -> (n <= MAX_QUBITS)%nat ->
  exists s, format_gate (gate_name g) [q0; q1] = s ++ [x3b] /\ stands_for n bits s (GateOp g [q0; q1]).
Proof.
  intros Hg Hwf Hn. destruct (Forall_elem _ _ _ TWO_written Hg) as [Hw Ha]. cbn [fst snd] in *.
  pose proof (proj2 Hwf) as [_ [H0 [H1 _]%Forall_cons]%Forall_cons].
  exists (name ++ str " " ++ indexed "q" q0 ++ str ", " ++ indexed "q" q1).
  split; [unfold format_gate; rewrite Ha; by rewrite <- !app_assoc|].
  apply fixed_stands; [exact (Forall_elem _ _ _ TWO_ok Hg)|done|apply two_tight|apply two_chars|by apply read_two|done|cbn; lia].
Qed.
Lemma crk_stands n bits k q0 q1 :
  (k < 256)%nat -> instr_wf n bits (GateOp (gate_crk k) [q0; q1]) -> (n <= MAX_QUBITS)%nat ->
  exists s, format_gate (gate_name (gate_crk k)) [q0; q1] = s ++ [x3b] /\ stands_for n bits s (GateOp (gate_crk k) [q0; q1]).
Proof.
  intros Hk Hwf Hn. pose proof (proj2 Hwf) as [_ [H0 [H1 _]%Forall_cons]%Forall_cons].
  exists (crk_head k ++ str " " ++ indexed "q" q0 ++ str ", " ++ indexed "q" q1). split.
  { change (format_gate (gate_name (gate_crk k)) [q0; q1])
      with (str "crk(" ++ decimal (Z.of_nat k) ++ str ") " ++ indexed "q" q0 ++ str ", " ++ indexed "q" q1 ++ str ";").
    unfold crk_head. by rewrite <- !app_assoc. }
  apply gate_stands; [|by repeat constructor|by apply read_crk|done|cbn; lia].
  split; [apply tight_span; [apply crk_tight|apply two_tight]|]. rewrite Forall_app. split.
  - unfold crk_head. rewrite !Forall_app. split_and!; [by repeat constructor| |by repeat constructor].
    apply quiet_clean. eapply Forall_impl; [apply decimal_spec; lia|apply digit_quiet].
  - apply List.Forall_cons; [done|]. apply two_chars.
Qed.

Lemma indexed_c_tight i : tight (indexed "c" i) = true.
Proof. unfold indexed. apply (tight_span [x63] (x5b :: decimal (Z.of_nat i)) [x5d]); done. Qed.

Lemma measure_stands n bits q b :
  instr_wf n bits (Measure q b) -> (n <= MAX_QUBITS)%nat -> Z.of_nat bits <= u64_max ->
  exists s, instruction_line n (Measure q b) = s ++ [x3b] /\ stands_for n bits s (Measure q b).
Proof.
  intros Hwf Hn Hbits. pose proof Hwf as [Hq Hb]. exists (str "measure " ++ indexed "q" q ++ str " -> " ++ indexed "c" b).
  split; [cbn [instruction_line]; by rewrite <- !app_assoc|]. split; [|split].
  - split; [|rewrite !Forall_app; split_and!; first [by repeat constructor | apply indexed_chars; by repeat constructor]].
    rewrite (app_assoc (indexed "q" q)). apply (tight_span (str "measure") (str " " ++ indexed "q" q ++ str " -> ")); [done|apply indexed_c_tight].
  - intros line d. apply declare_operation. by repeat constructor.
  - intros fuel line gates c <- <-. unfold parse_statement. rewrite starts_with_app. unfold parse_measurement.
    change (str "measure " ++ ?r) with (str "measure" ++ x20 :: r). rewrite strip_prefix_app, trim_blank.
    rewrite trim_tight by (apply tight_span; [apply indexed_q_tight|apply indexed_c_tight]).
    change (indexed "q" q ++ str " -> " ++ indexed "c" b) with (indexed "q" q ++ [x20] ++ x2d :: [x3e] ++ x20 :: indexed "c" b).
    rewrite app_assoc. change (str "->") with (x2d :: [x3e]). rewrite split_once_after.
    2: { destruct (indexed_q q) as (ds & -> & Hds). rewrite !not_elem_of_app, !not_elem_of_cons, not_elem_of_app.
         pose proof (digits_avoid x2d ds eq_refl Hds). rewrite !not_elem_of_cons. split_and!; (done || apply not_elem_of_nil). }
    cbn [qregs]. rewrite trim_blank_end, q_resolved by (done || apply indexed_q_tight). cbn [mbind result_bind].
    rewrite trim_blank, trim_tight by apply indexed_c_tight. unfold classical. rewrite bool_decide_true by lia.
    rewrite reference_resolved by (done || by repeat constructor). cbn [mbind result_bind]. unfold build.
    pose proof (rebuild_instruction_ok (Measure q b) c Hwf I) as E. cbn [rebuild_instruction no_op] in E. by rewrite E.
Qed.

Lemma barrier_parts n line qs acc :
  (n <= MAX_QUBITS)%nat -> Forall (fun q => (q < n)%nat) qs ->
  foldR (barrier_part line (whole "q" n) []) (map (indexed "q") qs) acc = Ok (acc ++ qs).
Proof.
  intros Hn Hqs. revert acc. induction Hqs as [|q qs Hq Hqs IH]; intros acc; cbn [map foldR]; [by rewrite app_nil_r|].
  assert (barrier_part line (whole "q" n) [] (indexed "q" q) acc = Ok (acc ++ [q])) as ->.
  { unfold barrier_part. rewrite trim_tight by apply indexed_q_tight. rewrite q_resolved by done. reflexivity. }
  cbn [mbind result_bind]. rewrite IH. by rewrite <- app_assoc.
Qed.

Lemma join_tight l : l <> [] -> Forall (fun s => tight s = true) l -> tight (join_with (str ", ") l) = true.
Proof.
  intros Hne Hl. induction Hl as [|s l Hs Hl IH]; [done|]. destruct l as [|s2 l]; [done|]. rewrite join_cons.
  apply tight_span; [done|]. by apply IH.
Qed.
Lemma join_chars l :
  Forall (fun s => Forall (fun b => statement_char b = true) s) l -> Forall (fun b => statement_char b = true) (join_with (str ", ") l).
Proof.
  intros Hl. induction Hl as [|s l Hs Hl IH]; [constructor|]. destruct l as [|s2 l]; [done|]. rewrite join_cons, !Forall_app.
  split_and!; [done|by repeat constructor|done].
Qed.

Lemma barrier_stands n bits qs :
  qs <> [] -> instr_wf n bits (Barrier qs) -> (n <= MAX_QUBITS)%nat ->
  exists s, instruction_line n (Barrier qs) = s ++ [x3b] /\ stands_for n bits s (Barrier qs).
Proof.
  intros Hne Hwf Hn. pose proof (proj2 Hwf) as Hlt. cbn [instruction_line].
  assert (exists body, tight body = true /\ Forall (fun b => statement_char b = true) body /\
    (if bool_decide (qs = seq 0 n) then str "barrier q;" else str "barrier " ++ join_with (str ", ") (map (indexed "q") qs) ++ str ";")
      = str "barrier " ++ body ++ [x3b] /\
    forall line, foldR (barrier_part line (whole "q" n) []) (split_arguments body) [] = Ok qs) as (body & Ht & Hc & -> & Hparts).
  { case_bool_decide as Hall.
    - exists (str "q"). split_and!; [done|by repeat constructor|done|]. intros line.
      transitivity (@Ok qasm_fault _ (register_bits (mkQReg 0 (Z.of_nat n)))); [reflexivity|].
      unfold register_bits. cbn [reg_base reg_size]. by rewrite Nat2Z.id, Hall.
    - exists (join_with (str ", ") (map (indexed "q") qs)). split_and!; [|apply join_chars|done|].
      + apply join_tight; [by destruct qs|]. apply Forall_map, Forall_true. intros q. apply indexed_q_tight.
      + apply Forall_map, Forall_true. intros q. apply quiet_clean, indexed_q_quiet.
      + intros line. unfold split_arguments. rewrite split_join; [by apply barrier_parts|by destruct qs| |by left].
        apply Forall_map, Forall_true. intros q. split; [apply indexed_q_tight|apply indexed_q_quiet]. }
  exists (str "barrier " ++ body). split; [by rewrite <- app_assoc|]. split; [|split].
  - split; [apply (tight_span (str "barrier") (str " ")); done|]. rewrite Forall_app. split; [by repeat constructor|done].
  - intros line d. apply declare_operation. by repeat constructor.
  - intros fuel line gates c <- <-. unfold parse_statement.
    assert (starts_with (str "barrier " ++ body) (str "measure ") = false) as -> by reflexivity.
    rewrite starts_with_app. unfold parse_barrier. change (str "barrier " ++ body) with (str "barrier" ++ x20 :: body).
    rewrite strip_prefix_app, trim_blank, trim_tight by done. cbn [qregs qubit_scope]. rewrite Hparts. cbn [mbind result_bind]. unfold build.
    pose proof (rebuild_instruction_ok (Barrier qs) c Hwf I) as E. cbn [rebuild_instruction] in E.
    rewrite bool_decide_true in E by done. rewrite E. by destruct qs.
Qed.

Lemma written_stands n bits i :
  written i -> instr_wf n bits i -> (n <= MAX_QUBITS)%nat -> Z.of_nat bits <= u64_max ->
  exists s, instruction_line n i = s ++ [x3b] /\ stands_for n bits s i.
Proof.
  intros Hw Hwf Hn Hb. destruct i as [g ts|bs v g ts|q b|qs]; [|done|by apply measure_stands|by apply barrier_stands].
  destruct ts as [|q0 [|q1 [|? ?]]]; try done.
  - destruct Hw as [name Hg]. by eapply one_stands.
  - destruct Hw as [[name Hg]|(k & Hk & ->)]; [by eapply two_stands|by apply crk_stands].
Qed.

(** Whether an instruction survives: SX and CY gates do not. *)
Definition kept (i : Instruction) : bool :=
  match i with
  | GateOp g [_] => negb (bool_decide (gate_name g = str "SX"))
  | GateOp g [_; _] => negb (bool_decide (gate_name g = str "CY"))
  | _ => true
  end.
Lemma written_kept i : written i -> kept i = true.
Proof.
  destruct i as [g ts| | |]; try done. destruct ts as [|q0 [|q1 [|? ?]]]; try done; cbn [written kept].
  - intros [n Hn]. assert (Forall (fun p => negb (bool_decide (gate_name p.1 = str "SX")) = true) ONE) as Hall by (by repeat constructor).
    exact (Forall_elem _ _ _ Hall Hn).
  - intros [[n Hn]|(k & _ & ->)]; [|done].
    assert (Forall (fun p => negb (bool_decide (gate_name p.1 = str "CY")) = true) TWO) as Hall by (by repeat constructor).
    exact (Forall_elem _ _ _ Hall Hn).
Qed.
Lemma debug_list_chars ts : Forall (fun b => b <> x0a /\ b <> x0d) (debug_list ts).
Proof.
  unfold debug_list. apply List.Forall_cons; [done|]. apply Forall_app. split; [|by repeat constructor].
  eapply Forall_impl; [apply join_chars, Forall_map, Forall_true|].
  - intros t. apply quiet_clean. eapply Forall_impl; [apply decimal_spec; lia|apply digit_quiet].
  - intros b (? & ? & ? & ? & ? & ?)%statement_char_spec. done.
Qed.
Lemma lost_item n i : lost i -> kept i = false /\
  exists c, instruction_line n i = item_line (inr c) /\ item_ok (inr c).
Proof.
  destruct i as [g ts| | |]; try done. destruct ts as [|q0 [|q1 [|? ?]]]; try done; cbn [lost]; intros ->; (split; [done|]).
  - exists (str " unsupported gate SX on " ++ debug_list [q0]). split; [reflexivity|].
    cbn [item_ok]. apply Forall_app. split; [by repeat constructor|apply debug_list_chars].
  - exists (str " unsupported gate CY on " ++ debug_list [q0; q1]). split; [reflexivity|].
    cbn [item_ok]. apply Forall_app. split; [by repeat constructor|apply debug_list_chars].
Qed.

Definition add_operations (ops : list (nat * bytes)) (d : Declarations) : Declarations :=
  mkDeclarations (d_qregs d) (d_cregs d) (d_gates d) (d_qubits d) (d_bits d) (d_operations d ++ ops).

Lemma operations_read n bits l :
  Forall (fun i => written i \/ lost i) l -> Forall (instr_wf n bits) l -> (n <= MAX_QUBITS)%nat -> Z.of_nat bits <= u64_max ->
  exists items, map (instruction_line n) l = map item_line items /\ Forall item_ok items /\
    forall line, (forall d, foldR declare (numbered line items) d = Ok (add_operations (numbered line items) d)) /\
    forall fuel gates c, num_qubits c = n -> num_classical_bits c = bits ->
      foldR (fun st c => parse_statement (S fuel) st.1 st.2 (classical bits) (mkContext (whole "q" n) gates [] []) c) (numbered line items) c
        = Ok (mkCircuit n bits (instructions c ++ List.filter kept l)).
Proof.
  intros Hl Hwf Hn Hb. induction Hl as [|i l Hi Hl IH].
  { exists []. split_and!; [done|constructor|]. intros line. split; intros.
    - cbn [numbered foldR]. unfold add_operations. rewrite app_nil_r. by destruct d.
    - cbn. subst. rewrite app_nil_r. by destruct c. }
  apply Forall_cons in Hwf as [Hwi Hwf]. destruct (IH Hwf) as (items & Hlines & Hok & Hrun). clear IH. destruct Hi as [Hi|Hi].
  - destruct (written_stands n bits i Hi Hwi Hn Hb) as (s & Hline & Hc & Hd & Hp). exists (inl s :: items).
    split; [cbn [map item_line]; by rewrite Hline, Hlines|]. split; [by constructor|]. intros line. cbn [numbered foldR].
    destruct (Hrun (S line)) as [Hdecl Hparse]. split.
    + intros d. rewrite Hd. cbn [mbind result_bind]. rewrite Hdecl. unfold add_operations. cbn. by rewrite <- app_assoc.
    + intros fuel gates c Hcn Hcb. cbn [fst snd]. rewrite Hp by done. cbn [mbind result_bind]. rewrite Hparse by done.
      cbn [instructions List.filter]. rewrite (written_kept i Hi), <- app_assoc. done.
  - destruct (lost_item n i Hi) as (Hk & c0 & Hline & Hok0). exists (inr c0 :: items).
    split; [cbn [map]; by rewrite Hline, Hlines|]. split; [by constructor|]. intros line. cbn [numbered List.filter].
    rewrite Hk. apply Hrun.
Qed.

Lemma register_declared line (keyword r : string) i :
  Forall (fun b => inert b = true /\ b <> x5b) (str r) -> str r <> [] -> Z.of_nat i <= u64_max -> tight (indexed r i) = true ->
  parse_register_declaration line (str keyword ++ x20 :: indexed r i) keyword = Ok (str r, Z.of_nat i).
Proof.
  intros Hr Hne Hi Ht. unfold parse_register_declaration. rewrite strip_prefix_app, trim_blank, trim_tight by done.
  by apply indexed_found.
Qed.
Lemma declare_qreg line n d :
  d_qubits d = 0 -> Z.of_nat n <= u64_max ->
  declare (line, str "qreg " ++ indexed "q" n) d =
    Ok (mkDeclarations ((str "q", mkQReg 0 (Z.of_nat n)) :: d_qregs d) (d_cregs d) (d_gates d) (Z.of_nat n) (d_bits d) (d_operations d)).
Proof.
  intros Hd Hn. unfold declare. change (starts_with (str "qreg " ++ indexed "q" n) (str "include ")) with false. cbv iota.
  rewrite starts_with_app. change (str "qreg " ++ indexed "q" n) with (str "qreg" ++ x20 :: indexed "q" n).
  rewrite register_declared by (done || by repeat constructor || apply indexed_q_tight). cbn [mbind result_bind].
  rewrite Hd. rewrite Z.add_0_l, (proj2 (Z.ltb_ge _ _)) by done. done.
Qed.
Lemma declare_creg line n d :
  d_bits d = 0 -> Z.of_nat n <= u64_max ->
  declare (line, str "creg " ++ indexed "c" n) d =
    Ok (mkDeclarations (d_qregs d) ((str "c", mkQReg 0 (Z.of_nat n)) :: d_cregs d) (d_gates d) (d_qubits d) (Z.of_nat n) (d_operations d)).
Proof.
  intros Hd Hn. unfold declare. change (starts_with (str "creg " ++ indexed "c" n) (str "include ")) with false.
  change (starts_with (str "creg " ++ indexed "c" n) (str "qreg ")) with false. cbv iota.
  rewrite starts_with_app. change (str "creg " ++ indexed "c" n) with (str "creg" ++ x20 :: indexed "c" n).
  rewrite register_declared by (done || by repeat constructor || apply indexed_c_tight). cbn [mbind result_bind].
  rewrite Hd. rewrite Z.add_0_l, (proj2 (Z.ltb_ge _ _)) by done. done.
Qed.

(** The lines before the instructions. *)
Definition header_items (n bits : nat) : list (bytes + bytes) :=
  [inl (str "OPENQASM 2.0"); inl include_qelib; inl (str "qreg " ++ indexed "q" n)]
  ++ (if bool_decide (0 < bits)%nat then [inl (str "creg " ++ indexed "c" bits)] else []).
Lemma header_ok n bits : Forall item_ok (header_items n bits).
Proof.
  assert (forall (w r : string) i, tight (str w ++ [x20] ++ indexed r i) = true -> Forall (fun b => statement_char b = true) (str w) ->
    Forall (fun b => statement_char b = true) (str r) -> item_ok (inl (str w ++ x20 :: indexed r i))) as Hdecl.
  { intros w r i Ht Hw Hr. split; [exact Ht|]. apply Forall_app. split; [done|]. constructor; [done|]. by apply indexed_chars. }
  unfold header_items. apply Forall_app. split.
  - repeat apply List.Forall_cons; [split; [done|by repeat constructor]|split; [done|by repeat constructor]| |constructor].
    apply (Hdecl "qreg" "q" n)%string; [|by repeat constructor..]. apply tight_span; [done|apply indexed_q_tight].
  - case_bool_decide; [|constructor]. apply List.Forall_cons; [|constructor].
    apply (Hdecl "creg" "c" bits)%string; [|by repeat constructor..]. apply tight_span; [done|apply indexed_c_tight].
Qed.

Lemma to_qasm_items c items :
  map (instruction_line (num_qubits c)) (instructions c) = map item_line items ->
  to_qasm c = join_with [x0a] (map item_line (header_items (num_qubits c) (num_classical_bits c) ++ items)).
Proof.
  intros E. unfold to_qasm, header_items. rewrite E, !map_app, <- app_assoc. cbn [map item_line].
  rewrite <- (app_assoc (str "qreg ")). case_bool_decide; [|reflexivity].
  cbn [map item_line]. rewrite <- (app_assoc (str "creg ")). reflexivity.
Qed.

Lemma header_read c items :
  circuit_wf c -> Z.of_nat (num_classical_bits c) <= u64_max -> Forall item_ok items ->
  collect_statements (join_with [x0a] (map item_line (header_items (num_qubits c) (num_classical_bits c) ++ items))) =
    Ok (numbered 1 (header_items (num_qubits c) (num_classical_bits c) ++ items)).
Proof. intros Hwf Hb Hok. apply collect_items; [done|]. apply Forall_app. split; [apply header_ok|done]. Qed.

(** What the parser knows after the header. *)
Definition declared (n bits : nat) : Declarations :=
  mkDeclarations (whole "q" n) (classical bits) [] (Z.of_nat n) (Z.of_nat bits) [].
Lemma declarations_read n bits items :
  Z.of_nat n <= u64_max -> Z.of_nat bits <= u64_max ->
  exists line, numbered 1 (header_items n bits ++ items) = (1%nat, str "OPENQASM 2.0") :: tail (numbered 1 (header_items n bits ++ items)) /\
    foldR declare (tail (numbered 1 (header_items n bits ++ items))) (mkDeclarations [] [] [] 0 0 []) =
      foldR declare (numbered line items) (declared n bits).
Proof.
  intros Hn Hb. unfold header_items, declared, classical. case_bool_decide as Hbits.
  - exists 5%nat. split; [done|]. cbn [app numbered tail foldR]. change (declare (2%nat, include_qelib) ?d) with (@Ok qasm_fault _ d).
    cbn [mbind result_bind]. rewrite declare_qreg by done. cbn [mbind result_bind]. by rewrite declare_creg.
  - exists 4%nat. split; [done|]. cbn [app numbered tail foldR]. change (declare (2%nat, include_qelib) ?d) with (@Ok qasm_fault _ d).
    cbn [mbind result_bind]. rewrite declare_qreg by done. cbn [mbind result_bind]. by replace bits with O by lia.
Qed.


(** ** Everything parsed is well formed *)

Lemma foldR_inv {A B E} (P : B -> Prop) (f : A -> B -> result E B) l b b' :
  (forall a b b', P b -> f a b = Ok b' -> P b') -> P b -> foldR f l b = Ok b' -> P b'.
Proof.
  intros Hf. revert b. induction l as [|a l IH]; intros b Hb E0; cbn [foldR] in E0; [by simplify_eq|].
  destruct (f a b) as [b1|] eqn:Ef; [|done]. cbn [mbind result_bind] in E0. by eapply IH; [eapply Hf|].
Qed.
Lemma build_wf {A} line (m : cst A) c c' : well_typed m -> circuit_wf c -> build line m c = Ok c' -> circuit_wf c'.
Proof.
  intros Hm Hc. unfold build. destruct (Hm c Hc) as [Hw _]. destruct (m c) as [[a|e] c1]; [|done]. intros [= <-]. exact Hw.
Qed.
Lemma parse_statement_wf fuel line s cregs ctx c c' :
  circuit_wf c -> parse_statement fuel line s cregs ctx c = Ok c' -> circuit_wf c'.
Proof.
  intros Hc. unfold parse_statement, parse_measurement, parse_barrier, parse_conditional.
  destruct (starts_with s (str "measure ")).
  { destruct (strip_prefix _ s); [|done]. destruct (split_once _ _) as [[q b]|]; [|done].
    destruct (resolve_quantum_reference _ _ _ _); [|done]. cbn [mbind result_bind].
    destruct (resolve_register_reference _ _ _); [|done]. cbn [mbind result_bind]. apply build_wf; [apply well_typed_measure_into|done]. }
  destruct (starts_with s (str "barrier ")).
  { destruct (strip_prefix _ s); [|done]. destruct (foldR _ _ _); [|done]. cbn [mbind result_bind].
    apply build_wf; [apply well_typed_barrier|done]. }
  destruct (starts_with s (str "if(") || starts_with s (str "if (")).
  { destruct (find_sub (str "(") s), (find_sub (str ")") s); try done. case_bool_decide; [done|].
    destruct (split_once _ _) as [[r v]|]; [|done]. destruct (assoc _ _) as [register|]; [|done]. destruct (parse_uint _ _ _) as [value|]; [|done].
    destruct (expand_gate _ _ _ _) as [apps|]; [|done]. cbn [mbind result_bind]. apply foldR_inv; [|done].
    intros a b b' Hb. apply build_wf; [apply well_typed_conditional|done]. }
  destruct (expand_gate _ _ _ _) as [apps|]; [|done]. cbn [mbind result_bind]. apply foldR_inv; [|done].
  intros a b b' Hb. apply build_wf; [apply well_typed_custom|done].
Qed.


(** ** Conditional gates *)

Lemma join_snoc sep l x : l <> [] -> join_with sep (l ++ [x]) = join_with sep l ++ sep ++ x.
Proof.
  induction l as [|y l IH]; [done|]. intros _. destruct l as [|z l]; [done|]. cbn [app].
  rewrite !join_cons. change (z :: l ++ [x]) with ((z :: l) ++ [x]). rewrite IH by done. by rewrite <- !app_assoc.
Qed.

Lemma strip_clean t : clean t -> strip_comment t = t.
Proof.
  intros [Ht Hc]. unfold strip_comment, split_once. change (str "//") with (x2f :: [x2f]). rewrite find_sub_absent.
  - cbn [mbind option_bind]. unfold tight in Ht. destruct t as [|b t]; [done|]. apply andb_prop in Ht as [_ Hl].
    destruct (last (b :: t)) as [c|] eqn:E; [|done]. apply last_Some in E as [l ->]. by apply trim_end_inert.
  - intros Hin. by destruct (statement_char_spec _ (Forall_elem _ _ _ Hc Hin)) as (? & ? & ? & ? & ? & ?).
Qed.
Lemma collect_unfinished items t :
  items <> [] -> Forall item_ok items -> clean t ->
  exists line, collect_statements (join_with [x0a] (map item_line items ++ [t])) =
    parse_error line (str "missing semicolon or closing '}'").
Proof.
  intros Hne Hok Ht. unfold collect_statements. rewrite lines_joined.
  - rewrite map_app, map_map. cbn [map]. rewrite strip_clean by done. rewrite (map_ext_in _ sanitized_line).
    2: { intros it Hit. apply strip_item, (Forall_elem _ _ _ Hok), list_elem_of_In, Hit. }
    rewrite join_snoc by by destruct items. destruct (scan_items items ([x0a] ++ t) [] 1 1 Hok) as (st' & ln' & ->).
    change ([x0a] ++ t) with (x0a :: t). rewrite scan_newline. destruct Ht as [Ht Hc]. pose proof (trim_tight t Ht) as Htrim.
    destruct t as [|b t]; [done|]. apply Forall_cons in Hc as [Hb Hc]. apply andb_prop in Ht as [Hi _].
    pose proof (statement_char_spec b Hb) as (H1 & H2 & H3 & H4 & _).
    cbn [scan_chars]. unfold scan_char. cbn [sc_current sc_depth]. rewrite inert_not_space, (bool_decide_true ([] = [])), (bool_decide_true (O = O)) by done.
    cbn [andb sc_statements sc_current sc_line sc_depth]. rewrite !(bool_decide_false (b = _)) by done.
    cbn [andb]. unfold push_char. cbn [sc_statements sc_current sc_start sc_line sc_depth app].
    pose proof (scan_text t [] ([] ++ numbered 1 items) [b] (S ln') (S ln') ltac:(done) Hc) as E. rewrite app_nil_r in E.
    cbn [app] in E. rewrite E. cbn [scan_chars sc_current app]. rewrite Htrim, bool_decide_false by done. by eexists.
  - by destruct items.
  - apply Forall_app. split; [apply Forall_map; eapply Forall_impl; [exact Hok|apply item_chars]|]. constructor; [|constructor].
    destruct Ht as [Ht Hc]. split; [by destruct t|]. eapply Forall_impl; [exact Hc|].
    intros b (? & ? & ? & ? & ? & ?)%statement_char_spec. done.
Qed.
Lemma trim_one_end c s b : last s = Some b -> b <> c -> trim_end_matches c (s ++ [c]) = s.
Proof.
  intros Hl Hb. unfold trim_end_matches. rewrite reverse_snoc. cbn [drop_while]. rewrite bool_decide_true by done.
  apply (trim_end_matches_id c s b Hl Hb).
Qed.

(** A conditional gate is not read back.  [to_qasm] writes it without the
    semicolon: when it is the last instruction of a circuit that would otherwise
    be read back, the parser rejects the whole text. *)
Theorem qasm_conditional_rejected fuel c l bs v g ts :
  circuit_wf c -> instructions c = l ++ [ConditionalGate bs v g ts] -> Z.of_nat (num_classical_bits c) <= u64_max -> 0 <= v ->
  Forall (fun i => written i \/ lost i) l -> written (GateOp g ts) ->
  exists line, parse_qasm fuel (to_qasm c) = parse_error line (str "missing semicolon or closing '}'").
Proof.
  intros [Hn Hi] Hl Hb Hv Hok Hw. rewrite Hl in Hi. apply Forall_app in Hi as [Hi [Hc _]%Forall_cons].
  destruct (operations_read _ _ _ Hok Hi ltac:(lia) Hb) as (items & Hlines & Hitems & _).
  destruct (written_stands (num_qubits c) (num_classical_bits c) (GateOp g ts) Hw) as (s & Hs & [Hst Hsc] & _);
    [by destruct Hc as (_ & _ & ? & ?)|lia|done|].
  assert (exists t, instruction_line (num_qubits c) (ConditionalGate bs v g ts) = t /\ clean t) as (t & Ht & Hclean).
  { eexists. split; [reflexivity|]. cbn [instruction_line] in *. rewrite Hs.
    assert (exists b, last s = Some b /\ b <> x3b) as (b & Hbl & Hb3).
    { unfold tight in Hst. destruct s as [|x s]; [done|]. destruct (last (x :: s)) as [b|] eqn:E; [|by rewrite andb_false_r in Hst].
      exists b. split; [done|]. apply last_Some in E as [l' E]. rewrite E in Hsc. apply Forall_app in Hsc as [_ [Hsb _]%Forall_cons].
      by destruct (statement_char_spec b Hsb) as (? & ? & ?). }
    rewrite (trim_one_end x3b s b) by done. split; [rewrite (app_assoc (decimal v)); by apply tight_span|].
    rewrite !Forall_app. split_and!; [by repeat constructor| |by repeat constructor|done].
    apply quiet_clean. eapply Forall_impl; [by apply decimal_spec|apply digit_quiet]. }
  destruct (collect_unfinished (header_items (num_qubits c) (num_classical_bits c) ++ items) t) as (line & E);
    [done|apply Forall_app; split; [apply header_ok|done]|done|].
  exists line. unfold parse_qasm.
  assert (to_qasm c = join_with [x0a] (map item_line (header_items (num_qubits c) (num_classical_bits c) ++ items) ++ [t])) as ->; [|by rewrite E].
  pose proof (to_qasm_items (mkCircuit (num_qubits c) (num_classical_bits c) l) items Hlines) as E2. unfold to_qasm in *.
  cbn [num_qubits num_classical_bits instructions] in E2. rewrite Hl, map_app. cbn [map]. rewrite Ht.
  rewrite !app_assoc. rewrite !join_snoc by done. rewrite <- !app_assoc in *. by rewrite E2.
Qed.
End roundtrip.

(** ** Evaluating expressions ends *)

(** The computation does not run out of fuel, and takes [k] characters at least
    when it succeeds. *)
Definition takes {A} (k : nat) (s : bytes) (r : qres A * bytes) : Prop :=
  match r with (Ok _, s') => (length s' + k <= length s)%nat | (Err e, _) => e <> QOutOfFuel end.

Lemma takes_weaken {A} k k' s (r : qres A * bytes) : (k' <= k)%nat -> takes k s r -> takes k' s r.
Proof. destruct r as [[a|e] s']; cbn; [lia|done]. Qed.
Lemma takes_bind {A B} k1 k2 s (m : pst A) (f : A -> pst B) :
  takes k1 s (m s) -> (forall a s', (length s' + k1 <= length s)%nat -> takes k2 s' (f a s')) -> takes (k1 + k2) s ((m ≫= f) s).
Proof.
  intros Hm Hf. unfold mbind, stm_bind. destruct (m s) as [[a|e] s'] eqn:E; [|done]. cbn in Hm. specialize (Hf a s' Hm).
  destruct (f a s') as [[b|e] s2]; cbn in *; [lia|done].
Qed.
Lemma takes_skip s : takes 0 s (skip_whitespace s).
Proof.
  unfold skip_whitespace. induction s as [|b s IH]; [cbn; lia|]. cbn [skip_whitespace_go].
  destruct (encoding_len whitespace_encodings (b :: s)) as [|[|k]]; [cbn; lia| |done].
  destruct (skip_whitespace_go s) as [s'|e]; cbn in *; [lia|done].
Qed.
Lemma takes_rest {A} k (f : bytes -> pst A) s : takes k s (f s s) -> takes k s ((rest ← gets id; f rest) s).
Proof. done. Qed.
(** Choosing by the next character. *)
Lemma takes_choice {A} k c (m1 m2 : pst A) s :
  (forall s', (length s' + 1 <= length s)%nat -> takes (k - 1) s' (m1 s')) ->
  (forall s', (length s' <= length s)%nat -> takes k s' (m2 s')) ->
  takes k s ((b ← consume c; if (b : bool) then m1 else m2) s).
Proof.
  intros H1 H2. unfold consume, mbind, stm_bind. pose proof (takes_skip s) as Hs.
  destruct (skip_whitespace s) as [[[]|e] s1]; [|done]. cbn in Hs. unfold take_if.
  destruct s1 as [|b s1].
  - specialize (H2 [] ltac:(cbn; lia)). destruct (m2 []) as [[a|e] s2]; cbn in *; [lia|done].
  - case_bool_decide.
    + cbn in Hs. specialize (H1 s1 ltac:(lia)). destruct (m1 s1) as [[a|e] s2]; cbn in *; [lia|done].
    + specialize (H2 (b :: s1) ltac:(lia)). destruct (m2 (b :: s1)) as [[a|e] s2]; cbn in *; [lia|done].
Qed.
Lemma span_length p s : (length (span p s).1 + length (span p s).2 = length s)%nat.
Proof. induction s as [|b s IH]; [done|]. cbn. destruct (p b); [|done]. destruct (span p s). cbn in *. lia. Qed.
Lemma takes_number line s : takes 1 s (parse_number line s).
Proof.
  unfold parse_number, number_span. destruct s as [|b s]; [done|]. destruct (is_number_char true b); [|done].
  pose proof (span_length (is_number_char false) s) as Hl. destruct (span _ s) as [u v]. cbn [fst snd] in Hl.
  destruct (parse_f64 _); cbn; [lia|done].
Qed.
Lemma takes_identifier {A} k (m : bytes -> pst A) (m0 : pst A) s :
  (forall n s', (length s' + 1 <= length s)%nat -> takes (k - 1) s' (m n s')) -> (forall s', (length s' <= length s)%nat -> takes k s' (m0 s')) ->
  takes k s ((name ← parse_identifier; match name with Some n => m n | None => m0 end) s).
Proof.
  intros H1 H2. unfold parse_identifier, mbind, stm_bind. pose proof (takes_skip s) as Hs.
  destruct (skip_whitespace s) as [[[]|e] s1]; [|done]. cbn in Hs. unfold take_identifier.
  pose proof (span_length is_identifier_char s1) as Hl. destruct (span is_identifier_char s1) as [n s2]. cbn [fst snd] in Hl.
  case_bool_decide as Hn.
  - specialize (H2 s2 ltac:(lia)). destruct (m0 s2) as [[a|e] s3]; cbn in *; [lia|done].
  - destruct n as [|x n]; [done|]. cbn in Hl. specialize (H1 (x :: n) s2 ltac:(lia)). destruct (m (x :: n) s2) as [[a|e] s3]; cbn in *; [lia|done].
Qed.

Section ends.
Variable (line : nat) (scope : list (bytes * f64)).

(** Four levels per character left are enough, and a few for the nonterminals. *)
Definition parsers_end (s : bytes) : Prop :=
  forall fuel, (4 * length s + 1 <= fuel)%nat ->
    takes 1 s (parse_factor line scope fuel s) /\
    (forall v, takes 0 s (term_loop line scope fuel v s)) /\
    (forall v, takes 0 s (expression_loop line scope fuel v s)) /\
    takes 1 s (parse_term line scope (S fuel) s) /\
    takes 1 s (parse_expression line scope (S (S fuel)) s).

Lemma factor_ends s fuel :
  (forall s', (length s' < length s)%nat -> parsers_end s') -> (4 * length s + 1 <= fuel)%nat ->
  takes 1 s (parse_factor line scope fuel s).
Proof.
  intros IH Hf. destruct fuel as [|fuel]; [lia|]. cbn [parse_factor].
  apply (takes_bind 0 1); [apply takes_skip|]. intros [] s1 H1. apply takes_choice; [|intros s2 H2].
  { intros s2 H2. eapply takes_weaken; [|apply IH; lia]. lia. }
  apply takes_choice; [|intros s3 H3].
  { intros s3 H3. apply (takes_bind 0 0); [|by intros v s4 H4; cbn; lia].
    eapply takes_weaken; [|apply IH; lia]. lia. }
  apply takes_choice; [|intros s4 H4].
  { intros s4 H4. apply (takes_bind 0 0).
    - destruct fuel as [|[|fuel]]; [lia|lia|]. eapply takes_weaken; [|apply (IH s4); lia]. lia.
    - intros v s5 H5. apply takes_choice; intros s6 H6; cbn; [lia|done]. }
  apply takes_rest. destruct (strip_prefix (str "pi") s4) as [rest|] eqn:E.
  { apply strip_prefix_Some in E. subst s4. change (length rest + 1 <= length (str "pi" ++ rest))%nat. rewrite length_app. cbn. lia. }
  apply takes_identifier; [|intros s5 H5; apply takes_number].
  intros n s5 H5. destruct (assoc scope n); cbn; [lia|done].
Qed.
Lemma term_loop_ends s fuel v :
  (forall s', (length s' < length s)%nat -> parsers_end s') -> (4 * length s + 1 <= fuel)%nat ->
  takes 0 s (term_loop line scope fuel v s).
Proof.
  intros IH Hf. destruct fuel as [|fuel]; [lia|]. cbn [term_loop].
  assert (forall s1 (f : f64 -> f64), (length s1 < length s)%nat ->
    takes 0 s1 ((t ← parse_factor line scope fuel; term_loop line scope fuel (f t)) s1)) as Hstep.
  { intros s1 f H1. apply (takes_bind 0 0); [eapply takes_weaken; [|apply IH; lia]; lia|].
    intros t s2 H2. apply IH; lia. }
  apply (takes_bind 0 0); [apply takes_skip|]. intros [] s1 H1. apply takes_choice; [intros s2 H2; apply (Hstep s2 (fmul v)); lia|].
  intros s2 H2. apply takes_choice; [intros s3 H3; apply (Hstep s3 (fdiv v)); lia|]. intros s3 H3. cbn. lia.
Qed.
Lemma expression_loop_ends s fuel v :
  (forall s', (length s' < length s)%nat -> parsers_end s') -> (4 * length s + 1 <= fuel)%nat ->
  takes 0 s (expression_loop line scope fuel v s).
Proof.
  intros IH Hf. destruct fuel as [|fuel]; [lia|]. cbn [expression_loop].
  assert (forall s1 (f : f64 -> f64), (length s1 < length s)%nat ->
    takes 0 s1 ((t ← parse_term line scope fuel; expression_loop line scope fuel (f t)) s1)) as Hstep.
  { intros s1 f H1. apply (takes_bind 0 0).
    - destruct fuel as [|fuel]; [lia|]. eapply takes_weaken; [|apply (IH s1); lia]. lia.
    - intros t s2 H2. apply IH; lia. }
  apply (takes_bind 0 0); [apply takes_skip|]. intros [] s1 H1. apply takes_choice; [intros s2 H2; apply (Hstep s2 (fadd v)); lia|].
  intros s2 H2. apply takes_choice; [intros s3 H3; apply (Hstep s3 (fsub v)); lia|]. intros s3 H3. cbn. lia.
Qed.
Lemma all_parsers_end s : parsers_end s.
Proof.
  remember (length s) as n eqn:Hn. revert s Hn. induction (lt_wf n) as [n _ IHn]. intros s ->.
  assert (forall s', (length s' < length s)%nat -> parsers_end s') as IH by (intros s' Hs'; by eapply IHn). clear IHn.
  intros fuel Hf. pose proof (factor_ends s fuel IH Hf) as Hfac. pose proof (factor_ends s (S fuel) IH ltac:(lia)) as Hfac'.
  split_and!; [done|intros v; by apply term_loop_ends|intros v; by apply expression_loop_ends| |].
  - cbn [parse_term]. apply (takes_bind 1 0); [done|]. intros v s1 H1. apply (IH s1 ltac:(lia) fuel). lia.
  - cbn [parse_expression]. apply (takes_bind 1 0).
    + cbn [parse_term]. apply (takes_bind 1 0); [done|]. intros v s1 H1. apply (IH s1 ltac:(lia) fuel). lia.
    + intros v s1 H1. apply (IH s1 ltac:(lia) (S fuel)). lia.
Qed.

(** Evaluating an expression terminates on every text: the fuel the model
    gives the recursive descent, linear in the length, is never used up. *)
Theorem evaluate_expression_terminates source : evaluate_expression line scope source <> Err QOutOfFuel.
Proof.
  unfold evaluate_expression, expression_fuel. pose proof (all_parsers_end source (4 * length source + 1)%nat) as Hall.
  destruct (Hall ltac:(lia)) as (_ & _ & _ & _ & He). clear Hall.
  replace (4 * length source + 3)%nat with (S (S (4 * length source + 1))) by lia.
  assert (takes 0 source ((value ← parse_expression line scope (S (S (4 * length source + 1)%nat));
    _ ← skip_whitespace; rest ← gets id;
    if bool_decide (rest = []) then mret value
    else lift_result (parse_error line (str "unexpected token in expression '" ++ trim source ++ str "'"))) source)) as Ht.
  { apply (takes_bind 0 0); [eapply takes_weaken; [|exact He]; lia|]. intros v s1 H1.
    apply (takes_bind 0 0); [apply takes_skip|]. intros [] s2 H2. apply takes_rest. case_bool_decide; cbn; [lia|done]. }
  lazymatch type of Ht with takes _ _ ?r => destruct r as [[v|e] s'] end; cbn in *; congruence.
Qed.
End ends.

(** ** Gate definitions *)

(** The gate a statement applies. *)
Definition callee (statement : bytes) : option bytes :=
  match split_gate_go [] statement 0 with
  | Some (head, _) => match split_parens 0 head with Ok (name, _) => Some (map to_ascii_lowercase (trim name)) | Err _ => None end
  | None => None
  end.
(** No definition refers, directly or not, to itself: each gate has a rank above
    the gates its body applies. *)
Definition ranked (rank : bytes -> nat) (gates : list (bytes * GateDefinition)) : Prop :=
  forall name def s m, assoc gates name = Some def -> s ∈ def_body def -> callee s = Some m -> (rank m < rank name)%nat.

Section definitions.
Context `{Libm}.

Definition ended {A} (r : qres A) : Prop := r <> Err QOutOfFuel.
Lemma ended_bind {A B} (r : qres A) (f : A -> qres B) : ended r -> (forall a, r = Ok a -> ended (f a)) -> ended (r ≫= f).
Proof. intros Hr Hf. destruct r as [a|e]; cbn; [by apply Hf|]. intros E. apply Hr. by simplify_eq. Qed.
Lemma ended_foldR {A B} (f : A -> B -> qres B) l b : (forall a b, a ∈ l -> ended (f a b)) -> ended (foldR f l b).
Proof.
  revert b. induction l as [|a l IH]; intros b Hf; cbn [foldR]; [done|]. apply ended_bind; [apply Hf; by left|].
  intros b' _. apply IH. intros. apply Hf. by right.
Qed.
Lemma ended_mapM {A B} (f : A -> qres B) l : (forall a, ended (f a)) -> ended (mapM f l).
Proof.
  intros Hf. induction l as [|a l IH]; [done|]. cbn [mapM]. apply ended_bind; [apply Hf|]. intros b _. apply ended_bind; [apply IH|done].
Qed.

Lemma ended_indexed line s : ended (parse_indexed_identifier line s).
Proof.
  unfold parse_indexed_identifier. destruct (find_sub _ _); [|done]. destruct (rfind _ _); [|done]. case_bool_decide; [done|].
  by destruct (parse_uint _ _ _).
Qed.
Lemma ended_register line s rs : ended (resolve_register_reference line s rs).
Proof.
  apply ended_bind; [apply ended_indexed|]. intros [name i] _. destruct (assoc rs name); [|done]. by destruct (_ <=? _).
Qed.
Lemma ended_quantum line s rs sc : ended (resolve_quantum_reference line s rs sc).
Proof. unfold resolve_quantum_reference. destruct (assoc sc s); [done|apply ended_register]. Qed.
Lemma ended_parens line s : ended (split_parens line s).
Proof. unfold split_parens. destruct (find_sub _ _); [|done]. destruct (rfind _ _); [|done]. by case_bool_decide. Qed.
Lemma ended_head line s sc : ended (parse_gate_head line s sc).
Proof.
  apply ended_bind; [apply ended_parens|]. intros [name [a|]] _; apply ended_bind; try done.
  apply ended_mapM. intros. apply evaluate_expression_terminates.
Qed.
Lemma callee_head line s sc head operands name ps :
  split_gate_statement line s = Ok (head, operands) -> parse_gate_head line head sc = Ok (name, ps) -> callee s = Some name.
Proof.
  unfold split_gate_statement, callee. destruct (split_gate_go [] s 0) as [[h o]|]; [|done]. intros [= -> ->].
  unfold parse_gate_head, split_parens. destruct (find_sub _ _) as [open|].
  - destruct (rfind _ _) as [close|]; [|done]. case_bool_decide; [done|]. cbn [mbind result_bind].
    destruct (mapM _ _); [|done]. by intros [= <- _].
  - cbn. by intros [= <- _].
Qed.

Lemma expand_ends rank gates fuel line ctx s :
  ranked rank gates -> custom_gates ctx = gates -> (0 < fuel)%nat -> (forall m, callee s = Some m -> (rank m + 1 < fuel)%nat) ->
  ended (expand_gate fuel line ctx s).
Proof.
  intros Hr. revert ctx s. induction fuel as [|fuel IH]; intros ctx s Hg Hf Hs; [lia|]. cbn [expand_gate].
  apply ended_bind; [unfold split_gate_statement; by destruct (split_gate_go _ _ _)|]. intros [head operands] Esplit.
  apply ended_bind; [apply ended_head|]. intros [name ps] Ehead.
  apply ended_bind; [apply ended_mapM; intros; apply ended_quantum|]. intros qubits _.
  destruct (builtin_gate name ps qubits) as [[apps|msg]|]; [done|done|].
  destruct (assoc (custom_gates ctx) name) as [def|] eqn:Edef; [|done]. repeat (case_bool_decide; cbn [negb]; [|done]).
  pose proof (Hs name (callee_head _ _ _ _ _ _ _ Esplit Ehead)) as Hrank. rewrite Hg in Edef.
  apply ended_foldR. intros s' acc Hin. apply ended_bind; [|done]. apply IH; [done|lia|].
  intros m Hm. pose proof (Hr name def s' m Edef Hin Hm). lia.
Qed.

(** C33: the parser terminates on every program whose gate definitions do not
    refer to each other in a circle: with more fuel than the depth of the
    definitions it never runs out. *)
Theorem qasm_terminates rank fuel source :
  (forall statements d, collect_statements source = Ok statements ->
     foldR declare (tail statements) (mkDeclarations [] [] [] 0 0 []) = Ok d -> ranked rank (d_gates d)) ->
  (forall name, (rank name + 1 < fuel)%nat) -> parse_qasm fuel source <> Err QOutOfFuel.
Proof.
  intros Hr Hf. change (ended (parse_qasm fuel source)). assert (0 < fuel)%nat by (specialize (Hf []); lia).
  apply ended_bind; [unfold collect_statements; by case_bool_decide|]. intros [|[line first] rest] Est; [done|].
  case_bool_decide; cbn [negb]; [|done]. apply ended_bind.
  { apply ended_foldR. intros [l s] d _. unfold declare. repeat destruct (starts_with _ _); try done.
    - by case_bool_decide.
    - apply ended_bind; [unfold parse_register_declaration; destruct (strip_prefix _ _); [apply ended_indexed|done]|].
      intros [name size] _. by destruct (_ <? _).
    - apply ended_bind; [unfold parse_register_declaration; destruct (strip_prefix _ _); [apply ended_indexed|done]|].
      intros [name size] _. by destruct (_ <? _).
    - apply ended_bind; [|done]. unfold parse_gate_definition. destruct (strip_prefix _ _); [|done].
      destruct (split_once _ _) as [[header body]|]; [|done].
      apply ended_bind; [unfold split_gate_statement; by destruct (split_gate_go _ _ _)|]. intros [head operands] _.
      apply ended_bind; [|by intros [? ?] _]. apply ended_bind; [apply ended_parens|]. by intros [name inner] _. }
  intros d Ed. specialize (Hr _ _ Est Ed). destruct (d_qubits d =? 0); [done|]. destruct (with_classical_bits _ _) as [c0|]; [|done].
  apply ended_foldR. intros [l s] c _. cbn [fst snd]. unfold parse_statement.
  assert (forall (A : Type) (m : cst A) c, ended (build l m c)) as Hbuild by (intros A m c'; unfold build; by destruct (m c') as [[?|?] ?]).
  assert (forall s, ended (expand_gate fuel l (mkContext (d_qregs d) (d_gates d) [] []) s)) as Hexp
    by (intros s'; by eapply expand_ends).
  destruct (starts_with s (str "measure ")).
  { unfold parse_measurement. destruct (strip_prefix _ _); [|done]. destruct (split_once _ _) as [[q b]|]; [|done].
    apply ended_bind; [apply ended_quantum|]. intros. apply ended_bind; [apply ended_register|]. intros. apply Hbuild. }
  destruct (starts_with s (str "barrier ")).
  { unfold parse_barrier. destruct (strip_prefix _ _); [|done]. apply ended_bind; [|intros; apply Hbuild].
    apply ended_foldR. intros part acc _. unfold barrier_part. destruct (assoc _ _); [done|]. destruct (contains _ _).
    - apply ended_bind; [apply ended_quantum|done].
    - by destruct (assoc _ _). }
  destruct (starts_with s (str "if(") || starts_with s (str "if (")).
  { unfold parse_conditional. destruct (find_sub (str "(") s), (find_sub (str ")") s); try done. case_bool_decide; [done|].
    destruct (split_once _ _) as [[r v]|]; [|done]. destruct (assoc _ _); [|done]. destruct (parse_uint _ _ _); [|done].
    apply ended_bind; [apply Hexp|]. intros. apply ended_foldR. intros. apply Hbuild. }
  apply ended_bind; [apply Hexp|]. intros. apply ended_foldR. intros. apply Hbuild.
Qed.
End definitions.

(** ** Programs that end the parser *)

#[local] Existing Instance no_libm.

(** A gate that applies itself. *)
Definition circular : bytes := str "OPENQASM 2.0; qreg q[1]; gate a x { a x; } a q[0];".
Definition circular_gates : list (bytes * GateDefinition) := [(str "a", mkGateDef [] [str "x"] [str "a x"])].

Lemma circular_body fuel line regs scope :
  assoc scope (str "x") = Some O -> expand_gate fuel line (mkContext regs circular_gates scope []) (str "a x") = Err QOutOfFuel.
Proof.
  revert scope. induction fuel as [|fuel IH]; intros scope Hs; [done|]. cbn [expand_gate].
  change (split_gate_statement line (str "a x")) with (@Ok qasm_fault _ (str "a", str "x")). cbn [mbind result_bind parameter_scope qregs qubit_scope custom_gates].
  change (parse_gate_head line (str "a") []) with (@Ok qasm_fault _ (str "a", @nil f64)). cbn [mbind result_bind].
  change (split_arguments (str "x")) with [str "x"]. cbn [mapM mbind result_bind]. change (trim (str "x")) with (str "x").
  unfold resolve_quantum_reference. rewrite Hs. cbn [mbind result_bind mret result_ret].
  change (builtin_gate (str "a") [] [0%nat]) with (@None (result bytes (list GateApplication))). cbv iota.
  change (assoc circular_gates (str "a")) with (Some (mkGateDef [] [str "x"] [str "a x"])). cbn [def_parameters def_qubits def_body].
  rewrite !bool_decide_true by done. cbn [negb zip zip_with fold_left foldR]. by rewrite IH.
Qed.

(** A gate whose definition applies the gate itself is accepted, and expanding it
    never ends: no fuel is enough. *)
Theorem qasm_circular_diverges fuel : parse_qasm fuel circular = Err QOutOfFuel.
Proof.
  assert (collect_statements circular =
    Ok [(1%nat, str "OPENQASM 2.0"); (1%nat, str "qreg q[1]"); (1%nat, str "gate a x { a x; }"); (1%nat, str "a q[0]")]) as Hc
    by (vm_compute; reflexivity).
  unfold parse_qasm. rewrite Hc. cbn [mbind result_bind]. rewrite bool_decide_true by done. cbn [negb].
  assert (foldR declare [(1%nat, str "qreg q[1]"); (1%nat, str "gate a x { a x; }"); (1%nat, str "a q[0]")] (mkDeclarations [] [] [] 0 0 []) =
    Ok (mkDeclarations (whole "q" 1) [] circular_gates 1 0 [(1%nat, str "a q[0]")])) as Hd by (vm_compute; reflexivity).
  rewrite Hd. cbn [mbind result_bind d_qubits d_bits d_qregs d_cregs d_gates d_operations Z.eqb]. cbv iota.
  change (with_classical_bits (Z.to_nat 1) (Z.to_nat 0)) with (@Ok WarosError _ (mkCircuit 1 0 [])). cbn [foldR fst snd].
  unfold parse_statement. change (starts_with (str "a q[0]") ?p) with false. cbn [orb].
  destruct fuel as [|fuel]; [done|]. cbn [expand_gate].
  change (split_gate_statement 1 (str "a q[0]")) with (@Ok qasm_fault _ (str "a", str "q[0]")). cbn [mbind result_bind parameter_scope qregs qubit_scope custom_gates].
  change (parse_gate_head 1 (str "a") []) with (@Ok qasm_fault _ (str "a", @nil f64)). cbn [mbind result_bind].
  change (mapM _ (split_arguments (str "q[0]"))) with (@Ok qasm_fault _ [0%nat]). cbn [mbind result_bind].
  change (builtin_gate (str "a") [] [0%nat]) with (@None (result bytes (list GateApplication))). cbv iota.
  change (assoc circular_gates (str "a")) with (Some (mkGateDef [] [str "x"] [str "a x"])). cbn [def_parameters def_qubits def_body].
  rewrite !bool_decide_true by done. cbn [negb zip zip_with fold_left foldR]. by rewrite circular_body.
Qed.

(** A closing bracket before the opening one makes the parser panic. *)
Theorem qasm_bracket_panics fuel : parse_qasm (S fuel) (str "OPENQASM 2.0; qreg q[1]; h ]q[0;") = Err QPanic.
Proof. vm_compute. reflexivity. Qed.

(** ** Runs *)

Definition sample : Circuit :=
  mkCircuit 3 2 [GateOp gate_h [0%nat]; GateOp (gate_crk 3) [1; 0]%nat; GateOp gate_sx [2%nat]; GateOp gate_swap [0; 2]%nat;
                 Barrier [2; 1]%nat; Measure 2 1].
Definition conditional_sample : Circuit := mkCircuit 2 1 [Measure 0 0; ConditionalGate [0%nat] 1 gate_x [1%nat]].

Ltac wf_circuit :=
  split; [unfold MAX_QUBITS; cbn; lia|];
  repeat constructor; cbn; try lia; try discriminate; rewrite ?elem_of_cons, ?elem_of_nil; lia.
Lemma sample_wf : circuit_wf sample.
Proof. wf_circuit. Qed.
Lemma conditional_sample_wf : circuit_wf conditional_sample.
Proof. wf_circuit. Qed.

Lemma qasm_conditional_rejected_witness :
  exists line, parse_qasm 1 (to_qasm conditional_sample) = parse_error line (str "missing semicolon or closing '}'").
Proof.
  apply (qasm_conditional_rejected 1 conditional_sample [Measure 0 0] [0%nat] 1 gate_x [1%nat]).
  - exact conditional_sample_wf.
  - reflexivity.
  - vm_compute. discriminate.
  - lia.
  - repeat constructor.
  - exists (str "x"). right. left.
Defined.
(** A program with one definition, of rank one. *)
Definition layered : bytes := str "OPENQASM 2.0; qreg q[2]; gate bell x,y { h x; cx x,y; } bell q[0],q[1];".
Definition bell_gate : GateDefinition := mkGateDef [] [str "x"; str "y"] [str "h x"; str "cx x,y"].
Definition bell_rank (name : bytes) : nat := if bool_decide (name = str "bell") then 1 else 0.
Lemma bell_ranked : ranked bell_rank [(str "bell", bell_gate)].
Proof.
  intros name def s m Ha Hin Hc. unfold assoc, find_first in Ha. cbn [List.find fst] in Ha.
  destruct (bool_decide_reflect (str "bell" = name)) as [<-|Hne]; [|done]. cbn in Ha. injection Ha as <-.
  cbn [def_body bell_gate] in Hin. apply elem_of_cons in Hin as [->|Hin]; [|apply list_elem_of_singleton in Hin as ->];
    vm_compute in Hc; injection Hc as <-; vm_compute; lia.
Qed.
Lemma qasm_terminates_witness : parse_qasm 3 layered <> Err QOutOfFuel.
Proof.
  apply (qasm_terminates bell_rank 3 layered).
  - intros statements d Hs Hd.
    assert (collect_statements layered = Ok [(1%nat, str "OPENQASM 2.0"); (1%nat, str "qreg q[2]");
      (1%nat, str "gate bell x,y { h x; cx x,y; }"); (1%nat, str "bell q[0],q[1]")]) as E by (vm_compute; reflexivity).
    rewrite E in Hs. injection Hs as <-. cbn [tail] in Hd.
    assert (foldR declare [(1%nat, str "qreg q[2]"); (1%nat, str "gate bell x,y { h x; cx x,y; }"); (1%nat, str "bell q[0],q[1]")]
      (mkDeclarations [] [] [] 0 0 []) =
      Ok (mkDeclarations (whole "q" 2) [] [(str "bell", bell_gate)] 2 0 [(1%nat, str "bell q[0],q[1]")])) as E2 by (vm_compute; reflexivity).
    rewrite E2 in Hd. injection Hd as <-. exact bell_ranked.
  - intros name. unfold bell_rank. case_bool_decide; lia.
Defined.
