(* ===== verification/Http.v ===== *)
(** * The HTTP client (kernel/src/net/http.rs)

    Addresses, requests, redirects and the reading of responses.  Name
    resolution, TCP and TLS are behind the class [Transport].  The theorems:
    responses are read as they were written, with chunked bodies put together;
    relative redirects stay on the host; the redirect loop ends; and what the
    client accepts although it should not. *)
From S2P Require Import Prelude RustStr RustParse SerialLink.

(** ** Addresses *)

Record UrlParts : Type := mkUrl { scheme : bytes; host : bytes; port : Z; path : bytes }.

Definition parse_url (url : bytes) : result NetError UrlParts :=
  match split_once (str "://") url with
  | None => Err (NetInitializationFailed (str "URL is missing a scheme"))
  | Some (sch, rest) =>
      let path_start := default (length rest) (find_sub (str "/") rest) in
      let authority := take path_start rest in
      let p := if bool_decide (path_start < length rest)%nat then drop path_start rest else str "/" in
      match rsplit_once x3a authority with
      | Some (h, text) =>
          match parse_uint 10 u16_max text with
          | None => Err (NetInitializationFailed (str "invalid URL port"))
          | Some n => Ok (mkUrl sch h n p)
          end
      | None =>
          if bool_decide (sch = str "http") then Ok (mkUrl sch authority 80 p)
          else if bool_decide (sch = str "https") then Ok (mkUrl sch authority 443 p)
          else Err (NetInitializationFailed (str "unsupported URL scheme"))
      end
  end.

Definition explicit_port_suffix (parts : UrlParts) : bytes :=
  let default_port := if bool_decide (scheme parts = str "http") then 80
                      else if bool_decide (scheme parts = str "https") then 443 else port parts in
  if port parts =? default_port then [] else str ":" ++ decimal (port parts).

(** [path.split(c).next()]. *)
Definition before (c : byte) (s : bytes) : bytes := match split_on c s with w :: _ => w | [] => s end.
Definition base_directory (p : bytes) : bytes :=
  let without_fragment := before x23 (before x3f p) in
  if bool_decide (without_fragment = []) || bool_decide (without_fragment = str "/") then str "/"
  else if ends_with_byte without_fragment x2f then without_fragment
  else match rsplit_once x2f without_fragment with
       | Some (prefix, _) => if bool_decide (prefix = []) then str "/" else prefix ++ str "/"
       | None => str "/"
       end.

Definition resolve_redirect_url (parts : UrlParts) (location : bytes) : result NetError bytes :=
  if contains location (str "://") then Ok location
  else match strip_prefix (str "//") location with
       | Some authority => Ok (scheme parts ++ str "://" ++ authority)
       | None =>
           let origin := scheme parts ++ str "://" ++ host parts ++ explicit_port_suffix parts in
           match strip_prefix (str "/") location with
           | Some p => Ok (origin ++ if bool_decide (p = []) then str "/" else str "/" ++ p)
           | None => Ok (origin ++ base_directory (path parts) ++ location)
           end
       end.

(** ** Responses *)

Record HttpResponse : Type := mkResponse {
  status_code : Z;
  headers : list (bytes * bytes);
  body : bytes;
  effective_url : bytes;
  redirects_followed : Z;
}.

Definition is_redirect_status (code : Z) : bool := bool_decide (code ∈ [301; 302; 307; 308]).
Definition header_value (hs : list (bytes * bytes)) (name : bytes) : option bytes :=
  snd <$> find_first (fun h => eq_ignore_ascii_case h.1 name) hs.

(** [s.split("\r\n")]. *)
Fixpoint split_crlf (s : bytes) : list bytes :=
  match s with
  | [] => [[]]
  | b :: s' =>
      let keep := match split_crlf s' with w :: ws => (b :: w) :: ws | [] => [[b]] end in
      match s' with
      | c :: s'' => if bool_decide (b = x0d) && bool_decide (c = x0a) then [] :: split_crlf s'' else keep
      | [] => keep
      end
  end.

(** The loop of [decode_chunked_body] on the bytes from the cursor on; [None] when
    the fuel, one turn per byte and one more, would not be enough. *)
Fixpoint decode_chunks (fuel : nat) (s acc : bytes) : option (result NetError bytes) :=
  match fuel with
  | O => None
  | S fuel =>
      if bool_decide (s = []) then Some (Ok acc)
      else match find_sub [x0d; x0a] s with
           | None => Some (Err (NetInitializationFailed (str "invalid chunked HTTP body")))
           | Some size_end =>
               let size_str := take size_end s in
               if negb (utf8_valid size_str) then Some (Err (NetInitializationFailed (str "invalid chunk size")))
               else match parse_uint 16 u64_max (trim size_str) with
                    | None => Some (Err (NetInitializationFailed (str "invalid chunk size")))
                    | Some size =>
                        let rest := drop (size_end + 2) s in
                        if size =? 0 then Some (Ok acc)
                        else if blen rest <? size then Some (Err (NetInitializationFailed (str "chunk exceeds response length")))
                        else decode_chunks fuel (drop (Z.to_nat size + 2) rest) (acc ++ take (Z.to_nat size) rest)
                    end
           end
  end.
Definition decode_chunked_body (s : bytes) : option (result NetError bytes) := decode_chunks (S (length s)) s [].

Definition parse_header (line : bytes) : option (bytes * bytes) :=
  '(name, value) ← split_once (str ":") line; Some (trim name, trim value).
Definition is_chunked (h : bytes * bytes) : bool :=
  eq_ignore_ascii_case h.1 (str "Transfer-Encoding") && eq_ignore_ascii_case h.2 (str "chunked").

Definition parse_response (s : bytes) : result NetError HttpResponse :=
  let failed {A} (m : string) : result NetError A := Err (NetInitializationFailed (str m)) in
  match find_sub [x0d; x0a; x0d; x0a] s with
  | None => failed "HTTP response missing headers"%string
  | Some index =>
      let header_end := (index + 4)%nat in
      let header_text := take header_end s in
      if negb (utf8_valid header_text) then failed "HTTP headers are not UTF-8"%string
      else match List.filter (fun l => negb (bool_decide (l = []))) (split_crlf header_text) with
           | [] => failed "HTTP response missing status line"%string
           | status_line :: lines =>
               match split_whitespace status_line !! 1%nat ≫= parse_uint 10 u16_max with
               | None => failed "HTTP status line is invalid"%string
               | Some code =>
                   let hs : list (bytes * bytes) := omap parse_header lines in
                   let raw := drop header_end s in
                   b ← (if existsb is_chunked hs
                        then default (failed "invalid chunked HTTP body"%string) (decode_chunked_body raw) else Ok raw);
                   Ok (mkResponse code hs b [] 0)
               end
           end
  end.

(** ** Requests *)

(** Name resolution, TCP connections and requests over TLS. *)
Class Transport (S : Type) : Type := {
  Connection : Type;
  resolve_host : bytes -> stm S NetError Z;
  tcp_connect : Z -> Z -> stm S NetError Connection;
  tcp_send : Connection -> bytes -> stm S NetError ();
  tcp_read_to_end : Connection -> stm S NetError bytes;
  tcp_close : Connection -> stm S NetError ();
  https_request : bytes -> bytes -> UrlParts -> list (bytes * bytes) -> option (bytes * bytes) -> stm S NetError HttpResponse;
}.

Definition crlf : bytes := [x0d; x0a].
Definition HTTP_GET_REDIRECT_LIMIT : Z := 5.

Section client.
Context {S : Type} `{Transport S} (KERNEL_VERSION : bytes).

Definition request_text (method : bytes) (parts : UrlParts) (extra : list (bytes * bytes)) (content : option (bytes * bytes)) : bytes :=
  method ++ str " " ++ path parts ++ str " HTTP/1.1" ++ crlf ++ str "Host: " ++ host parts ++ crlf
  ++ str "User-Agent: WarOS/" ++ KERNEL_VERSION ++ crlf ++ str "Connection: close" ++ crlf
  ++ match content with
     | Some (content_type, b) => str "Content-Type: " ++ content_type ++ crlf ++ str "Content-Length: " ++ decimal (blen b) ++ crlf
     | None => []
     end
  ++ concat (map (fun h => h.1 ++ str ": " ++ h.2 ++ crlf) extra) ++ crlf.

Definition plain_request (method : bytes) (parts : UrlParts) (extra : list (bytes * bytes)) (content : option (bytes * bytes)) :
    stm S NetError HttpResponse :=
  remote_ip ← resolve_host (host parts);
  connection ← tcp_connect remote_ip (port parts);
  _ ← tcp_send connection (request_text method parts extra content);
  _ ← match content with Some (_, b) => tcp_send connection b | None => mret () end;
  response ← tcp_read_to_end connection;
  _ ← tcp_close connection;
  lift_result (parse_response response).

Definition http_request_once (method requested_url : bytes) (parts : UrlParts) (extra : list (bytes * bytes))
    (content : option (bytes * bytes)) (followed : Z) : stm S NetError HttpResponse :=
  response ← (if bool_decide (scheme parts = str "http") then plain_request method parts extra content
              else if bool_decide (scheme parts = str "https") then https_request method requested_url parts extra content
              else throw (NetInitializationFailed (str "unsupported URL scheme")));
  mret (mkResponse (status_code response) (headers response) (body response) requested_url followed).

(** The loop of [http_get_with_headers]; [Err None] when the fuel, one turn per
    request, would not be enough. *)
Definition net {A} (m : stm S NetError A) : stm S (option NetError) A :=
  fun s => let '(r, s') := m s in (map_err Some r, s').
Fixpoint http_get_loop (fuel : nat) (url current_url : bytes) (followed : Z) (extra : list (bytes * bytes)) :
    stm S (option NetError) HttpResponse :=
  match fuel with
  | O => throw None
  | Datatypes.S fuel =>
      parts ← net (lift_result (parse_url current_url));
      response ← net (http_request_once (str "GET") current_url parts extra None followed);
      if negb (is_redirect_status (status_code response)) then mret response
      else if HTTP_GET_REDIRECT_LIMIT <=? followed
      then throw (Some (NetProtocolError (str "HTTP redirect limit exceeded after " ++ decimal followed ++ str " hop(s) for " ++ url)))
      else match header_value (headers response) (str "Location") with
           | None => throw (Some (NetProtocolError (str "HTTP " ++ decimal (status_code response) ++ str " redirect from "
                                                    ++ effective_url response ++ str " did not include a Location header")))
           | Some location =>
               next ← net (lift_result (resolve_redirect_url parts location));
               http_get_loop fuel url next (sat_add 8 followed 1) extra
           end
  end.
Definition http_get_with_headers (url : bytes) (extra : list (bytes * bytes)) : stm S (option NetError) HttpResponse :=
  http_get_loop 6 url url 0 extra.
Definition http_get (url : bytes) : stm S (option NetError) HttpResponse := http_get_with_headers url [].
Definition http_post_with_headers (url content_type b : bytes) (extra : list (bytes * bytes)) : stm S NetError HttpResponse :=
  parts ← lift_result (parse_url url);
  http_request_once (str "POST") url parts extra (Some (content_type, b)) 0.
Definition http_post (url content_type b : bytes) : stm S NetError HttpResponse := http_post_with_headers url content_type b [].
End client.

(** ** Chunked bodies *)

Definition hex (n : Z) : bytes := radix_digits 16 16 n [].
Definition chunk (data : bytes) : bytes := hex (blen data) ++ crlf ++ data ++ crlf.
Definition chunks (l : list bytes) : bytes := concat (map chunk l).
Definition chunk_ok (data : bytes) : Prop := data <> [] /\ blen data <= u64_max.

Lemma hex_spec n : 0 <= n -> tight (hex n) = true /\ x0d ∉ hex n /\ utf8_valid (hex n) = true.
Proof.
  intros Hn. unfold hex. destruct (radix_digits_spec 16 ltac:(lia) 16 n [] Hn ltac:(lia)) as (p & -> & Hne & Hall).
  rewrite app_nil_r. assert (Forall (fun b => inert b = true /\ b <> x0d /\ bval b < 128) p) as Hp.
  { eapply Forall_impl; [exact Hall|]. intros b (d & Hd & ->). pose proof (digit_char_val d Hd) as Hv. split_and!.
    - unfold inert. rewrite Hv. destruct (d <? 10) eqn:E; lia.
    - intros E. apply (f_equal bval) in E. rewrite Hv in E. change (bval x0d) with 13 in E. destruct (d <? 10) eqn:?; lia.
    - rewrite Hv. destruct (d <? 10) eqn:E; lia. }
  split_and!.
  - apply inert_tight; [done|]. eapply Forall_impl; [exact Hp|]. by intros b (? & _).
  - intros Hin. by destruct (Forall_elem _ _ _ Hp Hin) as (_ & ? & _).
  - apply utf8_ascii. eapply Forall_impl; [exact Hp|]. by intros b (_ & _ & ?).
Qed.
Lemma hex_parses n : 0 <= n <= u64_max -> parse_uint 16 u64_max (hex n) = Some n.
Proof. intros Hn. apply parse_uint_digits; [lia|done|lia|]. change (16 ^ Z.of_nat 16) with (2 ^ 64). unfold u64_max in Hn. lia. Qed.

(** One turn of the loop, for a chunk of [size] bytes. *)
Lemma decode_size fuel n rest acc :
  0 <= n <= u64_max ->
  decode_chunks (S fuel) (hex n ++ crlf ++ rest) acc =
    if n =? 0 then Some (Ok acc)
    else if blen rest <? n then Some (Err (NetInitializationFailed (str "chunk exceeds response length")))
    else decode_chunks fuel (drop (Z.to_nat n + 2) rest) (acc ++ take (Z.to_nat n) rest).
Proof.
  intros Hn. destruct (hex_spec n ltac:(lia)) as (Ht & Hcr & Hu). cbn [decode_chunks].
  rewrite bool_decide_false by (by destruct (hex n)). change (crlf ++ rest) with (x0d :: [x0a] ++ rest).
  rewrite find_sub_after by done. rewrite take_app_length, Hu. cbn [negb]. rewrite trim_tight, hex_parses by done.
  replace (drop (length (hex n) + 2) (hex n ++ x0d :: [x0a] ++ rest)) with rest; [done|].
  change (hex n ++ x0d :: [x0a] ++ rest) with (hex n ++ [x0d; x0a] ++ rest). rewrite app_assoc.
  by rewrite drop_app_length' by (rewrite length_app; done).
Qed.
Lemma decode_chunk fuel data rest acc :
  chunk_ok data -> decode_chunks (S fuel) (chunk data ++ rest) acc = decode_chunks fuel rest (acc ++ data).
Proof.
  intros [Hne Hlen]. unfold chunk. rewrite <- !app_assoc, decode_size by (unfold blen in *; lia).
  assert (0 < blen data) by (unfold blen; destruct data; [done|cbn; lia]).
  rewrite (proj2 (Z.eqb_neq _ _)) by lia. rewrite (proj2 (Z.ltb_ge _ _)) by (unfold blen; rewrite length_app; lia).
  unfold blen. rewrite Nat2Z.id, take_app_length. rewrite app_assoc.
  by rewrite drop_app_length' by (rewrite length_app; done).
Qed.
Lemma decode_all l rest acc fuel :
  Forall chunk_ok l -> decode_chunks (length l + fuel) (chunks l ++ rest) acc = decode_chunks fuel rest (acc ++ concat l).
Proof.
  intros Hl. revert acc. induction Hl as [|data l Hd Hl IH]; intros acc; [by rewrite app_nil_r|].
  change (chunks (data :: l)) with (chunk data ++ chunks l). rewrite <- app_assoc. cbn [length Nat.add].
  rewrite decode_chunk by done. rewrite IH. cbn [concat]. by rewrite <- app_assoc.
Qed.

Lemma find_crlf_lt s i : find_sub [x0d; x0a] s = Some i -> (i + 2 <= length s)%nat.
Proof.
  intros (r & E & Hi)%find_sub_Some. apply (f_equal length) in E. rewrite !length_app, length_take in E. cbn in E. lia.
Qed.
(** The loop ends: every turn takes two bytes at least. *)
Lemma decode_ends fuel s acc : (length s < fuel)%nat -> decode_chunks fuel s acc <> None.
Proof.
  revert s acc. induction fuel as [|fuel IH]; intros s acc Hf; [lia|]. cbn [decode_chunks].
  case_bool_decide; [done|]. destruct (find_sub _ s) as [i|] eqn:E; [|done]. apply find_crlf_lt in E.
  destruct (negb _); [done|]. destruct (parse_uint _ _ _) as [n|]; [|done]. destruct (n =? 0); [done|].
  destruct (_ <? _); [done|]. apply IH. rewrite !length_drop. lia.
Qed.
Lemma decode_more fuel fuel' s acc r : decode_chunks fuel s acc = Some r -> (fuel <= fuel')%nat -> decode_chunks fuel' s acc = Some r.
Proof.
  revert fuel' s acc. induction fuel as [|fuel IH]; intros fuel' s acc E Hf; [done|]. destruct fuel' as [|fuel']; [lia|].
  cbn [decode_chunks] in *. case_bool_decide; [done|]. destruct (find_sub _ s) as [i|]; [|done].
  destruct (negb _); [done|]. destruct (parse_uint _ _ _) as [n|]; [|done]. destruct (n =? 0); [done|].
  destruct (_ <? _); [done|]. apply IH; [done|lia].
Qed.
Lemma chunks_length l : Forall chunk_ok l -> (length l <= length (chunks l))%nat.
Proof.
  intros Hl. induction Hl as [|data l [Hd _] Hl IH]; [done|]. change (chunks (data :: l)) with (chunk data ++ chunks l).
  rewrite length_app. unfold chunk. rewrite !length_app. destruct data; [done|]. cbn [length]. lia.
Qed.
Lemma decode_body l rest r :
  Forall chunk_ok l -> decode_chunks 1 rest (concat l) = Some r -> decode_chunked_body (chunks l ++ rest) = Some r.
Proof.
  intros Hl Hr. pose proof (chunks_length l Hl). unfold decode_chunked_body. apply (decode_more (length l + 1)).
  - by rewrite decode_all.
  - rewrite length_app. lia.
Qed.

(** ** Whole responses *)

(** A line of a header: printing characters and blanks. *)
Definition header_char (b : byte) : bool := inert b || bool_decide (b = x20).
Lemma header_char_spec b : header_char b = true -> b <> x0d /\ b <> x0a /\ bval b < 128.
Proof. destruct b; vm_compute; try done; intros _; by split_and!. Qed.
Definition line_ok (l : bytes) : Prop := l <> [] /\ Forall (fun b => header_char b = true) l.
Definition header_block (ls : list bytes) : bytes := concat (map (fun l => l ++ crlf) ls) ++ crlf.

Lemma no_cr l : Forall (fun b => header_char b = true) l -> x0d ∉ l.
Proof. intros Hl Hin. by destruct (header_char_spec _ (Forall_elem _ _ _ Hl Hin)). Qed.

Lemma header_block_cons l ls : header_block (l :: ls) = l ++ crlf ++ header_block ls.
Proof. unfold header_block. cbn [map concat]. by rewrite <- !app_assoc. Qed.
(** Looking for the empty line skips a line that is followed by another one. *)
Lemma find_blank_skip l b rest :
  Forall (fun b => header_char b = true) l -> b <> x0d ->
  find_sub [x0d; x0a; x0d; x0a] (l ++ crlf ++ b :: rest) =
    (fun i => (length l + 2 + i)%nat) <$> find_sub [x0d; x0a; x0d; x0a] (b :: rest).
Proof.
  intros Hl Hb. remember (find_sub [x0d; x0a; x0d; x0a] (b :: rest)) as found eqn:Hfound. induction Hl as [|x l Hx Hl IH].
  - subst found. change ([] ++ crlf ++ b :: rest) with (x0d :: x0a :: b :: rest).
    assert (starts_with (x0d :: x0a :: b :: rest) [x0d; x0a; x0d; x0a] = false) as E.
    { destruct (starts_with _ _) eqn:E; [|done]. apply starts_with_true in E as [r E]. cbn in E. by injection E. }
    cbn [find_sub]. rewrite E. change (starts_with (x0a :: b :: rest) [x0d; x0a; x0d; x0a]) with false. cbn [find_sub].
    destruct (starts_with (b :: rest) _); [done|]. by destruct (find_sub _ rest).
  - cbn [app find_sub]. assert (starts_with (x :: l ++ crlf ++ b :: rest) [x0d; x0a; x0d; x0a] = false) as ->.
    { destruct (starts_with _ _) eqn:E; [|done]. apply starts_with_true in E as [r E]. cbn in E. injection E as -> _.
      by destruct (header_char_spec _ Hx). }
    rewrite IH. by destruct found.
Qed.
Lemma find_blank ls rest :
  ls <> [] -> Forall line_ok ls ->
  (fun i => (i + 4)%nat) <$> find_sub [x0d; x0a; x0d; x0a] (header_block ls ++ rest) = Some (length (header_block ls)).
Proof.
  intros Hne Hls. induction Hls as [|l ls [Hl Hc] Hls IH]; [done|]. destruct ls as [|l2 ls].
  - unfold header_block. cbn [map concat]. rewrite app_nil_r, <- !app_assoc. change (crlf ++ crlf ++ rest) with (x0d :: [x0a; x0d; x0a] ++ rest).
    rewrite find_sub_after by by apply no_cr. cbn. rewrite !length_app. cbn. f_equal.
  - specialize (IH ltac:(done)). rewrite header_block_cons. inversion Hls as [|? ? [Hl2 Hc2] _]; subst.
    assert (exists b t, header_block (l2 :: ls) = b :: t /\ b <> x0d) as (b & t & E & Hb).
    { destruct l2 as [|b l2]; [done|]. rewrite header_block_cons. apply Forall_cons in Hc2 as [Hb _]. eexists b, _. split; [reflexivity|].
      by destruct (header_char_spec _ Hb). }
    rewrite <- !app_assoc. rewrite E in *. cbn [app] in *. rewrite find_blank_skip by done.
    destruct (find_sub _ (b :: _)) as [i|]; [|done]. cbn in IH |- *. injection IH as IH. f_equal.
    rewrite !length_app. cbn [length] in *. lia.
Qed.

Lemma split_crlf_line l rest :
  Forall (fun b => header_char b = true) l -> split_crlf (l ++ crlf ++ rest) = l :: split_crlf rest.
Proof.
  intros Hl. induction Hl as [|b l Hb Hl IH]; [done|]. cbn [app split_crlf].
  destruct (l ++ crlf ++ rest) as [|c s] eqn:E; [by destruct l|]. rewrite <- E in *. rewrite IH.
  rewrite (bool_decide_false (b = x0d)) by by destruct (header_char_spec _ Hb). done.
Qed.
Lemma split_block ls :
  Forall line_ok ls -> List.filter (fun l => negb (bool_decide (l = []))) (split_crlf (header_block ls)) = ls.
Proof.
  intros Hls. unfold header_block. induction Hls as [|l ls [Hl Hc] Hls IH]; [done|]. cbn [map concat].
  rewrite <- !app_assoc, split_crlf_line by done. cbn [List.filter]. rewrite bool_decide_false by done. cbn [negb]. by rewrite IH.
Qed.

Lemma words_inert v w rest :
  Forall (fun b => inert b = true) v -> split_whitespace_go 0 w (v ++ rest) = split_whitespace_go 0 (w ++ v) rest.
Proof.
  intros Hv. revert w. induction Hv as [|b v Hb Hv IH]; intros w; [by rewrite app_nil_r|]. cbn [app split_whitespace_go].
  rewrite inert_not_space by done. rewrite IH. by rewrite <- app_assoc.
Qed.
Lemma words_blank b w rest : split_whitespace_go 0 (b :: w) (x20 :: rest) = (b :: w) :: split_whitespace_go 0 [] rest.
Proof. reflexivity. Qed.

(** ** What a server sends *)

Definition status_line (code : Z) (reason : bytes) : bytes := str "HTTP/1.1 " ++ decimal code ++ str " " ++ reason.
Definition header_line (h : bytes * bytes) : bytes := h.1 ++ str ": " ++ h.2.
Definition response_text (code : Z) (reason : bytes) (hs : list (bytes * bytes)) (raw : bytes) : bytes :=
  header_block (status_line code reason :: map header_line hs) ++ raw.
(** The body in the encoding that the headers announce. *)
Definition body_text (hs : list (bytes * bytes)) (l : list bytes) (trailer : bytes) : bytes :=
  if existsb is_chunked hs then chunks l ++ str "0" ++ crlf ++ trailer else concat l.

Definition header_ok (h : bytes * bytes) : Prop :=
  tight h.1 = true /\ tight h.2 = true /\ x3a ∉ h.1 /\
  Forall (fun b => header_char b = true) h.1 /\ Forall (fun b => header_char b = true) h.2.

Lemma status_read code reason :
  0 <= code <= u16_max -> split_whitespace (status_line code reason) !! 1%nat ≫= parse_uint 10 u16_max = Some code.
Proof.
  intros Hc. destruct (decimal_spec code ltac:(lia)) as [Hne Hd]. unfold split_whitespace, status_line.
  change (str "HTTP/1.1 " ++ ?r) with (str "HTTP/1.1" ++ x20 :: r). rewrite words_inert by (by repeat constructor).
  change ([] ++ str "HTTP/1.1") with (x48 :: str "TTP/1.1"). rewrite words_blank.
  rewrite words_inert by (eapply Forall_impl; [exact Hd|apply digit_inert]). cbn [app].
  destruct (decimal code) as [|b w] eqn:E; [done|]. change (str " " ++ reason) with (x20 :: reason). rewrite words_blank.
  cbn [lookup list_lookup mbind option_bind]. rewrite <- E. apply parse_decimal; unfold u16_max in *; lia.
Qed.
Lemma status_line_ok code reason : 0 <= code -> Forall (fun b => header_char b = true) reason -> line_ok (status_line code reason).
Proof.
  intros Hc Hr. split; [done|]. unfold status_line. rewrite !Forall_app. split_and!; [by repeat constructor| |by repeat constructor|done].
  eapply Forall_impl; [by apply decimal_spec|]. intros b Hb. unfold header_char. by rewrite digit_inert.
Qed.
Lemma header_line_ok h : header_ok h -> line_ok (header_line h) /\ parse_header (header_line h) = Some h.
Proof.
  intros (Ht1 & Ht2 & Hcolon & Hc1 & Hc2). unfold header_line. split.
  - split; [by destruct h.1|]. rewrite !Forall_app. split_and!; [done|by repeat constructor|done].
  - unfold parse_header. change (str ": " ++ h.2) with (x3a :: [] ++ x20 :: h.2). change (str ":") with [x3a].
    rewrite (split_once_after x3a []) by done. cbn [mbind option_bind]. rewrite trim_blank, !trim_tight by done. by destruct h.
Qed.
Lemma headers_read hs : Forall header_ok hs -> omap parse_header (map header_line hs) = hs.
Proof.
  intros Hhs. induction Hhs as [|h hs Hh Hhs IH]; [done|]. cbn [map omap list_omap].
  by rewrite (proj2 (header_line_ok h Hh)), IH.
Qed.

(** The part of [parse_response] before the body. *)
Lemma head_read code reason hs raw :
  0 <= code <= u16_max -> Forall (fun b => header_char b = true) reason -> Forall header_ok hs ->
  parse_response (response_text code reason hs raw) =
    b ← (if existsb is_chunked hs
         then default (Err (NetInitializationFailed (str "invalid chunked HTTP body"))) (decode_chunked_body raw) else Ok raw);
    Ok (mkResponse code hs b [] 0).
Proof.
  intros Hc Hr Hhs. unfold response_text. set (ls := status_line code reason :: map header_line hs).
  assert (Forall line_ok ls) as Hls.
  { constructor; [apply status_line_ok; [lia|done]|]. apply Forall_map. eapply Forall_impl; [exact Hhs|]. intros h Hh. by apply header_line_ok. }
  pose proof (find_blank ls raw ltac:(done) Hls) as Hf. unfold parse_response. cbv zeta.
  destruct (find_sub _ (header_block ls ++ raw)) as [i|]; [|done]. change (Some (i + 4)%nat = Some (length (header_block ls))) in Hf. apply (inj Some) in Hf. rewrite Hf, take_app_length, drop_app_length.
  rewrite utf8_ascii.
  - cbn [negb]. rewrite split_block by done. unfold ls at 1. rewrite status_read by done. by rewrite headers_read.
  - unfold header_block. apply Forall_app. split; [|by repeat constructor]. apply Forall_concat, Forall_map. eapply Forall_impl; [exact Hls|].
    intros l [_ Hl]. apply Forall_app. split; [|by repeat constructor]. eapply Forall_impl; [exact Hl|]. intros b Hb. by apply header_char_spec.
Qed.

(** C28: A response is read as it was sent.  For any status, any headers of
    printing characters and any body, sent in chunks of any sizes when the
    headers say so, and with anything after the last chunk, [parse_response]
    returns the status, the headers and the whole body. *)
Theorem http_response_roundtrip code reason hs l trailer :
  0 <= code <= u16_max -> Forall (fun b => header_char b = true) reason -> Forall header_ok hs -> Forall chunk_ok l ->
  parse_response (response_text code reason hs (body_text hs l trailer)) = Ok (mkResponse code hs (concat l) [] 0).
Proof.
  intros Hc Hr Hhs Hl. rewrite head_read by done. unfold body_text. destruct (existsb is_chunked hs); [|done].
  rewrite (decode_body l _ (Ok (concat l)) Hl); [done|]. change (str "0") with (hex 0). rewrite decode_size by (unfold u64_max; lia). done.
Qed.

(** A body cut off between two chunks is accepted as complete: when the
    connection ends before the last chunk, the client reports success with the
    chunks that arrived. *)
Theorem http_truncation_accepted code reason hs l1 l2 trailer :
  0 <= code <= u16_max -> Forall (fun b => header_char b = true) reason -> Forall header_ok hs -> Forall chunk_ok (l1 ++ l2) ->
  existsb is_chunked hs = true ->
  exists received missing, response_text code reason hs (body_text hs (l1 ++ l2) trailer) = received ++ missing /\ missing <> [] /\
    parse_response received = Ok (mkResponse code hs (concat l1) [] 0).
Proof.
  intros Hc Hr Hhs Hl Hch. apply Forall_app in Hl as [Hl1 Hl2].
  exists (response_text code reason hs (chunks l1)), (chunks l2 ++ str "0" ++ crlf ++ trailer). split_and!.
  - unfold response_text, body_text. rewrite Hch. unfold chunks. rewrite map_app, concat_app. by rewrite <- !app_assoc.
  - intros [_ E]%app_nil. done.
  - rewrite head_read, Hch by done. pose proof (decode_body l1 [] (Ok (concat l1)) Hl1 eq_refl) as E. rewrite app_nil_r in E. by rewrite E.
Qed.

(** ** Redirects *)

Lemma to_digit_range radix b d : 0 <= radix -> to_digit radix b = Some d -> 0 <= d.
Proof.
  intros Hr. unfold to_digit. destruct ((48 <=? bval b) && (bval b <=? 57)) eqn:E1;
    [|destruct ((97 <=? bval b) && (bval b <=? 122)) eqn:E2; [|destruct ((65 <=? bval b) && (bval b <=? 90)) eqn:E3]];
    (destruct (_ <? radix); [|done]); intros [= <-]; lia.
Qed.
Lemma parse_digits_range radix max s acc n :
  0 <= acc -> 0 <= radix -> parse_digits radix max s acc = Some n -> 0 <= n /\ (n = acc \/ n <= max).
Proof.
  revert acc. induction s as [|b s IH]; intros acc Ha Hr E; cbn [parse_digits] in E; [simplify_eq; lia|].
  destruct (to_digit radix b) as [d|] eqn:Ed; [|done]. apply to_digit_range in Ed; [|done]. cbn [mbind option_bind] in E.
  destruct (max <? _) eqn:Em; [done|]. apply Z.ltb_ge in Em. apply IH in E; [|nia|done]. lia.
Qed.
Lemma parse_uint_range radix max s n : 0 <= radix -> 0 <= max -> parse_uint radix max s = Some n -> 0 <= n <= max.
Proof.
  intros Hr Hm. unfold parse_uint. destruct s as [|b s]; [done|]. case_bool_decide.
  - destruct s; [done|]. intros E%parse_digits_range; lia.
  - intros E%parse_digits_range; lia.
Qed.

Lemma find_byte_Some c s i : find_sub [c] s = Some i -> s !! i = Some c /\ (i < length s)%nat /\ c ∉ take i s.
Proof.
  revert i. induction s as [|b s IH]; intros i E; cbn [find_sub] in E; [done|].
  unfold starts_with in E. cbn [strip_prefix] in E. case_bool_decide as Hb; [|].
  - subst b. injection E as <-. cbn. split_and!; [done|lia|apply not_elem_of_nil].
  - apply fmap_Some in E as (j & Hj & ->). apply IH in Hj as (H1 & H2 & H3). cbn. split_and!; [done|lia|].
    rewrite not_elem_of_cons. by split.
Qed.
Lemma find_byte_None c s : find_sub [c] s = None -> c ∉ s.
Proof.
  induction s as [|b s IH]; intros E; cbn [find_sub] in E; [apply not_elem_of_nil|].
  unfold starts_with in E. cbn [strip_prefix] in E. case_bool_decide as Hb; [done|]. apply fmap_None in E. apply not_elem_of_cons.
  split; [done|by apply IH].
Qed.

Definition web (s : bytes) : Prop := s = str "http" \/ s = str "https".

(** What [parse_url] finds in an address put together from its parts. *)
Lemma parse_url_origin s h n p :
  web s -> x2f ∉ h -> x3a ∉ h -> 0 <= n <= u16_max -> p <> [] -> p !! 0%nat = Some x2f ->
  parse_url (s ++ str "://" ++ h ++ explicit_port_suffix (mkUrl s h n p) ++ p) = Ok (mkUrl s h n p).
Proof.
  intros Hs Hh Hc Hn Hp0 Hp. unfold parse_url. change (str "://") with (x3a :: str "//"). cbn [app].
  rewrite split_once_after by (destruct Hs as [->| ->]; apply (bool_decide_unpack _); done).
  set (suffix := explicit_port_suffix (mkUrl s h n p)). destruct p as [|b p]; [done|]. injection Hp as ->.
  assert (x2f ∉ h ++ suffix) as Hauth.
  { rewrite not_elem_of_app. split; [done|]. unfold suffix, explicit_port_suffix. cbn [scheme host port]. destruct (n =? _); [apply not_elem_of_nil|].
    change (str ":" ++ decimal n) with (x3a :: decimal n). rewrite not_elem_of_cons. split; [done|].
    apply digits_avoid; [done|]. apply decimal_spec. lia. }
  rewrite app_assoc. cbv zeta. change (str "/") with [x2f]. rewrite (find_byte_after x2f (h ++ suffix) p Hauth). cbn [default from_option]. unfold id.
  rewrite take_app_length, drop_app_length, bool_decide_true by (rewrite !length_app; cbn; lia).
  unfold suffix, explicit_port_suffix. cbn [scheme host port].
  set (d := if bool_decide (s = str "http") then 80 else if bool_decide (s = str "https") then 443 else n).
  destruct (n =? d) eqn:E.
  - rewrite app_nil_r. unfold rsplit_once. rewrite rfind_absent by done. cbn [mbind option_bind]. apply Z.eqb_eq in E. unfold d in E.
    destruct Hs as [->| ->].
    + rewrite bool_decide_true in E |- * by done. by rewrite E.
    + rewrite (bool_decide_false (str "https" = str "http")) in E |- * by done. rewrite bool_decide_true in E |- * by done. by rewrite E.
  - change (str ":" ++ decimal n) with (x3a :: decimal n). rewrite rsplit_once_after.
    + rewrite parse_decimal by (unfold u16_max in *; lia). done.
    + apply digits_avoid; [done|]. apply decimal_spec. lia.
Qed.

Lemma parse_url_shape url parts :
  parse_url url = Ok parts -> x2f ∉ host parts /\ 0 <= port parts <= u16_max /\ path parts !! 0%nat = Some x2f.
Proof.
  unfold parse_url. destruct (split_once _ url) as [[s rest]|]; [|done]. cbv zeta.
  set (k := default (length rest) (find_sub (str "/") rest)).
  assert (x2f ∉ take k rest /\ (if bool_decide (k < length rest)%nat then drop k rest else str "/") !! 0%nat = Some x2f) as [Hauth Hpath].
  { unfold k. destruct (find_sub (str "/") rest) as [i|] eqn:E; cbn [default from_option]; unfold id.
    - apply find_byte_Some in E as (Hi & Hl & Hn). rewrite bool_decide_true by done. split; [done|]. by rewrite lookup_drop, Nat.add_0_r.
    - rewrite bool_decide_false by lia. split; [|done]. rewrite firstn_all. by apply find_byte_None. }
  destruct (rsplit_once x3a (take k rest)) as [[h text]|] eqn:Er.
  - destruct (parse_uint _ _ text) as [n|] eqn:En; [|done]. intros [= <-]. cbn [host port path].
    pose proof (parse_uint_range 10 u16_max text n ltac:(lia) ltac:(unfold u16_max; lia) En). split_and!; try done; [|lia..].
    unfold rsplit_once in Er. destruct (rfind _ _) as [i|]; [|done]. cbn [mbind option_bind] in Er. injection Er as <- _.
      intros Hin. apply Hauth. rewrite <- (take_drop i (take k rest)). apply elem_of_app. by left.
  - repeat case_bool_decide; try done; intros [= <-]; cbn [host port path]; split_and!; (done || unfold u16_max; lia).
Qed.

Lemma before_head c s : c <> x2f -> s !! 0%nat = Some x2f -> before c s !! 0%nat = Some x2f.
Proof.
  intros Hc Hs. destruct s as [|b s]; [done|]. injection Hs as ->. unfold before. cbn [split_on].
  rewrite bool_decide_false by done. by destruct (split_on c s).
Qed.
Lemma base_directory_head p : p !! 0%nat = Some x2f -> base_directory p !! 0%nat = Some x2f.
Proof.
  intros Hp. unfold base_directory. pose proof (before_head x23 _ ltac:(done) (before_head x3f _ ltac:(done) Hp)) as Hw.
  set (w := before x23 (before x3f p)) in *. destruct (bool_decide (w = []) || bool_decide (w = str "/")); [done|].
  destruct (ends_with_byte w x2f); [done|]. unfold rsplit_once. destruct (rfind x2f w) as [i|]; [|done]. cbn [mbind option_bind].
  case_bool_decide as Hi; [done|]. destruct i as [|i]; [done|]. destruct w; [done|]. injection Hw as ->. done.
Qed.


(** ** The redirect loop *)

Section loop.
Context {S : Type} `{Transport S} (KERNEL_VERSION : bytes).

(** What a run of the loop with enough fuel ends with. *)
Definition settled (followed : Z) (r : result (option NetError) HttpResponse) : Prop :=
  match r with
  | Ok response => is_redirect_status (status_code response) = false /\ followed <= redirects_followed response <= 5
  | Err e => e <> None
  end.
Lemma request_once_followed method url parts extra content followed s response s' :
  http_request_once KERNEL_VERSION method url parts extra content followed s = (Ok response, s') -> redirects_followed response = followed.
Proof.
  unfold http_request_once, mbind, stm_bind.
  match goal with |- context [match ?m with _ => _ end = _] => destruct m as [[r0|e0] s0] end; [|done]. by intros [= <- _].
Qed.
Lemma get_loop_ends fuel k url current followed extra s :
  0 <= followed <= 5 -> 6 <= followed + Z.of_nat fuel ->
  http_get_loop KERNEL_VERSION (fuel + k) url current followed extra s = http_get_loop KERNEL_VERSION fuel url current followed extra s /\
  settled followed (http_get_loop KERNEL_VERSION fuel url current followed extra s).1.
Proof.
  revert current followed s. induction fuel as [|fuel IH]; intros current followed s Hf0 Hf; [lia|]. cbn [Nat.add http_get_loop].
  unfold mbind, stm_bind, net, lift_result. destruct (parse_url current) as [parts|e]; [|done]. cbn [map_err].
  destruct (http_request_once _ _ _ _ _ _ _ s) as [[response|e] s1] eqn:Er; [|done]. cbn [map_err].
  pose proof (request_once_followed _ _ _ _ _ _ _ _ _ Er) as Hr.
  destruct (is_redirect_status (status_code response)) eqn:Es; cbn [negb]; [|by rewrite <- Hr; cbn; repeat split; (done || lia)].
  destruct (HTTP_GET_REDIRECT_LIMIT <=? followed) eqn:El; [done|].
  destruct (header_value _ _) as [location|]; [|done]. unfold HTTP_GET_REDIRECT_LIMIT in El. apply Z.leb_gt in El.
  destruct (resolve_redirect_url parts location) as [next|e]; [|done]. cbn [map_err].
  unfold sat_add. destruct (IH next (Z.min (followed + 1) (2 ^ 8 - 1)) s1 ltac:(lia) ltac:(lia)) as [E Hs]. split; [exact E|].
  destruct (http_get_loop _ fuel _ _ _ _ _) as [[r|e] s2]; cbn [fst settled] in *; [|done]. split; [tauto|lia].
Qed.

(** C35: following redirects ends.  Whatever the servers answer, [http_get] makes
    six requests at most: the loop, which has no bound of its own, gives the same
    for any larger number.  It returns a response that is not a redirect, after
    five redirects at most, or an error. *)
Theorem http_get_terminates url extra s :
  (forall k, http_get_loop KERNEL_VERSION (6 + k) url url 0 extra s = http_get_with_headers KERNEL_VERSION url extra s) /\
  settled 0 (http_get_with_headers KERNEL_VERSION url extra s).1.
Proof. split; [intros k; apply (get_loop_ends 6 k)|apply (get_loop_ends 6 0)]; cbn; lia. Qed.
End loop.

Lemma contains_middle s pat : (exists a r, s = a ++ pat ++ r) -> contains s pat = true.
Proof.
  intros (a & r & ->). induction a as [|b a IH]; cbn [app].
  - destruct (pat ++ r) as [|b l] eqn:E; cbn [contains]; rewrite <- E, starts_with_app; done.
  - cbn [contains]. rewrite IH. apply orb_true_r.
Qed.
(** A location with an address in its query is taken for a whole address: the
    path /login?next=http://a.b is not followed but rejected. *)
Theorem redirect_with_address_rejected parts query address :
  x3a ∉ query -> x2f ∉ address -> x3a ∉ address ->
  let location := str "/" ++ query ++ str "://" ++ address in
  resolve_redirect_url parts location = Ok location /\
  parse_url location = Err (NetInitializationFailed (str "unsupported URL scheme")).
Proof.
  intros Hq Ha Hc location.
  assert (split_once (str "://") location = Some (x2f :: query, address)) as Hsplit.
  { unfold location. change (str "/" ++ query ++ str "://" ++ address) with ((x2f :: query) ++ x3a :: str "//" ++ address).
    apply split_once_after. by rewrite not_elem_of_cons. }
  split.
  - unfold resolve_redirect_url. rewrite contains_middle; [done|]. unfold location. exists (str "/" ++ query), address. by rewrite <- app_assoc.
  - unfold parse_url. rewrite Hsplit. cbv zeta. change (str "/") with [x2f]. rewrite (find_sub_absent x2f []) by done.
    cbn [default from_option]. rewrite firstn_all. unfold rsplit_once. rewrite rfind_absent by done. cbn [mbind option_bind]. done.
Qed.

(** ** Runs *)

Definition sample_headers : list (bytes * bytes) := [(str "Server", str "unit"); (str "transfer-encoding", str "Chunked")].
Lemma sample_headers_ok : Forall header_ok sample_headers.
Proof. repeat constructor; apply (bool_decide_unpack _); vm_compute; done. Qed.
Definition sample_chunks : list bytes := [str "hello "; str "world"].
Lemma sample_chunks_ok : Forall chunk_ok sample_chunks.
Proof. repeat constructor; vm_compute; discriminate. Qed.

Lemma http_response_roundtrip_witness :
  parse_response (response_text 200 (str "OK") sample_headers (body_text sample_headers sample_chunks (str "x"))) =
    Ok (mkResponse 200 sample_headers (str "hello world") [] 0).
Proof.
  apply (http_response_roundtrip 200 (str "OK") sample_headers sample_chunks (str "x"));
    [unfold u16_max; lia|repeat constructor|exact sample_headers_ok|exact sample_chunks_ok].
Defined.
Lemma http_truncation_accepted_witness :
  exists received missing,
    response_text 200 (str "OK") sample_headers (body_text sample_headers sample_chunks []) = received ++ missing /\ missing <> [] /\
    parse_response received = Ok (mkResponse 200 sample_headers (str "hello ") [] 0).
Proof.
  apply (http_truncation_accepted 200 (str "OK") sample_headers [str "hello "] [str "world"] []);
    [unfold u16_max; lia|repeat constructor|exact sample_headers_ok|exact sample_chunks_ok|reflexivity].
Defined.
Lemma redirect_with_address_rejected_witness :
  parse_url (str "/login?next=http://a.b") = Err (NetInitializationFailed (str "unsupported URL scheme")).
Proof.
  apply (redirect_with_address_rejected (mkUrl (str "http") (str "h") 80 (str "/")) (str "login?next=http") (str "a.b"));
    apply (bool_decide_unpack _); vm_compute; exact I.
Defined.
