(* ===== verification/StateVector.v ===== *)
(** * State vectors (crates/waros-quantum/src/simulator/statevector.rs)

    The amplitudes of a register are a list indexed by basis state, or two
    lists of real and imaginary parts.  Gates are applied in place, block by
    block.  A build with debug assertions ([debug]) also checks overflow of
    shifts, the targets and the norm; a panic is [Panicked].  Whether an
    allocation succeeds is a parameter ([Machine]).  The code runs the blocks of
    a gate one after the other or in parallel; as the blocks are disjoint this
    is the same map over the blocks. *)
From S2P Require Import Prelude RustStr RustParse Float64 Circuit CircuitOpt Qec.

(** The build profile and what [Vec::try_reserve_exact] answers for a number of bytes. *)
Class Machine : Type := { debug : bool; try_reserve : Z -> bool }.

Abbreviation res := (result (fault WarosError)).
Definition panic_unless {A} (b : bool) (k : res A) : res A := if b then k else Err Panicked.
Definition get_at {A} (l : list A) (i : nat) : res A := match l !! i with Some x => Ok x | None => Err Panicked end.
Definition set_at {A} (l : list A) (i : nat) (x : A) : res (list A) :=
  if bool_decide (i < length l)%nat then Ok (<[i := x]> l) else Err Panicked.

Section machine.
Context `{Machine}.

(** [a << k] on [usize]. *)
Definition ushl (a k : Z) : res Z :=
  panic_unless ((k <? 64) || negb debug) (Ok (a * 2 ^ (k mod 64) mod 2 ^ 64)).
Definition umul (a b : Z) : res Z := panic_unless ((a * b <? 2 ^ 64) || negb debug) (Ok (a * b mod 2 ^ 64)).
Definition debug_assert (b : bool) : res () := panic_unless (b || negb debug) (Ok ()).

Record StateVectorSoA : Type := mkSoA { real : list f64; imag : list f64 }.
Definition probabilities (s : StateVectorSoA) : list f64 :=
  zip_with (fun re im => fadd (fmul re re) (fmul im im)) (real s) (imag s).
Definition into_aos (s : StateVectorSoA) : list Complex := zip_with mkComplex (real s) (imag s).

Definition reserve (n : nat) (required_bytes : Z) : res () :=
  if try_reserve required_bytes then Ok () else Err (Raised (InsufficientMemory n required_bytes)).
Definition zero_state (n : nat) : res (list Complex) :=
  dim ← ushl 1 (Z.of_nat n);
  required_bytes ← umul dim 16;
  _ ← reserve n required_bytes;
  set_at (replicate (Z.to_nat dim) C_ZERO) 0 C_ONE.
Definition zero_state_soa (n : nat) : res StateVectorSoA :=
  dim ← ushl 1 (Z.of_nat n);
  required_bytes ← umul dim 16;
  _ ← (if try_reserve (dim * 8) then Ok () else Err (Raised (InsufficientMemory n required_bytes)));
  re ← set_at (replicate (Z.to_nat dim) f64_zero) 0 f64_one;
  _ ← (if try_reserve (dim * 8) then Ok () else Err (Raised (InsufficientMemory n required_bytes)));
  Ok (mkSoA re (replicate (Z.to_nat dim) f64_zero)).

(** ** Blocks *)

(** [chunks_exact_mut(size)]: a remainder is left alone. *)
Fixpoint map_chunks {A} (fuel size : nat) (f : list A -> res (list A)) (l : list A) : res (list A) :=
  match fuel with
  | O => Ok l
  | S fuel' =>
      if bool_decide (size <= length l)%nat then
        b ← f (take size l); rest ← map_chunks fuel' size f (drop size l); Ok (b ++ rest)
      else Ok l
  end.
Definition chunks_exact {A} (size : Z) (f : list A -> res (list A)) (l : list A) : res (list A) :=
  panic_unless (negb (size =? 0)) (map_chunks (length l) (Z.to_nat size) f l).
Fixpoint map_chunks_soa (fuel size : nat) (f : StateVectorSoA -> res StateVectorSoA) (s : StateVectorSoA) : res StateVectorSoA :=
  match fuel with
  | O => Ok s
  | S fuel' =>
      if bool_decide (size <= length (real s) /\ size <= length (imag s))%nat then
        b ← f (mkSoA (take size (real s)) (take size (imag s)));
        rest ← map_chunks_soa fuel' size f (mkSoA (drop size (real s)) (drop size (imag s)));
        Ok (mkSoA (real b ++ real rest) (imag b ++ imag rest))
      else Ok s
  end.
Definition chunks_exact_soa (size : Z) (f : StateVectorSoA -> res StateVectorSoA) (s : StateVectorSoA) : res StateVectorSoA :=
  panic_unless (negb (size =? 0)) (map_chunks_soa (length (real s)) (Z.to_nat size) f s).

Definition apply_1q_step (mask : nat) (g : Gate) (base : nat) (block : list Complex) : res (list Complex) :=
  let pair_index := Nat.lor base mask in
  amplitude_zero ← get_at block base;
  amplitude_one ← get_at block pair_index;
  block ← set_at block base (c_add (c_mul (gate_get g 0 0) amplitude_zero) (c_mul (gate_get g 0 1) amplitude_one));
  set_at block pair_index (c_add (c_mul (gate_get g 1 0) amplitude_zero) (c_mul (gate_get g 1 1) amplitude_one)).
Definition apply_1q_block (mask : nat) (g : Gate) (block : list Complex) : res (list Complex) :=
  foldR (apply_1q_step mask g) (seq 0 mask) block.

Definition mul_complex_pair (lhs : Complex) (rhs : f64 * f64) : f64 * f64 :=
  (fsub (fmul (c_re lhs) rhs.1) (fmul (c_im lhs) rhs.2), fadd (fmul (c_re lhs) rhs.2) (fmul (c_im lhs) rhs.1)).
Definition add_complex_pairs (lhs rhs : f64 * f64) : f64 * f64 := (fadd lhs.1 rhs.1, fadd lhs.2 rhs.2).

Definition get_pair (s : StateVectorSoA) (i : nat) : res (f64 * f64) :=
  re ← get_at (real s) i; im ← get_at (imag s) i; Ok (re, im).
Definition set_pair (s : StateVectorSoA) (i : nat) (x : f64 * f64) : res StateVectorSoA :=
  re ← set_at (real s) i x.1; im ← set_at (imag s) i x.2; Ok (mkSoA re im).

Definition apply_1q_step_soa (mask : nat) (g : Gate) (base : nat) (s : StateVectorSoA) : res StateVectorSoA :=
  let pair_index := Nat.lor base mask in
  amplitude_zero ← get_pair s base;
  amplitude_one ← get_pair s pair_index;
  let row_zero := add_complex_pairs (mul_complex_pair (gate_get g 0 0) amplitude_zero) (mul_complex_pair (gate_get g 0 1) amplitude_one) in
  let row_one := add_complex_pairs (mul_complex_pair (gate_get g 1 0) amplitude_zero) (mul_complex_pair (gate_get g 1 1) amplitude_one) in
  s ← set_pair s base row_zero;
  set_pair s pair_index row_one.
Definition apply_1q_block_soa (mask : nat) (g : Gate) (s : StateVectorSoA) : res StateVectorSoA :=
  foldR (apply_1q_step_soa mask g) (seq 0 mask) s.

Definition skipped (mask0 mask1 base : nat) : bool :=
  negb (bool_decide (Nat.land base mask0 = 0%nat)) || negb (bool_decide (Nat.land base mask1 = 0%nat)).
Definition indices (mask0 mask1 base : nat) : list nat :=
  [base; Nat.lor base mask1; Nat.lor base mask0; Nat.lor (Nat.lor base mask0) mask1].
Definition row_sum (g : Gate) (row : nat) (amplitudes : list Complex) : Complex :=
  let term k := c_mul (gate_get g row k) (nth k amplitudes C_ZERO) in
  c_add (c_add (c_add (term 0%nat) (term 1%nat)) (term 2%nat)) (term 3%nat).
Definition apply_2q_step (mask0 mask1 : nat) (g : Gate) (base : nat) (block : list Complex) : res (list Complex) :=
  if skipped mask0 mask1 base then Ok block
  else
    amplitudes ← foldR (fun i acc => a ← get_at block i; Ok (acc ++ [a])) (indices mask0 mask1 base) [];
    foldR (fun row block => set_at block (nth row (indices mask0 mask1 base) 0%nat) (row_sum g row amplitudes)) (seq 0 4) block.
Definition apply_2q_block (q0 q1 : nat) (g : Gate) (block : list Complex) : res (list Complex) :=
  mask0 ← ushl 1 (Z.of_nat q0);
  mask1 ← ushl 1 (Z.of_nat q1);
  foldR (apply_2q_step (Z.to_nat mask0) (Z.to_nat mask1) g) (seq 0 (length block)) block.

(** The sum of a row is associated differently here. *)
Definition row_sum_soa (g : Gate) (row : nat) (amplitudes : list (f64 * f64)) : f64 * f64 :=
  let term k := mul_complex_pair (gate_get g row k) (nth k amplitudes (f64_zero, f64_zero)) in
  add_complex_pairs (add_complex_pairs (term 0%nat) (term 1%nat)) (add_complex_pairs (term 2%nat) (term 3%nat)).
Definition apply_2q_step_soa (mask0 mask1 : nat) (g : Gate) (base : nat) (s : StateVectorSoA) : res StateVectorSoA :=
  if skipped mask0 mask1 base then Ok s
  else
    amplitudes ← foldR (fun i acc => a ← get_pair s i; Ok (acc ++ [a])) (indices mask0 mask1 base) [];
    foldR (fun row s => set_pair s (nth row (indices mask0 mask1 base) 0%nat) (row_sum_soa g row amplitudes)) (seq 0 4) s.
Definition apply_2q_block_soa (q0 q1 : nat) (g : Gate) (s : StateVectorSoA) : res StateVectorSoA :=
  mask0 ← ushl 1 (Z.of_nat q0);
  mask1 ← ushl 1 (Z.of_nat q1);
  foldR (apply_2q_step_soa (Z.to_nat mask0) (Z.to_nat mask1) g) (seq 0 (length (real s))) s.

(** ** Gates *)

Definition NORMALIZATION_EPSILON : f64 := f64_of_decimal false 1 (-10).
Definition f_sum (l : list f64) : f64 := fold_left fadd l f64_zero.
Definition normalized (l : list f64) : bool := fleb (fabs (fsub (f_sum l) f64_one)) NORMALIZATION_EPSILON.
Definition debug_assert_normalized (state : list Complex) : res () := debug_assert (normalized (map norm_sq state)).
Definition debug_assert_normalized_soa (s : StateVectorSoA) : res () := debug_assert (normalized (probabilities s)).

Definition apply_1q (n target : nat) (g : Gate) (state : list Complex) : res (list Complex) :=
  _ ← debug_assert (bool_decide (target < n)%nat);
  mask ← ushl 1 (Z.of_nat target);
  block_size ← ushl mask 1;
  state ← chunks_exact block_size (apply_1q_block (Z.to_nat mask) g) state;
  _ ← debug_assert_normalized state;
  Ok state.
Definition apply_2q (n q0 q1 : nat) (g : Gate) (state : list Complex) : res (list Complex) :=
  _ ← debug_assert (bool_decide (q0 < n)%nat);
  _ ← debug_assert (bool_decide (q1 < n)%nat);
  _ ← debug_assert (bool_decide (q0 <> q1));
  block_size ← ushl 1 (Z.of_nat (Nat.max q0 q1 + 1));
  state ← chunks_exact block_size (apply_2q_block q0 q1 g) state;
  _ ← debug_assert_normalized state;
  Ok state.
Definition apply_1q_soa (n target : nat) (g : Gate) (s : StateVectorSoA) : res StateVectorSoA :=
  _ ← debug_assert (bool_decide (target < n)%nat);
  mask ← ushl 1 (Z.of_nat target);
  block_size ← ushl mask 1;
  s ← chunks_exact_soa block_size (apply_1q_block_soa (Z.to_nat mask) g) s;
  _ ← debug_assert_normalized_soa s;
  Ok s.
Definition apply_2q_soa (n q0 q1 : nat) (g : Gate) (s : StateVectorSoA) : res StateVectorSoA :=
  _ ← debug_assert (bool_decide (q0 < n)%nat);
  _ ← debug_assert (bool_decide (q1 < n)%nat);
  _ ← debug_assert (bool_decide (q0 <> q1));
  block_size ← ushl 1 (Z.of_nat (Nat.max q0 q1 + 1));
  s ← chunks_exact_soa block_size (apply_2q_block_soa q0 q1 g) s;
  _ ← debug_assert_normalized_soa s;
  Ok s.

Definition apply_gate (n : nat) (targets : list nat) (g : Gate) (state : list Complex) : res (list Complex) :=
  match gate_num_qubits g with
  | 1%nat => target ← get_at targets 0; apply_1q n target g state
  | 2%nat => q0 ← get_at targets 0; q1 ← get_at targets 1; apply_2q n q0 q1 g state
  | _ => Err Panicked
  end.
Definition apply_gate_soa (n : nat) (targets : list nat) (g : Gate) (s : StateVectorSoA) : res StateVectorSoA :=
  match gate_num_qubits g with
  | 1%nat => target ← get_at targets 0; apply_1q_soa n target g s
  | 2%nat => q0 ← get_at targets 0; q1 ← get_at targets 1; apply_2q_soa n q0 q1 g s
  | _ => Err Panicked
  end.
Definition apply_gate_sequence (n : nat) (program : list Instruction) (state : list Complex) : res (list Complex) :=
  foldR (fun i state => match i with GateOp g targets => apply_gate n targets g state | _ => Ok state end) program state.
Definition apply_gate_sequence_soa (n : nat) (program : list Instruction) (s : StateVectorSoA) : res StateVectorSoA :=
  foldR (fun i s => match i with GateOp g targets => apply_gate_soa n targets g s | _ => Ok s end) program s.
End machine.

(** ** The two layouts *)

Section layouts.
Context `{Machine}.

Definition same_state (s : StateVectorSoA) (state : list Complex) : Prop := length (real s) = length (imag s) /\ into_aos s = state.
(** Both panic, both fail in the same way, or both give the same state. *)
Definition same_result (r : res StateVectorSoA) (r' : res (list Complex)) : Prop :=
  match r, r' with Ok s, Ok state => same_state s state | Err e, Err e' => e = e' | _, _ => False end.

Lemma same_bind (r : res StateVectorSoA) r' (f : StateVectorSoA -> res StateVectorSoA) f' :
  same_result r r' -> (forall s state, same_state s state -> same_result (f s) (f' state)) ->
  same_result (r ≫= f) (r' ≫= f').
Proof. intros Hr Hf. destruct r, r'; try done. by apply Hf. Qed.
Lemma same_foldR {B} (f : B -> StateVectorSoA -> res StateVectorSoA) f' l s state :
  (forall x s state, same_state s state -> same_result (f x s) (f' x state)) -> same_state s state ->
  same_result (foldR f l s) (foldR f' l state).
Proof.
  intros Hf. revert s state. induction l as [|x l IH]; intros s state Hs; cbn [foldR]; [done|].
  apply same_bind; [by apply Hf|]. apply IH.
Qed.
Lemma same_length s state : same_state s state -> length state = length (real s).
Proof. intros [Hl <-]. unfold into_aos. rewrite length_zip_with. lia. Qed.

Definition as_complex (p : f64 * f64) : Complex := mkComplex p.1 p.2.
Lemma same_get s state i : same_state s state -> get_at state i = (p ← get_pair s i; Ok (as_complex p)).
Proof.
  intros [Hl <-]. unfold get_pair, get_at, into_aos. rewrite lookup_zip_with.
  destruct (real s !! i) as [x|] eqn:Hx; cbn; [|done]. apply lookup_lt_Some in Hx. rewrite Hl in Hx.
  apply lookup_lt_is_Some_2 in Hx as [y Hy]. by rewrite Hy.
Qed.
Lemma same_set s state i p : same_state s state -> same_result (set_pair s i p) (set_at state i (as_complex p)).
Proof.
  intros Hs. pose proof (same_length _ _ Hs) as Hlen. destruct Hs as [Hl <-]. unfold set_pair, set_at. rewrite Hlen, Hl.
  case_bool_decide; cbn [mbind result_bind]; [|done]. split; cbn [real imag]; [by rewrite !length_insert|].
  unfold into_aos. cbn [real imag]. apply list_eq. intros j. rewrite lookup_zip_with.
  destruct (decide (i = j)) as [<-|Hne].
  - rewrite !list_lookup_insert_eq by (rewrite ?length_zip_with; lia). done.
  - rewrite !list_lookup_insert_ne by done. by rewrite lookup_zip_with.
Qed.

Lemma mul_pair_spec c p : as_complex (mul_complex_pair c p) = c_mul c (as_complex p).
Proof. done. Qed.
Lemma add_pair_spec p q : as_complex (add_complex_pairs p q) = c_add (as_complex p) (as_complex q).
Proof. done. Qed.

Lemma same_1q_step mask g base s state :
  same_state s state -> same_result (apply_1q_step_soa mask g base s) (apply_1q_step mask g base state).
Proof.
  intros Hs. unfold apply_1q_step, apply_1q_step_soa. cbv zeta. rewrite !(same_get s state) by done.
  destruct (get_pair s base) as [a0|e] eqn:E0; cbn [mbind result_bind]; [|done].
  destruct (get_pair s (Nat.lor base mask)) as [a1|e] eqn:E1; cbn [mbind result_bind]; [|done].
  rewrite <- !mul_pair_spec, <- !add_pair_spec. apply same_bind; [by apply same_set|]. intros s' state' Hs'. by apply same_set.
Qed.

(** A row whose sum does not depend on the association: it has entries only
    among the first two columns, or one. *)
Definition zero_entry (g : Gate) (row k : nat) : bool := is_zero (c_re (gate_get g row k)) && is_zero (c_im (gate_get g row k)).
Definition exact_row (g : Gate) (row : nat) : bool :=
  (zero_entry g row 2 && zero_entry g row 3) || (zero_entry g row 0 && zero_entry g row 1 && (zero_entry g row 2 || zero_entry g row 3)).
Definition exact_gate (g : Gate) : bool := negb (gate_num_qubits g =? 2)%nat || forallb (exact_row g) (seq 0 4).

Definition c_vanishes (c : Complex) : bool := vanishes (c_re c) && vanishes (c_im c).
Lemma zero_entry_mul g row k a : zero_entry g row k = true -> c_vanishes (c_mul (gate_get g row k) a) = true.
Proof.
  unfold zero_entry. intros [H1 H2]%andb_prop. unfold c_vanishes, c_mul. cbn [c_re c_im]. apply andb_true_intro. split.
  - apply vanishes_sub; by apply zero_mul.
  - apply vanishes_add; by apply zero_mul.
Qed.
Lemma c_sum4 a b c d :
  c_vanishes c && c_vanishes d || c_vanishes a && c_vanishes b && (c_vanishes c || c_vanishes d) = true ->
  c_add (c_add a b) (c_add c d) = c_add (c_add (c_add a b) c) d.
Proof.
  unfold c_vanishes, c_add. cbn [c_re c_im]. intros [[[C1 C2]%andb_prop [D1 D2]%andb_prop]%andb_prop|Hl]%orb_prop.
  - f_equal; symmetry; by apply sum4_first.
  - apply andb_prop in Hl as [[[A1 A2]%andb_prop [B1 B2]%andb_prop]%andb_prop Hcd].
    f_equal; symmetry; (apply sum4_last; [done|done|]); apply orb_prop in Hcd as [[E1 E2]%andb_prop|[E1 E2]%andb_prop]; rewrite ?E1, ?E2; by rewrite ?orb_true_r.
Qed.

Lemma row_sum_same g row amps :
  exact_row g row = true -> as_complex (row_sum_soa g row amps) = row_sum g row (map as_complex amps).
Proof.
  intros He. unfold row_sum_soa, row_sum. cbv zeta. rewrite !add_pair_spec, !mul_pair_spec.
  change C_ZERO with (as_complex (f64_zero, f64_zero)). rewrite !(map_nth as_complex). apply c_sum4.
  unfold exact_row in He. apply orb_prop in He as [[H2 H3]%andb_prop|[[H0 H1]%andb_prop [H2|H2]%orb_prop]%andb_prop].
  - by rewrite (zero_entry_mul _ _ _ _ H2), (zero_entry_mul _ _ _ _ H3).
  - rewrite (zero_entry_mul _ _ _ _ H0), (zero_entry_mul _ _ _ _ H1), (zero_entry_mul _ _ _ _ H2). cbn [andb orb]. apply orb_true_r.
  - rewrite (zero_entry_mul _ _ _ _ H0), (zero_entry_mul _ _ _ _ H1), (zero_entry_mul _ _ _ _ H2). cbn [andb orb]. by rewrite !orb_true_r.
Qed.

Lemma same_amplitudes s state l acc :
  same_state s state ->
  foldR (fun i acc => a ← get_at state i; Ok (acc ++ [a])) l (map as_complex acc)
  = (ps ← foldR (fun i acc => a ← get_pair s i; Ok (acc ++ [a])) l acc; Ok (map as_complex ps)).
Proof.
  intros Hs. revert acc. induction l as [|i l IH]; intros acc; cbn [foldR]; [done|]. rewrite (same_get s state) by done.
  destruct (get_pair s i) as [p|e]; cbn [mbind result_bind]; [|done]. rewrite <- IH, map_app. done.
Qed.

Lemma same_2q_step mask0 mask1 g base s state :
  gate_num_qubits g = 2%nat -> exact_gate g = true -> same_state s state ->
  same_result (apply_2q_step_soa mask0 mask1 g base s) (apply_2q_step mask0 mask1 g base state).
Proof.
  intros Hg He Hs. unfold apply_2q_step, apply_2q_step_soa. destruct (skipped mask0 mask1 base); [done|].
  pose proof (same_amplitudes s state (indices mask0 mask1 base) [] Hs) as E. cbn [map] in E. rewrite E. clear E.
  destruct (foldR _ (indices mask0 mask1 base) []) as [amps|e]; cbn [mbind result_bind]; [|done].
  unfold exact_gate in He. rewrite Hg in He. cbn [Nat.eqb negb orb] in He. cbn [seq forallb] in He.
  apply andb_prop in He as [H0 [H1 [H2 [H3 _]%andb_prop]%andb_prop]%andb_prop].
  cbn [seq foldR]. do 4 (apply same_bind; [rewrite <- row_sum_same by done; by apply same_set|clear s state Hs; intros s state Hs]). done.
Qed.

(** ** Whole vectors *)

Lemma same_chunks fuel size f f' s state :
  (forall s state, same_state s state -> same_result (f s) (f' state)) -> same_state s state ->
  same_result (map_chunks_soa fuel size f s) (map_chunks fuel size f' state).
Proof.
  intros Hf. revert s state. induction fuel as [|fuel IH]; intros s state Hs; cbn [map_chunks map_chunks_soa]; [done|].
  rewrite (same_length _ _ Hs). destruct Hs as [Hl Hs]. rewrite <- Hl.
  rewrite (bool_decide_ext (size <= length (real s) /\ size <= length (real s))%nat (size <= length (real s))%nat) by tauto.
  case_bool_decide; [|done].
  assert (same_state (mkSoA (take size (real s)) (take size (imag s))) (take size state)) as Ht.
  { subst state. split; cbn; [rewrite !length_take; lia|]. unfold into_aos. cbn. by rewrite zip_with_take. }
  assert (same_state (mkSoA (drop size (real s)) (drop size (imag s))) (drop size state)) as Hd.
  { subst state. split; cbn; [rewrite !length_drop; lia|]. unfold into_aos. cbn. by rewrite zip_with_drop. }
  apply Hf in Ht. apply IH in Hd. destruct (f _) as [b|], (f' _) as [b'|]; try done; cbn [mbind result_bind].
  destruct (map_chunks_soa _ _ _ _) as [r|], (map_chunks _ _ _ _) as [r'|]; try done; cbn [mbind result_bind].
  destruct Ht as [Ht1 <-], Hd as [Hd1 <-]. split; cbn [real imag]; [rewrite !length_app; lia|].
  unfold into_aos. cbn [real imag]. by rewrite zip_with_app.
Qed.

Lemma same_probabilities s state : same_state s state -> probabilities s = map norm_sq state.
Proof.
  intros [_ <-]. unfold probabilities, into_aos. generalize (imag s) as im. induction (real s) as [|x re IH]; intros [|y im]; try done.
  cbn. by rewrite IH.
Qed.
Lemma same_normalized s state : same_state s state -> debug_assert_normalized_soa s = debug_assert_normalized state.
Proof. intros Hs. unfold debug_assert_normalized_soa, debug_assert_normalized. by rewrite (same_probabilities s state). Qed.

(** What ends every gate. *)
Lemma same_finish size f f' s state :
  (forall s state, same_state s state -> same_result (f s) (f' state)) -> same_state s state ->
  same_result (s ← chunks_exact_soa size f s; _ ← debug_assert_normalized_soa s; Ok s)
              (state ← chunks_exact size f' state; _ ← debug_assert_normalized state; Ok state).
Proof.
  intros Hf Hs. apply same_bind.
  - unfold chunks_exact_soa, chunks_exact, panic_unless. destruct (negb _); [|done]. rewrite (same_length _ _ Hs). by apply same_chunks.
  - intros s' state' Hs'. rewrite (same_normalized _ _ Hs'). by destruct (debug_assert_normalized state').
Qed.

Lemma same_guard (r : res ()) k k' : same_result k k' -> same_result (_ ← r; k) (_ ← r; k').
Proof. by destruct r. Qed.
Lemma same_let {B} (r : res B) f f' : (forall x, same_result (f x) (f' x)) -> same_result (x ← r; f x) (x ← r; f' x).
Proof. intros Hf. destruct r as [x|e]; [apply Hf|done]. Qed.

Lemma same_gate n targets g s state :
  exact_gate g = true -> same_state s state -> same_result (apply_gate_soa n targets g s) (apply_gate n targets g state).
Proof.
  intros He Hs. unfold apply_gate_soa, apply_gate. destruct (gate_num_qubits g) as [|[|[|]]] eqn:Hg; try done.
  - apply same_let. intros t. apply same_guard. do 2 (apply same_let; intros ?). apply same_finish; [|done].
    intros s' state' Hs'. apply same_foldR; [|done]. intros base. by apply same_1q_step.
  - do 2 (apply same_let; intros ?). do 3 apply same_guard. apply same_let. intros size. apply same_finish; [|done].
    intros s' state' Hs'. unfold apply_2q_block_soa, apply_2q_block. do 2 (apply same_let; intros ?).
    rewrite (same_length _ _ Hs'). apply same_foldR; [|done]. intros base s1 state1. by apply same_2q_step.
Qed.

Definition exact_instruction (i : Instruction) : bool := match i with GateOp g _ => exact_gate g | _ => true end.
Lemma same_sequence n program s state :
  Forall (fun i => exact_instruction i = true) program -> same_state s state ->
  same_result (apply_gate_sequence_soa n program s) (apply_gate_sequence n program state).
Proof.
  intros Hp. revert s state. induction Hp as [|i program Hi Hp IH]; intros s state Hs; [done|].
  unfold apply_gate_sequence_soa, apply_gate_sequence. cbn [foldR]. apply same_bind; [|exact IH].
  destruct i; try done. by apply same_gate.
Qed.

Lemma same_zero n s state : zero_state_soa n = Ok s -> zero_state n = Ok state -> same_state s state.
Proof.
  unfold zero_state_soa, zero_state. destruct (ushl 1 (Z.of_nat n)) as [dim|]; cbn [mbind result_bind]; [|done].
  destruct (umul dim 16) as [bytes|]; cbn [mbind result_bind]; [|done]. unfold set_at. rewrite !length_replicate.
  destruct (try_reserve (dim * 8)); cbn [mbind result_bind]; [|done]. case_bool_decide as Hd; cbn [mbind result_bind]; [|done].
  unfold reserve. destruct (try_reserve bytes); cbn [mbind result_bind]; [|done]. intros [= <-] [= <-].
  split; cbn [real imag]; [by rewrite length_insert, !length_replicate|].
  destruct (Z.to_nat dim) as [|k]; [lia|]. unfold into_aos. cbn. f_equal. apply list_eq. intros i.
  rewrite lookup_zip_with. destruct (decide (i < k)%nat).
  - by rewrite !lookup_replicate_2.
  - by rewrite !lookup_ge_None_2 by (rewrite length_replicate; lia).
Qed.
End layouts.

(** ** Bits of indices *)

Definition put (q : nat) (b : bool) (i : nat) : nat := if b then Nat.setbit i q else Nat.clearbit i q.
Lemma put_bit q b i k : Nat.testbit (put q b i) k = if bool_decide (k = q) then b else Nat.testbit i k.
Proof.
  unfold put. case_bool_decide as Hk; [subst k|]; destruct b;
    rewrite ?Nat.setbit_eqb, ?Nat.clearbit_eqb, ?Nat.eqb_refl, ?(proj2 (Nat.eqb_neq q k)) by done; cbn; by rewrite ?andb_false_r, ?andb_true_r.
Qed.
Lemma bits_lt a m : (a < 2 ^ m)%nat <-> forall k, (m <= k)%nat -> Nat.testbit a k = false.
Proof.
  split; intros Ha.
  - intros k Hk. rewrite <- (Nat.mod_small a (2 ^ m)) by done. by apply Nat.mod_pow2_bits_high.
  - enough (a = a mod 2 ^ m)%nat as -> by (apply Nat.mod_upper_bound; by apply Nat.pow_nonzero).
    apply Nat.bits_inj. intros k. destruct (decide (k < m)%nat).
    + symmetry. by apply Nat.mod_pow2_bits_low.
    + rewrite Nat.mod_pow2_bits_high, Ha by lia. done.
Qed.
Lemma put_lt q b i m : (i < 2 ^ m)%nat -> (q < m)%nat -> (put q b i < 2 ^ m)%nat.
Proof. rewrite !bits_lt. intros Hi Hq k Hk. rewrite put_bit, bool_decide_false by lia. auto. Qed.
Ltac by_bits := apply Nat.bits_inj; intros ?k; rewrite ?put_bit; repeat case_bool_decide; subst; try done; try congruence.
Lemma put_put q b b' i : put q b (put q b' i) = put q b i.
Proof. by_bits. Qed.
Lemma put_comm q q' b b' i : q <> q' -> put q b (put q' b' i) = put q' b' (put q b i).
Proof. intros Hq. by_bits. Qed.
Lemma put_id q i : put q (Nat.testbit i q) i = i.
Proof. by_bits. Qed.
Lemma lor_put q i : Nat.lor i (2 ^ q) = put q true i.
Proof. unfold put, Nat.setbit. by rewrite Nat.shiftl_1_l. Qed.
Lemma land_put q i : Nat.land i (2 ^ q) = 0%nat <-> Nat.testbit i q = false.
Proof.
  split; intros Hi.
  - apply (f_equal (fun x => Nat.testbit x q)) in Hi. rewrite Nat.land_spec, Nat.pow2_bits_true, andb_true_r, Nat.bits_0 in Hi. done.
  - apply Nat.bits_inj. intros k. rewrite Nat.land_spec, Nat.bits_0, Nat.pow2_bits_eqb. destruct (Nat.eqb_spec q k) as [<-|]; [by rewrite Hi|].
    apply andb_false_r.
Qed.

(** An index is a block and an index in the block. *)
Lemma block_bit c m j k : (j < 2 ^ m)%nat -> Nat.testbit (c * 2 ^ m + j) k = if bool_decide (k < m)%nat then Nat.testbit j k else Nat.testbit c (k - m).
Proof.
  intros Hj. case_bool_decide as Hk.
  - rewrite <- (Nat.mod_pow2_bits_low _ m k Hk). rewrite Nat.add_comm, Nat.Div0.mod_add. by rewrite (Nat.mod_small j).
  - replace k with ((k - m) + m)%nat at 1 by lia. rewrite <- Nat.div_pow2_bits. f_equal.
    rewrite Nat.div_add_l by (by apply Nat.pow_nonzero). rewrite (Nat.div_small j) by done. lia.
Qed.
Lemma put_block q b c m j : (j < 2 ^ m)%nat -> (q < m)%nat -> put q b (c * 2 ^ m + j) = (c * 2 ^ m + put q b j)%nat.
Proof.
  intros Hj Hq. apply Nat.bits_inj. intros k. rewrite put_bit, !block_bit by (done || by apply put_lt). rewrite put_bit.
  repeat case_bool_decide; subst; done || lia.
Qed.

(** ** What a gate does *)

Definition amp (state : list Complex) (i : nat) : Complex := nth i state C_ZERO.
Definition act1 (g : Gate) (t : nat) (state : nat -> Complex) (i : nat) : Complex :=
  let row := Nat.b2n (Nat.testbit i t) in
  c_add (c_mul (gate_get g row 0) (state (put t false i))) (c_mul (gate_get g row 1) (state (put t true i))).
Definition act2 (g : Gate) (q0 q1 : nat) (state : nat -> Complex) (i : nat) : Complex :=
  row_sum g (2 * Nat.b2n (Nat.testbit i q0) + Nat.b2n (Nat.testbit i q1))
    (map (fun b => state (put q1 b.2 (put q0 b.1 i))) [(false, false); (false, true); (true, false); (true, true)]).

Lemma amp_lookup l i x : l !! i = Some x -> amp l i = x.
Proof. apply nth_lookup_Some. Qed.
Lemma get_at_amp l i : (i < length l)%nat -> get_at l i = Ok (amp l i).
Proof. intros Hi. unfold get_at. apply lookup_lt_is_Some_2 in Hi as [x Hx]. by rewrite Hx, (amp_lookup _ _ _ Hx). Qed.
Lemma amp_insert l i j x : (i < length l)%nat -> amp (<[i := x]> l) j = if bool_decide (j = i) then x else amp l j.
Proof.
  intros Hi. unfold amp. case_bool_decide as Hj; [subst j; by apply nth_lookup_Some, list_lookup_insert_eq|].
  rewrite !nth_lookup. by rewrite list_lookup_insert_ne.
Qed.
Lemma set_at_ok {A} (l : list A) i x : (i < length l)%nat -> set_at l i x = Ok (<[i := x]> l).
Proof. intros Hi. unfold set_at. by rewrite bool_decide_true. Qed.

(** A loop over base indices, each of which updates the indices that belong to it. *)
Lemma loop_spec (step : nat -> list Complex -> res (list Complex)) (lo : nat -> nat) (act : nat -> Complex) size count orig :
  length orig = size ->
  (forall base block, (base < count)%nat -> length block = size ->
    (forall i, (i < size)%nat -> lo i = base -> amp block i = amp orig i) ->
    exists block', step base block = Ok block' /\ length block' = size /\
      forall i, (i < size)%nat -> amp block' i = if bool_decide (lo i = base) then act i else amp block i) ->
  exists out, foldR step (seq 0 count) orig = Ok out /\ length out = size /\
    forall i, (i < size)%nat -> amp out i = if bool_decide (lo i < count)%nat then act i else amp orig i.
Proof.
  intros Hl Hstep. induction count as [|count IH].
  - exists orig. split_and!; [done|done|]. intros i Hi. by rewrite bool_decide_false by lia.
  - destruct IH as (out & Hout & Hlen & Hamp); [intros; apply Hstep; (lia || done)|].
    rewrite seq_S, foldR_app, Hout. cbn [mbind result_bind foldR Nat.add].
    destruct (Hstep count out ltac:(lia) Hlen) as (out' & Hout' & Hlen' & Hamp').
    { intros i Hi Hlo. rewrite Hamp by done. by rewrite bool_decide_false by lia. }
    exists out'. rewrite Hout'. split_and!; [done|done|]. intros i Hi. rewrite Hamp', Hamp by done.
    destruct (Nat.lt_trichotomy (lo i) count) as [|[|]].
    + by rewrite (bool_decide_false (lo i = count)), !bool_decide_true by lia.
    + by rewrite !bool_decide_true by lia.
    + by rewrite !bool_decide_false by lia.
Qed.

Section blocks.
Context `{Machine}.

Lemma apply_1q_block_spec t g block :
  length block = (2 ^ S t)%nat ->
  exists out, apply_1q_block (2 ^ t) g block = Ok out /\ length out = (2 ^ S t)%nat /\
    forall i, (i < 2 ^ S t)%nat -> amp out i = act1 g t (amp block) i.
Proof.
  intros Hl. destruct (loop_spec (apply_1q_step (2 ^ t) g) (put t false) (act1 g t (amp block)) (2 ^ S t) (2 ^ t) block Hl)
    as (out & Hout & Hlen & Hamp).
  - intros base b Hbase Hb Hsame. unfold apply_1q_step. cbv zeta. rewrite lor_put.
    assert (base < 2 ^ S t)%nat as Hlt by (cbn; lia). pose proof (put_lt t true base (S t) Hlt ltac:(lia)) as Hlt1.
    assert (put t false base = base) as Hput.
    { rewrite <- (put_id t base) at 2. f_equal. symmetry. by apply (proj1 (bits_lt base t) Hbase). }
    rewrite !get_at_amp by lia. cbn [mbind result_bind]. rewrite set_at_ok by lia. cbn [mbind result_bind].
    rewrite set_at_ok by (rewrite length_insert; lia). eexists. split; [done|]. split; [by rewrite !length_insert|].
    intros i Hi. rewrite !amp_insert by (rewrite ?length_insert; lia).
    rewrite (Hsame base), (Hsame (put t true base)) by (done || by rewrite put_put).
    case_bool_decide as H1; [subst i|case_bool_decide as H2; [subst i|]].
    + rewrite put_put, bool_decide_true by done. unfold act1. cbv zeta. rewrite put_bit, bool_decide_true by done.
      by rewrite !put_put, Hput.
    + rewrite bool_decide_true by done. unfold act1. cbv zeta.
      rewrite (proj1 (bits_lt base t) Hbase t) by lia. by rewrite Hput.
    + rewrite bool_decide_false; [done|]. intros Hlo. rewrite <- (put_id t i), <- (put_put t _ false), Hlo in H1, H2.
      destruct (Nat.testbit i t); [done|by rewrite Hput in H2].
  - exists out. split_and!; [done|done|]. intros i Hi. rewrite Hamp by done. rewrite bool_decide_true; [done|].
    apply bits_lt. intros k Hk. rewrite put_bit. case_bool_decide; [done|]. apply (proj1 (bits_lt i (S t)) Hi). lia.
Qed.

Lemma ushl_one k : (k < 64)%nat -> ushl 1 (Z.of_nat k) = Ok (2 ^ Z.of_nat k).
Proof.
  intros Hk. unfold ushl, panic_unless. rewrite (proj2 (Z.ltb_lt _ _)) by lia. cbn [orb].
  rewrite (Z.mod_small (Z.of_nat k)), Z.mul_1_l by lia. rewrite Z.mod_small; [done|].
  split; [lia|]. apply Z.pow_lt_mono_r; lia.
Qed.
Lemma to_nat_pow2 k : Z.to_nat (2 ^ Z.of_nat k) = (2 ^ k)%nat.
Proof. rewrite Z2Nat.inj_pow, Nat2Z.id by lia. done. Qed.

Section pair.
Variable (q0 q1 m : nat) (g : Gate).
Hypothesis (H0 : (q0 < m)%nat) (H1 : (q1 < m)%nat) (Hne : q0 <> q1).

Definition both (b0 b1 : bool) (i : nat) : nat := put q1 b1 (put q0 b0 i).
Lemma both_bits b0 b1 i : Nat.testbit (both b0 b1 i) q0 = b0 /\ Nat.testbit (both b0 b1 i) q1 = b1.
Proof. unfold both. rewrite !put_bit. split; repeat case_bool_decide; congruence. Qed.
Lemma both_both b0 b1 c0 c1 i : both b0 b1 (both c0 c1 i) = both b0 b1 i.
Proof. unfold both. by_bits. Qed.
Lemma both_id i : both (Nat.testbit i q0) (Nat.testbit i q1) i = i.
Proof. unfold both. by_bits. Qed.
Lemma both_lt b0 b1 i : (i < 2 ^ m)%nat -> (both b0 b1 i < 2 ^ m)%nat.
Proof. intros Hi. by apply put_lt; [apply put_lt|]. Qed.
Lemma act2_both state b0 b1 i :
  act2 g q0 q1 state (both b0 b1 i)
  = row_sum g (2 * Nat.b2n b0 + Nat.b2n b1) (map (fun b => state (both b.1 b.2 i)) [(false, false); (false, true); (true, false); (true, true)]).
Proof.
  unfold act2. destruct (both_bits b0 b1 i) as [-> ->]. f_equal. cbn [map fst snd]. fold (both false false (both b0 b1 i)).
  fold (both false true (both b0 b1 i)). fold (both true false (both b0 b1 i)). fold (both true true (both b0 b1 i)). by rewrite !both_both.
Qed.

Lemma skipped_spec base : skipped (2 ^ q0) (2 ^ q1) base = Nat.testbit base q0 || Nat.testbit base q1.
Proof.
  unfold skipped. rewrite (bool_decide_ext _ _ (land_put q0 base)), (bool_decide_ext _ _ (land_put q1 base)).
  by destruct (Nat.testbit base q0), (Nat.testbit base q1).
Qed.

Lemma apply_2q_step_spec base block :
  length block = (2 ^ m)%nat -> (base < 2 ^ m)%nat ->
  exists block', apply_2q_step (2 ^ q0) (2 ^ q1) g base block = Ok block' /\ length block' = (2 ^ m)%nat /\
    forall i, (i < 2 ^ m)%nat -> amp block' i = if bool_decide (both false false i = base) then act2 g q0 q1 (amp block) i else amp block i.
Proof.
  intros Hb Hbase. unfold apply_2q_step. rewrite skipped_spec. destruct (Nat.testbit base q0 || Nat.testbit base q1) eqn:Hskip.
  { exists block. split_and!; [done|done|]. intros i Hi. rewrite bool_decide_false; [done|]. intros <-.
    destruct (both_bits false false i) as [E0 E1]. by rewrite E0, E1 in Hskip. }
  apply orb_false_elim in Hskip as [Hb0 Hb1].
  assert (indices (2 ^ q0) (2 ^ q1) base = [both false false base; both false true base; both true false base; both true true base]) as ->.
  { unfold indices. rewrite !lor_put. pose proof (both_id base) as Hid. rewrite Hb0, Hb1 in Hid.
    assert (put q1 true base = both false true base) as -> by (rewrite <- Hid at 1; apply put_put).
    assert (put q0 true base = both true false base) as ->.
    { rewrite <- Hid at 1. unfold both. by_bits. }
    assert (put q1 true (both true false base) = both true true base) as -> by apply put_put. by rewrite Hid. }
  pose proof (both_lt false false base Hbase). pose proof (both_lt false true base Hbase).
  pose proof (both_lt true false base Hbase). pose proof (both_lt true true base Hbase).
  cbn [foldR]. rewrite !get_at_amp by lia. cbn [mbind result_bind app seq foldR nth].
  do 4 (rewrite set_at_ok by (rewrite ?length_insert; lia); cbn [mbind result_bind]).
  eexists. split; [done|]. split; [by rewrite !length_insert|]. intros i Hi.
  rewrite !amp_insert by (rewrite ?length_insert; lia).
  assert (forall b0 b1, i = both b0 b1 base -> both false false i = base) as Hlo.
  { intros b0 b1 ->. rewrite both_both. rewrite <- (both_id base) at 2. by rewrite Hb0, Hb1. }
  destruct (decide (i = both true true base)) as [C3|C3]; [rewrite (bool_decide_true _ C3), (bool_decide_true _ (Hlo _ _ C3)), C3; by rewrite act2_both|].
  rewrite (bool_decide_false _ C3).
  destruct (decide (i = both true false base)) as [C2|C2]; [rewrite (bool_decide_true _ C2), (bool_decide_true _ (Hlo _ _ C2)), C2; by rewrite act2_both|].
  rewrite (bool_decide_false _ C2).
  destruct (decide (i = both false true base)) as [C1|C1]; [rewrite (bool_decide_true _ C1), (bool_decide_true _ (Hlo _ _ C1)), C1; by rewrite act2_both|].
  rewrite (bool_decide_false _ C1).
  destruct (decide (i = both false false base)) as [C0|C0]; [rewrite (bool_decide_true _ C0), (bool_decide_true _ (Hlo _ _ C0)), C0; by rewrite act2_both|].
  rewrite (bool_decide_false _ C0).
  rewrite bool_decide_false; [done|]. intros Hi'.
  rewrite <- (both_id i), <- (both_both _ _ false false), Hi' in C0, C1, C2, C3. by destruct (Nat.testbit i q0), (Nat.testbit i q1).
Qed.

Lemma apply_2q_block_spec block :
  (m < 64)%nat -> length block = (2 ^ m)%nat ->
  exists out, apply_2q_block q0 q1 g block = Ok out /\ length out = (2 ^ m)%nat /\
    forall i, (i < 2 ^ m)%nat -> amp out i = act2 g q0 q1 (amp block) i.
Proof.
  intros Hm Hl. unfold apply_2q_block. rewrite !ushl_one by lia. cbn [mbind result_bind]. rewrite !to_nat_pow2, Hl.
  destruct (loop_spec (apply_2q_step (2 ^ q0) (2 ^ q1) g) (both false false) (act2 g q0 q1 (amp block)) (2 ^ m) (2 ^ m) block Hl)
    as (out & Hout & Hlen & Hamp).
  - intros base b Hbase Hb Hsame. destruct (apply_2q_step_spec base b Hb Hbase) as (b' & Hb' & Hlb & Hab).
    exists b'. split_and!; [done|done|]. intros i Hi. rewrite Hab by done. case_bool_decide as Hlo; [|done].
    rewrite <- (both_id i). rewrite !act2_both. f_equal. cbn [map fst snd].
    rewrite !Hsame; try done; try (by apply both_lt); by rewrite both_both.
  - exists out. split_and!; [done|done|]. intros i Hi. rewrite Hamp by done. by rewrite bool_decide_true by (by apply both_lt).
Qed.
End pair.
End blocks.

Section gates.
Context `{Machine}.

(** ** From blocks to the vector *)

Lemma amp_take l size k : (k < size)%nat -> amp (take size l) k = amp l k.
Proof. intros Hk. unfold amp. rewrite !nth_lookup. by rewrite lookup_take_lt. Qed.
Lemma amp_drop l size k : amp (drop size l) k = amp l (size + k).
Proof. unfold amp. rewrite !nth_lookup. by rewrite lookup_drop. Qed.
Lemma amp_app l1 l2 k : amp (l1 ++ l2) k = if bool_decide (k < length l1)%nat then amp l1 k else amp l2 (k - length l1).
Proof. unfold amp. rewrite !nth_lookup. case_bool_decide; [by rewrite lookup_app_l|by rewrite lookup_app_r by lia]. Qed.

Lemma chunks_spec size f (A : (nat -> Complex) -> nat -> Complex) :
  (0 < size)%nat ->
  (forall u v j, (j < size)%nat -> (forall k, (k < size)%nat -> u k = v k) -> A u j = A v j) ->
  (forall block, length block = size -> exists out, f block = Ok out /\ length out = size /\ forall j, (j < size)%nat -> amp out j = A (amp block) j) ->
  forall n fuel l, length l = (n * size)%nat -> (n <= fuel)%nat ->
  exists out, map_chunks fuel size f l = Ok out /\ length out = length l /\
    forall c j, (c < n)%nat -> (j < size)%nat -> amp out (c * size + j) = A (fun k => amp l (c * size + k)) j.
Proof.
  intros Hs HA Hf n. induction n as [|n IH]; intros fuel l Hl Hfuel.
  - destruct l; [|done]. exists []. split_and!; [|done|intros; lia]. destruct fuel; [done|]. cbn [map_chunks].
    by rewrite bool_decide_false by (cbn; lia).
  - destruct fuel as [|fuel]; [lia|]. cbn [map_chunks]. rewrite bool_decide_true by lia.
    destruct (Hf (take size l)) as (b & Hb & Hlb & Hab); [rewrite length_take; lia|].
    destruct (IH fuel (drop size l)) as (rest & Hrest & Hlr & Har); [rewrite length_drop; lia|lia|].
    rewrite Hb. cbn [mbind result_bind]. rewrite Hrest. cbn [mbind result_bind]. exists (b ++ rest).
    split_and!; [done|rewrite length_app, Hlr, length_drop; lia|]. intros c j Hc Hj. rewrite amp_app, Hlb.
    destruct c as [|c].
    + rewrite bool_decide_true by lia. cbn [Nat.mul Nat.add]. rewrite Hab by done. apply HA; [done|]. intros. by apply amp_take.
    + rewrite bool_decide_false by lia. replace (S c * size + j - size)%nat with (c * size + j)%nat by lia.
      rewrite Har by lia. apply HA; [done|]. intros k Hk. rewrite amp_drop. f_equal. lia.
Qed.

Lemma act1_local g t u v j :
  (j < 2 ^ S t)%nat -> (forall k, (k < 2 ^ S t)%nat -> u k = v k) -> act1 g t u j = act1 g t v j.
Proof. intros Hj Huv. unfold act1. cbv zeta. by rewrite !Huv by (apply put_lt; lia). Qed.
Lemma act2_local g q0 q1 m u v j :
  (q0 < m)%nat -> (q1 < m)%nat -> (j < 2 ^ m)%nat -> (forall k, (k < 2 ^ m)%nat -> u k = v k) -> act2 g q0 q1 u j = act2 g q0 q1 v j.
Proof. intros H0 H1 Hj Huv. unfold act2. cbn [map fst snd]. by rewrite !Huv by (repeat apply put_lt; lia). Qed.
Lemma act1_block g t c u j : (j < 2 ^ S t)%nat -> act1 g t (fun k => u (c * 2 ^ S t + k)%nat) j = act1 g t u (c * 2 ^ S t + j)%nat.
Proof. intros Hj. unfold act1. cbv zeta. rewrite !put_block, block_bit by (done || lia). by rewrite bool_decide_true by lia. Qed.
Lemma act2_block g q0 q1 m c u j :
  (q0 < m)%nat -> (q1 < m)%nat -> (j < 2 ^ m)%nat -> act2 g q0 q1 (fun k => u (c * 2 ^ m + k)%nat) j = act2 g q0 q1 u (c * 2 ^ m + j)%nat.
Proof.
  intros H0 H1 Hj. unfold act2. cbn [map fst snd]. rewrite !block_bit, !bool_decide_true by done.
  by rewrite !put_block by (done || by apply put_lt).
Qed.

(** The chunks of a gate with blocks of [2 ^ m] amplitudes, for an action that commutes with blocks. *)
Lemma vector_spec n m f (A : (nat -> Complex) -> nat -> Complex) state :
  (m <= n)%nat -> length state = (2 ^ n)%nat ->
  (forall u v j, (j < 2 ^ m)%nat -> (forall k, (k < 2 ^ m)%nat -> u k = v k) -> A u j = A v j) ->
  (forall c u j, (j < 2 ^ m)%nat -> A (fun k => u (c * 2 ^ m + k)%nat) j = A u (c * 2 ^ m + j)%nat) ->
  (forall block, length block = (2 ^ m)%nat ->
    exists out, f block = Ok out /\ length out = (2 ^ m)%nat /\ forall j, (j < 2 ^ m)%nat -> amp out j = A (amp block) j) ->
  exists out, chunks_exact (2 ^ Z.of_nat m) f state = Ok out /\ length out = (2 ^ n)%nat /\
    forall i, (i < 2 ^ n)%nat -> amp out i = A (amp state) i.
Proof.
  intros Hm Hl HA HB Hf. unfold chunks_exact, panic_unless. rewrite (proj2 (Z.eqb_neq _ 0)) by (apply Z.pow_nonzero; lia). cbn [negb].
  rewrite to_nat_pow2. pose proof (Nat.pow_nonzero 2 m ltac:(lia)). pose proof (Nat.pow_nonzero 2 (n - m) ltac:(lia)).
  assert (2 ^ n = 2 ^ (n - m) * 2 ^ m)%nat as Hn by (rewrite <- Nat.pow_add_r; f_equal; lia).
  destruct (chunks_spec (2 ^ m) f A ltac:(lia) HA Hf (2 ^ (n - m)) (length state) state) as (out & Hout & Hlo & Hamp); [lia|nia|].
  exists out. split_and!; [done|lia|]. intros i Hi.
  rewrite (Nat.div_mod_eq i (2 ^ m)), (Nat.mul_comm (2 ^ m)). rewrite Hamp; [apply HB| |]; try by apply Nat.mod_upper_bound.
  apply Nat.Div0.div_lt_upper_bound. lia.
Qed.

(** ** Gates *)

Definition gate_action (g : Gate) (targets : list nat) (state : nat -> Complex) : nat -> Complex :=
  match targets with [t] => act1 g t state | [q0; q1] => act2 g q0 q1 state | _ => state end.
Definition asserted (out : list Complex) : res (list Complex) := panic_unless (normalized (map norm_sq out) || negb debug) (Ok out).

Lemma asserted_spec out : (_ ← debug_assert_normalized out; Ok out) = asserted out.
Proof. unfold debug_assert_normalized, debug_assert, asserted. by destruct (normalized _ || _). Qed.
Lemma assert_true {A} b (k : res A) : b = true -> (_ ← debug_assert b; k) = k.
Proof. by intros ->. Qed.

Lemma apply_1q_spec n t g state :
  (n < 64)%nat -> (t < n)%nat -> length state = (2 ^ n)%nat ->
  exists out, length out = (2 ^ n)%nat /\ (forall i, (i < 2 ^ n)%nat -> amp out i = act1 g t (amp state) i) /\
    apply_1q n t g state = asserted out.
Proof.
  intros Hn Ht Hl. unfold apply_1q. rewrite assert_true by (by apply bool_decide_true). rewrite ushl_one by lia. cbn [mbind result_bind].
  assert (ushl (2 ^ Z.of_nat t) 1 = Ok (2 ^ Z.of_nat (S t))) as ->.
  { unfold ushl, panic_unless. cbn [Z.ltb Z.compare Pos.compare Pos.compare_cont orb]. change (2 ^ (1 mod 64)) with 2. rewrite Z.mod_small; [f_equal; rewrite Nat2Z.inj_succ, Z.pow_succ_r by lia; lia|].
    split; [lia|]. apply Z.lt_le_trans with (2 ^ Z.of_nat 63 * 2); [|done].
    apply Z.mul_lt_mono_pos_r; [lia|]. apply Z.pow_lt_mono_r; lia. }
  cbn [mbind result_bind]. rewrite to_nat_pow2.
  destruct (vector_spec n (S t) (apply_1q_block (2 ^ t) g) (act1 g t) state ltac:(lia) Hl) as (out & Hout & Hlen & Hamp).
  { intros u v j. apply act1_local. } { intros c u j. apply act1_block. } { intros block Hb. by apply apply_1q_block_spec. }
  rewrite Hout. cbn [mbind result_bind]. exists out. split_and!; [done|done|apply asserted_spec].
Qed.

Lemma apply_2q_spec n q0 q1 g state :
  (n < 64)%nat -> (q0 < n)%nat -> (q1 < n)%nat -> q0 <> q1 -> length state = (2 ^ n)%nat ->
  exists out, length out = (2 ^ n)%nat /\ (forall i, (i < 2 ^ n)%nat -> amp out i = act2 g q0 q1 (amp state) i) /\
    apply_2q n q0 q1 g state = asserted out.
Proof.
  intros Hn H0 H1 Hne Hl. unfold apply_2q. do 3 (rewrite assert_true by (by apply bool_decide_true)).
  rewrite ushl_one by lia. cbn [mbind result_bind].
  destruct (vector_spec n (Nat.max q0 q1 + 1) (apply_2q_block q0 q1 g) (act2 g q0 q1) state ltac:(lia) Hl) as (out & Hout & Hlen & Hamp).
  { intros u v j. apply act2_local; lia. } { intros c u j. apply act2_block; lia. }
  { intros block Hb. apply apply_2q_block_spec; (lia || done). }
  rewrite Hout. cbn [mbind result_bind]. exists out. split_and!; [done|done|apply asserted_spec].
Qed.

End gates.
