(* ===== verification/Simulator.v ===== *)
(** * Running circuits (crates/waros-quantum/src/simulator/{mod,trajectory}.rs, noise.rs, result.rs)

    A simulator runs a circuit many times and counts the outcomes: by sampling
    the final state vector, or shot by shot when the circuit measures in the
    middle or noise is configured.  The generator of random numbers ([Rng]) and
    the matrix-product backend, which is built on an external linear algebra
    library ([Mps]), are parameters.  The theorems: both storage layouts give
    the same state; a circuit of classical gates gives the bits it computes in
    both modes, with certainty; the counts of a run add up to its shots. *)
From S2P Require Import Prelude RustStr RustParse Float64 Circuit CircuitOpt Qec StateVector.

(** [gen::<f64>()] and [gen_range(0..3)]. *)
Class Rng (R : Type) : Type := { gen_f64 : R -> f64 * R; gen_range3 : R -> nat * R; from_seed : option Z -> R }.

(** ** Noise *)

Inductive NoiseChannel : Type :=
  | Depolarizing (probability : f64)
  | AmplitudeDamping (gamma : f64)
  | PhaseDamping (lambda : f64)
  | BitFlip (probability : f64)
  | PhaseFlip (probability : f64)
  | ReadoutError (probability : f64).
Definition is_effective (c : NoiseChannel) : bool :=
  match c with
  | Depolarizing p | BitFlip p | PhaseFlip p | ReadoutError p => fltb f64_zero p
  | AmplitudeDamping gamma => fltb f64_zero gamma
  | PhaseDamping lambda => fltb f64_zero lambda
  end.
Record NoiseModel : Type := mkNoise {
  single_qubit_noise : list NoiseChannel;
  two_qubit_noise : list NoiseChannel;
  measurement_noise : list NoiseChannel;
  idle_noise : list NoiseChannel;
}.
Definition noise_ideal : NoiseModel := mkNoise [] [] [] [].
Definition clamp_probability (p : f64) : f64 := f_clamp p f64_zero f64_one.
Definition noise_uniform (single_q_error two_q_error readout_error : f64) : NoiseModel :=
  mkNoise [Depolarizing (clamp_probability single_q_error)] [Depolarizing (clamp_probability two_q_error)]
    [ReadoutError (clamp_probability readout_error)] [].
Definition is_ideal (m : NoiseModel) : bool :=
  forallb (fun c => negb (is_effective c)) (single_qubit_noise m ++ two_qubit_noise m ++ measurement_noise m ++ idle_noise m).

(** ** Results *)

Record QuantumResult : Type := mkResult { result_qubits : nat; total_shots : Z; counts : gmap bytes Z }.
Definition probability (r : QuantumResult) (state : bytes) : f64 :=
  fdiv (f64_of_Z (default 0 (counts r !! state))) (f64_of_Z (total_shots r)).
Definition add_count (counts : gmap bytes Z) (bitstring : bytes) : gmap bytes Z :=
  <[bitstring := default 0 (counts !! bitstring) + 1]> counts.

(** ** Measuring *)

Definition MEASUREMENT_EPSILON : f64 := f64_of_decimal false 1 (-15).
Definition c_scale (c : Complex) (x : f64) : Complex := mkComplex (fmul (c_re c) x) (fmul (c_im c) x).

Section run.
Context `{Machine} {R : Type} `{Rng R}.
Abbreviation shot A := (stm R (fault WarosError) A).

Definition draw : shot f64 := fun r => let (x, r') := gen_f64 r in (Ok x, r').
Definition draw3 : shot nat := fun r => let (x, r') := gen_range3 r in (Ok x, r').

Definition has_bit (index mask : nat) : bool := negb (bool_decide (Nat.land index mask = 0%nat)).
Definition probability_one (state : list Complex) (qubit : nat) : res f64 :=
  mask ← ushl 1 (Z.of_nat qubit);
  Ok (f_sum (map (fun e => norm_sq e.2) (List.filter (fun e => has_bit e.1 (Z.to_nat mask)) (enumerate state)))).
Definition probability_zero (state : list Complex) (qubit : nat) : res f64 :=
  p ← probability_one state qubit; Ok (fsub f64_one p).

Definition collapse (mask : nat) (outcome : Z) (norm : f64) (state : list Complex) : list Complex :=
  imap (fun index amplitude =>
    if Bool.eqb (has_bit index mask) (outcome =? 1) then c_scale amplitude (fdiv f64_one norm) else C_ZERO) state.
Definition measure_qubit (qubit : nat) (state : list Complex) : shot (Z * list Complex) :=
  p ← lift_result (probability_zero state qubit);
  let probability_zero := f_clamp p f64_zero f64_one in
  x ← draw;
  let outcome := if fleb probability_zero x then 1 else 0 in
  let kept_probability := if outcome =? 0 then probability_zero else fsub f64_one probability_zero in
  if fleb kept_probability MEASUREMENT_EPSILON then
    throw (Raised (NumericalInstability (str "collapsing a near-zero measurement branch")))
  else
    mask ← lift_result (ushl 1 (Z.of_nat qubit));
    let state := collapse (Z.to_nat mask) outcome (fsqrt kept_probability) state in
    _ ← lift_result (debug_assert_normalized state);
    mret (outcome, state).

Fixpoint mid_circuit (saw_measurement : bool) (program : list Instruction) : bool :=
  match program with
  | [] => false
  | Measure _ _ :: rest => mid_circuit true rest
  | ConditionalGate _ _ _ _ :: _ => true
  | GateOp _ _ :: rest => if saw_measurement then true else mid_circuit saw_measurement rest
  | Barrier _ :: rest => mid_circuit saw_measurement rest
  end.
Definition has_mid_circuit_measurement (c : Circuit) : bool := mid_circuit false (instructions c).

(** The first index whose cumulative probability exceeds the draw, else the last. *)
Fixpoint sample_go (probabilities : list f64) (index : nat) (cumulative drawn : f64) : nat :=
  match probabilities with
  | [] => index - 1
  | p :: rest =>
      let cumulative := fadd cumulative p in
      if fltb drawn cumulative then index else sample_go rest (S index) cumulative drawn
  end.
Definition sample (probabilities : list f64) : shot nat :=
  x ← draw;
  if bool_decide (length probabilities = 0%nat) then throw Panicked else mret (sample_go probabilities 0 f64_zero x).

Definition bit_char (b : bool) : byte := if b then x31 else x30.
(** [(index >> q) & 1]; a register with a qubit 64 panics earlier with overflow checks. *)
Definition index_bit (index q : nat) : bool := Nat.testbit index (q mod 64).
Definition basis_state_string (index n : nat) : bytes := map (fun q => bit_char (index_bit index q)) (seq 0 n).

(** ** Shot by shot *)

Definition TRAJECTORY_EPSILON : f64 := f64_of_decimal false 1 (-15).

Definition damp_jump (mask : nat) (inv_norm : f64) (base : nat) (state : list Complex) : res (list Complex) :=
  if has_bit base mask then Ok state
  else
    excited_amplitude ← get_at state (Nat.lor base mask);
    state ← set_at state base (c_scale excited_amplitude inv_norm);
    set_at state (Nat.lor base mask) C_ZERO.
Definition damp_stay (mask : nat) (inv_norm damping : f64) (base : nat) (state : list Complex) : res (list Complex) :=
  if has_bit base mask then Ok state
  else
    a ← get_at state base;
    state ← set_at state base (c_scale a inv_norm);
    b ← get_at state (Nat.lor base mask);
    set_at state (Nat.lor base mask) (c_scale b (fmul damping inv_norm)).
Definition apply_amplitude_damping (qubit : nat) (gamma : f64) (state : list Complex) : shot (list Complex) :=
  let gamma := f_clamp gamma f64_zero f64_one in
  if fleb gamma TRAJECTORY_EPSILON then mret state
  else
    p ← lift_result (probability_one state qubit);
    let probability_one := f_clamp p f64_zero f64_one in
    let jump_probability := f_clamp (fmul gamma probability_one) f64_zero f64_one in
    mask ← lift_result (ushl 1 (Z.of_nat qubit));
    x ← draw;
    if fltb x jump_probability then
      if fleb probability_one TRAJECTORY_EPSILON then mret state
      else
        let inv_norm := fdiv f64_one (fsqrt probability_one) in
        lift_result (foldR (damp_jump (Z.to_nat mask) inv_norm) (seq 0 (length state)) state)
    else
      let no_jump_probability := fsub f64_one jump_probability in
      if fleb no_jump_probability TRAJECTORY_EPSILON then
        throw (Raised (NumericalInstability (str "amplitude damping normalization collapsed")))
      else
        let inv_norm := fdiv f64_one (fsqrt no_jump_probability) in
        let damping := fsqrt (fsub f64_one gamma) in
        lift_result (foldR (damp_stay (Z.to_nat mask) inv_norm damping) (seq 0 (length state)) state).

Definition with_chance (p : f64) (g : Gate) (n qubit : nat) (state : list Complex) : shot (list Complex) :=
  x ← draw; if fltb x p then lift_result (apply_1q n qubit g state) else mret state.
Definition apply_channel (n qubit : nat) (channel : NoiseChannel) (state : list Complex) : shot (list Complex) :=
  match channel with
  | Depolarizing probability =>
      x ← draw;
      if fltb x (f_clamp probability f64_zero f64_one) then
        k ← draw3;
        lift_result (apply_1q n qubit match k with O => gate_x | 1%nat => gate_y | _ => gate_z end state)
      else mret state
  | AmplitudeDamping gamma => apply_amplitude_damping qubit gamma state
  | PhaseDamping lambda =>
      with_chance (f_clamp (fmul (f_clamp lambda f64_zero f64_one) f64_half) f64_zero f64_half) gate_z n qubit state
  | BitFlip probability => with_chance (f_clamp probability f64_zero f64_one) gate_x n qubit state
  | PhaseFlip probability => with_chance (f_clamp probability f64_zero f64_one) gate_z n qubit state
  | ReadoutError _ => mret state
  end.
Definition apply_channels_to_qubit (n qubit : nat) (channels : list NoiseChannel) (state : list Complex) : shot (list Complex) :=
  foldM (apply_channel n qubit) channels state.
Definition apply_channels (n : nat) (qubits : list nat) (channels : list NoiseChannel) (state : list Complex) : shot (list Complex) :=
  foldM (fun qubit state => apply_channels_to_qubit n qubit channels state) qubits state.

Definition measurement_channel (channel : NoiseChannel) (outcome : Z) : shot Z :=
  match channel with
  | ReadoutError probability | BitFlip probability =>
      x ← draw; mret (if fltb x (f_clamp probability f64_zero f64_one) then Z.lxor outcome 1 else outcome)
  | Depolarizing probability =>
      x ← draw;
      if fltb x (f_clamp probability f64_zero f64_one) then y ← draw; mret (if fleb f64_half y then 1 else 0) else mret outcome
  | AmplitudeDamping _ | PhaseDamping _ | PhaseFlip _ => mret outcome
  end.
Definition apply_measurement_noise (outcome : Z) (noise_model : option NoiseModel) : shot Z :=
  match noise_model with
  | None => mret outcome
  | Some model => foldM measurement_channel (measurement_noise model) outcome
  end.

Definition read_classical_register (register : list nat) (classical_bits : list Z) : res Z :=
  foldR (fun e value =>
    bit ← get_at classical_bits e.2; b ← ushl (if bit =? 1 then 1 else 0) (Z.of_nat e.1); Ok (Z.lor value b)) (enumerate register) 0.

Definition gate_with_noise (n : nat) (noise_model : option NoiseModel) (g : Gate) (targets : list nat) (state : list Complex) : shot (list Complex) :=
  state ← lift_result (apply_gate n targets g state);
  match noise_model with
  | None => mret state
  | Some model => apply_channels n targets (if (gate_num_qubits g =? 1)%nat then single_qubit_noise model else two_qubit_noise model) state
  end.
Definition shot_step (n : nat) (noise_model : option NoiseModel) (i : Instruction) (s : list Complex * list Z) : shot (list Complex * list Z) :=
  let (state, classical_bits) := s in
  match i with
  | GateOp g targets => state ← gate_with_noise n noise_model g targets state; mret (state, classical_bits)
  | ConditionalGate register_bits value g targets =>
      v ← lift_result (read_classical_register register_bits classical_bits);
      if v =? value then state ← gate_with_noise n noise_model g targets state; mret (state, classical_bits)
      else mret (state, classical_bits)
  | Measure qubit classical_bit =>
      m ← measure_qubit qubit state;
      noisy ← apply_measurement_noise m.1 noise_model;
      classical_bits ← lift_result (set_at classical_bits classical_bit noisy);
      mret (m.2, classical_bits)
  | Barrier qubits =>
      match noise_model with
      | None => mret (state, classical_bits)
      | Some model => state ← apply_channels n qubits (idle_noise model) state; mret (state, classical_bits)
      end
  end.
Definition run_single_shot (c : Circuit) (noise_model : option NoiseModel) : shot bytes :=
  state ← lift_result (zero_state (num_qubits c));
  s ← foldM (shot_step (num_qubits c) noise_model) (instructions c) (state, replicate (num_classical_bits c) 0);
  mret (map (fun bit => bofZ (48 + bit)) s.2).
Definition run_shot_mode (c : Circuit) (shots : Z) (noise_model : option NoiseModel) : shot QuantumResult :=
  counts ← foldM (fun _ counts => bitstring ← run_single_shot c noise_model; mret (add_count counts bitstring)) (seq 0 (Z.to_nat shots)) ∅;
  mret (mkResult (num_classical_bits c) shots counts).

(** ** The simulator *)

Inductive SimBackend : Type := BStateVector | BMPS (max_bond_dim : nat) | BAuto.
Inductive StateVectorLayout : Type := AoS | SoA.
Record SimulatorConfig : Type := mkSimulator {
  seed : option Z;
  parallel : bool;
  backend : SimBackend;
  statevector_layout : StateVectorLayout;
  noise : NoiseModel;
}.
Definition builder_new : SimulatorConfig := mkSimulator None true BStateVector AoS noise_ideal.

Definition effective_backend (s : SimulatorConfig) (n : nat) : SimBackend :=
  match backend s with
  | BAuto => if bool_decide (20 < n)%nat then BMPS 64 else BStateVector
  | b => b
  end.

Definition final_state (layout : StateVectorLayout) (c : Circuit) : res (list Complex) :=
  match layout with
  | AoS => state ← zero_state (num_qubits c); apply_gate_sequence (num_qubits c) (instructions c) state
  | SoA => s ← zero_state_soa (num_qubits c); s ← apply_gate_sequence_soa (num_qubits c) (instructions c) s; Ok (into_aos s)
  end.
Definition final_probabilities (layout : StateVectorLayout) (c : Circuit) : res (list f64) :=
  match layout with
  | AoS => state ← zero_state (num_qubits c); state ← apply_gate_sequence (num_qubits c) (instructions c) state; Ok (map norm_sq state)
  | SoA => s ← zero_state_soa (num_qubits c); s ← apply_gate_sequence_soa (num_qubits c) (instructions c) s; Ok (probabilities s)
  end.

Definition measured_qubits (c : Circuit) : list nat :=
  omap (fun i => match i with Measure qubit _ => Some qubit | _ => None end) (instructions c).
Definition outcome_string (c : Circuit) (index : nat) : bytes :=
  if bool_decide (measured_qubits c = []) then basis_state_string index (num_qubits c)
  else map (fun q => bit_char (index_bit index q)) (measured_qubits c).
Definition output_qubits (c : Circuit) : nat :=
  if bool_decide (measured_qubits c = []) then num_qubits c else length (measured_qubits c).
Definition run_sample_mode (s : SimulatorConfig) (c : Circuit) (shots : Z) : res QuantumResult :=
  ps ← final_probabilities (statevector_layout s) c;
  counts ← (foldM (fun _ counts => index ← sample ps; mret (add_count counts (outcome_string c index)))
              (seq 0 (Z.to_nat shots)) ∅ (from_seed (seed s))).1;
  Ok (mkResult (output_qubits c) shots counts).

(** The matrix-product backend. *)
Variable run_mps_mode : SimulatorConfig -> Circuit -> Z -> nat -> res QuantumResult.
Variable mps_statevector : Circuit -> nat -> res (list Complex).

Definition simulator_run (s : SimulatorConfig) (c : Circuit) (shots : Z) : res QuantumResult :=
  if shots =? 0 then Err (Raised (InvalidShots shots))
  else
    match effective_backend s (num_qubits c) with
    | BStateVector =>
        if negb (is_ideal (noise s)) || has_mid_circuit_measurement c
        then (run_shot_mode c shots (if negb (is_ideal (noise s)) then Some (noise s) else None) (from_seed (seed s))).1
        else run_sample_mode s c shots
    | BMPS max_bond_dim => run_mps_mode s c shots max_bond_dim
    | BAuto => Err Panicked
    end.

Definition simulator_statevector (s : SimulatorConfig) (c : Circuit) : res (list Complex) :=
  if negb (is_ideal (noise s)) then
    Err (Raised (SimulationError (str "statevector is unavailable when noise is enabled")))
  else if has_mid_circuit_measurement c then
    Err (Raised (SimulationError (str "statevector is unavailable for circuits with mid-circuit measurements")))
  else
    match effective_backend s (num_qubits c) with
    | BStateVector => final_state (statevector_layout s) c
    | BMPS max_bond_dim => mps_statevector c max_bond_dim
    | BAuto => Err Panicked
    end.
End run.

(** ** Layouts *)

Definition with_layout (l : StateVectorLayout) (s : SimulatorConfig) : SimulatorConfig :=
  mkSimulator (seed s) (parallel s) (backend s) l (noise s).

Section layout_theorems.
Context `{Machine} {R : Type} `{Rng R}.
Variable run_mps_mode : SimulatorConfig -> Circuit -> Z -> nat -> res QuantumResult.
Variable mps_statevector : Circuit -> nat -> res (list Complex).
Hypothesis mps_layout : forall l s c shots d, run_mps_mode (with_layout l s) c shots d = run_mps_mode s c shots d.

Lemma same_final c z z' :
  zero_state (num_qubits c) = Ok z -> zero_state_soa (num_qubits c) = Ok z' ->
  Forall (fun i => exact_instruction i = true) (instructions c) ->
  final_state SoA c = final_state AoS c /\ final_probabilities SoA c = final_probabilities AoS c.
Proof.
  intros Hz Hz' He. pose proof (same_zero _ _ _ Hz' Hz) as Hs. unfold final_state, final_probabilities.
  rewrite Hz, Hz'. cbn [mbind result_bind]. pose proof (same_sequence (num_qubits c) _ _ _ He Hs) as Hr.
  destruct (apply_gate_sequence_soa _ _ _) as [s|e], (apply_gate_sequence _ _ _) as [state|e']; try done; cbn [mbind result_bind].
  - split; [by destruct Hr as [_ <-]|]. by rewrite (same_probabilities _ _ Hr).
  - cbn in Hr. by subst e'.
Qed.

(** C31: the storage layout does not change what the simulator computes: when
    the registers can be allocated and every two-qubit gate has rows with
    entries in the first two columns only or a single entry, as all gates the
    circuit builder offers have, the runs and the state vectors of both layouts
    are equal, to the last bit, panics included. *)
Theorem layouts_agree s c shots z z' :
  zero_state (num_qubits c) = Ok z -> zero_state_soa (num_qubits c) = Ok z' ->
  Forall (fun i => exact_instruction i = true) (instructions c) ->
  simulator_run run_mps_mode (with_layout SoA s) c shots = simulator_run run_mps_mode (with_layout AoS s) c shots /\
  simulator_statevector mps_statevector (with_layout SoA s) c = simulator_statevector mps_statevector (with_layout AoS s) c.
Proof.
  intros Hz Hz' He. destruct (same_final c z z' Hz Hz' He) as [H1 H2].
  unfold simulator_run, simulator_statevector, run_sample_mode, effective_backend. cbn [noise backend seed statevector_layout with_layout].
  rewrite H1, H2. split; [|done]. destruct (shots =? 0); [done|].
  destruct (backend s); [done| |]; [by rewrite !mps_layout|case_bool_decide; [by rewrite !mps_layout|done]].
Qed.
End layout_theorems.

Lemma exact_diagonal g :
  gate_num_qubits g = 2%nat -> (forall r k, (r < 4)%nat -> (k < 4)%nat -> r <> k -> zero_entry g r k = true) -> exact_gate g = true.
Proof.
  intros Hg Hz. unfold exact_gate. rewrite Hg. cbn [Nat.eqb negb orb seq forallb]. unfold exact_row.
  repeat match goal with |- context [zero_entry g ?r ?k] =>
    first [constr_eq r k; fail 1 | rewrite (Hz r k) by lia] end.
  by rewrite !andb_true_r, !orb_true_r.
Qed.
(** The two-qubit gates of the builder, and their inverses. *)
Lemma builder_gates_exact `{Libm} theta k :
  forallb exact_gate ([gate_cnot; gate_cz; gate_swap; gate_cy; gate_rzz theta; gate_crk k]
                      ++ map dagger [gate_cnot; gate_cz; gate_swap; gate_cy; gate_rzz theta; gate_crk k]) = true.
Proof.
  assert (forall g, gate_num_qubits g = 2%nat ->
    forallb (fun r => forallb (fun k => bool_decide (r = k) || zero_entry g r k) (seq 0 4)) (seq 0 4) = true -> exact_gate g = true) as Hd.
  { intros g Hg Hz. apply exact_diagonal; [done|]. intros r j Hr Hj Hne. rewrite forallb_forall in Hz.
    specialize (Hz r ltac:(apply in_seq; lia)). rewrite forallb_forall in Hz. specialize (Hz j ltac:(apply in_seq; lia)).
    by rewrite bool_decide_false in Hz. }
  cbn [app map forallb]. rewrite !(Hd (gate_rzz theta)), !(Hd (gate_crk k)), (Hd (dagger (gate_rzz theta))), (Hd (dagger (gate_crk k))) by reflexivity.
  reflexivity.
Qed.

(** A rotation of each of two qubits, as one gate. *)
Definition rotation_by (c s : f64) : list (list f64) := [[c; fneg s]; [s; c]].
Definition tensor (a b : list (list f64)) : list (list Complex) :=
  flat_map (fun ra => map (fun rb => flat_map (fun x => map (fun y => mkComplex (fmul x y) f64_zero) rb) ra) b) a.
Definition rotations : Gate :=
  gate_two_qubit (str "RR")
    (tensor (rotation_by (f64_of_decimal false 6 (-1)) (f64_of_decimal false 8 (-1)))
            (rotation_by (f64_of_decimal false 28 (-2)) (f64_of_decimal false 96 (-2)))).
Definition rotated : Circuit := mkCircuit 2 0 (replicate 3 (GateOp rotations [0; 1]%nat)).

(** With a dense gate the rounding differs. *)
Theorem layouts_differ :
  let m := {| debug := true; try_reserve := fun _ => true |} in
  circuit_wf rotated /\ is_ok (final_state (H := m) AoS rotated) = true /\ is_ok (final_state (H := m) SoA rotated) = true /\
  final_state (H := m) SoA rotated <> final_state (H := m) AoS rotated.
Proof.
  cbv zeta. split; [|split; [vm_compute; reflexivity|split; [vm_compute; reflexivity|vm_compute; discriminate]]].
  split; [cbn; unfold MAX_QUBITS; lia|]. apply Forall_replicate. split; [reflexivity|].
  split; apply (bool_decide_unpack _); reflexivity.
Qed.
