(* ===== verification/SimulatorSpecs.v ===== *)
(** * What runs of circuits give

    On circuits of classical gates (X, CNOT, SWAP) the simulator computes
    exactly, in floating point, what the gates do to bits; measurements are
    certain, whatever numbers the generator draws. *)
From S2P Require Import Prelude RustStr RustParse Float64 Circuit CircuitOpt Qec StateVector Simulator.

(** ** Amplitudes 0 and 1, up to the sign of zeros *)

Definition c_null (c : Complex) : Prop := is_zero (c_re c) = true /\ is_zero (c_im c) = true.
Definition c_unit (c : Complex) : Prop := c_re c = f64_one /\ is_zero (c_im c) = true.
Definition c_is (b : bool) (c : Complex) : Prop := if b then c_unit c else c_null c.

Lemma is_zero_cases x : is_zero x = true -> x = f64_zero \/ x = fneg f64_zero.
Proof. destruct x as [[]| | |]; try done; auto. Qed.
Ltac unit_cases :=
  repeat match goal with
  | H : c_is ?b ?c |- _ => is_var b; destruct b
  | H : c_is true ?c |- _ => destruct c; destruct H as [? ?]; cbn [c_re c_im] in *; subst
  | H : c_is false ?c |- _ => destruct c; destruct H as [? ?]; cbn [c_re c_im] in *
  | H : is_zero ?x = true |- _ => apply is_zero_cases in H as [->| ->]
  end.

Lemma null_is_zero : c_null C_ZERO. Proof. done. Qed.
Lemma mul_one b c : c_is b c -> c_is b (c_mul C_ONE c).
Proof. intros Hc. unit_cases; vm_compute; auto. Qed.
Lemma mul_zero b c : c_is b c -> c_is false (c_mul C_ZERO c).
Proof. intros Hc. unit_cases; vm_compute; auto. Qed.
Lemma add_null_l b a c : c_is false a -> c_is b c -> c_is b (c_add a c).
Proof. intros Ha Hc. unit_cases; vm_compute; auto. Qed.
Lemma add_null_r b a c : c_is b a -> c_is false c -> c_is b (c_add a c).
Proof. intros Ha Hc. unit_cases; vm_compute; auto. Qed.
Lemma norm_sq_is b c : c_is b c -> norm_sq c = if b then f64_one else f64_zero.
Proof. intros Hc. unit_cases; vm_compute; reflexivity. Qed.
Lemma scale_one b c : c_is b c -> c_is b (c_scale c (fdiv f64_one (fsqrt f64_one))).
Proof. intros Hc. unit_cases; vm_compute; auto. Qed.
Create HintDb units.
#[local] Hint Resolve mul_one mul_zero add_null_l add_null_r : units.

(** ** Gates that permute basis states *)

Definition bit_of (k q : nat) : bool := Nat.testbit k q.
Definition classical_gate (g : Gate) (targets : list nat) (k : nat) : nat :=
  match targets with
  | [t] => if bool_decide (gate_name g = str "X") then put t (negb (bit_of k t)) k else k
  | [q0; q1] =>
      if bool_decide (gate_name g = str "CNOT") then put q1 (xorb (bit_of k q0) (bit_of k q1)) k
      else if bool_decide (gate_name g = str "SWAP") then put q1 (bit_of k q0) (put q0 (bit_of k q1) k)
      else k
  | _ => k
  end.
Definition is_classical (g : Gate) : Prop := g = gate_x \/ g = gate_cnot \/ g = gate_swap.

(** [state] is the basis state [k] of [n] qubits. *)
Definition is_basis (n k : nat) (state : list Complex) : Prop :=
  length state = (2 ^ n)%nat /\ (k < 2 ^ n)%nat /\ forall i, (i < 2 ^ n)%nat -> c_is (bool_decide (i = k)) (amp state i).

Lemma act1_x t (f : nat -> bool) (state : nat -> Complex) i :
  (forall b, c_is (f (put t b i)) (state (put t b i))) -> c_is (f (put t (negb (bit_of i t)) i)) (act1 gate_x t state i).
Proof.
  intros Hs. unfold act1, bit_of. cbv zeta. destruct (Nat.testbit i t); cbn [Nat.b2n negb].
  - change (gate_get gate_x 1 0) with C_ONE. change (gate_get gate_x 1 1) with C_ZERO. eauto with units.
  - change (gate_get gate_x 0 0) with C_ZERO. change (gate_get gate_x 0 1) with C_ONE. eauto with units.
Qed.

(** Two-qubit gates: row [b] has its only entry in column [perm b]. *)
Lemma act2_perm g (perm : bool * bool -> bool * bool) q0 q1 (f : nat -> bool) (state : nat -> Complex) i :
  (forall b c, gate_get g (2 * Nat.b2n b.1 + Nat.b2n b.2) (2 * Nat.b2n c.1 + Nat.b2n c.2) = if bool_decide (perm b = c) then C_ONE else C_ZERO) ->
  (forall b0 b1, c_is (f (both q0 q1 b0 b1 i)) (state (both q0 q1 b0 b1 i))) ->
  c_is (f (both q0 q1 (perm (bit_of i q0, bit_of i q1)).1 (perm (bit_of i q0, bit_of i q1)).2 i)) (act2 g q0 q1 state i).
Proof.
  intros Hg Hs. unfold act2. fold (bit_of i q0) (bit_of i q1). set (b := (bit_of i q0, bit_of i q1)).
  change (2 * Nat.b2n (bit_of i q0) + Nat.b2n (bit_of i q1))%nat with (2 * Nat.b2n b.1 + Nat.b2n b.2)%nat.
  specialize (Hg b). revert Hg. generalize (2 * Nat.b2n b.1 + Nat.b2n b.2)%nat. intros row Hg.
  unfold row_sum. cbv zeta. cbn [map nth fst snd].
  pose proof (Hg (false, false)) as G0. pose proof (Hg (false, true)) as G1. pose proof (Hg (true, false)) as G2. pose proof (Hg (true, true)) as G3.
  cbn [fst snd Nat.b2n Nat.mul Nat.add] in G0, G1, G2, G3. rewrite G0, G1, G2, G3. clear G0 G1 G2 G3 Hg.
  pose proof (Hs false false) as S0. pose proof (Hs false true) as S1. pose proof (Hs true false) as S2. pose proof (Hs true true) as S3.
  destruct (perm b) as [[] []]; cbn [fst snd]; unfold both in *; repeat (rewrite bool_decide_true by done || rewrite bool_decide_false by done); eauto 8 with units.
Qed.

(** ** Probabilities of a basis state *)

Definition indicator (k i : nat) : f64 := if bool_decide (i = k) then f64_one else f64_zero.
Lemma sum_indicator_out k l acc :
  k ∉ l -> (acc = f64_zero \/ acc = f64_one) -> fold_left fadd (map (indicator k) l) acc = acc.
Proof.
  revert acc. induction l as [|i l IH]; intros acc Hk Hacc; [done|]. apply not_elem_of_cons in Hk as [Hik Hk]. cbn [map fold_left].
  assert (fadd acc (indicator k i) = acc) as ->; [|by apply IH].
  unfold indicator. rewrite bool_decide_false by congruence. destruct Hacc as [->| ->]; vm_compute; reflexivity.
Qed.
Lemma sum_indicator k l : NoDup l -> f_sum (map (indicator k) l) = if bool_decide (k ∈ l) then f64_one else f64_zero.
Proof.
  unfold f_sum. intros Hn. case_bool_decide as Hk; [|apply sum_indicator_out; auto].
  induction l as [|i l IH]; [by apply not_elem_of_nil in Hk|]. apply NoDup_cons in Hn as [Hi Hn]. cbn [map fold_left].
  destruct (decide (i = k)) as [->|Hik].
  - assert (fadd f64_zero (indicator k k) = f64_one) as -> by (unfold indicator; rewrite bool_decide_true by done; vm_compute; reflexivity).
    apply sum_indicator_out; auto.
  - assert (fadd f64_zero (indicator k i) = f64_zero) as -> by (unfold indicator; rewrite bool_decide_false by done; vm_compute; reflexivity).
    apply elem_of_cons in Hk as [Hk|Hk]; [done|]. by apply IH.
Qed.

Lemma list_amp l : l = map (amp l) (seq 0 (length l)).
Proof.
  induction l as [|x l IH]; [done|]. cbn [length seq map]. rewrite <- seq_shift, map_map. f_equal. exact IH.
Qed.
Lemma basis_probabilities n k state : is_basis n k state -> map norm_sq state = map (indicator k) (seq 0 (2 ^ n)).
Proof.
  intros (Hl & Hk & Hs). rewrite (list_amp state), Hl, map_map. apply map_ext_in. intros i Hi%in_seq.
  apply norm_sq_is. apply Hs. lia.
Qed.
Lemma basis_normalized n k state : is_basis n k state -> normalized (map norm_sq state) = true.
Proof.
  intros Hb. unfold normalized. rewrite (basis_probabilities n k) by done. rewrite sum_indicator by apply NoDup_seq.
  rewrite bool_decide_true; [vm_compute; reflexivity|]. apply elem_of_seq. destruct Hb as (_ & Hk & _). lia.
Qed.

Section classical.
Context `{Machine}.

Lemma basis_asserted n k state : is_basis n k state -> asserted state = Ok state.
Proof. intros Hb. unfold asserted. by rewrite (basis_normalized n k). Qed.

Lemma basis_1q n k t state :
  (n < 64)%nat -> (t < n)%nat -> is_basis n k state ->
  exists out, apply_1q n t gate_x state = Ok out /\ is_basis n (put t (negb (bit_of k t)) k) out.
Proof.
  intros Hn Ht (Hl & Hk & Hs). destruct (apply_1q_spec n t gate_x state Hn Ht Hl) as (out & Hlo & Hamp & ->). exists out.
  assert (is_basis n (put t (negb (bit_of k t)) k) out) as Hb; [|split; [by eapply basis_asserted|done]].
  split_and!; [done|by apply put_lt|]. intros i Hi. rewrite Hamp by done.
  pose proof (act1_x t (fun j => bool_decide (j = k)) (amp state) i) as Ha. cbv beta in Ha.
  erewrite bool_decide_ext; [apply Ha; intros b; apply Hs; by apply put_lt|].
  unfold bit_of. split; [intros ->|intros <-]; rewrite put_bit, bool_decide_true, negb_involutive, put_put, put_id by done; done.
Qed.

Lemma basis_2q n k g (perm : bool * bool -> bool * bool) q0 q1 state :
  (n < 64)%nat -> (q0 < n)%nat -> (q1 < n)%nat -> q0 <> q1 -> is_basis n k state -> (forall b, perm (perm b) = b) ->
  (forall b c, gate_get g (2 * Nat.b2n b.1 + Nat.b2n b.2) (2 * Nat.b2n c.1 + Nat.b2n c.2) = if bool_decide (perm b = c) then C_ONE else C_ZERO) ->
  exists out, apply_2q n q0 q1 g state = Ok out /\
    is_basis n (both q0 q1 (perm (bit_of k q0, bit_of k q1)).1 (perm (bit_of k q0, bit_of k q1)).2 k) out.
Proof.
  intros Hn H0 H1 Hne (Hl & Hk & Hs) Hinv Hg. destruct (apply_2q_spec n q0 q1 g state Hn H0 H1 Hne Hl) as (out & Hlo & Hamp & ->). exists out.
  assert (forall i j, j = both q0 q1 (perm (bit_of i q0, bit_of i q1)).1 (perm (bit_of i q0, bit_of i q1)).2 i ->
    i = both q0 q1 (perm (bit_of j q0, bit_of j q1)).1 (perm (bit_of j q0, bit_of j q1)).2 j) as Hsym.
  { intros i j ->. set (p := perm (bit_of i q0, bit_of i q1)). destruct (both_bits q0 q1 Hne p.1 p.2 i) as [E0 E1].
    change (bit_of (both q0 q1 p.1 p.2 i) q0 = p.1) in E0. change (bit_of (both q0 q1 p.1 p.2 i) q1 = p.2) in E1. rewrite E0, E1.
    rewrite <- surjective_pairing. assert (perm p = (bit_of i q0, bit_of i q1)) as -> by apply Hinv. cbn [fst snd]. rewrite both_both. symmetry. by apply both_id. }
  eassert (is_basis n _ out) as Hb; [|split; [by eapply basis_asserted|exact Hb]].
  split_and!; [done|by apply both_lt|]. intros i Hi. rewrite Hamp by done.
  pose proof (act2_perm g perm q0 q1 (fun j => bool_decide (j = k)) (amp state) i Hg) as Ha. cbv beta in Ha.
  erewrite bool_decide_ext; [apply Ha; intros b0 b1; apply Hs; by apply both_lt|].
  split; intros E; [symmetry; by apply Hsym|apply Hsym; by symmetry].
Qed.

Definition cnot_perm (b : bool * bool) : bool * bool := (b.1, xorb b.1 b.2).
Definition swap_perm (b : bool * bool) : bool * bool := (b.2, b.1).

Lemma basis_gate n k g targets state :
  (n < 64)%nat -> is_classical g -> length targets = gate_num_qubits g -> targets_wf n targets -> is_basis n k state ->
  exists out, apply_gate n targets g state = Ok out /\ is_basis n (classical_gate g targets k) out.
Proof.
  intros Hn Hg Hlen [Hnd Hlt] Hb. unfold apply_gate, get_at.
  destruct Hg as [->|Hg]; [|assert (gate_num_qubits g = 2%nat) as H2 by (by destruct Hg as [->| ->])].
  - destruct targets as [|t [|]]; try done. cbn [gate_x gate_single gate_num_qubits lookup list_lookup mbind result_bind].
    apply Forall_cons in Hlt as [Ht _]. unfold classical_gate. rewrite bool_decide_true by done. by apply basis_1q.
  - rewrite H2 in Hlen |- *. destruct targets as [|q0 [|q1 [|]]]; try done. cbn [lookup list_lookup mbind result_bind].
    rewrite !Forall_cons in Hlt. destruct Hlt as (H0 & H1 & _).
    assert (q0 <> q1) as Hne. { apply NoDup_cons in Hnd as [Hnot _]. intros ->. apply Hnot. by left. }
    destruct Hg as [->| ->].
    + destruct (basis_2q n k gate_cnot cnot_perm q0 q1 state) as (out & Hout & Hbo); try done.
      { intros [[] []]; done. } { intros [[] []] [[] []]; vm_compute; reflexivity. }
      exists out. split; [done|]. unfold classical_gate. rewrite bool_decide_true by done. unfold both, cnot_perm in Hbo. cbn [fst snd] in Hbo.
      unfold bit_of in Hbo at 1. by rewrite put_id in Hbo.
    + destruct (basis_2q n k gate_swap swap_perm q0 q1 state) as (out & Hout & Hbo); try done.
      { intros [[] []]; done. } { intros [[] []] [[] []]; vm_compute; reflexivity. }
      exists out. split; [done|]. unfold classical_gate. rewrite bool_decide_false by done. rewrite bool_decide_true by done. exact Hbo.
Qed.
End classical.

(** The permutation is the one error correction reasons with. *)
Lemma qubit_of_nat k q : qubit q (Z.of_nat k) = Nat.testbit k q.
Proof.
  unfold qubit. rewrite Z.testbit_eqb, Nat.testbit_eqb by lia.
  change 2 with (Z.of_nat 2) at 1 2. rewrite <- Nat2Z.inj_pow, <- Nat2Z.inj_div, <- Nat2Z.inj_mod.
  destruct (Nat.eqb_spec ((k / 2 ^ q) mod 2) 1) as [->|Hne]; [done|]. apply Z.eqb_neq. lia.
Qed.
Lemma of_nat_bits a b : (forall q, Nat.testbit a q = qubit q b) -> 0 <= b -> Z.of_nat a = b.
Proof.
  intros Hq Hb. apply Z.bits_inj'. intros q Hq0. specialize (Hq (Z.to_nat q)). rewrite <- qubit_of_nat in Hq. unfold qubit in Hq.
  by rewrite Z2Nat.id in Hq by done.
Qed.
Lemma flip_nonneg q b : 0 <= b -> 0 <= flip q b.
Proof. intros Hb. unfold flip. apply Z.lxor_nonneg. split; [intros _; apply Z.pow_nonneg; lia|done]. Qed.

Lemma classical_permute n g targets k :
  is_classical g -> length targets = gate_num_qubits g -> targets_wf n targets ->
  Z.of_nat (classical_gate g targets k) = permute (gate_name g) targets (Z.of_nat k).
Proof.
  intros Hg Hlen [Hnd _]. destruct Hg as [->|[->| ->]].
  - destruct targets as [|t [|]]; try done. unfold classical_gate, permute. rewrite bool_decide_true, bool_decide_true by (done || by left).
    apply of_nat_bits; [|apply flip_nonneg; lia]. intros q. rewrite put_bit, qubit_flip, qubit_of_nat. by case_bool_decide; [subst|].
  - destruct targets as [|q0 [|q1 [|]]]; try done. unfold classical_gate, permute. rewrite !bool_decide_true by done.
    assert (q0 <> q1) as Hne. { apply NoDup_cons in Hnd as [Hnot _]. intros ->. apply Hnot. by left. }
    rewrite bool_decide_true, qubit_of_nat by done. cbn [andb]. unfold bit_of.
    destruct (Nat.testbit k q0); cbn [xorb]; [|by rewrite put_id].
    apply of_nat_bits; [|apply flip_nonneg; lia]. intros q. rewrite put_bit, qubit_flip, qubit_of_nat. by case_bool_decide; [subst|].
  - destruct targets as [|q0 [|q1 [|]]]; try done. unfold classical_gate, permute. rewrite !(bool_decide_false (gate_name gate_swap = str "CNOT")) by done.
    rewrite !bool_decide_true by done. rewrite !qubit_of_nat. unfold bit_of.
    destruct (Nat.testbit k q0) eqn:E0, (Nat.testbit k q1) eqn:E1; cbn [Bool.eqb];
      (apply of_nat_bits; [|repeat apply flip_nonneg; lia]); intros q; rewrite !put_bit, ?qubit_flip, ?qubit_of_nat;
      repeat case_bool_decide; subst; rewrite ?E0, ?E1; try done; congruence.
Qed.

(** ** Running bits *)

Definition register_value (register : list nat) (bits : list Z) : Z :=
  fold_left (fun value e => Z.lor value (if default 0 (bits !! e.2) =? 1 then 2 ^ Z.of_nat e.1 else 0)) (enumerate register) 0.
Definition classical_step (s : nat * list Z) (i : Instruction) : nat * list Z :=
  let (k, bits) := s in
  match i with
  | GateOp g targets => (classical_gate g targets k, bits)
  | ConditionalGate register value g targets =>
      if register_value register bits =? value then (classical_gate g targets k, bits) else (k, bits)
  | Measure q b => (k, <[b := if bit_of k q then 1 else 0]> bits)
  | Barrier _ => (k, bits)
  end.
Definition classical_run (c : Circuit) : nat * list Z :=
  fold_left classical_step (instructions c) (0%nat, replicate (num_classical_bits c) 0).
Definition classical_instruction (i : Instruction) : Prop :=
  match i with
  | GateOp g _ => is_classical g
  | ConditionalGate register _ g _ => is_classical g /\ (length register <= 64)%nat
  | _ => True
  end.

(** Numbers drawn are in [0, 1). *)
Class RngLaws (R : Type) `{Rng R} : Prop := {
  draw_range : forall r, fleb f64_zero (gen_f64 r).1 = true /\ fltb (gen_f64 r).1 f64_one = true;
}.

Section runs.
Context `{Machine} {R : Type} `{RngLaws R}.

Lemma zero_basis n z : (n < 64)%nat -> zero_state n = Ok z -> is_basis n 0 z.
Proof.
  intros Hn Hz. unfold zero_state in Hz. rewrite ushl_one in Hz by done. cbn [mbind result_bind] in Hz.
  destruct (umul _ _); [|done]. cbn [mbind result_bind] in Hz. destruct (reserve _ _); [|done]. cbn [mbind result_bind] in Hz.
  rewrite to_nat_pow2 in Hz. pose proof (Nat.pow_nonzero 2 n ltac:(lia)).
  rewrite set_at_ok in Hz by (rewrite length_replicate; lia). injection Hz as <-.
  split_and!; [by rewrite length_insert, length_replicate|lia|]. intros i Hi. rewrite amp_insert by (rewrite length_replicate; lia).
  case_bool_decide; [done|]. unfold amp. rewrite nth_lookup, lookup_replicate_2 by done. done.
Qed.

Lemma sample_indicator n k x :
  (k < 2 ^ n)%nat -> fleb f64_zero x = true -> fltb x f64_one = true ->
  sample_go (map (indicator k) (seq 0 (2 ^ n))) 0 f64_zero x = k.
Proof.
  intros Hk Hx0 Hx1.
  assert (forall m start, (start <= k < start + m)%nat -> sample_go (map (indicator k) (seq start m)) start f64_zero x = k) as Hgen.
  2: { apply Hgen. lia. }
  induction m as [|m IH]; intros start Hs; [lia|]. cbn [seq map sample_go]. destruct (decide (start = k)) as [->|Hne].
  - assert (fadd f64_zero (indicator k k) = f64_one) as -> by (unfold indicator; rewrite bool_decide_true by done; vm_compute; reflexivity).
    by rewrite Hx1.
  - assert (fadd f64_zero (indicator k start) = f64_zero) as -> by (unfold indicator; rewrite bool_decide_false by done; vm_compute; reflexivity).
    destruct (fltb x f64_zero) eqn:E; [by rewrite (fltb_fleb _ _ E) in Hx0|]. apply IH. lia.
Qed.

Lemma enumerate_amp state : enumerate state = map (fun i => (i, amp state i)) (seq 0 (length state)).
Proof.
  unfold enumerate. rewrite (list_amp state) at 2. generalize (seq 0 (length state)). intros l. induction l as [|i l IH]; [done|]. cbn. by rewrite IH.
Qed.
Lemma has_bit_spec i q : has_bit i (2 ^ q) = Nat.testbit i q.
Proof. unfold has_bit. rewrite (bool_decide_ext _ _ (land_put q i)). by destruct (Nat.testbit i q). Qed.

Lemma basis_probability_one n k q state :
  (n < 64)%nat -> (q < n)%nat -> is_basis n k state ->
  probability_one state q = Ok (if bit_of k q then f64_one else f64_zero).
Proof.
  intros Hn Hq (Hl & Hk & Hs). unfold probability_one. rewrite ushl_one by lia. cbn [mbind result_bind]. f_equal.
  rewrite to_nat_pow2, enumerate_amp, Hl.
  assert (forall l, (forall i, i ∈ l -> (i < 2 ^ n)%nat) ->
    map (fun e => norm_sq e.2) (List.filter (fun e => has_bit e.1 (2 ^ q)) (map (fun i => (i, amp state i)) l))
    = map (indicator k) (List.filter (fun i => Nat.testbit i q) l)) as ->.
  { induction l as [|i l IH]; intros Hin; [done|]. cbn [map List.filter fst]. rewrite has_bit_spec.
    specialize (IH (fun j Hj => Hin j (list_elem_of_further _ _ _ Hj))). destruct (Nat.testbit i q); [|exact IH].
    cbn [map snd]. f_equal; [|exact IH]. apply norm_sq_is, Hs, Hin. by left. }
  2: { intros i Hi%elem_of_seq. lia. }
  rewrite sum_indicator by (apply NoDup_ListNoDup, List.NoDup_filter, seq_NoDup).
  assert (k ∈ List.filter (fun i => Nat.testbit i q) (seq 0 (2 ^ n)) <-> bit_of k q = true) as Hiff.
  { rewrite list_elem_of_In, filter_In, in_seq. unfold bit_of. split; [tauto|]. split; [lia|done]. }
  destruct (bit_of k q); [rewrite bool_decide_true by tauto; done|]. rewrite bool_decide_false; [done|]. by intros ?%Hiff.
Qed.

Lemma basis_measure n k q state r :
  (n < 64)%nat -> (q < n)%nat -> is_basis n k state ->
  exists state', measure_qubit q state r = (Ok (if bit_of k q then 1 else 0, state'), (gen_f64 r).2) /\ is_basis n k state'.
Proof.
  intros Hn Hq Hb. unfold measure_qubit, probability_zero. rewrite (basis_probability_one n k) by done. cbn [mbind result_bind].
  unfold mbind, stm_bind, lift_result, draw. destruct (draw_range r) as [Hx0 Hx1]. destruct (gen_f64 r) as [x r'] eqn:Er. cbn [fst snd] in *.
  set (b := bit_of k q) in *.
  assert ((if fleb (f_clamp (fsub f64_one (if b then f64_one else f64_zero)) f64_zero f64_one) x then 1 else 0) = if b then 1 else 0) as Hout.
  { destruct b.
    - change (f_clamp (fsub f64_one f64_one) f64_zero f64_one) with f64_zero. by rewrite Hx0.
    - change (f_clamp (fsub f64_one f64_zero) f64_zero f64_one) with f64_one. by rewrite (fltb_fleb _ _ Hx1). }
  rewrite Hout.
  assert ((if (if b then 1 else 0) =? 0 then f_clamp (fsub f64_one (if b then f64_one else f64_zero)) f64_zero f64_one
    else fsub f64_one (f_clamp (fsub f64_one (if b then f64_one else f64_zero)) f64_zero f64_one)) = f64_one) as ->
    by (destruct b; vm_compute; reflexivity).
  change (fleb f64_one MEASUREMENT_EPSILON) with false. cbv iota. rewrite ushl_one by lia. rewrite to_nat_pow2.
  set (state' := collapse _ _ _ _).
  assert (is_basis n k state') as Hb'.
  { destruct Hb as (Hl & Hk & Hs). unfold state', collapse. split_and!; [by rewrite length_imap|done|]. intros i Hi.
    destruct (lookup_lt_is_Some_2 state i ltac:(lia)) as [a Ha]. unfold amp. rewrite nth_lookup, list_lookup_imap, Ha. cbn [fmap option_fmap option_map default from_option].
    unfold id. rewrite has_bit_spec. specialize (Hs i Hi). rewrite (amp_lookup _ _ _ Ha) in Hs.
    destruct (Bool.eqb _ _) eqn:E; [by apply scale_one|]. rewrite bool_decide_false; [done|]. intros ->.
    apply eqb_false_iff in E. apply E. unfold b, bit_of. by destruct (Nat.testbit k q). }
  unfold debug_assert_normalized, debug_assert. rewrite (basis_normalized n k) by done. cbn [orb panic_unless]. exists state'. done.
Qed.

(** ** Counting *)

Lemma run_bind {A B} (m : stm R (fault WarosError) A) (k : A -> stm R (fault WarosError) B) r :
  (m ≫= k) r = match m r with (Ok a, r') => k a r' | (Err e, r') => (Err e, r') end.
Proof. done. Qed.
Lemma constant_shots (f : stm R (fault WarosError) bytes) s (l : list nat) counts r :
  (forall r, exists r', f r = (Ok s, r')) ->
  exists r', foldM (fun _ counts => b ← f; mret (add_count counts b)) l counts r
    = (Ok (Nat.iter (length l) (fun counts => add_count counts s) counts), r').
Proof.
  intros Hf. revert counts r. induction l as [|x l IH]; intros counts r; [by exists r|]. cbn [foldM length].
  rewrite !run_bind. destruct (Hf r) as [r1 ->]. cbn [mret stm_ret]. destruct (IH (add_count counts s) r1) as [r' E]. exists r'.
  rewrite E. do 2 f_equal. symmetry. apply Nat.iter_succ_r.
Qed.
Lemma iter_count s m : Nat.iter (S m) (fun counts => add_count counts s) ∅ = {[ s := Z.of_nat (S m) ]}.
Proof.
  induction m as [|m IH]; [done|]. change (Nat.iter (S (S m)) ?f ?x) with (f (Nat.iter (S m) f x)). rewrite IH. unfold add_count.
  rewrite lookup_singleton_eq. cbn [default from_option]. unfold id. rewrite insert_singleton_eq. f_equal. lia.
Qed.

(** ** Sampling *)

Lemma classical_sequence n bits0 program k bits state :
  (n < 64)%nat -> Forall classical_instruction program -> Forall (instr_wf n bits0) program ->
  (exists b, mid_circuit b program = false) -> is_basis n k state ->
  exists out, apply_gate_sequence n program state = Ok out /\ is_basis n (fold_left classical_step program (k, bits)).1 out.
Proof.
  intros Hn Hc Hw. revert k bits state. induction Hc as [|i program Hi Hc IH]; intros k bits state [b Hm] Hb; [by exists state|].
  apply Forall_cons in Hw as [Hwi Hw]. unfold apply_gate_sequence. cbn [foldR fold_left]. destruct i as [g ts|cbs v g ts|q cb|qs]; cbn [mid_circuit] in Hm; try done.
  - destruct Hwi as [Hlen Hwt]. destruct (basis_gate n k g ts state) as (out & -> & Hbo); try done.
    cbn [mbind result_bind]. apply (IH Hw); [|done]. exists b. by destruct b.
  - cbn [mbind result_bind]. apply (IH Hw); [eauto|done].
  - cbn [mbind result_bind]. apply (IH Hw); [eauto|done].
Qed.

Lemma alloc_ok n : (forall b, try_reserve b = true) -> (n < 60)%nat -> (exists z, zero_state n = Ok z) /\ (exists z, zero_state_soa n = Ok z).
Proof.
  intros Hm Hn. unfold zero_state, zero_state_soa, reserve. rewrite ushl_one by lia. cbn [mbind result_bind].
  assert (umul (2 ^ Z.of_nat n) 16 = Ok (2 ^ Z.of_nat n * 16)) as ->.
  { unfold umul, panic_unless. assert (2 ^ Z.of_nat n * 16 < 2 ^ 64) as Hlt.
    { apply Z.lt_le_trans with (2 ^ 60 * 16); [|done]. apply Z.mul_lt_mono_pos_r; [lia|]. apply Z.pow_lt_mono_r; lia. }
    rewrite (proj2 (Z.ltb_lt _ _)) by done. cbn [orb]. rewrite Z.mod_small; [done|]. split; [lia|done]. }
  cbn [mbind result_bind]. rewrite !Hm. cbn [mbind result_bind]. rewrite to_nat_pow2. pose proof (Nat.pow_nonzero 2 n ltac:(lia)).
  rewrite !set_at_ok by (rewrite length_replicate; lia). cbn [mbind result_bind]. eauto.
Qed.

Lemma classical_exact program : Forall classical_instruction program -> Forall (fun i => exact_instruction i = true) program.
Proof.
  intros Hc. eapply Forall_impl; [exact Hc|]. intros [g ts|cbs v g ts|q cb|qs]; cbn; try done.
  intros [->|[->| ->]]; vm_compute; reflexivity.
Qed.

Lemma classical_final c layout :
  (forall b, try_reserve b = true) -> (num_qubits c < 60)%nat -> circuit_wf c -> Forall classical_instruction (instructions c) ->
  has_mid_circuit_measurement c = false ->
  final_probabilities layout c = Ok (map (indicator (classical_run c).1) (seq 0 (2 ^ num_qubits c))) /\
  ((classical_run c).1 < 2 ^ num_qubits c)%nat.
Proof.
  intros Hm Hn [_ Hw] Hc Hmid. destruct (alloc_ok (num_qubits c) Hm Hn) as [[z Hz] [z' Hz']].
  destruct (classical_sequence (num_qubits c) (num_classical_bits c) (instructions c) 0 (replicate (num_classical_bits c) 0) z) as (out & Hout & Hb); try done.
  { lia. } { by exists false. } { apply zero_basis; [lia|done]. }
  assert (final_probabilities AoS c = Ok (map (indicator (classical_run c).1) (seq 0 (2 ^ num_qubits c)))) as Hp.
  { unfold final_probabilities. rewrite Hz. cbn [mbind result_bind]. rewrite Hout. cbn [mbind result_bind]. by rewrite (basis_probabilities _ _ _ Hb). }
  split; [|apply Hb]. destruct layout; [done|].
  by destruct (same_final c z z' Hz Hz' (classical_exact _ Hc)) as [_ ->].
Qed.

Definition one_sample (ps : list f64) (c : Circuit) : stm R (fault WarosError) bytes := index ← sample ps; mret (outcome_string c index).
Lemma sample_fold ps c (l : list nat) counts r :
  foldM (fun _ counts => index ← sample ps; mret (add_count counts (outcome_string c index))) l counts r
  = foldM (fun _ counts => b ← one_sample ps c; mret (add_count counts b)) l counts r.
Proof.
  revert counts r. induction l as [|x l IH]; intros counts r; [done|]. cbn [foldM]. unfold one_sample. rewrite !run_bind.
  destruct (sample ps r) as [[index|e] r1]; [|done]. apply IH.
Qed.

Variable run_mps_mode : SimulatorConfig -> Circuit -> Z -> nat -> res QuantumResult.

(** C24: running a circuit of X, CNOT and SWAP gates that measures at the end
    gives a single outcome with certainty: the bits that the gates compute from
    zeros, in the order in which the qubits are measured (all qubits if none
    is).  This holds for both layouts, every seed and every number of shots. *)
Theorem sampled_run_computes s c shots :
  (forall b, try_reserve b = true) -> (num_qubits c < 60)%nat -> circuit_wf c -> Forall classical_instruction (instructions c) ->
  has_mid_circuit_measurement c = false -> 0 < shots -> is_ideal (noise s) = true -> effective_backend s (num_qubits c) = BStateVector ->
  simulator_run run_mps_mode s c shots
  = Ok (mkResult (output_qubits c) shots {[ outcome_string c (classical_run c).1 := shots ]}).
Proof.
  intros Hm Hn Hw Hc Hmid Hs Hi Hb. unfold simulator_run. rewrite (proj2 (Z.eqb_neq shots 0)) by lia. rewrite Hb, Hi, Hmid. cbn [negb orb].
  unfold run_sample_mode. destruct (classical_final c (statevector_layout s)) as [-> Hk]; try done. cbn [mbind result_bind].
  set (ps := map _ _). set (k := (classical_run c).1) in *.
  destruct (constant_shots (one_sample ps c) (outcome_string c k) (seq 0 (Z.to_nat shots)) ∅ (from_seed (seed s))) as [r' E].
  { intros r. exists (gen_f64 r).2. unfold one_sample, sample, mbind, stm_bind, draw. destruct (draw_range r) as [Hx0 Hx1]. destruct (gen_f64 r) as [x r1]. cbn [fst snd] in *.
    pose proof (Nat.pow_nonzero 2 (num_qubits c) ltac:(lia)).
    rewrite bool_decide_false by (unfold ps; rewrite length_map, length_seq; lia). cbn [mret stm_ret]. unfold ps. by rewrite sample_indicator. }
  rewrite length_seq in E. destruct (Z.to_nat shots) as [|m] eqn:Em; [lia|]. rewrite iter_count in E.
  rewrite sample_fold.
  rewrite E. cbn [fst mbind result_bind]. do 3 f_equal. lia.
Qed.

(** ** Shot by shot *)

Lemma read_register register bits :
  (length register <= 64)%nat -> Forall (fun b => (b < length bits)%nat) register ->
  read_classical_register register bits = Ok (register_value register bits).
Proof.
  unfold read_classical_register, register_value, enumerate. intros Hl Hf.
  assert (forall start acc, (start + length register <= 64)%nat ->
    foldR (fun e value => bit ← get_at bits e.2; b ← ushl (if bit =? 1 then 1 else 0) (Z.of_nat e.1); Ok (Z.lor value b))
      (zip (seq start (length register)) register) acc
    = Ok (fold_left (fun value e => Z.lor value (if default 0 (bits !! e.2) =? 1 then 2 ^ Z.of_nat e.1 else 0)) (zip (seq start (length register)) register) acc)) as Hgen.
  2: { apply Hgen. lia. }
  clear Hl. induction Hf as [|b register Hb Hf IH]; intros start acc Hs; [done|]. cbn [length seq zip zip_with foldR fold_left fst snd] in *.
  apply lookup_lt_is_Some_2 in Hb as [x Hx]. unfold get_at. rewrite Hx. cbn [mbind result_bind default from_option]. unfold id.
  assert (ushl (if x =? 1 then 1 else 0) (Z.of_nat start) = Ok (if x =? 1 then 2 ^ Z.of_nat start else 0)) as ->.
  { destruct (x =? 1); [apply ushl_one; lia|]. unfold ushl, panic_unless. by rewrite (proj2 (Z.ltb_lt _ _)) by lia. }
  cbn [mbind result_bind]. apply IH. lia.
Qed.

Lemma classical_shot_step n i k bits state r :
  (n < 64)%nat -> classical_instruction i -> instr_wf n (length bits) i -> is_basis n k state ->
  exists state' r', shot_step n None i (state, bits) r = (Ok (state', (classical_step (k, bits) i).2), r') /\
    is_basis n (classical_step (k, bits) i).1 state' /\ length (classical_step (k, bits) i).2 = length bits.
Proof.
  intros Hn Hc Hw Hb. destruct i as [g ts|cbs v g ts|q cb|qs]; cbn [shot_step classical_step fst snd].
  - destruct Hw as [Hlen Hwt]. destruct (basis_gate n k g ts state) as (out & Hout & Hbo); try done.
    exists out, r. unfold gate_with_noise, lift_result. rewrite !run_bind, Hout. done.
  - destruct Hw as (_ & Hcb & Hlen & Hwt). destruct Hc as [Hc H64]. unfold lift_result at 1. rewrite run_bind, read_register by done.
    destruct (register_value cbs bits =? v); [|by exists state, r].
    destruct (basis_gate n k g ts state) as (out & Hout & Hbo); try done.
    exists out, r. unfold gate_with_noise, lift_result. rewrite !run_bind, Hout. done.
  - destruct Hw as [Hq Hcb]. destruct (basis_measure n k q state r Hn Hq Hb) as (state' & Hm & Hb'). exists state', (gen_f64 r).2.
    rewrite run_bind, Hm. cbn [fst snd apply_measurement_noise mret stm_ret]. rewrite run_bind. cbn [mret stm_ret]. rewrite run_bind.
    unfold lift_result. rewrite set_at_ok by done. split_and!; [done|done|by rewrite length_insert].
  - by exists state, r.
Qed.

Lemma classical_shots n program k bits state r :
  (n < 64)%nat -> Forall classical_instruction program -> Forall (instr_wf n (length bits)) program -> is_basis n k state ->
  exists state' r', foldM (shot_step n None) program (state, bits) r = (Ok (state', (fold_left classical_step program (k, bits)).2), r').
Proof.
  intros Hn Hc. revert k bits state r. induction Hc as [|i program Hi Hc IH]; intros k bits state r Hw Hb; [by exists state, r|].
  apply Forall_cons in Hw as [Hwi Hw]. destruct (classical_shot_step n i k bits state r Hn Hi Hwi Hb) as (state1 & r1 & E & Hb1 & Hl).
  cbn [foldM fold_left]. rewrite run_bind, E. destruct (classical_step (k, bits) i) as [k1 bits1]. cbn [fst snd] in *. rewrite <- Hl in Hw.
  by apply IH.
Qed.

Definition bits_string (bits : list Z) : bytes := map (fun bit => bofZ (48 + bit)) bits.

(** C29: running a circuit of X, CNOT and SWAP gates with measurements in the
    middle and gates conditioned on them gives a single outcome with certainty:
    the classical bits the circuit computes, in the order of the bits. *)
Theorem shot_run_computes s c shots :
  (forall b, try_reserve b = true) -> (num_qubits c < 60)%nat -> circuit_wf c -> Forall classical_instruction (instructions c) ->
  has_mid_circuit_measurement c = true -> 0 < shots -> is_ideal (noise s) = true -> effective_backend s (num_qubits c) = BStateVector ->
  simulator_run run_mps_mode s c shots
  = Ok (mkResult (num_classical_bits c) shots {[ bits_string (classical_run c).2 := shots ]}).
Proof.
  intros Hm Hn [_ Hw] Hc Hmid Hs Hi Hb. unfold simulator_run. rewrite (proj2 (Z.eqb_neq shots 0)) by lia. rewrite Hb, Hi, Hmid. cbn [negb orb].
  destruct (alloc_ok (num_qubits c) Hm Hn) as [[z Hz] _]. unfold run_shot_mode. rewrite run_bind.
  destruct (constant_shots (run_single_shot c None) (bits_string (classical_run c).2) (seq 0 (Z.to_nat shots)) ∅ (from_seed (seed s))) as [r' E].
  { intros r. unfold run_single_shot, lift_result. rewrite run_bind, Hz, run_bind.
    destruct (classical_shots (num_qubits c) (instructions c) 0 (replicate (num_classical_bits c) 0) z r) as (state' & r1 & E); try done.
    - lia.
    - by rewrite length_replicate.
    - apply zero_basis; [lia|done].
    - rewrite E. by exists r1. }
  rewrite E. rewrite length_seq. destruct (Z.to_nat shots) as [|m] eqn:Em; [lia|]. rewrite iter_count. cbn [fst mret stm_ret]. do 3 f_equal. lia.
Qed.
End runs.

(** ** Counts of every run *)

Definition counted (counts : gmap bytes Z) : Z := map_fold (fun _ v acc => v + acc) 0 counts.
Lemma counted_insert_new counts k v : counts !! k = None -> counted (<[k := v]> counts) = v + counted counts.
Proof. intros Hk. unfold counted. rewrite map_fold_insert_L; [done|intros; lia|done]. Qed.
Lemma counted_add counts k : counted (add_count counts k) = counted counts + 1.
Proof.
  unfold add_count. destruct (counts !! k) as [v|] eqn:E; cbn [default from_option].
  - unfold id. rewrite <- insert_delete_eq, counted_insert_new by apply lookup_delete_eq.
    rewrite <- (insert_delete_id counts k v E) at 2. rewrite counted_insert_new by apply lookup_delete_eq. lia.
  - rewrite counted_insert_new by done. lia.
Qed.

Section counts.
Context `{Machine} {R : Type} `{Rng R}.

(** A loop that counts outcomes of width [w]. *)
Lemma counting_loop (f : stm R (fault WarosError) bytes) w (l : list nat) counts r out r' :
  (forall r s r1, f r = (Ok s, r1) -> length s = w) ->
  foldM (fun _ counts => b ← f; mret (add_count counts b)) l counts r = (Ok out, r') ->
  map_Forall (fun k _ => length k = w) counts ->
  counted out = counted counts + Z.of_nat (length l) /\ map_Forall (fun k _ => length k = w) out.
Proof.
  intros Hf. revert counts r. induction l as [|x l IH]; intros counts r Hrun Hw; cbn [foldM length] in *.
  - injection Hrun as <- <-. split; [lia|done].
  - rewrite !run_bind in Hrun. destruct (f r) as [[s|e] r1] eqn:E; [|done]. cbn [mret stm_ret] in Hrun.
    apply IH in Hrun as [Hc Hw']; [|by apply map_Forall_insert_2; [by eapply Hf|]]. rewrite counted_add in Hc. split; [lia|done].
Qed.

Lemma set_at_length {A} (l l' : list A) i x : set_at l i x = Ok l' -> length l' = length l.
Proof. unfold set_at. case_bool_decide; [|done]. intros [= <-]. apply length_insert. Qed.
Lemma shot_step_bits n noise_model i state bits r state' bits' r' :
  shot_step n noise_model i (state, bits) r = (Ok (state', bits'), r') -> length bits' = length bits.
Proof.
  unfold shot_step. destruct i as [g ts|cbs v g ts|q cb|qs]; intros E.
  - rewrite run_bind in E. destruct (gate_with_noise _ _ _ _ _ _) as [[s1|e] r1]; [|done]. by injection E as _ <- _.
  - rewrite run_bind in E. destruct (lift_result _ _) as [[w|e] r1]; [|done]. destruct (w =? v); [|by injection E as _ <- _].
    rewrite run_bind in E. destruct (gate_with_noise _ _ _ _ _ _) as [[s1|e] r2]; [|done]. by injection E as _ <- _.
  - rewrite run_bind in E. destruct (measure_qubit _ _ _) as [[m|e] r1]; [|done]. rewrite run_bind in E.
    destruct (apply_measurement_noise _ _ _) as [[o|e] r2]; [|done]. rewrite run_bind in E. unfold lift_result in E.
    destruct (set_at bits cb o) as [bits1|e] eqn:Es; [|done]. injection E as _ <- _. by eapply set_at_length.
  - destruct noise_model; [|by injection E as _ <- _].
    rewrite run_bind in E. destruct (apply_channels _ _ _ _ _) as [[s1|e] r1]; [|done]. by injection E as _ <- _.
Qed.
Lemma single_shot_width c noise_model r s r' : run_single_shot c noise_model r = (Ok s, r') -> length s = num_classical_bits c.
Proof.
  unfold run_single_shot. rewrite run_bind. destruct (lift_result _ _) as [[z|e] r1]; [|done]. rewrite run_bind.
  assert (forall program state bits r t r', foldM (shot_step (num_qubits c) noise_model) program (state, bits) r = (Ok t, r') -> length t.2 = length bits) as Hloop.
  { clear. induction program as [|i program IH]; intros state bits r t r' E; cbn [foldM] in E; [by injection E as <- _|].
    rewrite run_bind in E. destruct (shot_step _ _ _ _ _) as [[[state1 bits1]|e] r1] eqn:Es; [|done].
    apply IH in E. apply shot_step_bits in Es. lia. }
  destruct (foldM _ _ _ _) as [[t|e] r2] eqn:E; [|done]. apply Hloop in E. intros [= <- _]. rewrite length_map, E. apply length_replicate.
Qed.

Lemma outcome_width c index : length (outcome_string c index) = output_qubits c.
Proof. unfold outcome_string, output_qubits, basis_state_string. case_bool_decide; by rewrite length_map, ?length_seq. Qed.
Lemma one_sample_width ps c r s r' : one_sample ps c r = (Ok s, r') -> length s = output_qubits c.
Proof.
  unfold one_sample. rewrite run_bind. destruct (sample ps r) as [[i|e] r1]; [|done]. intros [= <- _]. apply outcome_width.
Qed.

Variable run_mps_mode : SimulatorConfig -> Circuit -> Z -> nat -> res QuantumResult.

(** Whatever the circuit, the noise and the numbers drawn, a run on the
    state-vector backend that returns has counted every shot once: the counts
    add up to the shots, and every outcome has the width the result reports. *)
Theorem run_counts_every_shot s c shots r :
  effective_backend s (num_qubits c) = BStateVector -> 0 <= shots -> simulator_run run_mps_mode s c shots = Ok r ->
  total_shots r = shots /\ counted (counts r) = shots /\ map_Forall (fun k _ => length k = result_qubits r) (counts r).
Proof.
  intros Hb Hs. unfold simulator_run. destruct (shots =? 0); [done|]. rewrite Hb. destruct (_ || _).
  - unfold run_shot_mode. rewrite run_bind. destruct (foldM _ _ _ _) as [[out|e] r'] eqn:E; [|done]. cbn [fst mret stm_ret]. intros [= <-].
    destruct (counting_loop _ (num_classical_bits c) _ _ _ _ _ (single_shot_width c _) E) as [Hc Hw]; [apply map_Forall_empty|].
    cbn [total_shots counts result_qubits]. rewrite length_seq in Hc. change (counted ∅) with 0 in Hc. split_and!; [done|lia|done].
  - unfold run_sample_mode. destruct (final_probabilities _ _) as [ps|e]; [|done]. cbn [mbind result_bind]. rewrite sample_fold.
    destruct (foldM _ _ _ _) as [[out|e] r'] eqn:E; [|done]. cbn [fst mbind result_bind]. intros [= <-].
    destruct (counting_loop _ (output_qubits c) _ _ _ _ _ (one_sample_width ps c) E) as [Hc Hw]; [apply map_Forall_empty|].
    cbn [total_shots counts result_qubits]. rewrite length_seq in Hc. change (counted ∅) with 0 in Hc. split_and!; [done|lia|done].
Qed.
End counts.

(** ** Examples *)

Definition half_rng : Rng () := {| gen_f64 := fun r => (f64_half, r); gen_range3 := fun r => (0%nat, r); from_seed := fun _ => () |}.
Lemma half_laws : RngLaws (H := half_rng) ().
Proof. constructor. intros r. split; vm_compute; reflexivity. Qed.
Definition large_machine : Machine := {| debug := true; try_reserve := fun _ => true |}.
Definition no_mps : SimulatorConfig -> Circuit -> Z -> nat -> res QuantumResult :=
  fun _ _ _ _ => Err (Raised (SimulationError (str "no matrix-product backend"))).

Definition copy_circuit : Circuit :=
  mkCircuit 2 2 [GateOp gate_x [0]; GateOp gate_cnot [0; 1]; Measure 0 0; Measure 1 1]%nat.
(** The second qubit is set according to the first outcome. *)
Definition feedback_circuit : Circuit :=
  mkCircuit 2 2 [GateOp gate_x [0]; Measure 0 0; ConditionalGate [0] 1 gate_x [1]; GateOp gate_swap [0; 1]; Measure 1 1]%nat.
Ltac wf_instruction := split; [reflexivity|split; apply (bool_decide_unpack _); reflexivity].
Lemma copy_wf : circuit_wf copy_circuit.
Proof. split; [cbn; unfold MAX_QUBITS; lia|]. repeat apply List.Forall_cons; try apply List.Forall_nil; try wf_instruction; cbn; lia. Qed.
Lemma copy_classical : Forall classical_instruction (instructions copy_circuit).
Proof. repeat apply List.Forall_cons; try apply List.Forall_nil; cbn; unfold is_classical; auto. Qed.
Lemma feedback_wf : circuit_wf feedback_circuit.
Proof.
  split; [cbn; unfold MAX_QUBITS; lia|]. repeat apply List.Forall_cons; try apply List.Forall_nil; try wf_instruction; try (cbn; lia).
  split; [done|]. split; [|wf_instruction]. repeat constructor.
Qed.
Lemma feedback_classical : Forall classical_instruction (instructions feedback_circuit).
Proof. repeat apply List.Forall_cons; try apply List.Forall_nil; cbn; unfold is_classical; auto. split; [auto|lia]. Qed.

Lemma sampled_run_computes_witness :
  outcome_string copy_circuit (classical_run copy_circuit).1 = str "11" /\
  simulator_run (H := large_machine) (H0 := half_rng) no_mps builder_new copy_circuit 3
  = Ok (mkResult (output_qubits copy_circuit) 3 {[ outcome_string copy_circuit (classical_run copy_circuit).1 := 3 ]}).
Proof.
  split; [vm_compute; reflexivity|].
  refine (sampled_run_computes (H := large_machine) (H0 := half_rng) (H1 := half_laws) no_mps builder_new copy_circuit 3 _ _ copy_wf copy_classical _ _ _ _);
    [done|cbn; lia|reflexivity|lia|reflexivity|reflexivity].
Defined.

Lemma shot_run_computes_witness :
  bits_string (classical_run feedback_circuit).2 = str "11" /\
  simulator_run (H := large_machine) (H0 := half_rng) no_mps builder_new feedback_circuit 3
  = Ok (mkResult (num_classical_bits feedback_circuit) 3 {[ bits_string (classical_run feedback_circuit).2 := 3 ]}).
Proof.
  split; [vm_compute; reflexivity|].
  refine (shot_run_computes (H := large_machine) (H0 := half_rng) (H1 := half_laws) no_mps builder_new feedback_circuit 3 _ _ feedback_wf feedback_classical _ _ _ _);
    [done|cbn; lia|reflexivity|lia|reflexivity|reflexivity].
Defined.

Lemma bell_run :
  simulator_run (H := large_machine) (H0 := half_rng) no_mps builder_new (mkCircuit 1 1 [GateOp gate_h [0]; Measure 0 0]%nat) 2
  = Ok (mkResult 1 2 {[ str "0" := 2 ]}).
Proof. vm_compute. reflexivity. Qed.
Lemma run_counts_every_shot_witness : counted {[ str "0" := 2 ]} = 2.
Proof.
  destruct (run_counts_every_shot (H := large_machine) (H0 := half_rng) no_mps builder_new (mkCircuit 1 1 [GateOp gate_h [0]; Measure 0 0]%nat) 2
    (mkResult 1 2 {[ str "0" := 2 ]})) as (_ & E & _); [reflexivity|lia|exact bell_run|exact E].
Defined.

(** The strings of the two modes are ordered differently: by measurement, and by
    classical bit.  A circuit that stores qubit 0 in bit 1 and qubit 1 in bit 0
    gives one string without noise and its reverse with a noise channel that
    never acts. *)
Definition crossed_circuit : Circuit := mkCircuit 2 2 [GateOp gate_x [0]; Measure 0 1; Measure 1 0]%nat.
Definition inert_noise : NoiseModel := mkNoise [] [] [] [ReadoutError f64_half].

Lemma layouts_agree_witness :
  simulator_statevector (H := large_machine) (fun _ _ => Err Panicked) (with_layout SoA builder_new) copy_circuit
  = simulator_statevector (H := large_machine) (fun _ _ => Err Panicked) (with_layout AoS builder_new) copy_circuit.
Proof.
  refine (proj2 (layouts_agree (H := large_machine) (H0 := half_rng) no_mps (fun _ _ => Err Panicked) _ builder_new copy_circuit 3
    [C_ONE; C_ZERO; C_ZERO; C_ZERO] (mkSoA [f64_one; f64_zero; f64_zero; f64_zero] (replicate 4 f64_zero)) _ _ _));
    [done|vm_compute; reflexivity|vm_compute; reflexivity|].
  repeat apply List.Forall_cons; try apply List.Forall_nil; vm_compute; reflexivity.
Defined.

