(* ===== verification/Simon.v ===== *)
(** * Simon's algorithm (crates/waros-quantum/src/algorithms/simon.rs)

    The classical side of the algorithm: the rank of linear equations over the
    field of two elements by elimination, the search for their solution, the
    collection of equations, and the oracle.  An index outside a vector panics,
    which is [None].  The theorems: elimination counts correctly, so that one
    equation less than unknowns leaves one solution and the search finds it;
    and the oracle hides exactly the secret. *)
From S2P Require Import Prelude RustStr RustParse Float64 Circuit CircuitOpt Qec Qft StateVector Simulator SimulatorSpecs.

(** ** Equations *)

Definition parity_dot (lhs rhs : list bool) : bool :=
  fold_left (fun parity p => xorb parity (p.1 && p.2)) (zip lhs rhs) false.

(** A shift by 64 or more is masked; with overflow checks the width panics first. *)
Definition bits_from_index (index : Z) (width : nat) : list bool :=
  map (fun bit => Z.land (Z.shiftr index (Z.of_nat (bit mod 64))) 1 =? 1) (seq 0 width).

Definition solve_gf2 `{Machine} (equations : list (list bool)) (width : nat) : res (list bool) :=
  bound ← ushl 1 (Z.of_nat width);
  let candidates := map (fun c => bits_from_index (Z.of_nat c) width) (seq 1 (Z.to_nat bound - 1)) in
  Ok (default (replicate width false) (find_first (fun bits => forallb (fun equation => negb (parity_dot equation bits)) equations) candidates)).

(** ** Rank *)

Definition bit_at (rows : list (list bool)) (row column : nat) : option bool := r ← rows !! row; r !! column.

(** [(rank..rows.len()).find(|row| rows[*row][column])]. *)
Fixpoint find_pivot (rows : list (list bool)) (column : nat) (candidates : list nat) : option (option nat) :=
  match candidates with
  | [] => Some None
  | row :: rest => b ← bit_at rows row column; if (b : bool) then Some (Some row) else find_pivot rows column rest
  end.
Definition swap_rows (rows : list (list bool)) (a b : nat) : option (list (list bool)) :=
  ra ← rows !! a; rb ← rows !! b; Some (<[a := rb]> (<[b := ra]> rows)).
(** [rows[row][column..width] ^= rows[rank][column..width]]. *)
Definition xor_from (column width : nat) (destination source : list bool) : option (list bool) :=
  if bool_decide (width <= length destination /\ width <= length source)%nat
  then Some (take column destination
             ++ zip_with xorb (take (width - column) (drop column destination)) (take (width - column) (drop column source))
             ++ drop width destination)
  else None.
Definition eliminate_row (rank column width row : nat) (rows : list (list bool)) : option (list (list bool)) :=
  if bool_decide (row = rank) then Some rows
  else
    b ← bit_at rows row column;
    if (b : bool) then
      pivot_values ← rows !! rank; destination ← rows !! row;
      r ← xor_from column width destination pivot_values;
      Some (<[row := r]> rows)
    else Some rows.
Fixpoint eliminate (rank column width : nat) (rs : list nat) (rows : list (list bool)) : option (list (list bool)) :=
  match rs with
  | [] => Some rows
  | row :: rs' => rows' ← eliminate_row rank column width row rows; eliminate rank column width rs' rows'
  end.

Fixpoint rank_loop (width : nat) (columns : list nat) (rows : list (list bool)) (rank : nat) : option nat :=
  match columns with
  | [] => Some rank
  | column :: columns' =>
      found ← find_pivot rows column (seq rank (length rows - rank));
      match found with
      | None => rank_loop width columns' rows rank
      | Some pivot_row =>
          rows1 ← swap_rows rows rank pivot_row;
          rows2 ← eliminate rank column width (seq 0 (length rows1)) rows1;
          if bool_decide (S rank = length rows2) then Some (S rank) else rank_loop width columns' rows2 (S rank)
      end
  end.
Definition gf2_rank (equations : list (list bool)) (width : nat) : option nat := rank_loop width (seq 0 width) equations 0.
Definition increases_rank (existing : list (list bool)) (candidate : list bool) (width : nat) : option bool :=
  previous ← gf2_rank existing width;
  augmented ← gf2_rank (existing ++ [candidate]) width;
  Some (bool_decide (previous < augmented)%nat).

(** ** Vectors *)

Definition bit (r : list bool) (i : nat) : bool := nth i r false.
Fixpoint xsum (f : nat -> bool) (l : list nat) : bool := match l with [] => false | i :: l' => xorb (f i) (xsum f l') end.

Lemma xsum_xor f g l : xsum (fun i => xorb (f i) (g i)) l = xorb (xsum f l) (xsum g l).
Proof. induction l as [|i l IH]; [done|]. cbn. rewrite IH. by destruct (f i), (g i), (xsum f l), (xsum g l). Qed.
Lemma xsum_zero f l : (forall i, i ∈ l -> f i = false) -> xsum f l = false.
Proof.
  induction l as [|i l IH]; intros Hf; [done|]. cbn. rewrite Hf by (by left). rewrite IH by (intros; apply Hf; by right). done.
Qed.
Lemma xsum_single f l p : NoDup l -> p ∈ l -> (forall i, i ∈ l -> i <> p -> f i = false) -> xsum f l = f p.
Proof.
  intros Hn Hp Hf. induction l as [|i l IH]; [by apply not_elem_of_nil in Hp|]. apply NoDup_cons in Hn as [Hi Hn]. cbn.
  destruct (decide (i = p)) as [->|Hip].
  - rewrite xsum_zero; [apply xorb_false_r|]. intros j Hj. apply Hf; [by right|]. intros ->. done.
  - apply elem_of_cons in Hp as [->|Hp]; [done|]. rewrite (Hf i) by (done || by left). rewrite IH; [apply xorb_false_l|done|done|].
    intros j Hj. apply Hf. by right.
Qed.

Lemma dot_xsum a b : length a = length b -> parity_dot a b = xsum (fun i => bit a i && bit b i) (seq 0 (length a)).
Proof.
  unfold parity_dot. assert (forall acc, length a = length b ->
    fold_left (fun parity p => xorb parity (p.1 && p.2)) (zip a b) acc = xorb acc (xsum (fun i => bit a i && bit b i) (seq 0 (length a)))) as Hgen.
  { revert b. induction a as [|x a IH]; intros [|y b] acc Hl; try done; [by rewrite xorb_false_r|]. cbn [zip zip_with fold_left fst snd].
    rewrite IH by (cbn in Hl; lia). cbn [length seq]. cbn [xsum bit nth]. rewrite <- seq_shift.
    assert (forall l, xsum (fun i => bit (x :: a) i && bit (y :: b) i) (map S l) = xsum (fun i => bit a i && bit b i) l) as Hs.
    { induction l as [|i l IHl]; [done|]. cbn. by rewrite <- IHl. }
    rewrite <- (Hs (seq 0 (length a))). by rewrite xorb_assoc. }
  intros Hl. rewrite Hgen by done. apply xorb_false_l.
Qed.

(** ** One column *)

Definition xor_rows (a b : list bool) : list bool := zip_with xorb a b.
Lemma bit_xor a b i : length a = length b -> bit (xor_rows a b) i = xorb (bit a i) (bit b i).
Proof.
  revert b i. induction a as [|x a IH]; intros [|y b] [|i] Hl; try done. cbn in Hl |- *. apply (IH b i). lia.
Qed.
Lemma length_xor a b : length a = length b -> length (xor_rows a b) = length a.
Proof. intros Hl. unfold xor_rows. rewrite length_zip_with. lia. Qed.
Lemma bit_ext a b : length a = length b -> (forall i, (i < length a)%nat -> bit a i = bit b i) -> a = b.
Proof.
  intros Hl Hb. apply (nth_ext _ _ false false); [done|]. exact Hb.
Qed.

(** Below its first column the source is zero, so the suffix is the whole row. *)
Lemma xor_from_spec column width a b :
  length a = width -> length b = width -> (column <= width)%nat -> (forall j, (j < column)%nat -> bit b j = false) ->
  xor_from column width a b = Some (xor_rows a b).
Proof.
  intros Ha Hb Hc Hz. unfold xor_from. rewrite bool_decide_true by lia. f_equal.
  rewrite (drop_ge a width), app_nil_r by lia. rewrite (take_ge (drop column a)), (take_ge (drop column b)) by (rewrite length_drop; lia).
  rewrite <- (take_drop column a) at 3. rewrite <- (take_drop column b) at 2. unfold xor_rows.
  rewrite zip_with_app by (rewrite !length_take; lia). f_equal.
  apply bit_ext; [rewrite length_zip_with, !length_take; lia|]. intros i Hi. rewrite length_take in Hi.
  change (zip_with xorb (take column a) (take column b)) with (xor_rows (take column a) (take column b)).
  rewrite bit_xor by (rewrite !length_take; lia).
  assert (bit (take column b) i = false) as ->; [|by rewrite xorb_false_r].
  unfold bit. rewrite nth_firstn. rewrite (proj2 (Nat.ltb_lt _ _)) by lia. apply Hz. lia.
Qed.

Section column.
Variable (width column rank : nat) (pivot : list bool).
Hypothesis (Hwidth : length pivot = width) (Hcol : (column < width)%nat).
Hypothesis (Hzero : forall j, (j < column)%nat -> bit pivot j = false).

(** What happens to row [k]. *)
Definition reduced (k : nat) (r : list bool) : list bool :=
  if bool_decide (k = rank) then r else if bit r column then xor_rows r pivot else r.

Lemma eliminate_row_spec rows row r :
  rows !! rank = Some pivot -> rows !! row = Some r -> length r = width ->
  eliminate_row rank column width row rows = Some (<[row := reduced row r]> rows).
Proof.
  intros Hp Hr Hl. unfold eliminate_row, reduced. case_bool_decide as Hrow.
  - f_equal. symmetry. by apply list_insert_id.
  - unfold bit_at. rewrite Hr. cbn [mbind option_bind].
    destruct (lookup_lt_is_Some_2 r column ltac:(lia)) as [b Hb]. rewrite Hb. cbn [mbind option_bind].
    assert (bit r column = b) as -> by (unfold bit; by apply nth_lookup_Some). destruct b.
    + rewrite Hp. cbn [mbind option_bind]. rewrite xor_from_spec by (done || lia). done.
    + f_equal. symmetry. by apply list_insert_id.
Qed.

Lemma eliminate_spec rows :
  rows !! rank = Some pivot -> Forall (fun r => length r = width) rows ->
  eliminate rank column width (seq 0 (length rows)) rows = Some (imap reduced rows).
Proof.
  intros Hp Hw.
  assert (forall d todo, d ++ todo = rows ->
    eliminate rank column width (seq (length d) (length todo)) (imap reduced d ++ todo) = Some (imap reduced rows)) as Hgen.
  2: { exact (Hgen [] rows eq_refl). }
  intros d todo. revert d. induction todo as [|r todo IH]; intros d Hd.
  - rewrite app_nil_r in Hd. subst d. cbn. by rewrite app_nil_r.
  - cbn [length seq eliminate].
    assert (rows !! length d = Some r) as Hr by (rewrite <- Hd; by rewrite lookup_app_r, Nat.sub_diag by lia).
    assert ((imap reduced d ++ r :: todo) !! length d = Some r) as Hr'.
    { rewrite lookup_app_r by (rewrite length_imap; lia). by rewrite length_imap, Nat.sub_diag. }
    assert ((imap reduced d ++ r :: todo) !! rank = Some pivot) as Hp'.
    { rewrite <- Hd in Hp. destruct (decide (rank < length d)%nat) as [Hlt|Hge].
      - rewrite lookup_app_l in Hp |- * by (rewrite ?length_imap; lia). rewrite list_lookup_imap, Hp. cbn. unfold reduced. by rewrite bool_decide_true.
      - rewrite lookup_app_r in Hp |- * by (rewrite ?length_imap; lia). by rewrite length_imap. }
    rewrite (eliminate_row_spec _ _ r Hp' Hr').
    2: { exact (Forall_elem _ _ _ Hw (list_elem_of_lookup_2 _ _ _ Hr)). }
    cbn [mbind option_bind]. pose proof (IH (d ++ [r]) ltac:(by rewrite <- app_assoc)) as E.
    rewrite length_app in E. cbn [length] in E. rewrite Nat.add_1_r in E.
    rewrite <- E. f_equal. rewrite imap_app. cbn [imap]. rewrite <- app_assoc. cbn [app].
    rewrite insert_app_r_alt by (rewrite length_imap; lia). rewrite length_imap, Nat.sub_diag. cbn. by rewrite Nat.add_0_r.
Qed.
End column.

(** ** The invariant of the elimination *)

Definition solves (eqs : list (list bool)) (x : list bool) : Prop := Forall (fun r => parity_dot r x = false) eqs.

(** After the columns before [c]: one row per pivot column, the only one with a
    bit there; the other rows have no bit before [c]; and the solutions are those
    of the equations. *)
Record echelon (width c : nat) (eqs rows : list (list bool)) (pivots : list nat) : Prop := mkEchelon {
  ech_width : Forall (fun r => length r = width) rows;
  ech_nodup : NoDup pivots;
  ech_before : Forall (fun p => (p < c)%nat) pivots;
  ech_fits : (length pivots <= length rows)%nat;
  ech_pivot : forall i p k r, pivots !! i = Some p -> rows !! k = Some r -> bit r p = bool_decide (k = i);
  ech_zero : forall k r j, (length pivots <= k)%nat -> rows !! k = Some r -> (j < c)%nat -> bit r j = false;
  ech_solves : forall x, length x = width -> solves rows x <-> solves eqs x;
}.

Lemma find_pivot_spec width rows column candidates :
  Forall (fun r => length r = width) rows -> (column < width)%nat -> Forall (fun k => (k < length rows)%nat) candidates ->
  (find_pivot rows column candidates = Some None /\ forall k r, k ∈ candidates -> rows !! k = Some r -> bit r column = false) \/
  exists k r, find_pivot rows column candidates = Some (Some k) /\ k ∈ candidates /\ rows !! k = Some r /\ bit r column = true.
Proof.
  intros Hw Hc Hk. induction Hk as [|k l Hk Hl IH]; cbn [find_pivot].
  - left. split; [done|]. intros k r Hin. by apply not_elem_of_nil in Hin.
  - destruct (lookup_lt_is_Some_2 rows k Hk) as [r Hr]. unfold bit_at. rewrite Hr. cbn [mbind option_bind].
    pose proof (Forall_elem _ _ _ Hw (list_elem_of_lookup_2 _ _ _ Hr)) as Hlen. cbn in Hlen.
    destruct (lookup_lt_is_Some_2 r column ltac:(lia)) as [b Hb]. rewrite Hb. cbn [mbind option_bind].
    assert (bit r column = b) as Hbit by (unfold bit; by apply nth_lookup_Some). destruct b.
    + right. exists k, r. split_and!; [done|by left|done|done].
    + destruct IH as [[-> Hall]|(k' & r' & -> & Hin & H1 & H2)].
      * left. split; [done|]. intros k' r' [->|Hin]%elem_of_cons Hr'; [by simplify_eq|by eapply Hall].
      * right. exists k', r'. split_and!; [done|by right|done|done].
Qed.

Lemma solves_lookup rows x : solves rows x <-> forall k r, rows !! k = Some r -> parity_dot r x = false.
Proof. apply Forall_lookup. Qed.

Lemma echelon_skip width c eqs rows pivots :
  echelon width c eqs rows pivots ->
  (forall k r, (length pivots <= k)%nat -> rows !! k = Some r -> bit r c = false) -> echelon width (S c) eqs rows pivots.
Proof.
  intros [E1 E2 E3 E4 E5 E6 E7] Hc. split; try done.
  - eapply Forall_impl; [exact E3|]. cbn. lia.
  - intros k r j Hk Hr Hj. destruct (decide (j = c)) as [->|]; [by eapply Hc|]. eapply E6; [exact Hk|exact Hr|lia].
Qed.

Lemma echelon_swap width c eqs rows pivots k r0 rk :
  echelon width c eqs rows pivots -> rows !! length pivots = Some r0 -> rows !! k = Some rk -> (length pivots <= k)%nat ->
  echelon width c eqs (<[length pivots := rk]> (<[k := r0]> rows)) pivots.
Proof.
  intros [E1 E2 E3 E4 E5 E6 E7] H0 Hk Hle.
  pose proof (lookup_lt_Some _ _ _ H0) as Hlt0. pose proof (lookup_lt_Some _ _ _ Hk) as Hltk.
  assert (forall j r, (<[length pivots := rk]> (<[k := r0]> rows)) !! j = Some r ->
    exists j', rows !! j' = Some r /\ (j = j' \/ (length pivots <= j /\ length pivots <= j')%nat)) as Hback.
  { intros j r Hj. destruct (decide (j = length pivots)) as [->|H1].
    - rewrite list_lookup_insert_eq in Hj by (by rewrite length_insert). simplify_eq. exists k. auto.
    - rewrite list_lookup_insert_ne in Hj by done. destruct (decide (j = k)) as [->|H2].
      + rewrite list_lookup_insert_eq in Hj by done. simplify_eq. exists (length pivots). auto.
      + rewrite list_lookup_insert_ne in Hj by done. exists j. auto. }
  split; try done.
  - apply Forall_lookup. intros j r (j' & Hj' & _)%Hback. exact (Forall_elem _ _ _ E1 (list_elem_of_lookup_2 _ _ _ Hj')).
  - by rewrite !length_insert.
  - intros i p j r Hi Hj. destruct (Hback j r Hj) as (j' & Hj' & [->|[Hja Hjb]]); [by eapply E5|].
    pose proof (lookup_lt_Some _ _ _ Hi). rewrite (E5 i p j' r Hi Hj'). rewrite !bool_decide_false by lia. done.
  - intros j r c' Hj Hr Hc'. destruct (Hback j r Hr) as (j' & Hj' & [->|[_ Hb]]); eapply E6; [exact Hj|exact Hj'|done|exact Hb|exact Hj'|done].
  - intros x Hx. rewrite <- E7 by done. rewrite !solves_lookup. split.
    + intros Hs j r Hj. destruct (decide (j = length pivots)) as [->|H1].
      * simplify_eq. destruct (decide (k = length pivots)) as [->|H2].
        -- simplify_eq. apply (Hs (length pivots)). by rewrite list_lookup_insert_eq by (by rewrite length_insert).
        -- apply (Hs k). rewrite list_lookup_insert_ne by done. by apply list_lookup_insert_eq.
      * destruct (decide (j = k)) as [->|H2].
        -- simplify_eq. apply (Hs (length pivots)). by rewrite list_lookup_insert_eq by (by rewrite length_insert).
        -- apply (Hs j). by rewrite !list_lookup_insert_ne.
    + intros Hs j r (j' & Hj' & _)%Hback. by eapply Hs.
Qed.

Lemma dot_xor a b x : length a = length x -> length b = length x -> parity_dot (xor_rows a b) x = xorb (parity_dot a x) (parity_dot b x).
Proof.
  intros Ha Hb. rewrite !dot_xsum by (rewrite ?length_xor; lia). rewrite length_xor by lia. rewrite Hb, <- Ha, <- xsum_xor.
  induction (seq 0 (length a)) as [|i l IH]; [done|]. cbn [xsum]. rewrite IH, bit_xor by lia.
  f_equal. by destruct (bit a i), (bit b i), (bit x i).
Qed.

Lemma length_reduced width column rank pivot k r :
  length pivot = width -> length r = width -> length (reduced column rank pivot k r) = width.
Proof. intros Hp Hr. unfold reduced. case_bool_decide; [done|]. destruct (bit r column); [|done]. rewrite length_xor; lia. Qed.
Lemma bit_reduced width column rank pivot k r j :
  length pivot = width -> length r = width ->
  bit (reduced column rank pivot k r) j
  = if bool_decide (k = rank) then bit r j else xorb (bit r j) (bit r column && bit pivot j).
Proof.
  intros Hp Hr. unfold reduced. case_bool_decide; [done|]. destruct (bit r column); cbn [andb]; [|by rewrite xorb_false_r].
  apply bit_xor. lia.
Qed.

Lemma solves_reduced width column rank pivot rows x :
  Forall (fun r => length r = width) rows -> length x = width -> rows !! rank = Some pivot ->
  solves (imap (reduced column rank pivot) rows) x <-> solves rows x.
Proof.
  intros Hw Hx Hp. rewrite !solves_lookup.
  assert (forall k r, rows !! k = Some r -> length r = width) as Hlen.
  { intros k r Hr. exact (Forall_elem _ _ _ Hw (list_elem_of_lookup_2 _ _ _ Hr)). }
  pose proof (Hlen _ _ Hp) as Hlp.
  assert (forall k r, rows !! k = Some r -> parity_dot pivot x = false ->
    parity_dot (reduced column rank pivot k r) x = parity_dot r x) as Hred.
  { intros k r Hr H0. pose proof (Hlen _ _ Hr). unfold reduced. case_bool_decide; [done|]. destruct (bit r column); [|done].
    rewrite dot_xor, H0 by lia. apply xorb_false_r. }
  split; intros Hs k r Hr.
  - assert (parity_dot pivot x = false) as H0.
    { apply (Hs rank). rewrite list_lookup_imap, Hp. cbn. f_equal. unfold reduced. by rewrite bool_decide_true. }
    rewrite <- (Hred k r Hr H0). apply (Hs k). by rewrite list_lookup_imap, Hr.
  - rewrite list_lookup_imap in Hr. destruct (rows !! k) as [r'|] eqn:Hr'; [|done]. apply (inj Some) in Hr as <-.
    rewrite (Hred k r' Hr'); by eapply Hs.
Qed.

Lemma echelon_reduce width c eqs rows pivots pivot :
  echelon width c eqs rows pivots -> rows !! length pivots = Some pivot -> bit pivot c = true ->
  echelon width (S c) eqs (imap (reduced c (length pivots) pivot) rows) (pivots ++ [c]).
Proof.
  intros [E1 E2 E3 E4 E5 E6 E7] Hp Hc. pose proof (lookup_lt_Some _ _ _ Hp) as Hlt.
  assert (forall k r, rows !! k = Some r -> length r = width) as Hlen.
  { intros k r Hr. exact (Forall_elem _ _ _ E1 (list_elem_of_lookup_2 _ _ _ Hr)). }
  pose proof (Hlen _ _ Hp) as Hlp.
  assert (forall k r, imap (reduced c (length pivots) pivot) rows !! k = Some r ->
    exists r', rows !! k = Some r' /\ r = reduced c (length pivots) pivot k r') as Hback.
  { intros k r Hr. rewrite list_lookup_imap in Hr. destruct (rows !! k) as [r'|]; [|done]. apply (inj Some) in Hr as <-. eauto. }
  split.
  - apply Forall_lookup. intros k r (r' & Hr & ->)%Hback. apply length_reduced; [done|by eapply Hlen].
  - apply NoDup_app. split_and!; [done| |apply NoDup_singleton].
    intros p Hin ->%list_elem_of_singleton. pose proof (Forall_elem _ _ _ E3 Hin). cbn in *. lia.
  - apply Forall_app. split; [eapply Forall_impl; [exact E3|cbn; lia]|]. repeat constructor.
  - rewrite length_app, length_imap. cbn. lia.
  - intros i p k r Hi (r' & Hr & ->)%Hback. rewrite (bit_reduced width) by (done || by eapply Hlen).
    apply lookup_app_Some in Hi as [Hi|[Hi1 Hi2]].
    + pose proof (lookup_lt_Some _ _ _ Hi). rewrite (E5 i p k r' Hi Hr), (E5 i p _ pivot Hi Hp).
      rewrite (bool_decide_false (length pivots = i)) by lia. rewrite andb_false_r, xorb_false_r.
      by destruct (bool_decide (k = length pivots)).
    + assert (i = length pivots) as -> by (pose proof (lookup_lt_Some _ _ _ Hi2); cbn in *; lia).
      rewrite Nat.sub_diag in Hi2. cbn in Hi2. simplify_eq. rewrite Hc. case_bool_decide as Hk; [subst k; by simplify_eq|].
      rewrite andb_true_r. apply xorb_nilpotent.
  - rewrite length_app. cbn [length]. intros k r j Hk (r' & Hr & ->)%Hback Hj. rewrite (bit_reduced width) by (done || by eapply Hlen).
    rewrite bool_decide_false by lia. destruct (decide (j = c)) as [->|].
    + rewrite Hc, andb_true_r. apply xorb_nilpotent.
    + rewrite (E6 k r' j ltac:(lia) Hr ltac:(lia)), (E6 _ pivot j (le_n _) Hp ltac:(lia)). by rewrite andb_false_r.
  - intros x Hx. rewrite <- E7 by done. by apply (solves_reduced width).
Qed.

Lemma rank_loop_spec width eqs n :
  forall c rows pivots, (c + n = width)%nat -> echelon width c eqs rows pivots ->
  exists rows' pivots', rank_loop width (seq c n) rows (length pivots) = Some (length pivots') /\ echelon width width eqs rows' pivots'.
Proof.
  induction n as [|n IH]; intros c rows pivots Hn He.
  { exists rows, pivots. split; [done|]. by replace width with c at 2 by lia. }
  cbn [seq rank_loop]. pose proof (ech_width _ _ _ _ _ He) as Hw.
  destruct (find_pivot_spec width rows c (seq (length pivots) (length rows - length pivots))) as [[-> Hnone]|(k & rk & -> & Hk & Hrk & Hbit)].
  { done. } { lia. } { apply Forall_forall. intros k Hk%elem_of_seq. lia. }
  - cbn [mbind option_bind]. apply (IH (S c) rows pivots ltac:(lia)). apply echelon_skip; [done|].
    intros k r Hk Hr. apply (Hnone k r); [|done]. apply elem_of_seq. pose proof (lookup_lt_Some _ _ _ Hr). lia.
  - cbn [mbind option_bind]. apply elem_of_seq in Hk. pose proof (lookup_lt_Some _ _ _ Hrk) as Hltk.
    destruct (lookup_lt_is_Some_2 rows (length pivots) ltac:(lia)) as [r0 Hr0].
    unfold swap_rows. rewrite Hr0, Hrk. cbn [mbind option_bind].
    pose proof (echelon_swap _ _ _ _ _ k r0 rk He Hr0 Hrk ltac:(lia)) as He1.
    set (rows1 := <[length pivots := rk]> _) in *.
    assert (rows1 !! length pivots = Some rk) as Hp1 by (apply list_lookup_insert_eq; rewrite length_insert; lia).
    rewrite (eliminate_spec width c (length pivots) rk).
    2: { exact (Forall_elem _ _ _ Hw (list_elem_of_lookup_2 _ _ _ Hrk)). } 2: { lia. }
    2: { intros j Hj. exact (ech_zero _ _ _ _ _ He k rk j ltac:(lia) Hrk Hj). } 2: { done. } 2: { apply (ech_width _ _ _ _ _ He1). }
    cbn [mbind option_bind]. pose proof (echelon_reduce _ _ _ _ _ _ He1 Hp1 Hbit) as He2.
    assert (length (pivots ++ [c]) = S (length pivots)) as Hl by (rewrite length_app; cbn; lia).
    rewrite <- Hl. case_bool_decide as Hend.
    + exists (imap (reduced c (length pivots) rk) rows1), (pivots ++ [c]). split; [done|]. destruct He2 as [F1 F2 F3 F4 F5 F6 F7]. split; try done.
      * eapply Forall_impl; [exact F3|]. cbn. lia.
      * intros j r i Hj Hr. pose proof (lookup_lt_Some _ _ _ Hr). lia.
    + apply (IH (S c)); [lia|done].
Qed.

Lemma gf2_rank_spec width eqs :
  Forall (fun r => length r = width) eqs ->
  exists rows pivots, gf2_rank eqs width = Some (length pivots) /\ echelon width width eqs rows pivots.
Proof.
  intros Hw. apply (rank_loop_spec width eqs width 0 eqs []); [done|]. split; try done.
  - apply NoDup_nil_2.
  - cbn. lia.
  - intros. lia.
Qed.

(** ** One equation less than unknowns *)

Lemma dot_comm a b : length a = length b -> parity_dot a b = parity_dot b a.
Proof.
  intros Hl. rewrite !dot_xsum by done. rewrite Hl. induction (seq 0 (length b)) as [|i l IH]; [done|]. cbn [xsum].
  by rewrite IH, andb_comm.
Qed.

Lemma free_column pivots width :
  NoDup pivots -> Forall (fun p => (p < width)%nat) pivots -> S (length pivots) = width ->
  exists f, (f < width)%nat /\ forall j, (j < width)%nat -> j <> f -> j ∈ pivots.
Proof.
  intros Hn Hf Hl. assert (pivots ⊆+ seq 0 width) as [k Hk]%submseteq_Permutation.
  { apply NoDup_submseteq; [done|]. intros p Hp. pose proof (Forall_elem _ _ _ Hf Hp). cbn in *. apply elem_of_seq. lia. }
  pose proof (Permutation_length Hk) as Hlen. rewrite length_seq, length_app in Hlen.
  destruct k as [|f [|]]; cbn in Hlen; try lia. exists f. split.
  - assert (f ∈ seq 0 width) as Hin%elem_of_seq by (rewrite Hk; apply elem_of_app; right; by left). lia.
  - intros j Hj Hne. assert (j ∈ seq 0 width) as Hin by (apply elem_of_seq; lia). rewrite Hk in Hin.
    apply elem_of_app in Hin as [Hin|Hin]; [done|]. apply list_elem_of_singleton in Hin. done.
Qed.

(** A solution without a bit in the free column is zero. *)
Lemma solution_zero width eqs rows pivots f z :
  echelon width width eqs rows pivots -> (forall j, (j < width)%nat -> j <> f -> j ∈ pivots) ->
  length z = width -> solves rows z -> bit z f = false -> z = replicate width false.
Proof.
  intros He Hall Hl Hz Hf. apply bit_ext; [by rewrite length_replicate|]. intros p Hp. rewrite Hl in Hp.
  assert (bit (replicate width false) p = false) as ->.
  { unfold bit. apply nth_lookup_Some. by apply lookup_replicate_2. }
  destruct (decide (p = f)) as [->|Hpf]; [done|]. pose proof (Hall p Hp Hpf) as (i & Hi)%list_elem_of_lookup_1.
  pose proof (lookup_lt_Some _ _ _ Hi). pose proof (ech_fits _ _ _ _ _ He).
  destruct (lookup_lt_is_Some_2 rows i ltac:(lia)) as [r Hr].
  pose proof (Forall_elem _ _ _ (ech_width _ _ _ _ _ He) (list_elem_of_lookup_2 _ _ _ Hr)) as Hlr. cbn in Hlr.
  pose proof (proj1 (solves_lookup rows z) Hz i r Hr) as Hdot. rewrite dot_xsum in Hdot by lia. rewrite (xsum_single _ _ p) in Hdot.
  - rewrite (ech_pivot _ _ _ _ _ He i p i r Hi Hr), bool_decide_true in Hdot by done. done.
  - apply NoDup_seq.
  - apply elem_of_seq. lia.
  - intros j Hj%elem_of_seq Hjp. destruct (decide (j = f)) as [->|Hjf]; [by rewrite Hf, andb_false_r|].
    destruct (list_elem_of_lookup_1 _ _ (Hall j ltac:(lia) Hjf)) as (i' & Hi').
    rewrite (ech_pivot _ _ _ _ _ He i' j i r Hi' Hr), bool_decide_false; [done|]. intros ->. congruence.
Qed.

Lemma solution_unique width eqs rows pivots x y :
  echelon width width eqs rows pivots -> S (length pivots) = width ->
  length x = width -> length y = width -> solves eqs x -> solves eqs y ->
  x <> replicate width false -> y <> replicate width false -> x = y.
Proof.
  intros He Hrank Hx Hy Sx Sy Nx Ny. destruct (free_column pivots width) as (f & Hf & Hall); try done; try apply He.
  apply (ech_solves _ _ _ _ _ He) in Sx, Sy; try done.
  assert (bit x f = true /\ bit y f = true) as [Bx By].
  { split; apply not_false_is_true; intros Hb; [apply Nx|apply Ny]; by eapply solution_zero. }
  assert (xor_rows x y = replicate width false) as Hz.
  { eapply solution_zero; [done|exact Hall|rewrite length_xor; lia| |rewrite bit_xor by lia; by rewrite Bx, By].
    apply solves_lookup. intros k r Hr.
    pose proof (Forall_elem _ _ _ (ech_width _ _ _ _ _ He) (list_elem_of_lookup_2 _ _ _ Hr)) as Hlr. cbn in Hlr.
    rewrite dot_comm, dot_xor, !(dot_comm _ r) by (rewrite ?length_xor; lia).
    rewrite solves_lookup in Sx, Sy. by rewrite (Sx k r Hr), (Sy k r Hr). }
  apply bit_ext; [lia|]. intros i Hi. pose proof (bit_xor x y i ltac:(lia)) as Hb. rewrite Hz in Hb.
  unfold bit in Hb at 1. rewrite (nth_lookup_Some _ _ _ false) in Hb by (apply lookup_replicate_2; lia).
  by destruct (bit x i), (bit y i).
Qed.

(** ** Counting solutions *)

Fixpoint all_bits (n : nat) : list (list bool) :=
  match n with O => [[]] | S n' => map (cons false) (all_bits n') ++ map (cons true) (all_bits n') end.
Lemma elem_of_all_bits n x : x ∈ all_bits n <-> length x = n.
Proof.
  revert x. induction n as [|n IH]; intros x; cbn [all_bits].
  - rewrite list_elem_of_singleton. by destruct x.
  - rewrite elem_of_app, !list_elem_of_fmap. split.
    + intros [(y & -> & Hy%IH)|(y & -> & Hy%IH)]; cbn; lia.
    + destruct x as [|[] x]; cbn; [lia| |]; intros [= Hx%IH]; [right|left]; eauto.
Qed.
Lemma all_bits_nodup n : NoDup (all_bits n).
Proof.
  induction n as [|n IH]; cbn [all_bits]; [apply NoDup_singleton|]. apply NoDup_app. split_and!.
  - apply (NoDup_fmap_2 _). done.
  - intros x (y & -> & _)%list_elem_of_fmap (z & Hz & _)%list_elem_of_fmap. done.
  - apply (NoDup_fmap_2 _). done.
Qed.
Lemma length_all_bits n : length (all_bits n) = (2 ^ n)%nat.
Proof. induction n as [|n IH]; [done|]. cbn [all_bits]. rewrite length_app, !length_map, IH. cbn. lia. Qed.

#[local] Instance solves_dec eqs x : Decision (solves eqs x).
Proof. unfold solves. apply _. Defined.
Definition solutions (eqs : list (list bool)) (width : nat) : list (list bool) := filter (solves eqs) (all_bits width).
Lemma elem_of_solutions eqs width x : x ∈ solutions eqs width <-> solves eqs x /\ length x = width.
Proof. unfold solutions. by rewrite list_elem_of_filter, elem_of_all_bits. Qed.

Section free.
Variable (width : nat) (eqs rows : list (list bool)) (pivots : list nat).
Hypothesis (He : echelon width width eqs rows pivots).

Definition free_columns : list nat := filter (fun j => j ∉ pivots) (seq 0 width).
Lemma length_free : (length free_columns + length pivots = width)%nat.
Proof.
  unfold free_columns. pose proof (filter_app_complement (fun j => j ∈ pivots) (seq 0 width)) as Hp.
  apply Permutation_length in Hp. rewrite length_app, length_seq in Hp.
  assert (length (filter (fun j => j ∈ pivots) (seq 0 width)) = length pivots) as Hl; [|lia].
  apply Permutation_length, NoDup_Permutation; [apply NoDup_filter, NoDup_seq|apply He|]. intros j.
  rewrite list_elem_of_filter, elem_of_seq. split; [tauto|]. intros Hj. split; [done|].
  pose proof (Forall_elem _ _ _ (ech_before _ _ _ _ _ He) Hj). cbn in *. lia.
Qed.
Lemma elem_of_free j : j ∈ free_columns <-> (j < width)%nat /\ j ∉ pivots.
Proof. unfold free_columns. rewrite list_elem_of_filter, elem_of_seq. intuition lia. Qed.

(** Bits in the pivot columns follow from the free ones. *)
Lemma pivot_bit i p r x :
  pivots !! i = Some p -> rows !! i = Some r -> length x = width -> parity_dot r x = false ->
  bit x p = xsum (fun j => bit r j && bit x j) free_columns.
Proof.
  intros Hi Hr Hx Hdot.
  pose proof (Forall_elem _ _ _ (ech_width _ _ _ _ _ He) (list_elem_of_lookup_2 _ _ _ Hr)) as Hlr. cbn in Hlr.
  rewrite dot_xsum in Hdot by lia. rewrite Hlr in Hdot. set (f := fun j => bit r j && bit x j) in *.
  assert (forall l, xsum f l = xorb (xsum f (filter (fun j => j ∈ pivots) l)) (xsum f (filter (fun j => j ∉ pivots) l))) as Hsplit.
  { induction l as [|j l IH]; [done|]. cbn [xsum]. rewrite !filter_cons. destruct (decide (j ∈ pivots)) as [Hj|Hj].
    - rewrite decide_False by tauto. cbn [xsum]. by rewrite IH, xorb_assoc.
    - rewrite decide_True by done. cbn [xsum]. rewrite IH. by rewrite <- !xorb_assoc, (xorb_comm (f j)). }
  rewrite Hsplit in Hdot. rewrite (xsum_single _ (filter (fun j => j ∈ pivots) (seq 0 width)) p) in Hdot.
  - unfold f at 1 in Hdot. rewrite (ech_pivot _ _ _ _ _ He i p i r Hi Hr), bool_decide_true in Hdot by done. cbn [andb] in Hdot.
    unfold free_columns. by apply xorb_eq.
  - apply NoDup_filter, NoDup_seq.
  - apply list_elem_of_filter. pose proof (list_elem_of_lookup_2 _ _ _ Hi) as Hp. split; [done|]. apply elem_of_seq.
    pose proof (Forall_elem _ _ _ (ech_before _ _ _ _ _ He) Hp). cbn in *. lia.
  - intros j [Hj _]%list_elem_of_filter Hne. apply list_elem_of_lookup_1 in Hj as [i' Hi']. unfold f.
    rewrite (ech_pivot _ _ _ _ _ He i' j i r Hi' Hr), bool_decide_false; [done|]. intros ->. congruence.
Qed.

Definition restrict (x : list bool) : list bool := map (bit x) free_columns.
Lemma restrict_inj x y :
  length x = width -> length y = width -> solves rows x -> solves rows y -> restrict x = restrict y -> x = y.
Proof.
  intros Hx Hy Sx Sy Hr.
  assert (forall j, j ∈ free_columns -> bit x j = bit y j) as Hfree.
  { unfold restrict in Hr. revert Hr. generalize free_columns. intros l. induction l as [|i l IH]; intros Hr j Hj; [by apply not_elem_of_nil in Hj|].
    cbn in Hr. injection Hr as H1 H2. apply elem_of_cons in Hj as [->|Hj]; [done|]. by apply IH. }
  apply bit_ext; [lia|]. intros j Hj. rewrite Hx in Hj.
  destruct (decide (j ∈ pivots)) as [Hp|Hp]; [|apply Hfree, elem_of_free; done].
  apply list_elem_of_lookup_1 in Hp as [i Hi]. pose proof (lookup_lt_Some _ _ _ Hi). pose proof (ech_fits _ _ _ _ _ He).
  destruct (lookup_lt_is_Some_2 rows i ltac:(lia)) as [r Hrow]. rewrite solves_lookup in Sx, Sy.
  rewrite (pivot_bit i j r x), (pivot_bit i j r y) by eauto.
  revert Hfree. generalize free_columns. intros l Hfree. induction l as [|k l IH]; [done|]. cbn [xsum].
  rewrite (Hfree k) by (by left). f_equal. apply IH. intros. apply Hfree. by right.
Qed.

(** The solution with given bits in the free columns. *)
Definition free_value (a : list bool) (j : nat) : bool :=
  match list_find (eq j) free_columns with Some (k, _) => bit a k | None => false end.
Definition extend_bit (a : list bool) (j : nat) : bool :=
  match list_find (eq j) pivots with
  | Some (i, _) => xsum (fun f => bit (nth i rows []) f && free_value a f) free_columns
  | None => free_value a j
  end.
Definition extend (a : list bool) : list bool := map (extend_bit a) (seq 0 width).

Lemma length_extend a : length (extend a) = width.
Proof. unfold extend. by rewrite length_map, length_seq. Qed.
Lemma bit_extend a j : (j < width)%nat -> bit (extend a) j = extend_bit a j.
Proof.
  intros Hj. unfold bit, extend. rewrite nth_lookup, list_lookup_fmap, lookup_seq_lt by done. done.
Qed.
Lemma list_find_nodup (l : list nat) k j : NoDup l -> l !! k = Some j -> list_find (eq j) l = Some (k, j).
Proof.
  intros Hn Hk. apply list_find_Some. split_and!; [done|done|]. intros k' j' Hk' Hlt ->. pose proof (NoDup_lookup _ _ _ _ Hn Hk Hk'). lia.
Qed.
Lemma list_find_out (l : list nat) j : j ∉ l -> list_find (eq j) l = None.
Proof. intros Hj. apply list_find_None. apply Forall_forall. intros x Hx ->. done. Qed.

Lemma bit_extend_free a j : j ∈ free_columns -> bit (extend a) j = free_value a j.
Proof. intros Hj. apply elem_of_free in Hj as [Hj Hp]. rewrite bit_extend by done. unfold extend_bit. by rewrite list_find_out. Qed.
Lemma restrict_extend a : length a = length free_columns -> restrict (extend a) = a.
Proof.
  intros Ha. apply list_eq. intros k. unfold restrict. rewrite list_lookup_fmap.
  destruct (free_columns !! k) as [j|] eqn:Hk; cbn.
  - rewrite bit_extend_free by (by eapply list_elem_of_lookup_2). unfold free_value.
    rewrite (list_find_nodup _ k) by (done || apply NoDup_filter, NoDup_seq).
    pose proof (lookup_lt_Some _ _ _ Hk). destruct (lookup_lt_is_Some_2 a k ltac:(lia)) as [b Hb]. rewrite Hb. f_equal. by apply nth_lookup_Some.
  - symmetry. apply lookup_ge_None. apply lookup_ge_None in Hk. lia.
Qed.

Lemma extend_solves a : solves rows (extend a).
Proof.
  apply solves_lookup. intros k r Hr.
  pose proof (Forall_elem _ _ _ (ech_width _ _ _ _ _ He) (list_elem_of_lookup_2 _ _ _ Hr)) as Hlr. cbn in Hlr.
  rewrite dot_xsum by (by rewrite length_extend). rewrite Hlr.
  destruct (decide (k < length pivots)%nat) as [Hk|Hk].
  2: { apply xsum_zero. intros j Hj%elem_of_seq. rewrite (ech_zero _ _ _ _ _ He k r j) by (done || lia). done. }
  destruct (lookup_lt_is_Some_2 pivots k Hk) as [p Hp].
  assert (p < width)%nat as Hpw by (exact (Forall_elem _ _ _ (ech_before _ _ _ _ _ He) (list_elem_of_lookup_2 _ _ _ Hp))).
  assert (forall l, (forall j, j ∈ l -> (j < width)%nat) ->
    xsum (fun j => bit r j && bit (extend a) j) l
    = xorb (xsum (fun j => bool_decide (j = p) && bit (extend a) p) l) (xsum (fun f => bit r f && free_value a f) (filter (fun j => j ∉ pivots) l))) as Hsplit.
  { induction l as [|j l IH]; intros Hin; [done|]. cbn [xsum]. rewrite IH by (intros; apply Hin; by right). rewrite filter_cons.
    destruct (decide (j ∈ pivots)) as [Hj|Hj].
    - rewrite decide_False by tauto. apply list_elem_of_lookup_1 in Hj as [i Hi]. rewrite (ech_pivot _ _ _ _ _ He i j k r Hi Hr).
      rewrite <- xorb_assoc. do 2 f_equal. destruct (decide (j = p)) as [->|Hne].
      + assert (k = i) as <- by (eapply NoDup_lookup; [apply He|exact Hp|exact Hi]). by rewrite !bool_decide_true by done.
      + rewrite (bool_decide_false (j = p)), (bool_decide_false (k = i)); [done|intros ->; congruence|done].
    - rewrite decide_True by done. cbn [xsum]. rewrite bool_decide_false by (intros ->; apply Hj; by eapply list_elem_of_lookup_2).
      rewrite bit_extend_free by (apply elem_of_free; split; [apply Hin; by left|done]). cbn [andb]. rewrite xorb_false_l.
      by rewrite <- !xorb_assoc, (xorb_comm (_ && _)). }
  rewrite Hsplit by (intros j Hj%elem_of_seq; lia). rewrite (xsum_single _ _ p), bool_decide_true; [|done|apply NoDup_seq|apply elem_of_seq; lia|].
  2: { intros j _ Hne. by rewrite bool_decide_false. }
  rewrite bit_extend by done. unfold extend_bit. rewrite (list_find_nodup _ k) by (done || apply He).
  rewrite (nth_lookup_Some rows k [] r) by done. apply xorb_nilpotent.
Qed.

Lemma count_solutions : length (solutions eqs width) = (2 ^ (width - length pivots))%nat.
Proof.
  pose proof length_free as Hf. replace (width - length pivots)%nat with (length free_columns) by lia.
  rewrite <- length_all_bits.
  assert (forall x, x ∈ solutions eqs width <-> solves rows x /\ length x = width) as Hel.
  { intros x. rewrite elem_of_solutions. split; intros [H1 H2]; (split; [|done]); by apply (ech_solves _ _ _ _ _ He). }
  rewrite <- (length_map restrict). apply Permutation_length, NoDup_Permutation.
  - apply NoDup_fmap_2_strong; [|apply NoDup_filter, all_bits_nodup]. intros x y [Sx Hx]%Hel [Sy Hy]%Hel. by apply restrict_inj.
  - apply all_bits_nodup.
  - intros a. rewrite elem_of_all_bits, list_elem_of_fmap. split.
    + intros (x & -> & _). unfold restrict. apply length_map.
    + intros Ha. exists (extend a). split; [by rewrite restrict_extend|]. apply Hel. split; [apply extend_solves|apply length_extend].
Qed.
End free.

(** Elimination counts correctly: the rank of equations over the field of
    two elements is such that exactly [2 ^ (width - rank)] vectors solve them. *)
Theorem gf2_rank_counts_solutions eqs width :
  Forall (fun r => length r = width) eqs ->
  exists rank, gf2_rank eqs width = Some rank /\ (rank <= width)%nat /\ length (solutions eqs width) = (2 ^ (width - rank))%nat.
Proof.
  intros Hw. destruct (gf2_rank_spec width eqs Hw) as (rows & pivots & Hr & He). exists (length pivots). split; [done|].
  split; [pose proof (length_free width eqs rows pivots He); lia|by eapply count_solutions].
Qed.

(** ** An equation that does not increase the rank says nothing new *)

Lemma increases_rank_spec eqs candidate width :
  Forall (fun r => length r = width) eqs -> length candidate = width ->
  exists b, increases_rank eqs candidate width = Some b /\
    (b = false -> forall x, length x = width -> solves eqs x -> parity_dot candidate x = false).
Proof.
  intros Hw Hc. destruct (gf2_rank_spec width eqs Hw) as (rows & pivots & Hr & He).
  destruct (gf2_rank_spec width (eqs ++ [candidate])) as (rows' & pivots' & Hr' & He').
  { apply Forall_app. split; [done|]. by repeat constructor. }
  unfold increases_rank. rewrite Hr, Hr'. cbn [mbind option_bind]. eexists. split; [done|]. intros Hb%bool_decide_eq_false x Hx Sx.
  pose proof (count_solutions _ _ _ _ He) as N. pose proof (count_solutions _ _ _ _ He') as N'.
  pose proof (length_free _ _ _ _ He). pose proof (length_free _ _ _ _ He').
  assert (solutions (eqs ++ [candidate]) width ⊆+ solutions eqs width) as Hsub.
  { apply NoDup_submseteq; [apply NoDup_filter, all_bits_nodup|]. intros y. rewrite !elem_of_solutions.
    intros [[Hs _]%Forall_app Hl]. done. }
  apply submseteq_length_Permutation in Hsub.
  2: { rewrite N, N'. apply Nat.pow_le_mono_r; lia. }
  assert (x ∈ solutions (eqs ++ [candidate]) width) as Hin by (rewrite Hsub; by apply elem_of_solutions).
  apply elem_of_solutions in Hin as [[_ Hcand]%Forall_app _]. by apply Forall_cons in Hcand as [Hdot _].
Qed.

(** ** The search for the solution *)

Fixpoint bits_value (x : list bool) : Z := match x with [] => 0 | b :: x' => Z.b2z b + 2 * bits_value x' end.
Lemma bits_value_range x : 0 <= bits_value x < 2 ^ Z.of_nat (length x).
Proof.
  induction x as [|b x IH]; [done|]. cbn [bits_value length]. rewrite Nat2Z.inj_succ, Z.pow_succ_r by lia. destruct b; cbn [Z.b2z]; lia.
Qed.
Lemma testbit_value x i : Z.testbit (bits_value x) (Z.of_nat i) = bit x i.
Proof.
  revert i. induction x as [|b x IH]; intros [|i]; cbn [bits_value]; try apply Z.testbit_0_l.
  - rewrite Z.add_comm. apply Z.testbit_0_r.
  - rewrite Nat2Z.inj_succ, Z.add_comm, Z.testbit_succ_r by lia. apply IH.
Qed.
Lemma length_from_index v n : length (bits_from_index v n) = n.
Proof. unfold bits_from_index. by rewrite length_map, length_seq. Qed.
Lemma bit_from_index v n i : (n <= 64)%nat -> (i < n)%nat -> bit (bits_from_index v n) i = Z.testbit v (Z.of_nat i).
Proof.
  intros Hn Hi. unfold bit, bits_from_index. rewrite nth_lookup, list_lookup_fmap, lookup_seq_lt by done. cbn [fmap option_fmap option_map default from_option].
  unfold id. cbn [Nat.add]. rewrite (Nat.mod_small i 64) by lia. rewrite (Z.land_ones _ 1) by lia. change (2 ^ 1) with 2. rewrite <- Z.bit0_mod, Z.shiftr_spec, Z.add_0_l by lia.
  by destruct (Z.testbit v (Z.of_nat i)).
Qed.
Lemma from_index_value x : (length x <= 64)%nat -> bits_from_index (bits_value x) (length x) = x.
Proof.
  intros Hn. apply bit_ext; [apply length_from_index|]. intros i Hi. rewrite length_from_index in Hi. by rewrite bit_from_index, testbit_value.
Qed.
Lemma value_from_index v n : (n <= 64)%nat -> 0 <= v < 2 ^ Z.of_nat n -> bits_value (bits_from_index v n) = v.
Proof.
  intros Hn Hv. apply Z.bits_inj'. intros i Hi. rewrite <- (Z2Nat.id i) by done. rewrite testbit_value.
  destruct (decide (Z.to_nat i < n)%nat) as [Hlt|Hge]; [by apply bit_from_index|].
  unfold bit. rewrite nth_overflow by (rewrite length_from_index; lia). symmetry. rewrite Z2Nat.id by done.
  destruct (decide (v = 0)) as [->|]; [apply Z.testbit_0_l|]. apply Z.bits_above_log2; [lia|].
  apply Z.log2_lt_pow2; [lia|]. apply Z.lt_le_trans with (2 ^ Z.of_nat n); [lia|]. apply Z.pow_le_mono_r; lia.
Qed.
Lemma value_zero x : bits_value x = 0 -> x = replicate (length x) false.
Proof. induction x as [|b x IH]; [done|]. cbn [bits_value length replicate]. intros Hv. pose proof (bits_value_range x). destruct b; cbn [Z.b2z] in Hv; [lia|]. f_equal. apply IH. lia. Qed.
Lemma value_replicate n : bits_value (replicate n false) = 0.
Proof. induction n as [|n IH]; [done|]. cbn. by rewrite IH. Qed.

Lemma forallb_solves eqs x : forallb (fun equation => negb (parity_dot equation x)) eqs = true <-> solves eqs x.
Proof.
  rewrite forallb_forall. unfold solves. rewrite List.Forall_forall. split; intros Hs r Hr; specialize (Hs r Hr); by destruct (parity_dot r x).
Qed.

(** The only solution that is not zero is the one the search returns. *)
Lemma solve_unique `{Machine} eqs width s :
  (width < 64)%nat -> length s = width -> s <> replicate width false -> solves eqs s ->
  (forall x, length x = width -> solves eqs x -> x <> replicate width false -> x = s) -> solve_gf2 eqs width = Ok s.
Proof.
  intros Hn Hl Hs Sol Huniq. unfold solve_gf2. rewrite ushl_one by done. cbn [mbind result_bind]. f_equal.
  pose proof (bits_value_range s) as Hr. rewrite Hl in Hr.
  assert (bits_value s <> 0) as Hv0. { intros H0%value_zero. by rewrite Hl in H0. }
  destruct (find_first _ _) as [x|] eqn:E; cbn [default from_option].
  - unfold id. apply find_first_Some in E as [Hin Hx%forallb_solves]. apply list_elem_of_fmap in Hin as (v & -> & Hv%elem_of_seq).
    apply Huniq; [apply length_from_index|done|]. intros Hz. apply (f_equal bits_value) in Hz. rewrite value_replicate, value_from_index in Hz by lia. lia.
  - exfalso. apply find_first_None with (x := s) in E; [by rewrite (proj2 (forallb_solves eqs s) Sol) in E|].
    apply list_elem_of_fmap. exists (Z.to_nat (bits_value s)). split; [rewrite Z2Nat.id by lia; rewrite <- Hl; by rewrite from_index_value by lia|].
    apply elem_of_seq. lia.
Qed.

(** ** The algorithm *)

Record SimonResult : Type := mkSimon { secret : list bool; iterations_needed : nat }.
Definition raised {A} (r : result WarosError A) : res A := match r with Ok a => Ok a | Err e => Err (Raised e) end.
Definition or_panic {A} (o : option A) : res A := match o with Some a => Ok a | None => Err Panicked end.

(** [sort_by] is stable. *)
Fixpoint insert_by_probability (x : nat * f64) (l : list (nat * f64)) : list (nat * f64) :=
  match l with
  | [] => [x]
  | y :: l' => if fltb x.2 y.2 then y :: insert_by_probability x l' else x :: y :: l'
  end.
Definition sort_by_probability (l : list (nat * f64)) : list (nat * f64) := fold_right insert_by_probability [] l.

Section algorithm.
Context `{Machine}.
(** What the simulator answers: whether its noise is ideal, the state vector of
    a circuit, and the outcome of the [k]-th run of one shot. *)
Variable (ideal : bool) (statevector : Circuit -> res (list Complex)) (run_once : nat -> Circuit -> res bytes).

Definition simon_circuit (oracle : nat -> nat -> cst ()) (n : nat) : res Circuit :=
  circuit ← raised (circuit_new (2 * n));
  let (r, circuit) :=
    (_ ← foldM (fun q _ => add_h q) (seq 0 n) ();
     _ ← oracle 0%nat n;
     foldM (fun q _ => add_h q) (seq 0 n) ()) circuit in
  _ ← raised r; Ok circuit.

Definition input_register_probabilities (circuit : Circuit) (n : nat) : res (list f64) :=
  state ← statevector circuit;
  dim ← ushl 1 (Z.of_nat n);
  let input_mask := (Z.to_nat dim - 1)%nat in
  foldR (fun e probabilities =>
    let index := Nat.land e.1 input_mask in
    p ← get_at probabilities index; set_at probabilities index (fadd p (norm_sq e.2))) (enumerate state) (replicate (Z.to_nat dim) f64_zero).

Definition SUPPORT_EPSILON : f64 := f64_of_decimal false 1 (-9).
Definition supported_values (probabilities : list f64) : list nat :=
  map fst (sort_by_probability (List.filter (fun e => negb (bool_decide (e.1 = 0%nat)) && fltb SUPPORT_EPSILON e.2) (enumerate probabilities))).

Definition push_equation (n : nat) (equation : list bool) (equations : list (list bool)) : res (list (list bool)) :=
  increases ← or_panic (increases_rank equations equation n);
  Ok (if (increases : bool) then equations ++ [equation] else equations).
Definition enough (n : nat) (equations : list (list bool)) : res bool :=
  rank ← or_panic (gf2_rank equations n); Ok (bool_decide (n - 1 <= rank)%nat).

Fixpoint collect_ideal (n : nat) (values : list nat) (equations : list (list bool)) : res (list (list bool)) :=
  match values with
  | [] => Ok equations
  | value :: rest =>
      equations ← push_equation n (bits_from_index (Z.of_nat value) n) equations;
      stop ← enough n equations;
      if (stop : bool) then Ok equations else collect_ideal n rest equations
  end.

Definition bits_from_state (state : bytes) (width : nat) : list bool := map (fun c => bool_decide (c = x31)) (take width state).
Fixpoint collect_noisy (n : nat) (circuit : Circuit) (runs : list nat) (equations : list (list bool)) : res (list (list bool)) :=
  match runs with
  | [] => Ok equations
  | k :: rest =>
      state ← run_once k circuit;
      let equation := bits_from_state state n in
      equations ← (if existsb id equation then push_equation n equation equations else Ok equations);
      stop ← enough n equations;
      if (stop : bool) then Ok equations else collect_noisy n circuit rest equations
  end.

Definition simon_algorithm (oracle : nat -> nat -> cst ()) (n : nat) : res SimonResult :=
  if bool_decide (n = 0%nat) then
    Err (Raised (SimulationError (str "Simon's algorithm requires at least one input qubit")))
  else
    circuit ← simon_circuit oracle n;
    equations ←
      (if ideal then
         probabilities ← input_register_probabilities circuit n;
         collect_ideal n (supported_values probabilities) []
       else
         let (r, circuit) := foldM (fun q _ => _ ← measure q; mret ()) (seq 0 n) () circuit in
         _ ← raised r;
         collect_noisy n circuit (seq 0 (3 * n)) []);
    s ← solve_gf2 equations n;
    Ok (mkSimon s (length equations)).
End algorithm.

(** ** The oracle *)

Definition apply_hidden_xor_oracle (input_start output_start : nat) (secret : list bool) : cst () :=
  match position id secret with
  | None => throw (SimulationError (str "Simon oracle secret must be non-zero"))
  | Some pivot =>
      foldM (fun e _ =>
        if bool_decide (e.1 = pivot) then mret ()
        else
          _ ← add_cnot (input_start + e.1) (output_start + e.1);
          if (e.2 : bool) then add_cnot (input_start + pivot) (output_start + e.1) else mret ()) (enumerate secret) ()
  end.

(** ** Correctness *)

Section correct.
Context `{Machine}.
Variable (n : nat) (s : list bool).
Hypothesis (Hn : (n < 64)%nat) (Hlen : length s = n) (Hs : s <> replicate n false).

(** What the collected equations satisfy after the values [seen]. *)
Definition collected (seen : list nat) (eqs : list (list bool)) : Prop :=
  Forall (fun r => length r = n) eqs /\ solves eqs s /\
  forall v x, v ∈ seen -> length x = n -> solves eqs x -> parity_dot (bits_from_index (Z.of_nat v) n) x = false.

Lemma push_collected seen eqs v :
  collected seen eqs -> parity_dot (bits_from_index (Z.of_nat v) n) s = false ->
  exists eqs', push_equation n (bits_from_index (Z.of_nat v) n) eqs = Ok eqs' /\ collected (v :: seen) eqs'.
Proof.
  intros (Hw & Sol & Hseen) Hv. destruct (increases_rank_spec eqs (bits_from_index (Z.of_nat v) n) n Hw (length_from_index _ _)) as (b & E & Hb).
  unfold push_equation. rewrite E. cbn [or_panic mbind result_bind]. eexists. split; [done|]. destruct b.
  - split_and!.
    + apply Forall_app. split; [done|]. repeat constructor. apply length_from_index.
    + apply Forall_app. split; [done|]. by repeat constructor.
    + intros w x Hin Hx [Sx [Hd _]%Forall_cons]%Forall_app. apply elem_of_cons in Hin as [->|Hin]; [done|by apply Hseen].
  - split_and!; [done|done|]. intros w x Hin Hx Sx. apply elem_of_cons in Hin as [->|Hin]; [by apply Hb|by apply Hseen].
Qed.

(** Enough equations, or all values seen. *)
Lemma collect_spec values seen eqs :
  collected seen eqs -> (forall v, v ∈ values -> parity_dot (bits_from_index (Z.of_nat v) n) s = false) ->
  exists eqs' seen', collect_ideal n values eqs = Ok eqs' /\ collected seen' eqs' /\
    (enough n eqs' = Ok true \/ forall v, v ∈ values ++ seen -> v ∈ seen').
Proof.
  revert seen eqs. induction values as [|v values IH]; intros seen eqs Hc Hv; cbn [collect_ideal].
  - exists eqs, seen. split_and!; [done|done|]. right. intros w Hw. by rewrite app_nil_l in Hw.
  - destruct (push_collected seen eqs v Hc) as (eqs1 & -> & Hc1); [apply Hv; by left|]. cbn [mbind result_bind].
    assert (exists b, enough n eqs1 = Ok b) as [b Eb].
    { unfold enough. destruct (gf2_rank_spec n eqs1) as (rows & pivots & -> & _); [apply Hc1|]. cbn. eauto. }
    rewrite Eb. cbn [mbind result_bind]. destruct b.
    + exists eqs1, (v :: seen). auto.
    + destruct (IH (v :: seen) eqs1 Hc1) as (eqs' & seen' & E & Hc' & Hend); [intros; apply Hv; by right|].
      exists eqs', seen'. split_and!; [done|done|]. destruct Hend as [?|Hend]; [by left|right].
      intros w Hw. apply Hend. rewrite !elem_of_app, !elem_of_cons in *. tauto.
Qed.

Lemma enough_unique eqs :
  Forall (fun r => length r = n) eqs -> solves eqs s -> enough n eqs = Ok true -> solve_gf2 eqs n = Ok s.
Proof.
  intros Hw Sol He. destruct (gf2_rank_spec n eqs Hw) as (rows & pivots & Hr & Hech). unfold enough in He. rewrite Hr in He.
  cbn in He. injection He as He%bool_decide_eq_true. pose proof (length_free _ _ _ _ Hech) as Hfree.
  assert (S (length pivots) = n) as Hrank.
  { pose proof (count_solutions _ _ _ _ Hech) as Hcount. destruct (decide (length pivots = n)) as [Hfull|]; [|lia].
    exfalso. rewrite Hfull, Nat.sub_diag in Hcount. cbn in Hcount.
    assert ([replicate n false; s] ⊆+ solutions eqs n) as Hsub%submseteq_length; [|cbn in Hsub; lia].
    apply NoDup_submseteq.
    - apply NoDup_cons. split; [intros E%list_elem_of_singleton; by apply Hs|apply NoDup_singleton].
    - intros x. rewrite elem_of_cons, list_elem_of_singleton, elem_of_solutions. intros [->| ->]; [|done].
      split; [|apply length_replicate]. apply Forall_forall. intros r Hin. pose proof (Forall_elem _ _ _ Hw Hin) as Hlr. cbn in Hlr.
      rewrite dot_xsum by (by rewrite length_replicate). apply xsum_zero. intros i Hi%elem_of_seq.
      unfold bit at 2. rewrite (nth_lookup_Some _ _ _ false) by (apply lookup_replicate_2; lia). apply andb_false_r. }
  apply solve_unique; try done. intros x Hx Sx Nx. by eapply (solution_unique n eqs rows pivots).
Qed.

(** The vectors orthogonal to everything orthogonal to [s] are 0 and [s]. *)
Lemma double_orthogonal x :
  length x = n -> (forall y, length y = n -> parity_dot y s = false -> parity_dot y x = false) -> x <> replicate n false -> x = s.
Proof.
  intros Hx Hall Nx.
  assert (exists p, (p < n)%nat /\ bit s p = true) as (p & Hp & Hsp).
  { destruct (decide (Exists (fun b => b = true) s)) as [Hex|Hnex].
    - apply Exists_exists in Hex as (b & Hin & ->). apply list_elem_of_lookup_1 in Hin as [p Hp]. exists p. pose proof (lookup_lt_Some _ _ _ Hp).
      split; [lia|by apply nth_lookup_Some].
    - exfalso. apply Hs. symmetry. apply replicate_as_elem_of. split; [done|]. intros b Hb. destruct b; [|done]. exfalso. apply Hnex, Exists_exists. eauto. }
  assert (forall i, (i < n)%nat -> bit x i = bit s i && bit x p) as Hbit.
  { intros i Hi. destruct (decide (i = p)) as [->|Hne]; [by rewrite Hsp|].
    set (y := map (fun j => bool_decide (j = i) || bool_decide (j = p) && bit s i) (seq 0 n)).
    assert (length y = n) as Hy by (unfold y; by rewrite length_map, length_seq).
    assert (forall j, (j < n)%nat -> bit y j = bool_decide (j = i) || bool_decide (j = p) && bit s i) as Hyb.
    { intros j Hj. unfold bit at 1, y. by rewrite nth_lookup, list_lookup_fmap, lookup_seq_lt. }
    assert (forall z, length z = n -> parity_dot y z = xorb (bit z i) (bit s i && bit z p)) as Hdot.
    { intros z Hz. rewrite dot_xsum by lia. rewrite Hy.
      assert (forall l, (forall j, j ∈ l -> (j < n)%nat) -> xsum (fun j => bit y j && bit z j) l
        = xorb (xsum (fun j => bool_decide (j = i) && bit z i) l) (xsum (fun j => bool_decide (j = p) && (bit s i && bit z p)) l)) as ->.
      { induction l as [|j l IH]; intros Hin; [done|]. cbn [xsum]. rewrite IH by (intros; apply Hin; by right). rewrite Hyb by (apply Hin; by left).
        generalize (xsum (fun j => bool_decide (j = i) && bit z i) l) as A, (xsum (fun j => bool_decide (j = p) && (bit s i && bit z p)) l) as B. intros A B.
        destruct (decide (j = i)) as [->|H1]; [rewrite (bool_decide_false (i = p)) by done|destruct (decide (j = p)) as [->|H2]].
        - rewrite bool_decide_true by done. cbn [orb andb]. by destruct (bit z i), A, B.
        - rewrite bool_decide_false, bool_decide_true by done. cbn [orb andb]. by destruct (bit s i), (bit z p), A, B.
        - rewrite !bool_decide_false by done. cbn [orb andb]. by rewrite !xorb_false_l. }
      2: { intros j Hj%elem_of_seq. lia. }
      rewrite (xsum_single _ _ i), (xsum_single _ _ p); try apply NoDup_seq; try (apply elem_of_seq; lia); try (intros; by rewrite bool_decide_false).
      by rewrite !bool_decide_true. }
    pose proof (Hall y Hy) as Hxy. rewrite !Hdot in Hxy by done. rewrite Hsp, andb_true_r, xorb_nilpotent in Hxy. apply xorb_eq. by apply Hxy. }
  apply bit_ext; [lia|]. intros i Hi. rewrite Hx in Hi. rewrite Hbit by done. destruct (bit x p) eqn:Ep; [apply andb_true_r|].
  exfalso. apply Nx. apply bit_ext; [by rewrite length_replicate|]. intros j Hj. rewrite Hbit by lia. rewrite andb_false_r.
  unfold bit. symmetry. apply nth_lookup_Some, lookup_replicate_2. lia.
Qed.

Lemma insert_permutation x l : Permutation (insert_by_probability x l) (x :: l).
Proof. induction l as [|y l IH]; [done|]. cbn. destruct (fltb x.2 y.2); [|done]. rewrite IH. apply Permutation_swap. Qed.
Lemma sort_permutation l : Permutation (sort_by_probability l) l.
Proof. induction l as [|x l IH]; [done|]. cbn. by rewrite insert_permutation, IH. Qed.
Lemma elem_of_supported ps v :
  v ∈ supported_values ps <-> v <> 0%nat /\ exists p, ps !! v = Some p /\ fltb SUPPORT_EPSILON p = true.
Proof.
  unfold supported_values. rewrite sort_permutation. rewrite list_elem_of_fmap. unfold enumerate. split.
  - intros ((v' & p) & -> & Hin). rewrite list_elem_of_In, filter_In, <- list_elem_of_In in Hin. destruct Hin as [Hin [Hv Hp]%andb_prop]. cbn [fst snd] in *.
    apply list_elem_of_lookup_1 in Hin as [i Hi]. apply lookup_zip_with_Some in Hi as (a & b & E & Ha & Hb). injection E as -> ->.
    apply lookup_seq in Ha as [-> _]. split; [|eauto]. intros E0. rewrite (bool_decide_true _ E0) in Hv. discriminate Hv.
  - intros [Hv (p & Hp & Hf)]. exists (v, p). split; [done|]. rewrite list_elem_of_In, filter_In, <- list_elem_of_In. cbn [fst snd]. split.
    + apply (list_elem_of_lookup_2 _ v). apply lookup_zip_with_Some. exists v, p. split_and!; [done| |done]. apply lookup_seq.
      pose proof (lookup_lt_Some _ _ _ Hp). split; [done|lia].
    + rewrite bool_decide_false by done. done.
Qed.

Variable (statevector : Circuit -> res (list Complex)) (run_once : nat -> Circuit -> res bytes).

(** C26: simon's algorithm finds the secret.  With an ideal simulator that gives
    the input register a probability above the threshold exactly at the values
    orthogonal to the secret, as the final state of Simon's circuit has, the
    algorithm returns the secret: the equations collected leave it as the only
    solution, and the search returns it. *)
Theorem simon_finds_secret oracle circuit ps :
  (0 < n)%nat -> simon_circuit oracle n = Ok circuit -> input_register_probabilities statevector circuit n = Ok ps -> length ps = (2 ^ n)%nat ->
  (forall v p, ps !! v = Some p -> fltb SUPPORT_EPSILON p = negb (parity_dot (bits_from_index (Z.of_nat v) n) s)) ->
  exists iterations, simon_algorithm true statevector run_once oracle n = Ok (mkSimon s iterations).
Proof.
  intros H0 Hc Hp Hl Hsupp. unfold simon_algorithm. rewrite bool_decide_false by lia. rewrite Hc. cbn [mbind result_bind]. rewrite Hp. cbn [mbind result_bind].
  destruct (collect_spec (supported_values ps) [] []) as (eqs & seen & -> & Hcol & Hend).
  { split_and!; [apply List.Forall_nil|apply List.Forall_nil|]. intros v x Hv. by apply not_elem_of_nil in Hv. }
  { intros v (_ & p & Hv & Hf)%elem_of_supported. rewrite (Hsupp v p Hv) in Hf. by destruct (parity_dot _ s). }
  cbn [mbind result_bind]. enough (solve_gf2 eqs n = Ok s) as -> by (cbn; eauto).
  destruct Hcol as (Hw & Sol & Hseen). destruct Hend as [Henough|Hall]; [by apply enough_unique|].
  apply solve_unique; try done. intros x Hx Sx Nx. apply double_orthogonal; try done. intros y Hy Horth.
  pose proof (bits_value_range y) as Hr. rewrite Hy in Hr. pose proof (from_index_value y ltac:(lia)) as Hval. rewrite Hy in Hval.
  destruct (decide (bits_value y = 0)) as [Hz|Hz].
  { apply value_zero in Hz. rewrite Hy in Hz. subst y. rewrite dot_comm by (rewrite length_replicate; lia). rewrite dot_xsum by (rewrite length_replicate; lia).
    apply xsum_zero. intros i Hi%elem_of_seq. unfold bit at 2. rewrite (nth_lookup_Some _ _ _ false) by (apply lookup_replicate_2; lia). apply andb_false_r. }
  rewrite <- Hval. rewrite <- (Z2Nat.id (bits_value y)) by lia. apply Hseen; [|done|done]. apply Hall, elem_of_app. left. apply elem_of_supported.
  split; [lia|]. destruct (lookup_lt_is_Some_2 ps (Z.to_nat (bits_value y))) as [p Hpv]; [rewrite Hl, <- to_nat_pow2; lia|].
  exists p. split; [done|]. rewrite (Hsupp _ _ Hpv), Z2Nat.id by lia. by rewrite Hval, Horth.
Qed.
End correct.

(** ** The oracle hides the secret *)

Definition cnot_bits (control target k : nat) : nat := classical_gate gate_cnot [control; target] k.
Lemma cnot_bits_spec control target k q :
  Nat.testbit (cnot_bits control target k) q = if bool_decide (q = target) then xorb (Nat.testbit k control) (Nat.testbit k target) else Nat.testbit k q.
Proof. unfold cnot_bits, classical_gate. rewrite bool_decide_true by done. apply put_bit. Qed.

Section oracle.
Variable (n : nat) (s : list bool) (pivot : nat).
Hypothesis (Hlen : length s = n) (Hpivot : position id s = Some pivot).

Definition oracle_gates (e : nat * bool) : list Instruction :=
  if bool_decide (e.1 = pivot) then []
  else GateOp gate_cnot [e.1; (n + e.1)%nat] :: if e.2 then [GateOp gate_cnot [pivot; (n + e.1)%nat]] else [].
Lemma pivot_spec : (pivot < n)%nat /\ bit s pivot = true.
Proof.
  apply position_Some in Hpivot as (b & Hb & Hid). pose proof (lookup_lt_Some _ _ _ Hb). split; [lia|].
  unfold bit. rewrite (nth_lookup_Some _ _ _ b) by done. exact Hid.
Qed.

Lemma oracle_emits : emits (2 * n) (apply_hidden_xor_oracle 0 n s) (concat (map oracle_gates (enumerate s))).
Proof.
  destruct pivot_spec as [Hp _]. unfold apply_hidden_xor_oracle. rewrite Hpivot. apply emits_foldM. intros (b, active) Hin. unfold oracle_gates. cbn [fst snd].
  apply list_elem_of_lookup_1 in Hin as [i Hi]. apply lookup_zip_with_Some in Hi as (b' & a' & [= <- <-] & Hb & Ha).
  apply lookup_seq in Hb as [-> Hi]. cbn [Nat.add].
  assert (forall c, (c < n)%nat -> emits (2 * n) (add_cnot c (n + i)) [GateOp gate_cnot [c; (n + i)%nat]]) as Hc.
  { intros c Hc. apply emits_add2. split; [apply NoDup_cons; split; [intros Hx%list_elem_of_singleton; lia|apply NoDup_singleton]|].
    repeat apply List.Forall_cons; try apply List.Forall_nil; lia. }
  case_bool_decide; [intros k l0; by rewrite app_nil_r|]. apply (emits_bind _ _ _ [_]); [apply Hc; lia|].
  destruct active; [apply Hc; lia|]. intros k l0. by rewrite app_nil_r.
Qed.

(** What the gates do to the bits. *)
Definition oracle_run (l : list (nat * bool)) (k : nat) : nat := (fold_left classical_step (concat (map oracle_gates l)) (k, [])).1.
Definition oracle_output (k b : nat) : bool := negb (bool_decide (b = pivot)) && xorb (Nat.testbit k b) (bit s b && Nat.testbit k pivot).

Lemma oracle_gates_spec e k k' :
  (e.1 < n)%nat -> fold_left classical_step (oracle_gates e) (k, []) = (k', []) ->
  forall q, Nat.testbit k' q
    = xorb (Nat.testbit k q) (bool_decide (q = n + e.1)%nat && (negb (bool_decide (e.1 = pivot)) && xorb (Nat.testbit k e.1) (e.2 && Nat.testbit k pivot))).
Proof.
  destruct pivot_spec as [Hp _]. destruct e as [b a]. cbn [fst snd]. intros Hb. unfold oracle_gates. cbn [fst snd]. case_bool_decide as Hbp.
  - intros [= <-] q. by rewrite andb_false_r, xorb_false_r.
  - destruct a; cbn [fold_left classical_step]; intros E q; apply (f_equal fst) in E; cbn [fst] in E; subst k'; fold (cnot_bits b (n + b) k).
    + fold (cnot_bits pivot (n + b) (cnot_bits b (n + b) k)). rewrite !cnot_bits_spec. rewrite (bool_decide_true (n + b = n + b)%nat), (bool_decide_false (pivot = n + b)%nat) by (done || lia).
      cbn [negb andb]. case_bool_decide as Hq; [subst q|by rewrite andb_false_l, xorb_false_r]. cbn [andb].
      by destruct (Nat.testbit k pivot), (Nat.testbit k b), (Nat.testbit k (n + b)).
    + rewrite cnot_bits_spec. cbn [negb andb]. case_bool_decide as Hq; [subst q|by rewrite andb_false_l, xorb_false_r]. cbn [andb].
      by destruct (Nat.testbit k b), (Nat.testbit k (n + b)).
Qed.
Lemma oracle_step_bits e k : exists k', fold_left classical_step (oracle_gates e) (k, []) = (k', []).
Proof. unfold oracle_gates. case_bool_decide; [by eexists|]. destruct e as [b []]; cbn; by eexists. Qed.

Lemma oracle_run_spec l start k :
  (start + length l <= n)%nat -> (forall i a, l !! i = Some a -> bit s (start + i) = a) ->
  (forall q, (q < n)%nat -> Nat.testbit (oracle_run (zip (seq start (length l)) l) k) q = Nat.testbit k q) /\
  (forall b, (b < n)%nat -> Nat.testbit (oracle_run (zip (seq start (length l)) l) k) (n + b)
    = xorb (Nat.testbit k (n + b)) (bool_decide (start <= b < start + length l)%nat && oracle_output k b)).
Proof.
  revert start k. induction l as [|a l IH]; intros start k Hs Hbits.
  - split; [done|]. intros b Hb. rewrite bool_decide_false by (cbn; lia). by rewrite xorb_false_r.
  - cbn [length seq zip zip_with]. unfold oracle_run. cbn [map concat]. rewrite fold_left_app.
    destruct (oracle_step_bits (start, a) k) as [k1 E1]. rewrite E1. change (fold_left _ _ (k1, [])).1 with (oracle_run (zip (seq (S start) (length l)) l) k1).
    pose proof (oracle_gates_spec (start, a) k k1) as Hk1. cbn [fst snd length] in Hk1, Hs. specialize (Hk1 ltac:(lia) E1).
    destruct (IH (S start) k1) as [IH1 IH2]; [lia|intros i a' Hi; rewrite Nat.add_succ_comm; by apply (Hbits (S i))|].
    assert (forall q, (q < n)%nat -> Nat.testbit k1 q = Nat.testbit k q) as Hlow.
    { intros q Hq. rewrite Hk1, bool_decide_false by lia. by rewrite andb_false_l, xorb_false_r. }
    pose proof (Hbits 0%nat a eq_refl) as Ha. rewrite Nat.add_0_r in Ha. destruct pivot_spec as [Hp _]. split.
    + intros q Hq. rewrite IH1, Hlow by done. done.
    + intros b Hb. rewrite IH2 by done. unfold oracle_output. rewrite (Hlow b Hb), (Hlow pivot Hp), Hk1.
      destruct (decide (b = start)) as [->|Hne].
      * rewrite (bool_decide_false (S start <= start < _)%nat), (bool_decide_true (n + start = n + start)%nat), (bool_decide_true (start <= start < start + S (length l))%nat) by lia. rewrite Ha. cbn [andb]. apply xorb_false_r.
      * rewrite (bool_decide_false (n + b = n + start)%nat) by lia. rewrite andb_false_l, xorb_false_r. do 2 f_equal. apply bool_decide_ext. cbn. lia.
Qed.

(** The oracle of Simon's problem hides exactly the secret: it is built
    without an error for a secret that is not zero, it leaves the input register
    alone, and two inputs give the same output if and only if they are equal or
    differ by the secret. *)
Theorem oracle_hides_secret x y :
  (0 < n)%nat -> (n <= 64)%nat -> (x < 2 ^ n)%nat -> (y < 2 ^ n)%nat ->
  exists c, apply_hidden_xor_oracle 0 n s (mkCircuit (2 * n) 0 []) = (Ok (), c) /\
    let run k := (fold_left classical_step (instructions c) (k, [])).1 in
    (forall q, (q < n)%nat -> Nat.testbit (run x) q = Nat.testbit x q) /\
    ((forall b, (b < n)%nat -> Nat.testbit (run x) (n + b) = Nat.testbit (run y) (n + b)) <->
     x = y \/ forall b, (b < n)%nat -> Nat.testbit y b = xorb (Nat.testbit x b) (bit s b)).
Proof.
  intros H0 H64 Hx Hy. eexists. split; [apply oracle_emits|]. cbv zeta. cbn [instructions app].
  change ((fold_left classical_step (concat (map oracle_gates (enumerate s))) (x, [])).1) with (oracle_run (enumerate s) x).
  change ((fold_left classical_step (concat (map oracle_gates (enumerate s))) (y, [])).1) with (oracle_run (enumerate s) y).
  assert (forall i a, s !! i = Some a -> bit s (0 + i) = a) as Hs by (intros i a Hi; by apply nth_lookup_Some).
  destruct (oracle_run_spec s 0 x ltac:(lia) Hs) as [Lx Ox]. destruct (oracle_run_spec s 0 y ltac:(lia) Hs) as [_ Oy].
  change (zip (seq 0 (length s)) s) with (enumerate s) in *. destruct pivot_spec as [Hp Hsp]. split; [exact Lx|].
  assert (forall k b, (k < 2 ^ n)%nat -> Nat.testbit k (n + b) = false) as Hhigh by (intros k b Hk; apply (proj1 (bits_lt k n) Hk); lia).
  transitivity (forall b, (b < n)%nat -> oracle_output x b = oracle_output y b).
  { split; intros Hb b Hlt; specialize (Hb b Hlt); rewrite Ox, Oy, !Hhigh, bool_decide_true in * by (done || lia); by rewrite ?xorb_false_l, ?andb_true_l in *. }
  unfold oracle_output. split.
  - intros Hall. assert (forall b, (b < n)%nat -> xorb (Nat.testbit x b) (Nat.testbit y b) = bit s b && xorb (Nat.testbit x pivot) (Nat.testbit y pivot)) as Hd.
    { intros b Hb. specialize (Hall b Hb). destruct (decide (b = pivot)) as [->|Hne]; [by rewrite Hsp|].
      rewrite bool_decide_false in Hall by done. by destruct (Nat.testbit x b), (Nat.testbit y b), (bit s b), (Nat.testbit x pivot), (Nat.testbit y pivot). }
    destruct (xorb (Nat.testbit x pivot) (Nat.testbit y pivot)).
    + right. intros b Hb. specialize (Hd b Hb). rewrite andb_true_r in Hd. by destruct (Nat.testbit x b), (Nat.testbit y b), (bit s b).
    + left. apply Nat.bits_inj. intros b. destruct (decide (b < n)%nat) as [Hb|Hb].
      * specialize (Hd b Hb). rewrite andb_false_r in Hd. by apply xorb_eq.
      * rewrite (proj1 (bits_lt x n) Hx), (proj1 (bits_lt y n) Hy) by lia. done.
  - intros [->|Hd] b Hb; [done|]. rewrite !Hd by done. rewrite Hsp. case_bool_decide; [done|].
    by destruct (Nat.testbit x b), (bit s b), (Nat.testbit x pivot).
Qed.
End oracle.

(** ** The algorithm on the simulator *)

Definition simon_on_simulator (secret : list bool) : res SimonResult :=
  simon_algorithm (H := large_machine) true (simulator_statevector (H := large_machine) (fun _ _ => Err Panicked) builder_new)
    (fun _ _ => Err Panicked) (fun input output => apply_hidden_xor_oracle input output secret) (length secret).

(** End to end, in floating point: for every secret of up to three bits that is
    not zero, the algorithm with the oracle of the secret, run on the
    state-vector simulator, returns the secret. *)
Theorem simon_small_secrets :
  Forall (fun s => s = replicate (length s) false \/ exists iterations, simon_on_simulator s = Ok (mkSimon s iterations))
    (all_bits 1 ++ all_bits 2 ++ all_bits 3).
Proof.
  repeat apply List.Forall_cons; try apply List.Forall_nil; first [left; reflexivity|right; eexists; vm_compute; reflexivity].
Qed.

(** ** Examples *)

Definition example_secret : list bool := [true; false; true].
Definition example_oracle (input output : nat) : cst () := apply_hidden_xor_oracle input output example_secret.
Definition example_statevector : Circuit -> res (list Complex) := simulator_statevector (H := large_machine) (fun _ _ => Err Panicked) builder_new.
Definition example_circuit3 : Circuit := match simon_circuit example_oracle 3 with Ok c => c | Err _ => mkCircuit 0 0 [] end.
Definition example_probabilities : list f64 :=
  match input_register_probabilities (H := large_machine) example_statevector example_circuit3 3 with Ok ps => ps | Err _ => [] end.
Lemma example_circuit_ok : simon_circuit example_oracle 3 = Ok example_circuit3.
Proof. reflexivity. Qed.
Lemma example_probabilities_ok : input_register_probabilities (H := large_machine) example_statevector example_circuit3 3 = Ok example_probabilities.
Proof. vm_compute. reflexivity. Qed.
Lemma example_length : length example_probabilities = 8%nat.
Proof. vm_compute. reflexivity. Qed.
Lemma example_support v p :
  example_probabilities !! v = Some p -> fltb SUPPORT_EPSILON p = negb (parity_dot (bits_from_index (Z.of_nat v) 3) example_secret).
Proof.
  assert (forallb (fun v => match example_probabilities !! v with
    | Some p => Bool.eqb (fltb SUPPORT_EPSILON p) (negb (parity_dot (bits_from_index (Z.of_nat v) 3) example_secret)) | None => false end) (seq 0 8) = true) as Hall
    by (vm_compute; reflexivity).
  intros Hp. rewrite forallb_forall in Hall. pose proof (lookup_lt_Some _ _ _ Hp) as Hlt. rewrite example_length in Hlt.
  specialize (Hall v ltac:(apply in_seq; lia)). rewrite Hp in Hall. by apply eqb_prop.
Qed.
Lemma simon_finds_secret_witness :
  exists iterations, simon_algorithm (H := large_machine) true example_statevector (fun _ _ => Err Panicked) example_oracle 3 = Ok (mkSimon example_secret iterations).
Proof.
  refine (simon_finds_secret (H := large_machine) 3 example_secret _ _ _ example_statevector (fun _ _ => Err Panicked) example_oracle example_circuit3 example_probabilities
    _ example_circuit_ok example_probabilities_ok example_length example_support); [lia|reflexivity|discriminate|lia].
Defined.

Lemma oracle_hides_secret_witness :
  exists c, apply_hidden_xor_oracle 0 3 example_secret (mkCircuit 6 0 []) = (Ok (), c) /\
    let run k := (fold_left classical_step (instructions c) (k, [])).1 in
    (forall q, (q < 3)%nat -> Nat.testbit (run 1%nat) q = Nat.testbit 1 q) /\
    ((forall b, (b < 3)%nat -> Nat.testbit (run 1%nat) (3 + b) = Nat.testbit (run 4%nat) (3 + b)) <->
     1%nat = 4%nat \/ forall b, (b < 3)%nat -> Nat.testbit 4 b = xorb (Nat.testbit 1 b) (bit example_secret b)).
Proof. refine (oracle_hides_secret 3 example_secret 0 _ _ 1 4 _ _ _ _); [reflexivity|reflexivity|lia|lia|cbn; lia|cbn; lia]. Defined.

Lemma gf2_rank_counts_solutions_witness :
  exists rank, gf2_rank [[true; true; false]; [false; true; true]; [true; false; true]] 3 = Some rank /\ (rank <= 3)%nat /\
    length (solutions [[true; true; false]; [false; true; true]; [true; false; true]] 3) = (2 ^ (3 - rank))%nat.
Proof. apply (gf2_rank_counts_solutions [[true; true; false]; [false; true; true]; [true; false; true]] 3). repeat constructor. Defined.
