(* ===== verification/KeyRing.v ===== *)
(** * Keyboard buffers (drivers/keyboard.rs)

    Scan codes pass from the interrupt handler to the input loop through a ring
    of atomics without a lock.  The handler can interrupt the reader anywhere, so
    both are modelled as sequences of atomic steps that interleave in any way
    (the loads and stores are acquire and release operations on one location per
    index; the model is sequentially consistent).  Decoded bytes wait in a second
    ring inside [Keyboard], which is under a lock.  Decoding is not modelled here.

    [irq_ring_fifo] is about the first ring, [key_buffer_refines_queue] about the
    second. *)
From S2P Require Import Prelude.

(** ** Rings *)

Section ring.
Context {A : Type} `{Inhabited A}.
Variable N : nat.
Hypothesis HN : (1 < N)%nat.

Definition next (i : nat) : nat := (i + 1) mod N.
Definition slot (slots : list A) (i : nat) : A := default inhabitant (slots !! i).
(** [count] entries from index [tail] on. *)
Definition contents (slots : list A) (tail count : nat) : list A := map (fun i => slot slots ((tail + i) mod N)) (seq 0 count).
(** Entries between two indices. *)
Definition pending (tail head : nat) : nat := if (tail <=? head)%nat then (head - tail)%nat else (N - tail + head)%nat.

Lemma wrap_mod x : (x < 2 * N)%nat -> (x mod N = if bool_decide (x < N) then x else x - N)%nat.
Proof.
  intros Hx. case_bool_decide; [by apply Nat.mod_small|]. replace x with ((x - N) + 1 * N)%nat at 1 by lia.
  rewrite Nat.Div0.mod_add. apply Nat.mod_small. lia.
Qed.
Lemma next_lt i : (next i < N)%nat.
Proof. apply Nat.mod_upper_bound. lia. Qed.
Lemma next_spec i : (i < N)%nat -> next i = if bool_decide (i + 1 < N)%nat then (i + 1)%nat else 0%nat.
Proof. intros Hi. unfold next. rewrite wrap_mod by lia. repeat case_bool_decide; lia. Qed.

Lemma contents_snoc slots tail count : contents slots tail (S count) = contents slots tail count ++ [slot slots ((tail + count) mod N)].
Proof. unfold contents. by rewrite seq_S, map_app. Qed.
Lemma contents_cons slots tail count :
  (tail < N)%nat -> (S count <= N)%nat -> contents slots tail (S count) = slot slots tail :: contents slots (next tail) count.
Proof.
  intros Ht Hc. unfold contents. cbn [seq map]. rewrite Nat.add_0_r, (Nat.mod_small tail) by done. f_equal.
  rewrite <- seq_shift, map_map. apply map_ext_in. intros i Hi%in_seq. f_equal. unfold next.
  rewrite Nat.Div0.add_mod_idemp_l. f_equal. lia.
Qed.
Lemma contents_insert slots tail count x :
  (tail < N)%nat -> (count < N)%nat -> contents (<[((tail + count) mod N)%nat := x]> slots) tail count = contents slots tail count.
Proof.
  intros Ht Hc. apply map_ext_in. intros i Hi%in_seq. unfold slot. rewrite list_lookup_insert_ne; [done|].
  rewrite !wrap_mod by lia. repeat case_bool_decide; lia.
Qed.
Lemma slot_insert slots i x : (i < length slots)%nat -> slot (<[i := x]> slots) i = x.
Proof. intros Hi. unfold slot. by rewrite list_lookup_insert_eq. Qed.

Lemma pending_lt tail head : (tail < N)%nat -> (head < N)%nat -> (pending tail head < N)%nat.
Proof. intros Ht Hh. unfold pending. destruct (Nat.leb_spec tail head); lia. Qed.
Lemma pending_head tail head : (tail < N)%nat -> (head < N)%nat -> ((tail + pending tail head) mod N)%nat = head.
Proof.
  intros Ht Hh. unfold pending. destruct (Nat.leb_spec tail head); rewrite wrap_mod by lia; case_bool_decide; lia.
Qed.
Lemma pending_zero tail head : (tail < N)%nat -> (head < N)%nat -> pending tail head = 0%nat <-> tail = head.
Proof. intros Ht Hh. unfold pending. destruct (Nat.leb_spec tail head); lia. Qed.
Lemma pending_push tail head :
  (tail < N)%nat -> (head < N)%nat -> next head <> tail -> pending tail (next head) = S (pending tail head) /\ (S (pending tail head) < N)%nat.
Proof.
  intros Ht Hh Hne. rewrite next_spec in Hne |- * by done. unfold pending.
  destruct (bool_decide_reflect (head + 1 < N)%nat); destruct (Nat.leb_spec tail head); destruct (Nat.leb_spec tail (head + 1)); destruct (Nat.leb_spec tail 0); lia.
Qed.
Lemma pending_pop tail head :
  (tail < N)%nat -> (head < N)%nat -> tail <> head -> S (pending (next tail) head) = pending tail head.
Proof.
  intros Ht Hh Hne. rewrite next_spec by done. unfold pending.
  destruct (bool_decide_reflect (tail + 1 < N)%nat); destruct (Nat.leb_spec tail head); destruct (Nat.leb_spec (tail + 1) head); destruct (Nat.leb_spec 0 head); lia.
Qed.
Lemma pending_full tail head : (tail < N)%nat -> (head < N)%nat -> next head = tail <-> pending tail head = (N - 1)%nat.
Proof.
  intros Ht Hh. rewrite next_spec by done. unfold pending. destruct (bool_decide_reflect (head + 1 < N)%nat); destruct (Nat.leb_spec tail head); lia.
Qed.
Lemma contents_length slots tail count : length (contents slots tail count) = count.
Proof. unfold contents. by rewrite length_map, length_seq. Qed.
Lemma contents_push slots tail head x :
  length slots = N -> (tail < N)%nat -> (head < N)%nat -> next head <> tail ->
  contents (<[head := x]> slots) tail (pending tail (next head)) = contents slots tail (pending tail head) ++ [x].
Proof.
  intros Hl Ht Hh Hne. destruct (pending_push tail head) as [-> _]; [done..|].
  rewrite contents_snoc, pending_head, slot_insert by (lia || done). f_equal.
  rewrite <- (pending_head tail head) at 1 by done. apply contents_insert; [done|]. by apply pending_lt.
Qed.
Lemma contents_pop slots tail head :
  (tail < N)%nat -> (head < N)%nat -> tail <> head ->
  contents slots tail (pending tail head) = slot slots tail :: contents slots (next tail) (pending (next tail) head).
Proof.
  intros Ht Hh Hne. pose proof (pending_lt tail head Ht Hh). rewrite <- (pending_pop tail head) in * by done.
  apply contents_cons; [done|lia].
Qed.
End ring.

(** ** The ring of the interrupt handler *)

Definition RAW_IRQ_RING_CAPACITY : nat := 256.
Definition STATUS_OUTPUT_FULL : Z := 1.
Definition STATUS_AUX_DATA : Z := 32.

(** The counters and last values the input path shares. *)
Record Statics : Type := mkStatics {
  last_status : Z;
  last_scancode : Z;
  last_byte : Z;
  polled_scancodes : Z;
  translated_bytes : Z;
  consumed_bytes : Z;
  trace_sequence : Z;
}.
Definition set_last_status (x : Z) (v : Statics) : Statics :=
  mkStatics x (last_scancode v) (last_byte v) (polled_scancodes v) (translated_bytes v) (consumed_bytes v) (trace_sequence v).
Definition set_last_scancode (x : Z) (v : Statics) : Statics :=
  mkStatics (last_status v) x (last_byte v) (polled_scancodes v) (translated_bytes v) (consumed_bytes v) (trace_sequence v).
Definition next_trace_id (v : Statics) : Z * Statics :=
  (trace_sequence v,
   mkStatics (last_status v) (last_scancode v) (last_byte v) (polled_scancodes v) (translated_bytes v) (consumed_bytes v)
     (wrap 64 (trace_sequence v + 1))).
(** The atomics of the interrupt path. *)
Record Atomics : Type := mkAtomics {
  raw_ring : list Z;
  raw_head : nat;
  raw_tail : nat;
  raw_dropped : Z;
  irq_triggers : Z;
  irq_scancodes : Z;
  stat : Statics;
}.
Definition set_ring (r : list Z) (a : Atomics) : Atomics :=
  mkAtomics r (raw_head a) (raw_tail a) (raw_dropped a) (irq_triggers a) (irq_scancodes a) (stat a).
Definition set_head (h : nat) (a : Atomics) : Atomics :=
  mkAtomics (raw_ring a) h (raw_tail a) (raw_dropped a) (irq_triggers a) (irq_scancodes a) (stat a).
Definition set_tail (t : nat) (a : Atomics) : Atomics :=
  mkAtomics (raw_ring a) (raw_head a) t (raw_dropped a) (irq_triggers a) (irq_scancodes a) (stat a).
Definition add_dropped (a : Atomics) : Atomics :=
  mkAtomics (raw_ring a) (raw_head a) (raw_tail a) (wrap 32 (raw_dropped a + 1)) (irq_triggers a) (irq_scancodes a) (stat a).
Definition note_irq (status : Z) (a : Atomics) : Atomics :=
  mkAtomics (raw_ring a) (raw_head a) (raw_tail a) (raw_dropped a) (wrap 32 (irq_triggers a + 1)) (irq_scancodes a) (set_last_status status (stat a)).
Definition note_scancode (scancode : Z) (a : Atomics) : Atomics :=
  mkAtomics (raw_ring a) (raw_head a) (raw_tail a) (raw_dropped a) (irq_triggers a) (wrap 32 (irq_scancodes a + 1)) (set_last_scancode scancode (stat a)).
Definition set_stat (v : Statics) (a : Atomics) : Atomics :=
  mkAtomics (raw_ring a) (raw_head a) (raw_tail a) (raw_dropped a) (irq_triggers a) (irq_scancodes a) v.

Definition pack (scancode status : Z) : Z := Z.lor (Z.shiftl status 8) scancode.
Definition unpack (packed : Z) : Z * Z := (Z.land packed 255, Z.shiftr packed 8).

(** Where the handler is in [push_raw_irq_scancode]; each constructor holds what it has loaded. *)
Inductive Producer : Type :=
  | PIdle
  | PHead (scancode status : Z) (head : nat)
  | PTail (scancode status : Z) (head next tail : nat)
  | PStored (scancode status : Z) (next : nat).
(** Where the reader is in [pop_raw_irq_scancode]. *)
Inductive Consumer : Type :=
  | CIdle
  | CTail (tail : nat)
  | CHead (tail head : nat)
  | CSlot (tail : nat) (packed : Z).

(** The interrupt, up to the first load of the push: a status without a
    keyboard byte ends the handler; [data] is the byte on the data port. *)
Definition handle_irq1 (status data : Z) (a : Atomics) : Producer * Atomics :=
  let a := note_irq status a in
  if Z.land status STATUS_OUTPUT_FULL =? 0 then (PIdle, a)
  else if negb (Z.land status STATUS_AUX_DATA =? 0) then (PIdle, a)
  else let a := note_scancode data a in (PHead data status (raw_head a), a).
(** The next atomic step of [push_raw_irq_scancode]. *)
Definition push_step (p : Producer) (a : Atomics) : Producer * Atomics :=
  match p with
  | PIdle => (PIdle, a)
  | PHead scancode status head => (PTail scancode status head ((head + 1) mod RAW_IRQ_RING_CAPACITY) (raw_tail a), a)
  | PTail scancode status head next tail =>
      if bool_decide (next = tail) then (PIdle, add_dropped a)
      else (PStored scancode status next, set_ring (<[head := pack scancode status]> (raw_ring a)) a)
  | PStored scancode status next => (PIdle, set_head next a)
  end.
(** The next atomic step of [pop_raw_irq_scancode], and what it returns. *)
Definition pop_step (c : Consumer) (a : Atomics) : Consumer * Atomics * option (option (Z * Z)) :=
  match c with
  | CIdle => (CTail (raw_tail a), a, None)
  | CTail tail => (CHead tail (raw_head a), a, None)
  | CHead tail head =>
      if bool_decide (tail = head) then (CIdle, a, Some None) else (CSlot tail (slot (raw_ring a) tail), a, None)
  | CSlot tail packed => (CIdle, set_tail ((tail + 1) mod RAW_IRQ_RING_CAPACITY) a, Some (Some (unpack packed)))
  end.
Definition raw_irq_pending_len (a : Atomics) : nat :=
  if (raw_tail a <=? raw_head a)%nat then (raw_head a - raw_tail a)%nat else (RAW_IRQ_RING_CAPACITY - raw_tail a + raw_head a)%nat.

(** ** Interleavings *)

(** The two threads, with the scan codes accepted, refused and delivered so far. *)
Record Sys : Type := mkSys {
  atomics : Atomics;
  producer : Producer;
  consumer : Consumer;
  accepted : list (Z * Z);
  refused : list (Z * Z);
  delivered : list (Z * Z);
}.
Definition initial : Sys := mkSys (mkAtomics (replicate 256 0) 0 0 0 0 0 (mkStatics 0 0 0 0 0 0 1)) PIdle CIdle [] [] [].

(** The next event: an interrupt with its status and data bytes, a step of
    the handler, or a step of the reader. *)
Inductive event : Type :=
  | EIrq (status data : Z)
  | EPush
  | EPop.
Definition stored (p : Producer) : list (Z * Z) := match p with PStored scancode status _ => [(scancode, status)] | _ => [] end.
Definition turned_away (p : Producer) : list (Z * Z) :=
  match p with PTail scancode status _ n t => if bool_decide (n = t) then [(scancode, status)] else [] | _ => [] end.
Definition returned (r : option (option (Z * Z))) : list (Z * Z) := match r with Some (Some x) => [x] | _ => [] end.
(** An interrupt does not nest; the handler only runs once it has begun. *)
Inductive step : Sys -> event -> Sys -> Prop :=
  | step_irq a c acc ref del status data p a' :
      0 <= status < 256 -> 0 <= data < 256 -> handle_irq1 status data a = (p, a') ->
      step (mkSys a PIdle c acc ref del) (EIrq status data) (mkSys a' p c acc ref del)
  | step_push a p c acc ref del p' a' :
      push_step p a = (p', a') ->
      step (mkSys a p c acc ref del) EPush (mkSys a' p' c (acc ++ stored p) (ref ++ turned_away p) del)
  | step_pop a p c acc ref del c' a' r :
      pop_step c a = (c', a', r) ->
      step (mkSys a p c acc ref del) EPop (mkSys a' p c' acc ref (del ++ returned r)).
(** The keyboard bytes that interrupts presented. *)
Definition presented (e : event) : list (Z * Z) :=
  match e with
  | EIrq status data => if Z.testbit status 0 && negb (Z.testbit status 5) then [(data, status)] else []
  | _ => []
  end.
Inductive runs : list event -> Sys -> Prop :=
  | runs_initial : runs [] initial
  | runs_step es s e s' : runs es s -> step s e s' -> runs (es ++ [e]) s'.

(** Entries still in the ring. *)
Definition in_ring (a : Atomics) : list (Z * Z) :=
  map unpack (contents 256 (raw_ring a) (raw_tail a) (pending 256 (raw_tail a) (raw_head a))).
(** The byte the handler is working on. *)
Definition in_flight (p : Producer) : list (Z * Z) :=
  match p with
  | PIdle => []
  | PHead scancode status _ | PTail scancode status _ _ _ | PStored scancode status _ => [(scancode, status)]
  end.

(** ** The invariant *)

Definition byte_pair (x : Z * Z) : Prop := 0 <= x.1 < 256 /\ 0 <= x.2 < 256.
Definition indices_ok (a : Atomics) : Prop := length (raw_ring a) = 256%nat /\ (raw_head a < 256)%nat /\ (raw_tail a < 256)%nat.
(** What the handler knows of the ring at each point; the tail it loaded may be old ... *)
Definition producer_ok (p : Producer) (a : Atomics) : Prop :=
  Forall byte_pair (in_flight p) /\
  match p with
  | PIdle => True
  | PHead _ _ h => h = raw_head a
  | PTail _ _ h n t =>
      h = raw_head a /\ n = next 256 h /\ (t < 256)%nat /\ (pending 256 (raw_tail a) h <= pending 256 t h)%nat
  | PStored d st n => n = next 256 (raw_head a) /\ slot (raw_ring a) (raw_head a) = pack d st /\ n <> raw_tail a
  end.
(** ... and what the reader knows; the head it loaded may be old. *)
Definition consumer_ok (c : Consumer) (a : Atomics) : Prop :=
  match c with
  | CIdle => True
  | CTail t => t = raw_tail a
  | CHead t h => t = raw_tail a /\ (t <> h -> raw_tail a <> raw_head a)
  | CSlot t packed => t = raw_tail a /\ raw_tail a <> raw_head a /\ packed = slot (raw_ring a) t
  end.
Definition threads_ok (a : Atomics) (p : Producer) (c : Consumer) : Prop := indices_ok a /\ producer_ok p a /\ consumer_ok c a.

Lemma unpack_pack d st : 0 <= d < 256 -> 0 <= st < 256 -> unpack (pack d st) = (d, st).
Proof.
  intros Hd Hs. unfold unpack, pack. f_equal.
  - change 255 with (Z.ones 8). rewrite Z.land_lor_distr_l, !Z.land_ones, Z.shiftl_mul_pow2, Z.mod_mul by lia. cbn [Z.lor]. by apply Z.mod_small.
  - rewrite Z.shiftr_lor, Z.shiftr_shiftl_l, Z.sub_diag by lia. rewrite Z.shiftl_0_r, (Z.shiftr_div_pow2 d), Z.div_small by lia. apply Z.lor_0_r.
Qed.
Lemma in_ring_length a : length (in_ring a) = pending 256 (raw_tail a) (raw_head a).
Proof. unfold in_ring, contents. by rewrite !length_map, length_seq. Qed.
Lemma in_ring_store a x : indices_ok a -> in_ring (set_ring (<[raw_head a := x]> (raw_ring a)) a) = in_ring a.
Proof.
  intros (Hl & Hh & Ht). unfold in_ring. cbn [raw_ring raw_head raw_tail set_ring]. f_equal.
  rewrite <- (pending_head 256 ltac:(lia) (raw_tail a) (raw_head a)) at 1 by done.
  apply contents_insert; [lia|done|]. apply pending_lt; (lia || done).
Qed.
Lemma in_ring_push a d st :
  indices_ok a -> byte_pair (d, st) -> slot (raw_ring a) (raw_head a) = pack d st -> next 256 (raw_head a) <> raw_tail a ->
  in_ring (set_head (next 256 (raw_head a)) a) = in_ring a ++ [(d, st)].
Proof.
  intros (Hl & Hh & Ht) [Hd Hs] Hslot Hne. unfold in_ring. cbn [raw_ring raw_head raw_tail set_head].
  destruct (pending_push 256 ltac:(lia) (raw_tail a) (raw_head a)) as [-> _]; [done..|].
  rewrite contents_snoc, map_app, pending_head, Hslot by (lia || done). cbn [map]. by rewrite unpack_pack.
Qed.
Lemma in_ring_pop a :
  indices_ok a -> raw_tail a <> raw_head a ->
  in_ring a = unpack (slot (raw_ring a) (raw_tail a)) :: in_ring (set_tail (next 256 (raw_tail a)) a).
Proof.
  intros (Hl & Hh & Ht) Hne. unfold in_ring. cbn [raw_ring raw_head raw_tail set_tail]. by rewrite contents_pop by (lia || done).
Qed.

Lemma irq_cases status data a :
  exists a',
  handle_irq1 status data a = (match presented (EIrq status data) with [] => PIdle | _ => PHead data status (raw_head a) end, a') /\
  raw_ring a' = raw_ring a /\ raw_head a' = raw_head a /\ raw_tail a' = raw_tail a /\ raw_dropped a' = raw_dropped a /\
  irq_scancodes a' = (if decide (presented (EIrq status data) = []) then irq_scancodes a else wrap 32 (irq_scancodes a + 1)).
Proof.
  unfold handle_irq1, presented, STATUS_OUTPUT_FULL, STATUS_AUX_DATA.
  rewrite <- (testbit_mask status 0), <- (testbit_mask status 5) by lia. change (Z.shiftl 1 0) with 1. change (Z.shiftl 1 5) with 32.
  destruct (Z.land status 1 =? 0), (Z.land status 32 =? 0); cbn [negb andb]; eexists; repeat split.
Qed.

Lemma push_keeps a p c p' a' : threads_ok a p c -> push_step p a = (p', a') -> threads_ok a' p' c.
Proof.
  intros (Ha & [Hp Hq] & Hc) E. assert (Ha' := Ha). destruct Ha' as (Hl & Hh & Ht).
  destruct p as [|d st h|d st h n t|d st n]; cbn [push_step] in E.
  - apply pair_equal_spec in E as [<- <-]. done.
  - apply pair_equal_spec in E as [<- <-]. subst h. split_and!; [done| |done]. split; [done|]. cbn. done.
  - destruct Hq as (-> & -> & Ht' & Hle). destruct (bool_decide_reflect (next 256 (raw_head a) = t)) as [Hn|Hn]; apply pair_equal_spec in E as [<- <-].
    + split_and!; [done| |done]. split; [apply List.Forall_nil|done].
    + assert (Hroom : next 256 (raw_head a) <> raw_tail a).
      { intros Hf. apply Hn. apply (pending_full 256 ltac:(lia) (raw_tail a)) in Hf; [|done..]. apply (pending_full 256 ltac:(lia)); [done..|].
        pose proof (pending_lt 256 ltac:(lia) t (raw_head a) Ht' Hh). lia. }
      split_and!.
      * unfold indices_ok. cbn [raw_ring raw_head raw_tail set_ring set_head set_tail producer_ok consumer_ok]. by rewrite length_insert.
      * split; [done|]. cbn [raw_ring raw_head raw_tail set_ring set_head set_tail producer_ok consumer_ok]. split_and!; [done| |done]. apply slot_insert. lia.
      * destruct c as [|t'|t' h'|t' pk]; [done..|]. destruct Hc as (-> & Hne & ->). cbn [raw_ring raw_head raw_tail set_ring set_head set_tail producer_ok consumer_ok]. split_and!; [done..|].
        unfold slot. by rewrite list_lookup_insert_ne.
  - destruct Hq as (-> & Hs & Hne). apply pair_equal_spec in E as [<- <-]. split_and!.
    + unfold indices_ok. cbn [raw_ring raw_head raw_tail set_ring set_head set_tail producer_ok consumer_ok]. split_and!; [done|apply next_lt; lia|done].
    + split; [apply List.Forall_nil|done].
    + destruct c as [|t'|t' h'|t' pk]; [done..| |]; cbn [raw_ring raw_head raw_tail set_ring set_head set_tail producer_ok consumer_ok] in Hc |- *.
      * destruct Hc as [-> Hc]. split; [done|]. intros _. congruence.
      * destruct Hc as (-> & _ & ->). split_and!; [done|congruence|done].
Qed.
Lemma pop_keeps a p c c' a' r : threads_ok a p c -> pop_step c a = (c', a', r) -> threads_ok a' p c'.
Proof.
  intros (Ha & [Hp Hq] & Hc) E. assert (Ha' := Ha). destruct Ha' as (Hl & Hh & Ht).
  destruct c as [|t|t h|t pk]; cbn [pop_step] in E.
  - apply pair_equal_spec in E as [[<- <-]%pair_equal_spec <-]. done.
  - apply pair_equal_spec in E as [[<- <-]%pair_equal_spec <-]. cbn in Hc. subst t. split_and!; [done| |]; [by split|]. cbn. done.
  - destruct Hc as [-> Hc]. destruct (bool_decide_reflect (raw_tail a = h)) as [Hn|Hn]; apply pair_equal_spec in E as [[<- <-]%pair_equal_spec <-].
    + split_and!; [done| |done]. by split.
    + split_and!; [done| |]; [by split|]. cbn [raw_ring raw_head raw_tail set_ring set_head set_tail producer_ok consumer_ok]. split_and!; [done|by apply Hc|done].
  - destruct Hc as (-> & Hne & ->). apply pair_equal_spec in E as [[<- <-]%pair_equal_spec <-].
    pose proof (pending_pop 256 ltac:(lia) (raw_tail a) (raw_head a) Ht Hh Hne) as Hpop. split_and!; [|split; [done|]|done].
    + unfold indices_ok. cbn [raw_ring raw_head raw_tail set_ring set_head set_tail producer_ok consumer_ok]. split_and!; [done|done|apply next_lt; lia].
    + destruct p as [|d st h|d st h n t|d st n]; [done|done| |]; cbn [raw_ring raw_head raw_tail set_ring set_head set_tail producer_ok consumer_ok] in Hq |- *.
      * destruct Hq as (-> & -> & Ht' & Hle). split_and!; [done..|]. unfold RAW_IRQ_RING_CAPACITY, next in *. lia.
      * destruct Hq as (-> & Hs & Hroom). split_and!; [done..|]. intros Hf. change ((raw_tail a + 1) mod RAW_IRQ_RING_CAPACITY)%nat with (next 256 (raw_tail a)) in Hf.
        apply (pending_full 256 ltac:(lia)) in Hf; [|apply next_lt; lia|done].
        pose proof (pending_lt 256 ltac:(lia) (raw_tail a) (raw_head a) Ht Hh). lia.
Qed.

Definition shown (es : list event) : list (Z * Z) := es ≫= presented.
Definition history_ok (es : list event) (s : Sys) : Prop :=
  accepted s = delivered s ++ in_ring (atomics s) /\
  shown es ≡ₚ accepted s ++ refused s ++ in_flight (producer s) /\
  sublist (accepted s ++ in_flight (producer s)) (shown es) /\
  irq_scancodes (atomics s) = wrap 32 (Z.of_nat (length (shown es))) /\
  raw_dropped (atomics s) = wrap 32 (Z.of_nat (length (refused s))).

Lemma shown_snoc es e : shown (es ++ [e]) = shown es ++ presented e.
Proof. unfold shown. rewrite bind_app. cbn. by rewrite app_nil_r. Qed.
Lemma wrap_succ n : wrap 32 (wrap 32 (Z.of_nat n) + 1) = wrap 32 (Z.of_nat (n + 1)).
Proof. unfold wrap. rewrite Z.add_mod_idemp_l by done. f_equal. lia. Qed.
Lemma in_ring_ext a a' : raw_ring a' = raw_ring a -> raw_head a' = raw_head a -> raw_tail a' = raw_tail a -> in_ring a' = in_ring a.
Proof. intros H1 H2 H3. unfold in_ring. by rewrite H1, H2, H3. Qed.

Lemma irq_history es a c acc ref del status data p a' :
  0 <= status < 256 -> 0 <= data < 256 -> handle_irq1 status data a = (p, a') ->
  threads_ok a PIdle c -> history_ok es (mkSys a PIdle c acc ref del) ->
  threads_ok a' p c /\ history_ok (es ++ [EIrq status data]) (mkSys a' p c acc ref del).
Proof.
  intros Hs Hd E (Ha & Hp & Hc) (Hacc & Hperm & Hsub & Hn & Hr).
  destruct (irq_cases status data a) as (a2 & E2 & H1 & H2 & H3 & H4 & H5). rewrite E2 in E. apply pair_equal_spec in E as [<- <-].
  cbn in Hacc, Hperm, Hsub, Hn, Hr. rewrite !app_nil_r in *.
  assert (Hcases : presented (EIrq status data) = [] \/ presented (EIrq status data) = [(data, status)]) by (unfold presented; destruct (_ && _); auto).
  assert (Hi : indices_ok a2) by (unfold indices_ok; by rewrite H1, H2, H3).
  assert (Hc' : consumer_ok c a2) by (destruct c; cbn [consumer_ok] in *; by rewrite ?H1, ?H2, ?H3).
  unfold history_ok, threads_ok. rewrite !shown_snoc. cbn [accepted refused delivered producer atomics].
  rewrite (in_ring_ext _ _ H1 H2 H3), H4, H5, <- Hacc.
  destruct Hcases as [-> | ->]; cbn [in_flight]; rewrite ?app_nil_r.
  - rewrite decide_True by done. split; [|done]. split_and!; [done| |done]. by split.
  - rewrite decide_False by done. split.
    + split_and!; [done| |done]. split; [by apply Forall_singleton|]. by cbn.
    + split_and!; [done| | | |done].
      * by rewrite Hperm, <- app_assoc.
      * by apply sublist_app.
      * by rewrite length_app, Hn, wrap_succ.
Qed.

Lemma push_history es a p c acc ref del p' a' :
  push_step p a = (p', a') -> threads_ok a p c -> history_ok es (mkSys a p c acc ref del) ->
  history_ok (es ++ [EPush]) (mkSys a' p' c (acc ++ stored p) (ref ++ turned_away p) del).
Proof.
  intros E (Ha & [Hp Hq] & Hc) (Hacc & Hperm & Hsub & Hn & Hr).
  unfold history_ok. rewrite !shown_snoc. cbn [accepted refused delivered producer atomics presented] in *. rewrite !app_nil_r.
  destruct p as [|d st h|d st h n t|d st n]; cbn [push_step stored turned_away] in *; rewrite ?app_nil_r.
  - apply pair_equal_spec in E as [<- <-]. done.
  - apply pair_equal_spec in E as [<- <-]. done.
  - destruct Hq as (-> & _). case_bool_decide; apply pair_equal_spec in E as [<- <-]; rewrite ?app_nil_r.
    + cbn [in_flight] in *. split_and!; [done| | |done|].
      * done.
      * etrans; [|exact Hsub]. by apply sublist_inserts_r.
      * cbn [add_dropped raw_dropped]. by rewrite Hr, wrap_succ, length_app.
    + rewrite in_ring_store by done. done.
  - destruct Hq as (-> & Hs & Hne). apply pair_equal_spec in E as [<- <-]. inversion_clear Hp.
    rewrite in_ring_push with (d := d) (st := st) by done. cbn [in_flight] in *. rewrite !app_nil_r. split_and!; [|etrans; [exact Hperm|]|done..].
    + by rewrite Hacc, app_assoc.
    + rewrite <- app_assoc. apply Permutation_app_head, Permutation_app_comm.
Qed.
Lemma pop_history es a p c acc ref del c' a' r :
  pop_step c a = (c', a', r) -> threads_ok a p c -> history_ok es (mkSys a p c acc ref del) ->
  history_ok (es ++ [EPop]) (mkSys a' p c' acc ref (del ++ returned r)).
Proof.
  intros E (Ha & Hp & Hc) (Hacc & Hrest). unfold history_ok. rewrite !shown_snoc.
  cbn [accepted refused delivered producer atomics presented] in *. rewrite !(app_nil_r (shown es)).
  destruct c as [|t|t h|t pk]; cbn [pop_step] in E; [| |case_bool_decide|];
    apply pair_equal_spec in E as [[<- <-]%pair_equal_spec <-]; cbn [returned]; rewrite ?app_nil_r; [done..|].
  destruct Hc as (-> & Hne & ->). split; [|done]. rewrite <- app_assoc. by rewrite Hacc, in_ring_pop.
Qed.
Lemma runs_ok es s : runs es s -> threads_ok (atomics s) (producer s) (consumer s) /\ history_ok es s.
Proof.
  intros H. induction H as [|es s e s' H [IHt IHh] Hstep].
  - split.
    + split_and!; [|split; [apply List.Forall_nil|done]|done]. unfold indices_ok. cbn [initial atomics raw_ring raw_head raw_tail]. rewrite length_replicate. lia.
    + unfold history_ok. cbn. done.
  - destruct Hstep; cbn [atomics producer consumer] in *.
    + by eapply irq_history.
    + split; [by eapply push_keeps|by eapply push_history].
    + split; [by eapply pop_keeps|by eapply pop_history].
Qed.

(** ** Draining the ring *)

(** [pop_raw_irq_scancode] when no interrupt arrives meanwhile. *)
Definition pop_raw_irq_scancode (a : Atomics) : option (Z * Z) * Atomics :=
  let tail := raw_tail a in
  if bool_decide (tail = raw_head a) then (None, a)
  else (Some (unpack (slot (raw_ring a) tail)), set_tail ((tail + 1) mod RAW_IRQ_RING_CAPACITY) a).
(** [process_pending_irq_events]: [handle] is [handle_scancode] of the keyboard. *)
Fixpoint process_pending_irq_events {K : Type} (fuel : nat) (handle : Z -> Z -> Z -> K * Statics -> K * Statics) (processed : bool) (k : K) (a : Atomics)
    : option (bool * K * Atomics) :=
  match fuel with
  | O => None
  | S fuel =>
      match pop_raw_irq_scancode a with
      | (None, a) => Some (processed, k, a)
      | (Some (scancode, status), a) =>
          let '(trace_id, v) := next_trace_id (stat a) in
          let '(k, v) := handle scancode trace_id status (k, v) in
          process_pending_irq_events fuel handle true k (set_stat v a)
      end
  end.
(** The keyboard after the deferred codes, taken in order. *)
Definition handled {K : Type} (handle : Z -> Z -> Z -> K * Statics -> K * Statics) (kv : K * Statics) (x : Z * Z) : K * Statics :=
  let '(trace_id, v) := next_trace_id kv.2 in handle x.1 trace_id x.2 (kv.1, v).

Lemma raw_pending a : raw_irq_pending_len a = length (in_ring a).
Proof. by rewrite in_ring_length. Qed.
Lemma in_ring_empty a : indices_ok a -> in_ring a = [] <-> raw_tail a = raw_head a.
Proof.
  intros (Hl & Hh & Ht). rewrite <- (pending_zero 256) by (lia || done). rewrite <- in_ring_length. split; [by intros ->|apply nil_length_inv].
Qed.
Lemma pop_uninterrupted a :
  indices_ok a ->
  match in_ring a with
  | [] => pop_raw_irq_scancode a = (None, a)
  | x :: rest =>
      exists a', pop_raw_irq_scancode a = (Some x, a') /\ indices_ok a' /\ in_ring a' = rest /\ raw_head a' = raw_head a /\ stat a' = stat a
  end.
Proof.
  intros Ha. unfold pop_raw_irq_scancode. case_bool_decide as Ht.
  - assert (in_ring a = []) as -> by by apply in_ring_empty. done.
  - rewrite in_ring_pop by done. eexists. split_and!; [done| |done|done|done].
    destruct Ha as (Hl & Hh & Ht'). unfold indices_ok. cbn [raw_ring raw_head raw_tail set_tail]. split_and!; [done|done|apply next_lt; lia].
Qed.
(** The loop ends within one more round than there are codes, handles each
    once in order, and leaves the ring empty. *)
Lemma drains {K} (handle : Z -> Z -> Z -> K * Statics -> K * Statics) fuel processed k a :
  indices_ok a -> (length (in_ring a) < fuel)%nat ->
  exists k' a', process_pending_irq_events fuel handle processed k a = Some (processed || bool_decide (in_ring a <> []), k', a') /\
  (k', stat a') = foldl (handled handle) (k, stat a) (in_ring a) /\ indices_ok a' /\ in_ring a' = [] /\ raw_head a' = raw_head a.
Proof.
  revert processed k a. induction fuel as [|fuel IH]; intros processed k a Ha Hf; [lia|].
  cbn [process_pending_irq_events]. pose proof (pop_uninterrupted a Ha) as Hpop. destruct (in_ring a) as [|[d st] rest] eqn:E.
  - rewrite Hpop. exists k, a. rewrite bool_decide_false, orb_false_r by naive_solver. done.
  - destruct Hpop as (a1 & -> & Ha1 & Hr & Hh & Hs). cbn [length] in Hf. cbn [foldl].
    unfold handled at 2. cbn [fst snd]. rewrite <- Hs. destruct (next_trace_id (stat a1)) as [id v]. destruct (handle d id st (k, v)) as [k1 v1].
    destruct (IH true k1 (set_stat v1 a1) Ha1 ltac:(change (in_ring (set_stat v1 a1)) with (in_ring a1); rewrite Hr; lia)) as (k' & a' & E' & Hfold & Hi & Hnil & Hh').
    change (in_ring (set_stat v1 a1)) with (in_ring a1) in *. rewrite Hr in *. cbn [stat set_stat] in *.
    exists k', a'. rewrite E', (bool_decide_true (_ :: _ <> [])), orb_true_r by done. split_and!; [done|done|done|done|]. by rewrite Hh'.
Qed.

(** The reader's steps, one after the other, up to the one that returns. *)
Fixpoint pop_run (fuel : nat) (c : Consumer) (a : Atomics) : option (option (Z * Z) * Atomics) :=
  match fuel with
  | O => None
  | S fuel => match pop_step c a with (_, a, Some r) => Some (r, a) | (c, a, None) => pop_run fuel c a end
  end.
Lemma pop_run_spec a : pop_run 4 CIdle a = Some (pop_raw_irq_scancode a).
Proof. unfold pop_raw_irq_scancode. cbn [pop_run pop_step]. by case_bool_decide. Qed.

(** An execution, by the list of its events. *)
Definition exec1 (e : event) (s : Sys) : option Sys :=
  let '(mkSys a p c acc ref del) := s in
  match e, p with
  | EIrq status data, PIdle =>
      if (0 <=? status) && (status <? 256) && (0 <=? data) && (data <? 256)
      then let '(p, a) := handle_irq1 status data a in Some (mkSys a p c acc ref del) else None
  | EIrq _ _, _ => None
  | EPush, _ => let '(p', a) := push_step p a in Some (mkSys a p' c (acc ++ stored p) (ref ++ turned_away p) del)
  | EPop, _ => let '(c, a, r) := pop_step c a in Some (mkSys a p c acc ref (del ++ returned r))
  end.
Fixpoint exec (es : list event) (s : Sys) : option Sys :=
  match es with
  | [] => Some s
  | e :: es => match exec1 e s with Some s => exec es s | None => None end
  end.
Lemma exec1_step e s s' : exec1 e s = Some s' -> step s e s'.
Proof.
  destruct s as [a p c acc ref del]. destruct e as [status data| |]; cbn [exec1]; intros E.
  - destruct p; try discriminate. destruct (_ && _) eqn:Hb; [|discriminate]. destruct (handle_irq1 status data a) eqn:Hi.
    injection E as <-. constructor; [lia|lia|done].
  - destruct (push_step p a) eqn:Hi. injection E as <-. by constructor.
  - destruct (pop_step c a) as [[c' a'] r] eqn:Hi. injection E as <-. by constructor.
Qed.
Lemma exec_runs pre es s s' : runs pre s -> exec es s = Some s' -> runs (pre ++ es) s'.
Proof.
  revert pre s. induction es as [|e es IH]; intros pre s Hpre E; cbn [exec] in E.
  - injection E as <-. by rewrite app_nil_r.
  - destruct (exec1 e s) as [s1|] eqn:E1; [|discriminate]. rewrite cons_middle, app_assoc.
    apply (IH _ s1); [|done]. eapply runs_step; [done|by apply exec1_step].
Qed.

(** C19: the interrupt handler and the reader may interleave at every atomic
    access.  In every execution the scan codes the handler accepted are, in
    order, those the reader has returned followed by those still in the ring,
    so that none is lost, duplicated, reordered or torn; the ring holds as many
    as the reported pending length and never more than 255; the bytes the
    interrupts presented are those accepted, refused and in flight, in the order
    of arrival; the counters count them; and a handler that has just begun goes
    on to refuse its byte exactly when all 255 places are taken when it looks. *)
Theorem irq_ring_fifo es s :
  runs es s ->
  accepted s = delivered s ++ in_ring (atomics s) /\
  length (in_ring (atomics s)) = raw_irq_pending_len (atomics s) /\ (raw_irq_pending_len (atomics s) <= 255)%nat /\
  shown es ≡ₚ accepted s ++ refused s ++ in_flight (producer s) /\
  sublist (accepted s ++ in_flight (producer s)) (shown es) /\
  irq_scancodes (atomics s) = wrap 32 (Z.of_nat (length (shown es))) /\
  raw_dropped (atomics s) = wrap 32 (Z.of_nat (length (refused s))) /\
  (forall d st h, producer s = PHead d st h ->
   exists n t, push_step (PHead d st h) (atomics s) = (PTail d st h n t, atomics s) /\ (n = t <-> raw_irq_pending_len (atomics s) = 255%nat)).
Proof.
  intros H. destruct (runs_ok es s H) as [((Hl & Hh & Ht) & [Hp Hq] & Hc) (H1 & H2 & H3 & H4 & H5)].
  pose proof (pending_lt 256 ltac:(lia) _ _ Ht Hh) as Hlt. rewrite <- in_ring_length, <- raw_pending in Hlt.
  split_and!; [done|by rewrite raw_pending|lia|done..|].
  intros d st h Hpr. rewrite Hpr in Hq. cbn in Hq. subst h. do 2 eexists. split; [by cbn [push_step]|].
  rewrite raw_pending, in_ring_length. by apply (pending_full 256 ltac:(lia)).
Qed.

(** A second key arrives while the reader is in the middle of taking the first. *)
Definition busy_run : list event := [EIrq 1 30; EPush; EPush; EPush; EPop; EIrq 61 7; EIrq 21 158; EPop; EPush; EPop; EPush; EPop; EPush].
Lemma irq_ring_fifo_witness :
  exists s, runs busy_run s /\ accepted s = [(30, 1); (158, 21)] /\ delivered s = [(30, 1)] /\ in_ring (atomics s) = [(158, 21)] /\
  accepted s = delivered s ++ in_ring (atomics s).
Proof.
  destruct (exec busy_run initial) as [s|] eqn:E; [|vm_compute in E; discriminate]. exists s.
  assert (H : runs busy_run s) by (apply (exec_runs [] busy_run initial); [apply runs_initial|exact E]).
  split; [exact H|]. pose proof (irq_ring_fifo busy_run s H) as (Hf & _).
  split; [|split; [|split]]; [| | |exact Hf]; vm_compute in E; injection E as <-; vm_compute; reflexivity.
Defined.

(** ** The buffer of decoded bytes *)

Definition MODIFIER_SHIFT : Z := 1.
Definition MODIFIER_CTRL : Z := 2.
Definition MODIFIER_ALT : Z := 4.

(** The three arrays and two positions of [Keyboard]. *)
Record KeyBuffer : Type := mkBuffer {
  kb_buffer : list Z;
  kb_modifiers : list Z;
  kb_trace_ids : list Z;
  read_pos : nat;
  write_pos : nat;
}.
Record BufferedKeypress : Type := mkKeypress {
  kp_byte : Z;
  kp_trace_id : Z;
  kp_shift : bool;
  kp_ctrl : bool;
  kp_alt : bool;
}.
Definition new_buffer : KeyBuffer := mkBuffer (replicate 1024 0) (replicate 1024 0) (replicate 1024 0) 0 0.

Definition push_byte (byte trace_id modifiers : Z) (b : KeyBuffer) : KeyBuffer :=
  let next := ((write_pos b + 1) mod length (kb_buffer b))%nat in
  if bool_decide (next = read_pos b) then b
  else mkBuffer (<[write_pos b := byte]> (kb_buffer b)) (<[write_pos b := modifiers]> (kb_modifiers b))
         (<[write_pos b := trace_id]> (kb_trace_ids b)) (read_pos b) next.
Definition keypress_of (byte trace_id modifiers : Z) : BufferedKeypress :=
  mkKeypress byte trace_id (negb (Z.land modifiers MODIFIER_SHIFT =? 0)) (negb (Z.land modifiers MODIFIER_CTRL =? 0))
    (negb (Z.land modifiers MODIFIER_ALT =? 0)).
Definition read_keypress (b : KeyBuffer) : option BufferedKeypress * KeyBuffer :=
  if bool_decide (read_pos b = write_pos b) then (None, b)
  else
    (Some (keypress_of (slot (kb_buffer b) (read_pos b)) (slot (kb_trace_ids b) (read_pos b)) (slot (kb_modifiers b) (read_pos b))),
     mkBuffer (kb_buffer b) (kb_modifiers b) (kb_trace_ids b) ((read_pos b + 1) mod length (kb_buffer b))%nat (write_pos b)).
Definition buffered_len (b : KeyBuffer) : nat :=
  if (read_pos b <=? write_pos b)%nat then (write_pos b - read_pos b)%nat else (length (kb_buffer b) - read_pos b + write_pos b)%nat.

(** The operations, on the buffer and on a plain queue of keys that forgets
    a key when it already holds 1023. *)
Inductive key_op : Type :=
  | KPush (byte trace_id modifiers : Z)
  | KRead
  | KLen.
Inductive key_out : Type :=
  | KNone
  | KKey (k : option BufferedKeypress)
  | KCount (n : nat).
Definition buffer_step (o : key_op) (b : KeyBuffer) : key_out * KeyBuffer :=
  match o with
  | KPush byte trace_id modifiers => (KNone, push_byte byte trace_id modifiers b)
  | KRead => let '(k, b) := read_keypress b in (KKey k, b)
  | KLen => (KCount (buffered_len b), b)
  end.
Definition queue_step (o : key_op) (q : list BufferedKeypress) : key_out * list BufferedKeypress :=
  match o with
  | KPush byte trace_id modifiers => (KNone, if (length q <? 1023)%nat then q ++ [keypress_of byte trace_id modifiers] else q)
  | KRead => match q with [] => (KKey None, []) | k :: q => (KKey (Some k), q) end
  | KLen => (KCount (length q), q)
  end.
Fixpoint run_ops {S : Type} (f : key_op -> S -> key_out * S) (os : list key_op) (s : S) : list key_out * S :=
  match os with
  | [] => ([], s)
  | o :: os => let '(x, s) := f o s in let '(xs, s) := run_ops f os s in (x :: xs, s)
  end.

Definition buffer_ok (b : KeyBuffer) : Prop :=
  length (kb_buffer b) = 1024%nat /\ length (kb_modifiers b) = 1024%nat /\ length (kb_trace_ids b) = 1024%nat /\
  (read_pos b < 1024)%nat /\ (write_pos b < 1024)%nat.
(** The keys in the buffer, oldest first. *)
Definition zip_keys (bytes ids flags : list Z) : list BufferedKeypress := zip_with (fun x f => keypress_of x.1 x.2 f) (zip bytes ids) flags.
Definition keys_in (b : KeyBuffer) : list BufferedKeypress :=
  let n := pending 1024 (read_pos b) (write_pos b) in
  zip_keys (contents 1024 (kb_buffer b) (read_pos b) n) (contents 1024 (kb_trace_ids b) (read_pos b) n) (contents 1024 (kb_modifiers b) (read_pos b) n).

Lemma zip_keys_snoc bytes ids flags x i f :
  length bytes = length ids -> length ids = length flags ->
  zip_keys (bytes ++ [x]) (ids ++ [i]) (flags ++ [f]) = zip_keys bytes ids flags ++ [keypress_of x i f].
Proof. intros H1 H2. unfold zip_keys. rewrite zip_with_app by done. rewrite zip_with_app; [done|]. rewrite length_zip_with. lia. Qed.
Lemma keys_in_length b : length (keys_in b) = pending 1024 (read_pos b) (write_pos b).
Proof. unfold keys_in, zip_keys. rewrite !length_zip_with, !contents_length. lia. Qed.
Lemma buffered_len_spec b : buffer_ok b -> buffered_len b = length (keys_in b).
Proof. intros (Hl & _). rewrite keys_in_length. unfold buffered_len. by rewrite Hl. Qed.

Lemma push_byte_spec x i f b :
  buffer_ok b -> buffer_ok (push_byte x i f b) /\
  keys_in (push_byte x i f b) = if (length (keys_in b) <? 1023)%nat then keys_in b ++ [keypress_of x i f] else keys_in b.
Proof.
  intros Hb. destruct Hb as (H1 & H2 & H3 & Hr & Hw) eqn:E. clear E. unfold push_byte. rewrite H1.
  pose proof (pending_full 1024 ltac:(lia) _ _ Hr Hw) as Hfull. pose proof (pending_lt 1024 ltac:(lia) _ _ Hr Hw) as Hlt.
  rewrite keys_in_length. change ((write_pos b + 1) mod 1024)%nat with (next 1024 (write_pos b)).
  case_bool_decide as Hn.
  - split; [done|]. destruct (Nat.ltb_spec (pending 1024 (read_pos b) (write_pos b)) 1023); [lia|done].
  - split.
    + unfold buffer_ok. cbn [kb_buffer kb_modifiers kb_trace_ids read_pos write_pos]. rewrite !length_insert. split_and!; [done..|]. apply next_lt. lia.
    + destruct (Nat.ltb_spec (pending 1024 (read_pos b) (write_pos b)) 1023); [|lia].
      unfold keys_in. cbn [kb_buffer kb_modifiers kb_trace_ids read_pos write_pos]. rewrite (contents_push (A := Z) 1024 ltac:(lia) (kb_buffer b)), (contents_push (A := Z) 1024 ltac:(lia) (kb_trace_ids b)), (contents_push (A := Z) 1024 ltac:(lia) (kb_modifiers b)) by (lia || done).
      apply zip_keys_snoc; by rewrite !contents_length.
Qed.
Lemma read_keypress_spec b :
  buffer_ok b ->
  match keys_in b with
  | [] => read_keypress b = (None, b)
  | k :: q => exists b', read_keypress b = (Some k, b') /\ buffer_ok b' /\ keys_in b' = q
  end.
Proof.
  intros (H1 & H2 & H3 & Hr & Hw). unfold read_keypress. rewrite H1. case_bool_decide as Hn.
  - apply (pending_zero 1024) in Hn; [|lia|done..]. rewrite <- keys_in_length in Hn. apply nil_length_inv in Hn. by rewrite Hn.
  - unfold keys_in. rewrite (contents_pop (A := Z) 1024 ltac:(lia) (kb_buffer b)), (contents_pop (A := Z) 1024 ltac:(lia) (kb_trace_ids b)), (contents_pop (A := Z) 1024 ltac:(lia) (kb_modifiers b)) by (lia || done).
    unfold zip_keys at 1. cbn [zip_with]. eexists. split_and!; [done| |done].
    unfold buffer_ok. cbn [kb_buffer kb_modifiers kb_trace_ids read_pos write_pos]. split_and!; [done..|apply (next_lt 1024); lia|done].
Qed.
Lemma buffer_simulates o b x b' :
  buffer_ok b -> buffer_step o b = (x, b') -> buffer_ok b' /\ queue_step o (keys_in b) = (x, keys_in b').
Proof.
  intros Hb E. destruct o as [y i f| |]; cbn [buffer_step queue_step] in *.
  - apply pair_equal_spec in E as [<- <-]. destruct (push_byte_spec y i f b Hb) as [Hok ->]. done.
  - pose proof (read_keypress_spec b Hb) as Hrd. destruct (keys_in b) as [|k q] eqn:Ek.
    + rewrite Hrd in E. apply pair_equal_spec in E as [<- <-]. by rewrite Ek.
    + destruct Hrd as (b2 & Hrd & Hok & Hq). rewrite Hrd in E. apply pair_equal_spec in E as [<- <-]. by rewrite Hq.
  - apply pair_equal_spec in E as [<- <-]. by rewrite buffered_len_spec.
Qed.
Lemma buffer_runs os b : buffer_ok b -> (run_ops buffer_step os b).1 = (run_ops queue_step os (keys_in b)).1.
Proof.
  revert b. induction os as [|o os IH]; intros b Hb; [done|]. cbn [run_ops].
  destruct (buffer_step o b) as [x b'] eqn:E. destruct (buffer_simulates o b x b' Hb E) as [Hb' ->].
  specialize (IH b' Hb'). destruct (run_ops buffer_step os b') as [xs b2]. destruct (run_ops queue_step os (keys_in b')) as [xs' q2].
  cbn [fst] in *. by rewrite IH.
Qed.

(** C30: the three arrays with a read and a write position behave, for every
    sequence of pushes, reads and length queries, exactly as a queue of keys
    that forgets what is pushed while it holds 1023: bytes, trace numbers and
    modifier flags stay together and come out in order. *)
Theorem key_buffer_refines_queue os : (run_ops buffer_step os new_buffer).1 = (run_ops queue_step os []).1.
Proof.
  assert (Hok : buffer_ok new_buffer) by (unfold buffer_ok, new_buffer; cbn [kb_buffer kb_modifiers kb_trace_ids read_pos write_pos]; rewrite !length_replicate; lia).
  rewrite buffer_runs by done. assert (keys_in new_buffer = []) as -> by (apply nil_length_inv, keys_in_length). done.
Qed.
